(* ===== verification/_CoqProject ===== *)
-Q . S2P
Prelude.v
Hashing.v
Errors.v
Words.v
Types.v
Merkle.v
Block.v
Gas.v
VM.v
VMFacts.v
VMProps.v
Precompiles.v
BridgeManager.v
BridgeProps.v
Validators.v
ValidatorProps.v
Votes.v
VoteProps.v
Safety.v
Engine.v
EngineProps.v
EngineLoop.v
Burn.v
Floats.v
State.v
StateProps.v
Mempool.v
MempoolProps.v
FeeMarket.v
FeeMarketProps.v
Wal.v
WalProps.v
HashHelpers.v
Vault.v
VaultProps.v
Snapshot.v
SnapshotProps.v
Contracts.v
Executor.v
ExecutorProps.v
Cache.v
CacheProps.v
Rounds.v
Dormancy.v
Fees.v
Messages.v
Sentinel.v
SentinelProps.v
Peers.v
P2P.v
NetworkProps.v
Api.v
RocksDB.v
RocksDBProps.v
BinaryHeap.v
TxOrdering.v
Json.v
ApiService.v
Rpc.v
RpcProps.v
Rest.v
RestProps.v
WebSocket.v
Wasm.v
Derivation.v
Keys.v
KeysProps.v
Time.v
Text.v
Titan.v
BurnReports.v
Utils.v
Logger.v
Middleware.v
Config.v
Node.v
NodeProps.v
Metrics.v
FullNode.v
FullNodeProps.v
