(* ===== verification/Prelude.v ===== *)
(** * Pacyte Nexus: a verification development of the node

    Pacyte Nexus is a blockchain node in Rust: accounts and transactions (src/types), Merkle
    trees and hashes (src/crypto), an EVM-like virtual machine with gas and precompiled
    contracts (src/execution), a transaction pool (src/mempool), accounts behind a storage
    (src/storage) with a write-ahead log and caches, a HotStuff consensus with 21 staked
    validators (src/consensus), a peer-to-peer network (src/network), and a vault that moves
    balances, burns supply and bridges between shards (src/vault).
    The engine commits a proposal when a quorum of validators precommits it; committed blocks
    are Merkle-bound lists of transactions; transactions move balances and run byte code.

    ** Files

    - [Prelude]: machine integers ([fits], [cast], [arith] with the [BuildProfile] that decides
      between panic and wrap-around on overflow), the result type [Outcome] (returned, failed,
      panicked, blocked), the state monad [ST] for methods on [&mut self] or on locked fields,
      guards of the non-reentrant [RwLock] ([acquire_read], [acquire_write]), byte codecs, sums
      over maps and lists, iteration order of hash maps ([HashMapIter]), stable sorting.
    - [Hashing]: the digests of the sha3, sha2 and ripemd crates as classes that promise only
      the length; [clash]; toy instances for concrete runs.
    - [Errors]: [PacyteError] (types/error.rs).
    - [Words]: the 256-bit arithmetic on 32-byte words at the end of execution/vm.rs.
    - [Types]: [Account] and [Transaction] (types/account.rs, types/transaction.rs).
    - [Merkle]: [MerkleTree], [MerkleProof], the root of [SparseMerkleTree] (crypto/merkle.rs).
    - [Block]: headers, bodies, blocks (types/block.rs), with the root loop of the body.
    - [Gas]: constants, calculator, meter, schedule (execution/gas.rs).
    - [VM], [VMFacts], [VMProps]: memory, stack, opcodes, [step] and [run] (execution/vm.rs),
      then the lemmas by opcode and the properties.
    - [Precompiles]: the built-in contracts and their manager (execution/precompiles.rs).
    - [BridgeManager], [BridgeProps]: the shard bridge and its reaper (vault/bridge.rs).
    - [Validators], [ValidatorProps]: validator records, sets and the manager
      (consensus/validator.rs, consensus/mod.rs).
    - [Votes], [VoteProps]: votes, the vote manager, the aggregator (consensus/vote.rs).
    - [Safety]: proposals and the safety rules (consensus/safety.rs).
    - [Engine], [EngineProps]: the handlers of the HotStuff engine (consensus/engine.rs).
    - [Burn]: the burn manager and the supply phases (vault/burn.rs, vault/mod.rs).
    - [State], [StateProps]: the storage interface with its laws, the memory storage and write
      batches (storage/mod.rs), the state manager (storage/state.rs), and the ledger it refines.
    - [Floats]: [f64] as IEEE binary64, by the executable specification of the Standard Library.
    - [Mempool], [MempoolProps]: the transaction pool and its validator (mempool/pool.rs,
      mempool/validator.rs, mempool/mod.rs).
    - [FeeMarket], [FeeMarketProps]: fee estimates and pruning (mempool/fee.rs, mempool/pruning.rs).
    - [Wal], [WalProps]: the write-ahead log (storage/wal.rs) over an abstract disk.
    - [HashHelpers]: text form, comparison and difficulty of hashes, hybrid signatures
      (crypto/hash.rs, crypto/mod.rs).
    - [Snapshot], [SnapshotProps]: snapshots and migrations (storage/snapshot.rs, migration.rs).
    - [Api]: rate limiter, keys and counters of the API (api/middleware.rs).
    - [Vault], [VaultProps]: the vault manager (vault/manager.rs, rates of vault/mod.rs) over the
      state manager, and the ledger specification of a transfer.
    - [Contracts]: contract metadata and built-ins (execution/contract.rs).
    - [Executor], [ExecutorProps]: the transaction executor (execution/executor.rs) over the
      vault, the contract codes and the virtual machine.
    - [Cache], [CacheProps]: the LRU caches (storage/cache.rs).
    - [Rounds]: rounds, pacemaker and timeouts (consensus/round.rs, pacemaker.rs).
    - [Dormancy]: dormant accounts (vault/dormancy.rs).
    - [Fees]: the fee manager and the sovereign hook (vault/fee.rs, vault/sovereign.rs).
    - [Messages]: network messages and the signed handshake (network/message.rs, handshake.rs).
    - [Sentinel], [SentinelProps]: the watcher of double signing (consensus/sentinel.rs).
    - [Peers], [P2P], [NetworkProps]: the peer table and gossip (network/peer.rs, gossip.rs) and
      the node with its connection tasks (network/p2p.rs), as interleaved steps.
    - [EngineLoop]: the prologue and the loop of the engine's [run], its start and stop
      (consensus/engine.rs).
    - [RocksDB], [RocksDBProps]: the storage over an abstract key-value database with column
      families (storage/rocksdb.rs), the maps it refines, its instance of the storage interface.
    - [BinaryHeap], [TxOrdering]: the heap of the standard library, priorities, orderings, chains
      and the queue (mempool/ordering.rs).
    - [Json], [ApiService], [Rpc], [RpcProps], [Rest], [RestProps], [WebSocket]: values and number
      texts, the service layer (api/mod.rs), JSON-RPC, REST and WebSocket handlers (api/).
    - [Middleware]: the layers around a request (api/middleware.rs).
    - [Wasm]: modules, instances and calls of execution/wasm_runtime.rs, with its one gas meter.
    - [Derivation], [Keys], [KeysProps]: the remaining digests and key derivations
      (crypto/hash.rs), the signers of both schemes, batches and M-of-N signatures
      (crypto/ed25519.rs, dilithium5.rs), and the instances of the signer interface.
    - [Titan], [BurnReports]: hardware checks and merit of nodes (consensus/validator.rs), the
      percentages and estimates of vault/burn.rs.
    - [Time], [Text], [Utils], [Logger], [Metrics]: src/utils, with the text helpers they share.
    - [Config], [Node], [NodeProps]: the configuration (types/config.rs) and how main.rs builds the
      node from it.
    - [FullNode], [FullNodeProps]: the engine and the API over one pool, state manager, storage and
      network, as main.rs wires them; the events of a running node, its status and its shut-down; the
      blocks of a storage as an interface ([ChainStorage], [ChainLaws]) that RocksDB implements.

    ** How the code is modelled

    A struct is a record with the source's fields, an enum an inductive type, a [u64], [u128]
    or [usize] a [Z] whose operations go through [arith] at the type's width.  A method that
    mutates is a computation in [ST]: the state survives an early [Err], a panic and a blocked
    call as it was at that point.  Arithmetic follows the build profile, a parameter: most
    theorems hold for both, those about wrap-around name one.  A lock is a plain field unless a
    method calls another one that takes the same lock; then the callee gets the caller's
    guard, and asking again for a lock held by the own thread is [Deadlock].  The clock
    ([current_timestamp], [Instant::now]) is an argument [now].  [HashMap] iteration is either
    order-independent or goes through [HashMapIter], any permutation of the entries.
    What other crates compute (digests, signatures, bincode) is a class parameter; the services
    the engine calls through traits are the class [NodeEnv].  Channels are a shared store of
    queues that connections name, so that who holds which end is visible.  A spawned task is
    cut at its awaits, and theorems about it quantify over every list of such steps.  The methods of
    the peer manager, which worker threads call at the same time, are also cut at their locks
    ([Point], [point_step]); elsewhere calls on one object do not overlap.  One call reads the clock
    once.

    ** What is shown

    - Virtual machine: every program ends within [gas_limit + 2] steps and keeps the machine
      well formed; ADD, SUB, LT, GT, EQ are the operations modulo 2^256; jumps land on
      JUMPDEST; memory reads return what was written.  [run] takes fuel; the termination
      theorem gives an amount that suffices for every byte code, as each implemented step
      that does not stop the machine charges at least one gas.
    - Gas: the meter never exceeds its limit below the wrap-around, intrinsic and memory
      expansion gas equal their closed forms.
    - Merkle trees and blocks: proofs are complete, and sound up to a clash they show; the root loop
      of blocks is the Merkle root; a built block validates; headers bind their parents.
    - Bridge: reachability as a transition system, with the location of every bridge in the
      queues and the exact total as invariant; the status machine under every public call; complete
      transfers, sweeps.
    - Validators: the election takes the largest stakes for every hash-map order, registration
      keeps the two indexes in agreement, two quorums share more than a third of the power.
    - Votes, safety, engine: what a signature binds; who may propose and when; every command
      commits at most the held proposal and only with a quorum of distinct precommits in the
      engine's own table, and the height counts the commits.
    - Burning: supply plus burned is constant, and the history explains it.
    - State: over any storage that keeps its laws, applying a block implements transfers on one
      map of accounts; what it does to the sum of balances: fees leave it, transfers to oneself
      add to it.
    - Mempool: the indexes describe exactly the pooled transactions after any operations; what
      is admitted, replaced, selected for a block, cleaned up.
    - Fee market: percentiles exist and are in order; pruning enforces age, capacity and limits
      per address.
    - Write-ahead log: what was appended and flushed to one file is what recovery returns; torn
      records; file names.
    - Vault: every outcome of a transfer is that of its specification on the ledger; supply and
      burned add up through all operations; the shares of the fees.
    - Executor and contracts: what a transfer through the executor does to the accounts; what a
      block reports; refusals change nothing; deployments are read back.
    - Caches: capacity, eviction of the least recently used, reading back.
    - Rounds, dormancy, fees: timeouts and backoff, counters equal to what they count.
    - Sentinel: evidence of double votes is genuine, and complete while the cache holds them all.
    - Network: what threads that interleave lock by lock keep of the peer table, its index and its
      limit, and that they can pass the limit; table and index agree while calls do not overlap;
      which messages
      reach a socket; what a refused handshake leaves; gossip passes a hash on once.
    - Snapshots, helpers, API: restored blocks are the saved ones; hexadecimal round trip, bit
      counts; the rate limiter is the sliding window it means to be.
    - RocksDB: every sequence of calls answers as four maps, a height and two counters would,
      whatever the caches hold; a storage opened again on the database continues them; it meets
      the laws the state manager asks of a storage.
    - Ordering: the queue is a bag that gives an entry of greatest priority; chains hold the
      transactions of their sender by nonce.
    - API: every request to the node over RocksDB is answered with its id and a result or a
      documented code, but for panics of checked builds in two methods; only sending
      writes; pages partition the chain; handles are read back; what a WebSocket client is
      sent; the request counters are the traffic.
    - Keys: signatures of generated keys verify; the M-of-N check is backed by distinct key
      positions, and exact where each signature fits one of them.
    - Start-up: which configuration each service gets; what the node sees and stores of the
      genesis; what it does after a restart; that the engine, started over any stored height, commits
      nothing.
    - The node put together: through every sequence of commands, submissions, pruner ticks and
      network events no money is minted and the parts stay well formed; a commit moves
      ledger, storage, chain, pool, engine and the answers of the API together; what a failed commit
      leaves behind; which transactions the API finds.  Proved against the interfaces of the
      storage, run on a node of one validator over RocksDB.
    - WASM, time, utilities, metrics, logging: what a call returns and charges; calendar and text
      round trips; retries end and sleep as they should; recorded values are the sums.
    - Where the code does not do what it means to, a theorem states what it does: the locks
      that block their own thread, the unchecked hash of a quorum, unimplemented opcodes,
      swapped limbs, the dead clock allowance, the debit the executor undoes, messages sent on
      channels nobody reads, the engine that is started without validators, the height that a
      restart forgets, the pages that skip blocks, subscriptions that select nothing, transfers of
      a failed block that a later one stores, committed transactions that nobody finds, the tests of
      the peer table that two threads pass together.

    ** Bounds and fuel

    Loops over data recurse on the data.  Fuel appears in the virtual machine ([gas_limit + 2]
    steps, proved enough); in the climbing of Merkle levels and the root loop (the number of
    leaves, while each round halves it); in the recovery of a log file and the restoring of a
    snapshot (the length of the file, of which each record takes at least four bytes; running out
    is a value of its own, and the round trips show that it does not happen); in the sifting of
    the heap (the length, while a position halves or at least doubles); in powers, digits and
    text trimming (the number of bits, digits or characters).

    ** Not modelled

    What other crates do is a parameter with laws: digests and signatures, bincode and JSON
    texts, RocksDB, the file system, sockets, the web framework, Prometheus, tracing, CPUID.
    Left out of the sources under src/: task spawning and the wiring of channels where a step
    relation stands for it; listeners, CORS, compression and timeout layers; the signal handler
    and the printing in main.rs; some [Display] texts (sentinel reports, cache and storage
    statistics); interleavings of the composed node inside one handler (its events are whole
    calls); memory ordering below the locks; the second copies of network types in
    types/mod.rs, which nothing uses; the tests and benchmarks. *)

From Stdlib Require Export ZArith Lia Sorted.
From stdpp Require Export prelude gmap numbers list.
#[export] Set Default Goal Selector "1".
Global Open Scope Z_scope.

(** ** Machine integers *)

Definition U64_MAX : Z := 18446744073709551615.
Definition U128_MAX : Z := 340282366920938463463374607431768211455.
Definition ISIZE_MAX : Z := 9223372036854775807.

(** [fits w z]: [z] is a value of the unsigned [w]-bit type. *)
Definition fits (w z : Z) : Prop := 0 <= z < 2 ^ w.
#[export] Instance fits_dec w z : Decision (fits w z).
Proof. unfold fits. apply _. Defined.

Definition byte_ok (b : Z) : Prop := 0 <= b < 256.
#[export] Instance byte_ok_dec b : Decision (byte_ok b).
Proof. unfold byte_ok. apply _. Defined.

(** [x as uN] between unsigned types. *)
Definition cast (w z : Z) : Z := z mod 2 ^ w.
Definition saturating_sub (a b : Z) : Z := Z.max 0 (a - b).
Definition saturating_add (w a b : Z) : Z := Z.min (2 ^ w - 1) (a + b).

(** ** Outcomes of Rust code *)

(** A call returns [Ok], returns [Err], unwinds with a panic, or blocks forever on
    a lock its own thread already holds. *)
Inductive Outcome (E A : Type) : Type :=
| Ok (a : A)
| Err (e : E)
| Panic
| Deadlock.
Arguments Ok {E A} a.
Arguments Err {E A} e.
Arguments Panic {E A}.
Arguments Deadlock {E A}.

#[export] Instance Outcome_eq_dec E A `{EqDecision E, EqDecision A} :
  EqDecision (Outcome E A).
Proof. solve_decision. Defined.

Definition obind {E A B} (m : Outcome E A) (k : A -> Outcome E B) : Outcome E B :=
  match m with
  | Ok a => k a
  | Err e => Err e
  | Panic => Panic
  | Deadlock => Deadlock
  end.

Definition is_ok {E A} (m : Outcome E A) : bool :=
  match m with Ok _ => true | _ => false end.

Definition ok_or {E A} (o : option A) (e : E) : Outcome E A :=
  match o with Some a => Ok a | None => Err e end.

(** [v[i]]: indexing panics out of bounds. *)
Definition index {E A} (v : list A) (i : nat) : Outcome E A :=
  match v !! i with Some a => Ok a | None => Panic end.

(** Code that mutates [&mut self]: the state survives an early [Err] return. *)
Definition ST (S E A : Type) : Type := S -> Outcome E A * S.

Definition sret {S E A} (a : A) : ST S E A := fun s => (Ok a, s).
Definition sfail {S E A} (e : E) : ST S E A := fun s => (Err e, s).
Definition slift {S E A} (m : Outcome E A) : ST S E A := fun s => (m, s).
Definition sget {S E A} (f : S -> A) : ST S E A := fun s => (Ok (f s), s).
Definition smod {S E} (f : S -> S) : ST S E unit := fun s => (Ok tt, f s).
Definition sbind {S E A B} (m : ST S E A) (k : A -> ST S E B) : ST S E B :=
  fun s => match m s with
           | (Ok a, s') => k a s'
           | (Err e, s') => (Err e, s')
           | (Panic, s') => (Panic, s')
           | (Deadlock, s') => (Deadlock, s')
           end.

Declare Scope rust_scope.
Delimit Scope rust_scope with rust.
Notation "'let?' x := c 'in' k" := (obind c (fun x => k))
  (at level 10, x pattern, c at level 100, k at level 200,
   format "'[v' 'let?'  x  :=  c  'in' '/' k ']'") : rust_scope.
Notation "'do!' x := c 'in' k" := (sbind c (fun x => k))
  (at level 10, x pattern, c at level 100, k at level 200,
   format "'[v' 'do!'  x  :=  c  'in' '/' k ']'") : rust_scope.
Notation "'run!' c 'in' k" := (sbind c (fun _ => k))
  (at level 10, c at level 100, k at level 200,
   format "'[v' 'run!'  c  'in' '/' k ']'") : rust_scope.
Global Open Scope rust_scope.

(** ** Build profiles *)

(** [cargo build] panics on integer overflow, [cargo build --release] (the README's
    build, whose profile does not set [overflow-checks]) wraps. *)
Class BuildProfile : Type := overflow_checks : bool.
Definition debug_profile : BuildProfile := true.
Definition release_profile : BuildProfile := false.

Section Arithmetic.
Context `{BP : BuildProfile} {E : Type}.

(** The result of [+], [-] or [*] on an unsigned [w]-bit type whose exact
    value is [z]. *)
Definition arith (w z : Z) : Outcome E Z :=
  if decide (fits w z) then Ok z
  else if overflow_checks then Panic else Ok (z mod 2 ^ w).

Definition add_u64 (a b : Z) : Outcome E Z := arith 64 (a + b).
Definition sub_u64 (a b : Z) : Outcome E Z := arith 64 (a - b).
Definition mul_u64 (a b : Z) : Outcome E Z := arith 64 (a * b).
Definition add_u128 (a b : Z) : Outcome E Z := arith 128 (a + b).
Definition sub_u128 (a b : Z) : Outcome E Z := arith 128 (a - b).
Definition mul_u128 (a b : Z) : Outcome E Z := arith 128 (a * b).

Lemma arith_fits w z : fits w z -> arith w z = Ok z.
Proof. intros H. unfold arith. by rewrite decide_True. Qed.

Lemma arith_ok_range w z r : 0 <= w -> arith w z = Ok r -> fits w r.
Proof.
  intros Hw. unfold arith. case_decide as Hf; [naive_solver|].
  destruct overflow_checks; intros [= <-].
  apply Z.mod_pos_bound. by apply Z.pow_pos_nonneg.
Qed.

Lemma arith_not_err w z e : arith w z <> Err e.
Proof. unfold arith. case_decide; [done|]. by destruct overflow_checks. Qed.

Lemma arith_not_deadlock w z : arith w z <> Deadlock.
Proof. unfold arith. case_decide; [done|]. by destruct overflow_checks. Qed.
End Arithmetic.

(** ** RwLock guards

    The lock state a thread sees of one [parking_lot::RwLock]: the guard it holds
    itself.  The lock is not reentrant, so asking for a write guard under any
    guard, or for a read guard under a write guard, never returns. *)
Inductive Guard : Type := NoGuard | ReadGuard | WriteGuard.
#[export] Instance Guard_eq_dec : EqDecision Guard.
Proof. solve_decision. Defined.

Definition acquire_read {E} (g : Guard) : Outcome E Guard :=
  match g with WriteGuard => Deadlock | _ => Ok ReadGuard end.
Definition acquire_write {E} (g : Guard) : Outcome E Guard :=
  match g with NoGuard => Ok WriteGuard | _ => Deadlock end.

(** ** Byte strings *)

(** [uN::from_be_bytes] and [uN::to_be_bytes]. *)
Definition from_be_bytes (l : list Z) : Z := foldl (fun acc b => acc * 256 + b) 0 l.

Fixpoint to_be_bytes (n : nat) (z : Z) : list Z :=
  match n with
  | O => []
  | S n' => to_be_bytes n' (z / 256) ++ [z mod 256]
  end.

(** [uN::to_le_bytes]. *)
Fixpoint to_le_bytes (n : nat) (z : Z) : list Z :=
  match n with
  | O => []
  | S n' => (z mod 256) :: to_le_bytes n' (z / 256)
  end.

(** [&l[from..to]] for a range known to be in bounds. *)
Definition slice {A} (l : list A) (from to : nat) : list A := take (to - from) (drop from l).

Lemma from_be_bytes_app l1 l2 :
  from_be_bytes (l1 ++ l2)
  = from_be_bytes l1 * 256 ^ Z.of_nat (length l2) + from_be_bytes l2.
Proof.
  unfold from_be_bytes. rewrite foldl_app.
  generalize (foldl (fun acc b => acc * 256 + b) 0 l1) as a.
  induction l2 as [|b l2 IH] using rev_ind; intros a; cbn [length foldl]; [lia|].
  rewrite !foldl_app, length_app; cbn [foldl length]. rewrite IH.
  rewrite Nat2Z.inj_add, Z.pow_add_r by lia. lia.
Qed.

Lemma from_be_bytes_bound l :
  Forall byte_ok l -> 0 <= from_be_bytes l < 256 ^ Z.of_nat (length l).
Proof.
  induction l as [|b l IH] using rev_ind; [cbn; lia|].
  rewrite Forall_app, Forall_singleton. intros [Hl Hb]. specialize (IH Hl).
  rewrite from_be_bytes_app, length_app. cbn [length].
  rewrite Nat2Z.inj_add, Z.pow_add_r by lia. unfold byte_ok in Hb.
  change (from_be_bytes [b]) with (0 * 256 + b). lia.
Qed.

Lemma length_to_be_bytes n z : length (to_be_bytes n z) = n.
Proof.
  revert z; induction n as [|n IH]; intros z; cbn; [done|].
  rewrite length_app, IH. cbn. lia.
Qed.

Lemma length_to_le_bytes n z : length (to_le_bytes n z) = n.
Proof. revert z; induction n as [|n IH]; intros z; cbn; [done|]. by rewrite IH. Qed.

Lemma to_be_bytes_ok n z : Forall byte_ok (to_be_bytes n z).
Proof.
  revert z; induction n as [|n IH]; intros z; cbn; [done|].
  rewrite Forall_app, Forall_singleton. split; [apply IH|].
  apply Z.mod_pos_bound. lia.
Qed.

Lemma to_le_bytes_ok n z : Forall byte_ok (to_le_bytes n z).
Proof.
  revert z; induction n as [|n IH]; intros z; cbn; constructor; [|apply IH].
  apply Z.mod_pos_bound. lia.
Qed.

Lemma from_to_be_bytes n z :
  from_be_bytes (to_be_bytes n z) = z mod 256 ^ Z.of_nat n.
Proof.
  revert z; induction n as [|n IH]; intros z; cbn [to_be_bytes].
  { change (256 ^ Z.of_nat 0) with 1. by rewrite Z.mod_1_r. }
  rewrite from_be_bytes_app, IH. cbn [length].
  change (from_be_bytes [z mod 256]) with (0 * 256 + z mod 256).
  change (256 ^ Z.of_nat 1) with 256.
  rewrite Nat2Z.inj_succ, Z.pow_succ_r by lia.
  rewrite Z.rem_mul_r by (try apply Z.pow_nonzero; lia). lia.
Qed.

Lemma to_le_bytes_inj n a b :
  0 <= a < 256 ^ Z.of_nat n -> 0 <= b < 256 ^ Z.of_nat n ->
  to_le_bytes n a = to_le_bytes n b -> a = b.
Proof.
  revert a b; induction n as [|n IH]; intros a b Ha Hb.
  { cbn in *. lia. }
  rewrite Nat2Z.inj_succ, Z.pow_succ_r in Ha, Hb by lia. cbn [to_le_bytes].
  intros Heq. injection Heq as Hm Hd. apply IH in Hd.
  - rewrite (Z.div_mod a 256), (Z.div_mod b 256) by lia. congruence.
  - split; [apply Z.div_pos; lia|apply Z.div_lt_upper_bound; lia].
  - split; [apply Z.div_pos; lia|apply Z.div_lt_upper_bound; lia].
Qed.

Lemma from_be_bytes_inj l1 l2 :
  length l1 = length l2 -> Forall byte_ok l1 -> Forall byte_ok l2 ->
  from_be_bytes l1 = from_be_bytes l2 -> l1 = l2.
Proof.
  revert l2; induction l1 as [|b1 l1 IH] using rev_ind; intros l2 Hlen H1 H2 Heq.
  { by destruct l2. }
  destruct l2 as [|b2 l2 _] using rev_ind.
  { rewrite length_app in Hlen. cbn in Hlen. lia. }
  rewrite !length_app in Hlen. cbn in Hlen.
  rewrite Forall_app, Forall_singleton in H1, H2. destruct H1 as [H1 Hb1], H2 as [H2 Hb2].
  rewrite !from_be_bytes_app in Heq. cbn [length] in Heq.
  change (256 ^ Z.of_nat 1) with 256 in Heq.
  change (from_be_bytes [b1]) with (0 * 256 + b1) in Heq.
  change (from_be_bytes [b2]) with (0 * 256 + b2) in Heq.
  unfold byte_ok in Hb1, Hb2.
  rewrite (IH l2) by (auto; lia). by replace b1 with b2 by lia.
Qed.

(** Induction two elements at a time, as [chunks(2)] walks a slice. *)
Lemma list_pair_ind {A} (P : list A -> Prop) :
  P [] -> (forall a, P [a]) -> (forall a b l, P l -> P (a :: b :: l)) -> forall l, P l.
Proof.
  intros H0 H1 H2 l. cut (P l /\ forall a, P (a :: l)); [tauto|].
  induction l as [|x l [IH1 IH2]]; split; auto.
Qed.

(** Joining two limbs with [|] and [<<] is addition. *)
Lemma lor_shiftl_add n a b :
  0 <= n -> 0 <= a < 2 ^ n -> Z.lor a (Z.shiftl b n) = a + 2 ^ n * b.
Proof.
  intros Hn Ha.
  assert (Hland : Z.land a (Z.shiftl b n) = 0).
  { apply Z.bits_inj'. intros i Hi. rewrite Z.land_spec, Z.bits_0.
    destruct (Z.lt_ge_cases i n).
    - by rewrite Z.shiftl_spec_low, andb_false_r.
    - rewrite <- (Z.mod_small a (2 ^ n)) by done.
      by rewrite Z.mod_pow2_bits_high by lia. }
  rewrite <- Z.lxor_lor by done. rewrite <- Z.add_nocarry_lxor by done.
  rewrite Z.shiftl_mul_pow2 by done. lia.
Qed.

(** ** Sums over maps *)

Section MapSum.
Context {K V : Type} `{Countable K}.

Definition map_sum (f : V -> Z) (m : gmap K V) : Z := map_fold (fun _ v acc => f v + acc) 0 m.

Lemma map_sum_empty f : map_sum f (∅ : gmap K V) = 0.
Proof. apply map_fold_empty. Qed.

Lemma map_sum_insert_new f (m : gmap K V) k v :
  m !! k = None -> map_sum f (<[k := v]> m) = f v + map_sum f m.
Proof. intros Hk. unfold map_sum. rewrite map_fold_insert_L; [done| |done]. intros. lia. Qed.

Lemma map_sum_delete f (m : gmap K V) k v :
  m !! k = Some v -> map_sum f m = f v + map_sum f (delete k m).
Proof.
  intros Hk. rewrite <- (insert_delete_id m k v Hk) at 1.
  by rewrite map_sum_insert_new by apply lookup_delete_eq.
Qed.

Lemma map_sum_update f (m : gmap K V) k old v :
  m !! k = Some old -> map_sum f (<[k := v]> m) = map_sum f m - f old + f v.
Proof.
  intros Hk. rewrite (map_sum_delete f m k old Hk).
  rewrite <- insert_delete_eq, map_sum_insert_new by apply lookup_delete_eq. lia.
Qed.

Lemma map_sum_nonneg f (m : gmap K V) :
  (forall k v, m !! k = Some v -> 0 <= f v) -> 0 <= map_sum f m.
Proof.
  intros Hf. unfold map_sum. apply (map_fold_weak_ind (fun r m' => (forall k v, m' !! k = Some v -> 0 <= f v) -> 0 <= r)); [done| |done].
  intros k v m' r Hk IH Hm. pose proof (Hm k v (lookup_insert_eq _ _ _)).
  assert (0 <= r); [|lia]. apply IH. intros k' v' Hk'. apply (Hm k').
  rewrite lookup_insert_ne; [done|]. intros ->. congruence.
Qed.

Lemma map_sum_le f g (m : gmap K V) :
  (forall k v, m !! k = Some v -> f v <= g v) -> map_sum f m <= map_sum g m.
Proof.
  induction m as [|k v m Hk IH] using map_ind; intros Hle; [done|].
  rewrite !map_sum_insert_new by done.
  pose proof (Hle k v (lookup_insert_eq _ _ _)). apply Z.add_le_mono; [done|].
  apply IH. intros k' v' Hk'. apply (Hle k'). rewrite lookup_insert_ne; [done|].
  intros ->. congruence.
Qed.
End MapSum.

(** ** Iteration over hash maps

    [HashMap::iter] walks the map in an order the program must not rely on: some
    permutation of its entries. *)
Class HashMapIter (K V : Type) `{Countable K} : Type := {
  entries : gmap K V -> list (K * V);
  entries_perm : forall m, entries m ≡ₚ map_to_list m
}.

Section HashMapIter.
Context {K V : Type} `{Countable K}.
Definition key_order : HashMapIter K V := {| entries_perm m := Permutation_refl _ |}.

Context `{!HashMapIter K V}.
Definition values (m : gmap K V) : list V := (entries m).*2.

Lemma elem_of_entries (m : gmap K V) k v : (k, v) ∈ entries m <-> m !! k = Some v.
Proof. rewrite entries_perm. apply elem_of_map_to_list. Qed.

Lemma values_perm (m : gmap K V) : values m ≡ₚ (map_to_list m).*2.
Proof. unfold values. by rewrite entries_perm. Qed.

Lemma elem_of_values (m : gmap K V) v : v ∈ values m <-> exists k, m !! k = Some v.
Proof.
  rewrite values_perm, list_elem_of_fmap. split.
  - intros ([k w] & -> & Hk). apply elem_of_map_to_list in Hk. eauto.
  - intros (k & Hk). exists (k, v). split; [done|]. by apply elem_of_map_to_list.
Qed.

Lemma length_values (m : gmap K V) : length (values m) = size m.
Proof. by rewrite (Permutation_length (values_perm m)), length_fmap, length_map_to_list. Qed.
End HashMapIter.

(** ** Stable sorting and minima *)

Section Sorting.
Context {A : Type} (key : A -> Z).

(** [sort_by_key(|v| Reverse(key(v)))]: the stable sort by decreasing key. *)
Fixpoint insert_desc (x : A) (l : list A) : list A :=
  match l with
  | [] => [x]
  | y :: l' => if key y <=? key x then x :: l else y :: insert_desc x l'
  end.
Definition sort_desc (l : list A) : list A := foldr insert_desc [] l.

Lemma insert_desc_perm x l : insert_desc x l ≡ₚ x :: l.
Proof.
  induction l as [|y l IH]; cbn; [done|]. destruct (_ <=? _); [done|].
  rewrite IH. apply Permutation_swap.
Qed.

Lemma sort_desc_perm l : sort_desc l ≡ₚ l.
Proof. induction l as [|x l IH]; cbn; [done|]. by rewrite insert_desc_perm, IH. Qed.

Definition desc (x y : A) : Prop := key y <= key x.

Lemma insert_desc_sorted x l : StronglySorted desc l -> StronglySorted desc (insert_desc x l).
Proof.
  induction 1 as [|y l Hl IH Hy]; cbn; [by repeat constructor|].
  destruct (_ <=? _) eqn:Hk.
  - apply Z.leb_le in Hk. constructor; [by constructor|]. constructor; [done|].
    eapply Forall_impl; [exact Hy|]. unfold desc. lia.
  - apply Z.leb_gt in Hk. constructor; [done|]. rewrite insert_desc_perm.
    constructor; [|done]. unfold desc. lia.
Qed.

Lemma sort_desc_sorted l : StronglySorted desc (sort_desc l).
Proof. induction l; cbn; [constructor|]. by apply insert_desc_sorted. Qed.

(** [min_by_key]: the first element with the smallest key. *)
Definition min_by_key (l : list A) : option A :=
  foldl (fun acc x => match acc with
                      | None => Some x
                      | Some y => if key x <? key y then Some x else Some y
                      end) None l.

(** [max_by_key]: the last element with the largest key. *)
Definition max_by_key (l : list A) : option A :=
  foldl (fun acc x => match acc with
                      | None => Some x
                      | Some y => if key y <=? key x then Some x else Some y
                      end) None l.

Lemma max_by_key_elem_of l x : max_by_key l = Some x -> x ∈ l.
Proof.
  unfold max_by_key.
  assert (H : forall acc, foldl (fun acc x => match acc with
                      | None => Some x
                      | Some y => if key y <=? key x then Some x else Some y
                      end) acc l = Some x -> acc = Some x \/ x ∈ l).
  { induction l as [|y l IH]; intros acc; cbn; [by left|]. intros Hl.
    destruct (IH _ Hl) as [Hacc|Hx]; [|right; by constructor].
    destruct acc as [z|]; [destruct (_ <=? _)|]; simplify_eq; (by left) || (right; constructor). }
  intros Hl. by destruct (H None Hl).
Qed.
End Sorting.

(** ** Sums over lists *)

Definition list_sum (l : list Z) : Z := foldr Z.add 0 l.

Lemma list_sum_app l1 l2 : list_sum (l1 ++ l2) = list_sum l1 + list_sum l2.
Proof. unfold list_sum. induction l1 as [|x l1 IH]; cbn; [done|]. lia. Qed.

Lemma list_sum_nonneg l : Forall (fun x => 0 <= x) l -> 0 <= list_sum l.
Proof. unfold list_sum. induction 1; cbn; lia. Qed.

(** ** Automation *)

Create HintDb pacyte.
Create Rewrite HintDb pacyte.
#[export] Hint Resolve to_be_bytes_ok to_le_bytes_ok : pacyte.
#[export] Hint Rewrite @length_to_be_bytes @length_to_le_bytes : pacyte.

(** [inv_bind H]: take apart a bind that returned [Ok]. *)
Ltac inv_bind H :=
  match type of H with
  | obind ?m _ = Ok _ =>
      let a := fresh "a" in let Hm := fresh "Hm" in
      destruct m as [a| | |] eqn:Hm; cbn [obind] in H; try discriminate H
  end.

(** [step_st H]: take apart one stateful call of a hypothesis. *)
Ltac step_st H :=
  match type of H with
  | context [sbind ?m _ ?s] =>
      let r := fresh "r" in let s' := fresh "s" in let Hm := fresh "Hm" in
      unfold sbind at 1 in H;
      destruct (m s) as [[r| | |] s'] eqn:Hm; cbn beta iota in H
  end.

(** [inv_Forall]: split the [Forall] hypotheses of explicit lists. *)
Ltac inv_Forall :=
  repeat match goal with
         | H : Forall _ (_ :: _) |- _ => apply Forall_cons_1 in H as [? H]
         | H : Forall _ [] |- _ => clear H
         end.

(** ** Relations kept by a computation *)

Definition keeps {S E A} (R : S -> S -> Prop) (c : ST S E A) : Prop :=
  forall s r s', c s = (r, s') -> R s s'.

Section Keeps.
Context {S E : Type} (R : S -> S -> Prop) `{!PreOrder R}.

Lemma keeps_bind {A B} (c : ST S E A) (k : A -> ST S E B) :
  keeps R c -> (forall a, keeps R (k a)) -> keeps R (sbind c k).
Proof.
  intros Hc Hk s r s'. unfold sbind. destruct (c s) as [[a| | |] s1] eqn:H1; [|intros [= <- <-]; eauto..].
  intros H2. etransitivity; [by eapply Hc|by eapply Hk].
Qed.

(** Computations that only look. *)
Lemma keeps_pure {A} (f : S -> Outcome E A) : keeps R (fun s => (f s, s)).
Proof. intros s r s' [= <- <-]. reflexivity. Qed.

Lemma keeps_sret {A} (a : A) : keeps R (sret (E:=E) a).
Proof. apply (keeps_pure (fun _ => Ok a)). Qed.
Lemma keeps_sfail {A} (e : E) : keeps R (sfail (A:=A) e).
Proof. apply (keeps_pure (fun _ => Err e)). Qed.
Lemma keeps_slift {A} (o : Outcome E A) : keeps R (slift o).
Proof. apply (keeps_pure (fun _ => o)). Qed.
Lemma keeps_sget {A} (f : S -> A) : keeps R (sget (E:=E) f).
Proof. apply (keeps_pure (fun s => Ok (f s))). Qed.

Lemma keeps_smod (f : S -> S) : (forall s, R s (f s)) -> keeps R (smod (E:=E) f).
Proof. intros Hf s r s' [= <- <-]. apply Hf. Qed.
End Keeps.

(** Closes [keeps R] of a computation that looks, or writes fields [R] ignores. *)
Ltac keeps_leaf :=
  first [ apply keeps_sret; apply _ | apply keeps_sfail; apply _ | apply keeps_slift; apply _
        | apply keeps_sget; apply _ | apply keeps_smod; by repeat split
        | match goal with |- keeps ?R (fun s => (@?f s, s)) => apply (keeps_pure R f) end ].
