(* ===== verification/Hashing.v ===== *)
(** * Hash functions used by the node

    The digests come from the crates [sha3], [sha2] and [ripemd], which are not part of the
    repository: each is a parameter with the one fact the code relies on, that the
    digest has the fixed length the [into()] and [copy_from_slice] conversions need.
    Nothing is assumed about collisions: since some always exist, a theorem that needs it names the two
    messages of the model that clash. *)

From S2P Require Import Prelude.

(** [Hash = [u8; 32]] and [Address = [u8; 32]] (src/types/mod.rs). *)
Abbreviation Hash := (list Z).
Abbreviation Address := (list Z).
Definition hash_ok (h : Hash) : Prop := length h = 32%nat /\ Forall byte_ok h.
#[export] Instance hash_ok_dec h : Decision (hash_ok h).
Proof. unfold hash_ok. apply _. Defined.

Definition zero_hash : Hash := replicate 32 0.
Definition zero_address : Address := replicate 32 0.

(** [Sha3_256::new(); update(m); finalize().into()]. *)
Class Sha3 : Type := {
  sha3_256 : list Z -> Hash;
  sha3_256_ok : forall m, hash_ok (sha3_256 m)
}.

(** [Keccak256]. *)
Class Keccak : Type := {
  keccak256 : list Z -> Hash;
  keccak256_ok : forall m, hash_ok (keccak256 m)
}.

(** [Sha256] and [Ripemd160]. *)
Class Digests : Type := {
  sha256 : list Z -> Hash;
  sha256_ok : forall m, hash_ok (sha256 m);
  ripemd160 : list Z -> list Z;
  ripemd160_ok : forall m, length (ripemd160 m) = 20%nat /\ Forall byte_ok (ripemd160 m)
}.

#[export] Hint Resolve sha3_256_ok keccak256_ok sha256_ok : pacyte.

(** These two messages differ and have the same digest. *)
Definition clash (H : list Z -> Hash) (m1 m2 : list Z) : Prop := m1 <> m2 /\ H m1 = H m2.

(** ** A concrete digest for the witnesses *)

Definition toy_digest (n : nat) (m : list Z) : list Z :=
  to_be_bytes n (foldl (fun acc b => acc * 257 + b + 1) 0 m).

Lemma toy_digest_ok n m : length (toy_digest n m) = n /\ Forall byte_ok (toy_digest n m).
Proof. unfold toy_digest. rewrite length_to_be_bytes. auto with pacyte. Qed.

Definition toy_sha3 : Sha3 := {| sha3_256_ok := toy_digest_ok 32 |}.
Definition toy_keccak : Keccak := {| keccak256_ok := toy_digest_ok 32 |}.
Definition toy_digests : Digests :=
  {| sha256_ok := toy_digest_ok 32; ripemd160_ok := toy_digest_ok 20 |}.

(** The verifiers of the ed25519 and dilithium crates: message, signature, public key. *)
Class Signatures : Type := {
  ed25519_verify : list Z -> list Z -> list Z -> bool;
  dilithium5_verify : list Z -> list Z -> list Z -> bool
}.
