(* ===== verification/Errors.v ===== *)
(** * Errors (src/types/error.rs)

    [PacyteError] with the source's variants and payloads; integers are [Z], addresses byte
    lists.  Strings carry the text the code formats. *)

From S2P Require Import Prelude Hashing.
From stdpp Require Import strings pretty.

Module PE.
Inductive PacyteError : Type :=
| StateLocked (_ : Z)
| InsufficientBalance (required : Z) (available : Z)
| InsufficientSupply
| AccountNotFound (_ : string)
| InvalidNonce (expected : Z) (actual : Z)
| RocksDBError (_ : string)
| WalCorruption (_ : Z)
| DiskIoFailure (_ : string)
| StateRootMismatch (expected : string) (actual : string)
| NetworkError (_ : string)
| ConnectionClosed
| HandshakeFailed (_ : string)
| PeerNotFound (_ : string)
| MaxPeersReached (_ : Z)
| NetworkTimeout (_ : Z)
| ConsensusTimeout (round : Z) (height : Z)
| InvalidProposal (_ : string)
| DoubleVoting (_ : Z)
| InsufficientVotes (have : Z) (need : Z)
| NotValidator
| InvalidSignature
| TransactionExpired (_ : Z)
| TransactionTooLarge (_ : Z) (_ : Z)
| GasLimitExceeded (used : Z) (limit : Z)
| InvalidRecipient
| CryptoError (_ : string)
| InvalidPublicKey
| KeyDerivationFailed
| BridgeExpired (_ : Z)
| BridgeAlreadyFinalized
| ShardNotFound (_ : Z)
| CrossShardVerificationFailed
| HardwareInsufficient
| ZkLatencyTooHigh (_ : Z) (_ : Z)
| ValidatorSlashed (_ : string)
| InsufficientStake (have : Z) (need : Z)
| DormantAccount (_ : Z)
| DormantReactivationDenied
| InvalidRpcRequest (_ : string)
| MethodNotFound (_ : string)
| RateLimitExceeded (_ : string)
| Unauthorized (_ : string)
| ConfigError (_ : string)
| NotImplemented (_ : string)
| Internal (_ : string)
| BlockNotFound (_ : Z)
| PeerBanned (_ : string)
| PeerAlreadyConnected (_ : string)
| ValidatorAlreadyExists
| ValidatorSetFull
| ValidatorNotFound (_ : Z)
| ValidatorInactive (_ : Z)
| InvalidTimestamp
| InvalidProposer (expected : option Z) (got : Z)
| DoubleProposal (_ : Z)
| SafetyViolation (reason : string)
| BlockAlreadyCommitted (_ : Z)
| ContractAlreadyExists (_ : Address)
| ContractNotFound (_ : Address)
| ContractNotUpgradeable (_ : Address)
| SerializationError (_ : string)
| PrecompileNotFound (_ : Address)
| InvalidWasmModule
| WasmModuleNotFound
| WasmFunctionNotFound (_ : string)
| ExecutionError (_ : string)
| OutOfGas
| AmountTooSmall (_ : Z) (_ : Z)
| SelfTransfer
| InvalidAmount
| SameShardTransfer
| BridgeNotFound (_ : Z)
| BridgeAmountTooLarge (_ : Z) (_ : Z)
| InvalidBridgeStatus (expected : string) (actual : string)
| HandshakeTimeout.
End PE.
Abbreviation PacyteError := PE.PacyteError.
Abbreviation PacyteResult := (Outcome PE.PacyteError).

(** [format!("{:?}", bytes)] of a byte array. *)
Definition debug_bytes (l : list Z) : string :=
  ("[" +:+ String.concat ", " (map pretty l) +:+ "]")%string.

(** [format!("{:?}", o)] of an optional number. *)
Definition debug_option (o : option Z) : string :=
  (match o with Some n => "Some(" +:+ pretty n +:+ ")" | None => "None" end)%string.
(** [PacyteError::to_string], from the [error] attributes. *)
Definition error_text (e : PacyteError) : string :=
  (match e with
  | PE.StateLocked a0 => "State lock acquisition failed after " +:+ pretty a0 +:+ " retries"
  | PE.InsufficientBalance required available => "Insufficient balance: required " +:+ pretty required +:+ ", available " +:+ pretty available
  | PE.InsufficientSupply => "Insufficient total supply for burn operation"
  | PE.AccountNotFound a0 => "Account not found: " +:+ a0
  | PE.InvalidNonce expected actual => "Invalid nonce: expected " +:+ pretty expected +:+ ", got " +:+ pretty actual
  | PE.RocksDBError a0 => "RocksDB error: " +:+ a0
  | PE.WalCorruption a0 => "WAL corruption detected at LSN " +:+ pretty a0
  | PE.DiskIoFailure a0 => "Disk I/O failure: " +:+ a0
  | PE.StateRootMismatch expected actual => "State root mismatch: expected " +:+ expected +:+ ", got " +:+ actual
  | PE.NetworkError a0 => "Network I/O error: " +:+ a0
  | PE.ConnectionClosed => "Connection closed by peer"
  | PE.HandshakeFailed a0 => "Handshake failed: " +:+ a0
  | PE.PeerNotFound a0 => "Peer not found: " +:+ a0
  | PE.MaxPeersReached a0 => "Maximum peers reached: " +:+ pretty a0
  | PE.NetworkTimeout a0 => "Network timeout after " +:+ pretty a0 +:+ "ms"
  | PE.ConsensusTimeout round height => "Consensus timeout: round " +:+ pretty round +:+ ", height " +:+ pretty height
  | PE.InvalidProposal a0 => "Invalid block proposal: " +:+ a0
  | PE.DoubleVoting a0 => "Double voting detected from validator " +:+ pretty a0
  | PE.InsufficientVotes have need => "Insufficient votes: have " +:+ pretty have +:+ ", need " +:+ pretty need
  | PE.NotValidator => "Validator not in active set"
  | PE.InvalidSignature => "Invalid transaction signature"
  | PE.TransactionExpired a0 => "Transaction expired at height " +:+ pretty a0
  | PE.TransactionTooLarge a0 a1 => "Transaction too large: " +:+ pretty a0 +:+ " bytes (max: " +:+ pretty a1 +:+ ")"
  | PE.GasLimitExceeded used limit => "Gas limit exceeded: used " +:+ pretty used +:+ ", limit " +:+ pretty limit
  | PE.InvalidRecipient => "Invalid recipient address"
  | PE.CryptoError a0 => "Cryptographic error: " +:+ a0
  | PE.InvalidPublicKey => "Invalid public key format"
  | PE.KeyDerivationFailed => "Key derivation failed"
  | PE.BridgeExpired a0 => "Bridge transaction expired at " +:+ pretty a0
  | PE.BridgeAlreadyFinalized => "Bridge already finalized"
  | PE.ShardNotFound a0 => "Shard not found: " +:+ pretty a0
  | PE.CrossShardVerificationFailed => "Cross-shard verification failed"
  | PE.HardwareInsufficient => "Hardware insufficient: missing AVX-512 support"
  | PE.ZkLatencyTooHigh a0 a1 => "ZK proof latency too high: " +:+ pretty a0 +:+ "ms > " +:+ pretty a1 +:+ "ms"
  | PE.ValidatorSlashed a0 => "Validator slashed: reason = " +:+ a0
  | PE.InsufficientStake have need => "Minimum stake not met: have " +:+ pretty have +:+ ", need " +:+ pretty need
  | PE.DormantAccount a0 => "Account dormant for " +:+ pretty a0 +:+ " years"
  | PE.DormantReactivationDenied => "Cannot reactivate dormant account without sovereign approval"
  | PE.InvalidRpcRequest a0 => "Invalid JSON-RPC request: " +:+ a0
  | PE.MethodNotFound a0 => "Method not found: " +:+ a0
  | PE.RateLimitExceeded a0 => "Rate limit exceeded for " +:+ a0
  | PE.Unauthorized a0 => "Unauthorized operation: " +:+ a0
  | PE.ConfigError a0 => "Configuration error: " +:+ a0
  | PE.NotImplemented a0 => "Not implemented: " +:+ a0
  | PE.Internal a0 => "Internal error: " +:+ a0
  | PE.BlockNotFound a0 => "Block not found at height " +:+ pretty a0
  | PE.PeerBanned a0 => "Peer banned: " +:+ a0
  | PE.PeerAlreadyConnected a0 => "Peer already connected: " +:+ a0
  | PE.ValidatorAlreadyExists => "Validator already exists"
  | PE.ValidatorSetFull => "Validator set is full"
  | PE.ValidatorNotFound a0 => "Validator not found: " +:+ pretty a0
  | PE.ValidatorInactive a0 => "Validator is inactive: " +:+ pretty a0
  | PE.InvalidTimestamp => "Invalid timestamp"
  | PE.InvalidProposer expected got => "Invalid proposer: expected " +:+ debug_option expected +:+ ", got " +:+ pretty got
  | PE.DoubleProposal a0 => "Double proposal from validator " +:+ pretty a0
  | PE.SafetyViolation reason => "Safety rule violation: " +:+ reason
  | PE.BlockAlreadyCommitted a0 => "Block already committed at height " +:+ pretty a0
  | PE.ContractAlreadyExists a0 => "Contract already exists at " +:+ debug_bytes a0
  | PE.ContractNotFound a0 => "Contract not found: " +:+ debug_bytes a0
  | PE.ContractNotUpgradeable a0 => "Contract not upgradeable: " +:+ debug_bytes a0
  | PE.SerializationError a0 => "Serialization error: " +:+ a0
  | PE.PrecompileNotFound a0 => "Precompile not found: " +:+ debug_bytes a0
  | PE.InvalidWasmModule => "Invalid WASM module"
  | PE.WasmModuleNotFound => "WASM module not found"
  | PE.WasmFunctionNotFound a0 => "WASM function not found: " +:+ a0
  | PE.ExecutionError a0 => "Execution error: " +:+ a0
  | PE.OutOfGas => "Out of gas"
  | PE.AmountTooSmall a0 a1 => "Amount too small: got " +:+ pretty a0 +:+ ", minimum " +:+ pretty a1
  | PE.SelfTransfer => "Self transfer not allowed"
  | PE.InvalidAmount => "Invalid amount"
  | PE.SameShardTransfer => "Same shard transfer not allowed"
  | PE.BridgeNotFound a0 => "Bridge not found: " +:+ pretty a0
  | PE.BridgeAmountTooLarge a0 a1 => "Bridge amount too large: got " +:+ pretty a0 +:+ ", max " +:+ pretty a1
  | PE.InvalidBridgeStatus expected actual => "Invalid bridge status: expected " +:+ expected +:+ ", got " +:+ actual
  | PE.HandshakeTimeout => "Handshake timeout"
  end)%string.
