(* ===== verification/Words.v ===== *)
(** * 256-bit EVM words (src/execution/vm.rs, "WORD YARDIMCILARI")

    A word is a [[u8; 32]], most significant byte first.  This file models the
    word helpers of the virtual machine and proves what they compute:
    [add], [sub], [lt], [gt] and [is_zero] are exact 256-bit operations; [mul] and
    [div] exchange the two low limbs. *)

From S2P Require Import Prelude.

(** [[u8; 32]]. *)
Abbreviation Word := (list Z).
Definition word_ok (w : Word) : Prop := length w = 32%nat /\ Forall byte_ok w.
#[export] Instance word_ok_dec w : Decision (word_ok w).
Proof. unfold word_ok. apply _. Defined.

(** The number a word denotes. *)
Definition word_val (w : Word) : Z := from_be_bytes w.

(** [[u64; 4]], limb 0 most significant. *)
Definition limbs_ok (v : list Z) : Prop := length v = 4%nat /\ Forall (fits 64) v.
Definition limbs_val (v : list Z) : Z :=
  v !!! 0%nat * 2 ^ 192 + v !!! 1%nat * 2 ^ 128 + v !!! 2%nat * 2 ^ 64 + v !!! 3%nat.

Definition word_zero : Word := replicate 32 0.
Definition word_one : Word := <[31%nat := 1]> (replicate 32 0).

Definition word_to_u256 (word : Word) : list Z :=
  [ from_be_bytes (slice word 0 8);
    from_be_bytes (slice word 8 16);
    from_be_bytes (slice word 16 24);
    from_be_bytes (slice word 24 32) ].

Definition u256_to_word (value : list Z) : Word :=
  to_be_bytes 8 (value !!! 0%nat) ++ to_be_bytes 8 (value !!! 1%nat) ++
  to_be_bytes 8 (value !!! 2%nat) ++ to_be_bytes 8 (value !!! 3%nat).

(** [usize] is 64 bits wide on the supported targets. *)
Definition word_to_usize (word : Word) : Z := from_be_bytes (slice word 24 32).

Definition is_zero (word : Word) : bool := forallb (fun b => b =? 0) word.

(** The loops run over [(0..4).rev()]. *)
Definition add_loop (a_val b_val : list Z) : list Z * Z :=
  foldl (fun '(result, carry) (i : nat) =>
           let sum := a_val !!! i + b_val !!! i + carry in
           (<[i := cast 64 sum]> result, cast 64 (Z.shiftr sum 64)))
        ([0; 0; 0; 0], 0) [3; 2; 1; 0]%nat.

Definition add (a b : Word) : Word :=
  u256_to_word (add_loop (word_to_u256 a) (word_to_u256 b)).1.

(** [i128] intermediates; [as u64] keeps the low 64 bits. *)
Definition sub_loop (a_val b_val : list Z) : list Z * Z :=
  foldl (fun '(result, borrow) (i : nat) =>
           let a_with_borrow := a_val !!! i - borrow in
           let b_val_i := b_val !!! i in
           if b_val_i <=? a_with_borrow
           then (<[i := cast 64 (a_with_borrow - b_val_i)]> result, 0)
           else (<[i := cast 64 (2 ^ 64 + a_with_borrow - b_val_i)]> result, 1))
        ([0; 0; 0; 0], 0) [3; 2; 1; 0]%nat.

Definition sub (a b : Word) : Word :=
  u256_to_word (sub_loop (word_to_u256 a) (word_to_u256 b)).1.

(** [val[2] as u128 | ((val[3] as u128) << 64)], as [mul] and [div] build it. *)
Definition low_u128 (v : list Z) : Z :=
  Z.lor (v !!! 2%nat) (Z.shiftl (v !!! 3%nat) 64).

Definition mul `{BP : BuildProfile} {E} (a b : Word) : Outcome E Word :=
  let a_u256 := low_u128 (word_to_u256 a) in
  let b_u256 := low_u128 (word_to_u256 b) in
  let? product := mul_u128 a_u256 b_u256 in
  Ok (u256_to_word [0; 0; cast 64 product; cast 64 (Z.shiftr product 64)]).

Definition div (a b : Word) : Word :=
  if is_zero b then word_zero
  else
    let a_u256 := low_u128 (word_to_u256 a) in
    let b_u256 := low_u128 (word_to_u256 b) in
    if b_u256 =? 0 then word_zero
    else
      let quotient := a_u256 / b_u256 in
      u256_to_word [0; 0; cast 64 quotient; cast 64 (Z.shiftr quotient 64)].

(** Byte-wise comparison, first difference decides. *)
Fixpoint lt (a b : Word) : bool :=
  match a, b with
  | x :: a', y :: b' => if x <? y then true else if y <? x then false else lt a' b'
  | _, _ => false
  end.

Fixpoint gt (a b : Word) : bool :=
  match a, b with
  | x :: a', y :: b' => if y <? x then true else if x <? y then false else gt a' b'
  | _, _ => false
  end.

(** ** Representation lemmas *)

Lemma length_slice {A} (l : list A) i j :
  (i <= j <= length l)%nat -> length (slice l i j) = (j - i)%nat.
Proof. intros H. unfold slice. rewrite length_take, length_drop. lia. Qed.

Lemma Forall_slice {A} (P : A -> Prop) (l : list A) i j : Forall P l -> Forall P (slice l i j).
Proof. intros H. unfold slice. by apply Forall_take, Forall_drop. Qed.

Lemma word_to_u256_ok w : word_ok w -> limbs_ok (word_to_u256 w).
Proof.
  intros [Hl Hb]. split; [done|].
  assert (Hs : forall i j, (i <= j <= 32)%nat -> (j - i = 8)%nat ->
            fits 64 (from_be_bytes (slice w i j))).
  { intros i j Hij H8. pose proof (from_be_bytes_bound (slice w i j)) as HB.
    rewrite length_slice in HB by lia. rewrite H8 in HB. apply HB. by apply Forall_slice. }
  repeat constructor; apply Hs; lia.
Qed.

Lemma limbs_val_word_to_u256 w : word_ok w -> limbs_val (word_to_u256 w) = word_val w.
Proof.
  intros [Hl Hb]. unfold word_val.
  assert (Hw : w = slice w 0 8 ++ slice w 8 16 ++ slice w 16 24 ++ slice w 24 32).
  { unfold slice. rewrite drop_0. cbn [Nat.sub].
    rewrite (take_ge (drop 24 w)) by (rewrite length_drop; lia).
    rewrite <- (take_drop 8 w) at 1. f_equal.
    rewrite <- (take_drop 8 (drop 8 w)) at 1. rewrite drop_drop. f_equal.
    rewrite <- (take_drop 8 (drop (8 + 8) w)) at 1. rewrite drop_drop. done. }
  rewrite Hw at 2. rewrite !from_be_bytes_app, !length_app, !length_slice by lia.
  unfold limbs_val, word_to_u256. cbn -[Z.pow slice from_be_bytes]. lia.
Qed.

Lemma limbs_val_u256_to_word v :
  limbs_ok v -> word_val (u256_to_word v) = limbs_val v.
Proof.
  intros [Hl Hf]. destruct v as [|v0 [|v1 [|v2 [|v3 [|]]]]]; try discriminate.
  inv_Forall. unfold fits in *.
  unfold word_val, u256_to_word, limbs_val. cbn -[to_be_bytes Z.pow].
  rewrite !from_be_bytes_app, !length_app, !length_to_be_bytes, !from_to_be_bytes.
  rewrite !Z.mod_small by (cbn; lia). cbn -[Z.pow]. lia.
Qed.

Lemma u256_to_word_ok v : word_ok (u256_to_word v).
Proof.
  split.
  - unfold u256_to_word. by rewrite !length_app, !length_to_be_bytes.
  - unfold u256_to_word. rewrite !Forall_app. auto with pacyte.
Qed.

Lemma word_zero_ok : word_ok word_zero.
Proof. by apply (bool_decide_unpack _). Qed.
Lemma word_one_ok : word_ok word_one.
Proof. by apply (bool_decide_unpack _). Qed.
#[export] Hint Resolve u256_to_word_ok word_zero_ok word_one_ok word_to_u256_ok : pacyte.

Lemma cast_fits w z : 0 <= w -> fits w (cast w z).
Proof. intros Hw. apply Z.mod_pos_bound. by apply Z.pow_pos_nonneg. Qed.

Lemma word_val_bound w : word_ok w -> 0 <= word_val w < 2 ^ 256.
Proof.
  intros [Hl Hb]. pose proof (from_be_bytes_bound w Hb) as H. rewrite Hl in H. exact H.
Qed.

Lemma word_val_inj a b : word_ok a -> word_ok b -> word_val a = word_val b -> a = b.
Proof. intros [] []. apply from_be_bytes_inj; congruence. Qed.

(** ** Addition and subtraction are exact modulo 2^256 *)

(** One limb of the loops: the low 64 bits and the carry or borrow out. *)
Lemma limb_split s :
  0 <= s < 2 ^ 65 ->
  cast 64 (Z.shiftr s 64) = s / 2 ^ 64 /\ 0 <= s / 2 ^ 64 <= 1 /\
  cast 64 s = s - 2 ^ 64 * (s / 2 ^ 64).
Proof.
  intros Hs. unfold cast. rewrite Z.shiftr_div_pow2 by lia.
  assert (0 <= s / 2 ^ 64 <= 1).
  { split; [apply Z.div_pos; lia|]. apply Z.lt_succ_r, Z.div_lt_upper_bound; lia. }
  split; [apply Z.mod_small; lia|split; [done|]]. rewrite Z.mod_eq; lia.
Qed.

Lemma limbs_val_bound v : limbs_ok v -> 0 <= limbs_val v < 2 ^ 256.
Proof.
  intros [Hl Hv]. destruct v as [|v0 [|v1 [|v2 [|v3 [|]]]]]; try discriminate.
  inv_Forall. unfold fits, limbs_val in *. cbn -[Z.pow]. lia.
Qed.

(** The carry chain: the result and the final carry represent the exact sum. *)
Lemma add_loop_val a b :
  limbs_ok a -> limbs_ok b ->
  limbs_ok (add_loop a b).1 /\
  limbs_val (add_loop a b).1 + 2 ^ 256 * (add_loop a b).2 = limbs_val a + limbs_val b.
Proof.
  intros [Hla Ha] [Hlb Hb].
  destruct a as [|a0 [|a1 [|a2 [|a3 [|]]]]]; try discriminate.
  destruct b as [|b0 [|b1 [|b2 [|b3 [|]]]]]; try discriminate.
  inv_Forall. unfold fits in *.
  unfold add_loop. cbn -[Z.pow Z.shiftr cast].
  split; [split; [done|]; repeat constructor; try apply cast_fits; lia|].
  unfold limbs_val. cbn -[Z.pow Z.shiftr cast].
  destruct (limb_split (a3 + b3 + 0)) as (-> & ? & ->); [lia|].
  generalize dependent ((a3 + b3 + 0) / 2 ^ 64); intros c3 ?.
  destruct (limb_split (a2 + b2 + c3)) as (-> & ? & ->); [lia|].
  generalize dependent ((a2 + b2 + c3) / 2 ^ 64); intros c2 ?.
  destruct (limb_split (a1 + b1 + c2)) as (-> & ? & ->); [lia|].
  generalize dependent ((a1 + b1 + c2) / 2 ^ 64); intros c1 ?.
  destruct (limb_split (a0 + b0 + c1)) as (-> & ? & ->); lia.
Qed.

(** One limb of the subtraction, with the two branches of the code. *)
Lemma borrow_split x y br :
  0 <= x < 2 ^ 64 -> 0 <= y < 2 ^ 64 -> 0 <= br <= 1 ->
  let '(r, br') := if y <=? x - br then (cast 64 (x - br - y), 0)
                   else (cast 64 (2 ^ 64 + (x - br) - y), 1) in
  fits 64 r /\ 0 <= br' <= 1 /\ r = x - br - y + 2 ^ 64 * br'.
Proof.
  intros Hx Hy Hbr. destruct (Z.leb_spec y (x - br)); unfold cast;
    rewrite Z.mod_small by lia; unfold fits; lia.
Qed.

(** The same loop with the state of one limb made explicit. *)
Lemma sub_loop_unfold a0 a1 a2 a3 b0 b1 b2 b3 :
  sub_loop [a0; a1; a2; a3] [b0; b1; b2; b3] =
  let limb x y br := if y <=? x - br then (cast 64 (x - br - y), 0)
                     else (cast 64 (2 ^ 64 + (x - br) - y), 1) in
  let '(r3, k3) := limb a3 b3 0 in
  let '(r2, k2) := limb a2 b2 k3 in
  let '(r1, k1) := limb a1 b1 k2 in
  let '(r0, k0) := limb a0 b0 k1 in
  ([r0; r1; r2; r3], k0).
Proof.
  unfold sub_loop. cbn -[Z.pow cast Z.leb].
  destruct (b3 <=? _); cbn -[Z.pow cast Z.leb];
  destruct (b2 <=? _); cbn -[Z.pow cast Z.leb];
  destruct (b1 <=? _); cbn -[Z.pow cast Z.leb];
  destruct (b0 <=? _); reflexivity.
Qed.

Lemma sub_loop_val a b :
  limbs_ok a -> limbs_ok b ->
  limbs_ok (sub_loop a b).1 /\
  limbs_val (sub_loop a b).1 = limbs_val a - limbs_val b + 2 ^ 256 * (sub_loop a b).2.
Proof.
  intros [Hla Ha] [Hlb Hb].
  destruct a as [|a0 [|a1 [|a2 [|a3 [|]]]]]; try discriminate.
  destruct b as [|b0 [|b1 [|b2 [|b3 [|]]]]]; try discriminate.
  inv_Forall. unfold fits in *. rewrite sub_loop_unfold. cbv zeta beta.
  pose proof (borrow_split a3 b3 0) as P3; destruct (if b3 <=? _ then _ else _) as [r3 k3].
  pose proof (borrow_split a2 b2 k3) as P2; destruct (if b2 <=? _ then _ else _) as [r2 k2].
  pose proof (borrow_split a1 b1 k2) as P1; destruct (if b1 <=? _ then _ else _) as [r1 k1].
  pose proof (borrow_split a0 b0 k1) as P0; destruct (if b0 <=? _ then _ else _) as [r0 k0].
  destruct P3 as (? & ? & ?); try lia. destruct P2 as (? & ? & ?); try lia.
  destruct P1 as (? & ? & ?); try lia. destruct P0 as (? & ? & ?); try lia.
  split; [split; [done|]; by repeat apply Forall_cons_2|].
  unfold limbs_val. cbn -[Z.pow]. lia.
Qed.

Lemma add_val a b :
  word_ok a -> word_ok b -> word_val (add a b) = (word_val a + word_val b) mod 2 ^ 256.
Proof.
  intros Ha Hb. pose proof (word_to_u256_ok a Ha) as La. pose proof (word_to_u256_ok b Hb) as Lb.
  destruct (add_loop_val _ _ La Lb) as [Hok Hval]. unfold add.
  rewrite limbs_val_u256_to_word, <- !limbs_val_word_to_u256 by done.
  apply Z.mod_unique_pos with (q := (add_loop (word_to_u256 a) (word_to_u256 b)).2);
    [by apply limbs_val_bound|lia].
Qed.

Lemma sub_val a b :
  word_ok a -> word_ok b -> word_val (sub a b) = (word_val a - word_val b) mod 2 ^ 256.
Proof.
  intros Ha Hb. pose proof (word_to_u256_ok a Ha) as La. pose proof (word_to_u256_ok b Hb) as Lb.
  destruct (sub_loop_val _ _ La Lb) as [Hok Hval]. unfold sub.
  rewrite limbs_val_u256_to_word, <- !limbs_val_word_to_u256 by done.
  apply Z.mod_unique_pos with (q := - (sub_loop (word_to_u256 a) (word_to_u256 b)).2);
    [by apply limbs_val_bound|lia].
Qed.

Lemma add_ok a b : word_ok (add a b).
Proof. apply u256_to_word_ok. Qed.
Lemma sub_ok a b : word_ok (sub a b).
Proof. apply u256_to_word_ok. Qed.
#[export] Hint Resolve add_ok sub_ok : pacyte.

(** ** Comparisons are the order of the denoted numbers *)

Lemma from_be_bytes_cons b l :
  from_be_bytes (b :: l) = b * 256 ^ Z.of_nat (length l) + from_be_bytes l.
Proof.
  change (b :: l) with ([b] ++ l). rewrite from_be_bytes_app.
  by change (from_be_bytes [b]) with (0 * 256 + b).
Qed.

Lemma lt_val_gen a b :
  length a = length b -> Forall byte_ok a -> Forall byte_ok b ->
  lt a b = (from_be_bytes a <? from_be_bytes b).
Proof.
  revert b; induction a as [|x a IH]; intros [|y b] Hl Ha Hb; try discriminate; [done|].
  cbn [lt]. injection Hl as Hl. apply Forall_cons_1 in Ha as [Hx Ha], Hb as [Hy Hb].
  rewrite !from_be_bytes_cons, Hl.
  pose proof (from_be_bytes_bound a Ha) as Ba. pose proof (from_be_bytes_bound b Hb) as Bb.
  rewrite Hl in Ba. set (m := 256 ^ Z.of_nat (length b)) in *.
  destruct (Z.ltb_spec x y); [symmetry; apply Z.ltb_lt; nia|].
  destruct (Z.ltb_spec y x); [symmetry; apply Z.ltb_ge; nia|].
  assert (x = y) as -> by lia. rewrite IH by done.
  destruct (Z.ltb_spec (from_be_bytes a) (from_be_bytes b)); symmetry;
    [apply Z.ltb_lt|apply Z.ltb_ge]; lia.
Qed.

Lemma gt_is_lt_flip a b : gt a b = lt b a.
Proof. revert b; induction a as [|x a IH]; intros [|y b]; cbn; by rewrite ?IH. Qed.

Lemma is_zero_val w : word_ok w -> is_zero w = (word_val w =? 0).
Proof.
  intros [_ Hb]. unfold word_val, is_zero. induction w as [|b w IH]; [done|].
  apply Forall_cons_1 in Hb as [Hx Hb]. cbn [forallb]. rewrite from_be_bytes_cons, (IH Hb).
  pose proof (from_be_bytes_bound w Hb). unfold byte_ok in Hx.
  destruct (Z.eqb_spec b 0) as [->|Hne]; cbn [andb]; [done|].
  symmetry. apply Z.eqb_neq. nia.
Qed.

(** ** Multiplication and division take the low limbs in the wrong order *)

Lemma low_u128_val v :
  limbs_ok v -> low_u128 v = v !!! 2%nat + 2 ^ 64 * v !!! 3%nat.
Proof.
  intros [Hl Hv]. destruct v as [|v0 [|v1 [|v2 [|v3 [|]]]]]; try discriminate.
  inv_Forall. unfold low_u128. cbn -[Z.pow Z.shiftl Z.lor]. by rewrite lor_shiftl_add.
Qed.

(** A number below 2^64 sits in limb 3, which the code shifts to the top. *)
Lemma low_u128_small w :
  word_ok w -> word_val w < 2 ^ 64 -> low_u128 (word_to_u256 w) = 2 ^ 64 * word_val w.
Proof.
  intros Hw Hs. pose proof (word_to_u256_ok w Hw) as Hok. rewrite low_u128_val by done.
  rewrite <- limbs_val_word_to_u256 in * by done. revert Hok Hs.
  generalize (word_to_u256 w) as v. intros v [Hl Hv] Hs.
  destruct v as [|v0 [|v1 [|v2 [|v3 [|]]]]]; try discriminate.
  inv_Forall. unfold fits, limbs_val in *. cbn -[Z.pow] in *.
  assert (v0 = 0) as -> by lia. assert (v1 = 0) as -> by lia. assert (v2 = 0) as -> by lia. lia.
Qed.

Lemma mul_ok `{BP : BuildProfile} {E} a b r : mul (E := E) a b = Ok r -> word_ok r.
Proof. unfold mul. intros H. inv_bind H. injection H as <-. auto with pacyte. Qed.

Lemma mul_not_err `{BP : BuildProfile} {E} a b (e : E) : mul a b <> Err e.
Proof.
  unfold mul, mul_u128. destruct (arith 128 _) eqn:Ha; cbn; try done.
  by apply arith_not_err in Ha.
Qed.

Lemma div_ok a b : word_ok (div a b).
Proof. unfold div. repeat case_match; auto with pacyte. Qed.
#[export] Hint Resolve div_ok : pacyte.

Lemma u256_small_zero : u256_to_word [0; 0; 0; 0] = word_zero.
Proof. reflexivity. Qed.

(** The bytes of the bitwise opcodes stay bytes. *)
Lemma byte_log2 x : byte_ok x <-> 0 <= x /\ Z.log2 x < 8.
Proof.
  unfold byte_ok. change 256 with (2 ^ 8).
  destruct (Z.le_gt_cases x 0); [|rewrite <- Z.log2_lt_pow2; lia].
  split; [intros ?; assert (x = 0) as -> by lia; done|]. intros [? _]. lia.
Qed.

Lemma land_byte a b : byte_ok a -> byte_ok b -> byte_ok (Z.land a b).
Proof.
  rewrite !byte_log2. intros [] []. rewrite Z.land_nonneg.
  pose proof (Z.log2_land a b). lia.
Qed.

Lemma lor_byte a b : byte_ok a -> byte_ok b -> byte_ok (Z.lor a b).
Proof.
  rewrite !byte_log2. intros [] []. rewrite Z.lor_nonneg, Z.log2_lor by done. lia.
Qed.

Lemma lxor_byte a b : byte_ok a -> byte_ok b -> byte_ok (Z.lxor a b).
Proof.
  rewrite !byte_log2. intros [] []. rewrite Z.lxor_nonneg.
  pose proof (Z.log2_lxor a b). lia.
Qed.

(** ** Properties *)

(** The word of a number below 2^256, used by the witnesses. *)
Definition word_of (z : Z) : Word := to_be_bytes 32 z.

(** On 32-byte words ADD and SUB compute the sum and the difference modulo 2^256,
    for every carry and borrow chain through the four limbs. *)
Theorem word_add_sub_exact (a b : Word) :
  word_ok a -> word_ok b ->
  word_val (add a b) = (word_val a + word_val b) mod 2 ^ 256 /\
  word_val (sub a b) = (word_val a - word_val b) mod 2 ^ 256 /\
  word_ok (add a b) /\ word_ok (sub a b).
Proof. intros Ha Hb. rewrite add_val, sub_val by done. auto with pacyte. Qed.

Lemma word_add_sub_exact_witness :
  word_ok (word_of (2 ^ 256 - 1)) /\ word_ok (word_of 2) /\
  word_val (add (word_of (2 ^ 256 - 1)) (word_of 2)) = 1.
Proof.
  assert (Ha : word_ok (word_of (2 ^ 256 - 1))) by (apply (bool_decide_unpack _); vm_compute; exact I).
  assert (Hb : word_ok (word_of 2)) by (apply (bool_decide_unpack _); vm_compute; exact I).
  destruct (word_add_sub_exact _ _ Ha Hb) as (Hadd & _). rewrite Hadd.
  split; [exact Ha|split; [exact Hb|vm_compute; reflexivity]].
Defined.

(** The byte-wise loops LT, GT and ISZERO run are the order and the zero test of
    the unsigned 256-bit numbers the words denote, and equal words are equal numbers. *)
Theorem word_comparisons_exact (a b : Word) :
  word_ok a -> word_ok b ->
  lt a b = (word_val a <? word_val b) /\
  gt a b = (word_val b <? word_val a) /\
  is_zero a = (word_val a =? 0) /\
  (a = b <-> word_val a = word_val b).
Proof.
  intros Ha Hb. rewrite gt_is_lt_flip, is_zero_val by done.
  destruct Ha as [Hla Ha], Hb as [Hlb Hb].
  rewrite !lt_val_gen by congruence. repeat split; [by intros ->|].
  by apply word_val_inj.
Qed.

Lemma word_comparisons_exact_witness :
  word_ok (word_of 7) /\ word_ok (word_of 256) /\ lt (word_of 7) (word_of 256) = true.
Proof.
  assert (Ha : word_ok (word_of 7)) by (apply (bool_decide_unpack _); vm_compute; exact I).
  assert (Hb : word_ok (word_of 256)) by (apply (bool_decide_unpack _); vm_compute; exact I).
  destruct (word_comparisons_exact _ _ Ha Hb) as (Hlt & _).
  split; [exact Ha|split; [exact Hb|]]. rewrite Hlt. vm_compute. reflexivity.
Defined.

(** MUL on two non-zero numbers below 2^64 never yields their product: with
    overflow checks the [u128] multiplication panics, without them it wraps and the
    result is the zero word.  [mul] reads limb 3, the least significant one, as the
    high half of the operand. *)
Theorem mul_small_never_product {E} (a b : Word) :
  word_ok a -> word_ok b -> 0 < word_val a < 2 ^ 64 -> 0 < word_val b < 2 ^ 64 ->
  mul (BP := debug_profile) (E := E) a b = Panic /\
  mul (BP := release_profile) (E := E) a b = Ok word_zero.
Proof.
  intros Ha Hb Hsa Hsb. unfold mul. rewrite !low_u128_small by (done || lia).
  set (x := word_val a) in *. set (y := word_val b) in *.
  assert (Hprod : 2 ^ 64 * x * (2 ^ 64 * y) = x * y * 2 ^ 128) by lia.
  assert (Hbig : ~ fits 128 (2 ^ 64 * x * (2 ^ 64 * y))) by (unfold fits; rewrite Hprod; nia).
  unfold mul_u128, arith. rewrite !decide_False by done. split; [done|].
  cbn -[u256_to_word cast Z.shiftr Z.pow]. rewrite Hprod, Z.mod_mul by lia. done.
Qed.

Lemma mul_small_never_product_witness :
  mul (BP := release_profile) (E := unit) (word_of 5) (word_of 3) = Ok word_zero.
Proof.
  apply (mul_small_never_product (E := unit) (word_of 5) (word_of 3));
    try (apply (bool_decide_unpack _); vm_compute; exact I); vm_compute; split; congruence.
Defined.

(** DIV of numbers below 2^64 by a non-zero divisor returns the quotient shifted
    up by one 64-bit limb, in both build profiles, instead of the quotient. *)
Theorem div_small_shifted (a b : Word) :
  word_ok a -> word_ok b -> word_val a < 2 ^ 64 -> 0 < word_val b < 2 ^ 64 ->
  word_val (div a b) = 2 ^ 64 * (word_val a / word_val b).
Proof.
  intros Ha Hb Hsa Hsb. unfold div. rewrite is_zero_val, !low_u128_small by (done || lia).
  pose proof (word_val_bound a Ha). set (x := word_val a) in *. set (y := word_val b) in *.
  rewrite !(proj2 (Z.eqb_neq _ _)) by lia.
  rewrite Z.div_mul_cancel_l by lia. set (q := x / y).
  assert (0 <= q < 2 ^ 64).
  { split; [apply Z.div_pos; lia|]. apply Z.div_lt_upper_bound; nia. }
  rewrite limbs_val_u256_to_word.
  - unfold limbs_val, cast. cbn -[Z.pow Z.shiftr].
    rewrite Z.shiftr_div_pow2, (Z.div_small q), !Z.mod_small by lia. lia.
  - split; [done|]. repeat apply Forall_cons_2; try apply Forall_nil_2;
      try apply cast_fits; unfold fits; lia.
Qed.

Lemma div_small_shifted_witness : word_val (div (word_of 5) (word_of 3)) = 2 ^ 64.
Proof.
  apply (div_small_shifted (word_of 5) (word_of 3));
    try (apply (bool_decide_unpack _); vm_compute; exact I); vm_compute;
    try split; reflexivity.
Defined.
