(* ===== verification/Types.v ===== *)
(** * Accounts and transactions (src/types/account.rs, src/types/transaction.rs)

    [current_timestamp()] is the argument [now] of the operations that read the clock;
    [bincode::serialize] is a parameter of the operations that measure a value. *)

From S2P Require Import Prelude Hashing.

(** ** Account *)

Inductive AccountType : Type := User | Sovereign | System | Bridge.
#[export] Instance AccountType_eq_dec : EqDecision AccountType.
Proof. solve_decision. Defined.

Record Account : Type := mkAccount {
  acc_address : Address;
  balance : Z;
  acc_nonce : Z;
  staked : Z;
  created_at : Z;
  last_activity : Z;
  is_dormant : bool;
  is_validator : bool;
  validator_key : option (list Z);
  account_type : AccountType
}.
#[export] Instance Account_eq_dec : EqDecision Account.
Proof. solve_decision. Defined.

(** The widths of the integer fields ([u128], [u64]). *)
Definition account_ok (a : Account) : Prop :=
  fits 128 (balance a) /\ fits 64 (acc_nonce a) /\ fits 128 (staked a) /\
  fits 64 (created_at a) /\ fits 64 (last_activity a).

Definition with_balance (b : Z) (a : Account) : Account :=
  mkAccount (acc_address a) b (acc_nonce a) (staked a) (created_at a) (last_activity a)
    (is_dormant a) (is_validator a) (validator_key a) (account_type a).
Definition with_nonce (n : Z) (a : Account) : Account :=
  mkAccount (acc_address a) (balance a) n (staked a) (created_at a) (last_activity a)
    (is_dormant a) (is_validator a) (validator_key a) (account_type a).
Definition with_staked (s : Z) (a : Account) : Account :=
  mkAccount (acc_address a) (balance a) (acc_nonce a) s (created_at a) (last_activity a)
    (is_dormant a) (is_validator a) (validator_key a) (account_type a).
Definition with_activity (t : Z) (d : bool) (a : Account) : Account :=
  mkAccount (acc_address a) (balance a) (acc_nonce a) (staked a) (created_at a) t
    d (is_validator a) (validator_key a) (account_type a).
Definition with_validator (v : bool) (k : option (list Z)) (a : Account) : Account :=
  mkAccount (acc_address a) (balance a) (acc_nonce a) (staked a) (created_at a)
    (last_activity a) (is_dormant a) v k (account_type a).
Definition with_type (t : AccountType) (a : Account) : Account :=
  mkAccount (acc_address a) (balance a) (acc_nonce a) (staked a) (created_at a)
    (last_activity a) (is_dormant a) (is_validator a) (validator_key a) t.

Definition account_new (now : Z) (address : Address) (initial_balance : Z) : Account :=
  mkAccount address initial_balance 0 0 now now false false None User.

Definition genesis_sovereign (now : Z) (b : Z) : Account :=
  mkAccount zero_address b 0 0 now now false true None Sovereign.

Definition SIX_YEARS_SECS : Z := 6 * 365 * 24 * 60 * 60.

Definition record_activity (now : Z) (a : Account) : Account := with_activity now false a.

Section AccountOps.
Context `{BP : BuildProfile} {E : Type} (now : Z).

(** [current_time - self.last_activity] is evaluated only for a live account. *)
Definition check_dormancy (current_time : Z) : ST Account E bool :=
  fun a =>
    if is_dormant a then (Ok false, a)
    else match sub_u64 current_time (last_activity a) with
         | Ok idle =>
             if SIX_YEARS_SECS <? idle
             then (Ok true, with_activity (last_activity a) true a)
             else (Ok false, a)
         | Err e => (Err e, a)
         | Panic => (Panic, a)
         | Deadlock => (Deadlock, a)
         end.

Definition increment_nonce : ST Account E Z :=
  do! n := sget acc_nonce in
  do! n' := slift (add_u64 n 1) in
  run! smod (with_nonce n') in
  run! smod (record_activity now) in
  sget acc_nonce.

Definition credit (amount : Z) : ST Account E unit :=
  run! smod (fun a => with_balance (saturating_add 128 (balance a) amount) a) in
  smod (record_activity now).

Definition debit (amount : Z) : ST Account E bool :=
  do! b := sget balance in
  if amount <=? b then
    do! b' := slift (sub_u128 b amount) in
    run! smod (with_balance b') in
    run! smod (record_activity now) in
    sret true
  else sret false.

Definition stake (amount : Z) : ST Account E bool :=
  do! b := sget balance in
  if amount <=? b then
    do! b' := slift (sub_u128 b amount) in
    run! smod (with_balance b') in
    do! s := sget staked in
    do! s' := slift (add_u128 s amount) in
    run! smod (with_staked s') in
    run! smod (record_activity now) in
    sret true
  else sret false.

Definition unstake (amount : Z) : ST Account E bool :=
  do! s := sget staked in
  if amount <=? s then
    do! s' := slift (sub_u128 s amount) in
    run! smod (with_staked s') in
    do! b := sget balance in
    do! b' := slift (add_u128 b amount) in
    run! smod (with_balance b') in
    run! smod (record_activity now) in
    sret true
  else sret false.
End AccountOps.

Definition register_validator (now : Z) (key : list Z) (a : Account) : Account :=
  record_activity now (with_validator true (Some key) a).
Definition unregister_validator (now : Z) (a : Account) : Account :=
  record_activity now (with_validator false None a).
Definition total_wealth (a : Account) : Z := saturating_add 128 (balance a) (staked a).
Definition account_is_empty (a : Account) : bool := (balance a =? 0) && (staked a =? 0).

(** ** Transaction *)

Record Transaction : Type := mkTx {
  tx_from : Address;
  tx_to : Address;
  amount : Z;
  fee : Z;
  tx_nonce : Z;
  signature : list Z;
  tx_timestamp : Z
}.
#[export] Instance Transaction_eq_dec : EqDecision Transaction.
Proof. solve_decision. Defined.

Definition tx_ok (tx : Transaction) : Prop :=
  hash_ok (tx_from tx) /\ hash_ok (tx_to tx) /\ fits 128 (amount tx) /\ fits 128 (fee tx) /\
  fits 64 (tx_nonce tx) /\ Forall byte_ok (signature tx) /\ fits 64 (tx_timestamp tx).

Definition transaction_new (now : Z) (from to : Address) (a f n : Z) : Transaction :=
  mkTx from to a f n [] now.

Definition tx_sign (sig : list Z) (tx : Transaction) : Transaction :=
  mkTx (tx_from tx) (tx_to tx) (amount tx) (fee tx) (tx_nonce tx) sig (tx_timestamp tx).

(** The bytes [sighash] feeds to the hasher. *)
Definition sighash_preimage (tx : Transaction) : list Z :=
  tx_from tx ++ tx_to tx ++ to_le_bytes 16 (amount tx) ++ to_le_bytes 16 (fee tx) ++
  to_le_bytes 8 (tx_nonce tx) ++ to_le_bytes 8 (tx_timestamp tx).

Definition sighash `{Sha3} (tx : Transaction) : Hash := sha3_256 (sighash_preimage tx).
Definition tx_hash `{Sha3} (tx : Transaction) : Hash := sha3_256 (sighash tx ++ signature tx).

Definition total_cost (tx : Transaction) : Z := saturating_add 128 (amount tx) (fee tx).

(** [amount.checked_add(fee).is_none()]. *)
Definition checked_add_none (w a b : Z) : bool := bool_decide (~ fits w (a + b)).

(** The conditions are evaluated in the order of the source, each [||] lazily. *)
Definition validate_basic `{BP : BuildProfile} {E} (now : Z) (max_tx_age_secs : Z)
    (tx : Transaction) : Outcome E bool :=
  if bool_decide (tx_from tx = zero_address) || bool_decide (tx_to tx = zero_address)
     || bool_decide (tx_from tx = tx_to tx) then Ok false
  else if (amount tx =? 0) || checked_add_none 128 (amount tx) (fee tx) then Ok false
  else
    let? limit := add_u64 now 30 in
    if limit <? tx_timestamp tx then Ok false
    else
      let? age := sub_u64 now (tx_timestamp tx) in
      if max_tx_age_secs <? age then Ok false
      else Ok (negb (bool_decide (signature tx = [])) && (Z.of_nat (length (signature tx)) <=? 5000)).

(** ** Lemmas *)

Lemma app_inj_len {A} (a b c d : list A) :
  length a = length c -> a ++ b = c ++ d -> a = c /\ b = d.
Proof. intros Hl H. by apply app_inj_1 in H. Qed.

Lemma sighash_preimage_inj t1 t2 :
  tx_ok t1 -> tx_ok t2 -> sighash_preimage t1 = sighash_preimage t2 ->
  tx_sign [] t1 = tx_sign [] t2.
Proof.
  intros ([Hf1 _] & [Ht1 _] & Ha1 & Hfe1 & Hn1 & _ & Hts1)
         ([Hf2 _] & [Ht2 _] & Ha2 & Hfe2 & Hn2 & _ & Hts2) Heq.
  unfold sighash_preimage in Heq.
  apply app_inj_len in Heq as [Ef Heq]; [|congruence].
  apply app_inj_len in Heq as [Et Heq]; [|congruence].
  apply app_inj_len in Heq as [Ea Heq]; [|by autorewrite with pacyte].
  apply app_inj_len in Heq as [Efe Heq]; [|by autorewrite with pacyte].
  apply app_inj_len in Heq as [En Ets]; [|by autorewrite with pacyte].
  apply to_le_bytes_inj in Ea, Efe, En, Ets; try done.
  unfold tx_sign. congruence.
Qed.

Lemma tx_sign_eq t1 t2 : tx_sign [] t1 = tx_sign [] t2 -> signature t1 = signature t2 -> t1 = t2.
Proof. destruct t1, t2. unfold tx_sign. cbn. congruence. Qed.

Lemma sub_u64_underflow_release {E} a b :
  fits 64 a -> fits 64 b -> a < b ->
  sub_u64 (BP := release_profile) (E := E) a b = Ok (a - b + 2 ^ 64).
Proof.
  unfold fits. intros Ha Hb Hlt. unfold sub_u64, arith. rewrite decide_False by (unfold fits; lia).
  cbn -[Z.pow Z.modulo]. f_equal. symmetry. apply Z.mod_unique_pos with (q := -1); lia.
Qed.

(** ** Properties *)

(** [stake] moves exactly [amount] from the free to the staked balance when the
    balance covers it and changes nothing otherwise; [unstake] of the same amount then
    restores both, in either build profile, as long as the account's wealth fits in a
    [u128]. *)
Theorem stake_unstake_roundtrip `{BP : BuildProfile} {E} (now amt : Z) (a : Account) :
  account_ok a -> fits 128 amt -> fits 128 (balance a + staked a) ->
  if amt <=? balance a then
    exists a' a'',
      stake (E := E) now amt a = (Ok true, a') /\
      balance a' = balance a - amt /\ staked a' = staked a + amt /\
      unstake (E := E) now amt a' = (Ok true, a'') /\
      balance a'' = balance a /\ staked a'' = staked a /\ acc_nonce a'' = acc_nonce a
  else stake (E := E) now amt a = (Ok false, a).
Proof.
  intros (Hb & _ & Hs & _) Ha Hw. unfold fits in *.
  unfold stake, unstake, sbind, sget, slift, smod, sret, sub_u128, add_u128. cbn -[Z.pow].
  destruct (Z.leb_spec amt (balance a)) as [Hle|]; [|done].
  rewrite !arith_fits by (unfold fits; lia). cbn -[Z.pow].
  eexists _, _. split; [reflexivity|]. cbn -[Z.pow].
  rewrite (proj2 (Z.leb_le _ _)) by lia. cbn -[Z.pow].
  rewrite !arith_fits by (unfold fits; lia). cbn -[Z.pow].
  split; [done|split; [done|split; [reflexivity|]]]. cbn. lia.
Qed.

Lemma stake_unstake_roundtrip_witness :
  exists a' a'',
    stake (BP := release_profile) (E := unit) 9 40 (account_new 5 zero_address 100) = (Ok true, a') /\
    balance a' = 60 /\ staked a' = 40 /\
    unstake (BP := release_profile) (E := unit) 9 40 a' = (Ok true, a'') /\
    balance a'' = 100 /\ staked a'' = 0 /\ acc_nonce a'' = 0.
Proof.
  apply (stake_unstake_roundtrip (BP := release_profile) (E := unit) 9 40
           (account_new 5 zero_address 100)); vm_compute; repeat split; congruence.
Defined.

(** Transaction hashes bind every field: two well-formed transactions with the same
    [hash()] are equal, or the messages hashed for the two clash, the signed ones or those under
    the [sighash()]; likewise equal [sighash()]es of transactions that differ outside their
    signatures are a clash of the two hashed messages. *)
Theorem tx_hash_binding `{Sha3} (t1 t2 : Transaction) :
  tx_ok t1 -> tx_ok t2 ->
  (tx_hash t1 = tx_hash t2 -> t1 = t2 \/ clash sha3_256 (sighash t1 ++ signature t1) (sighash t2 ++ signature t2)
     \/ clash sha3_256 (sighash_preimage t1) (sighash_preimage t2)) /\
  (sighash t1 = sighash t2 -> tx_sign [] t1 = tx_sign [] t2 \/ clash sha3_256 (sighash_preimage t1) (sighash_preimage t2)).
Proof.
  intros H1 H2.
  assert (Hsig : sighash t1 = sighash t2 -> tx_sign [] t1 = tx_sign [] t2 \/ clash sha3_256 (sighash_preimage t1) (sighash_preimage t2)).
  { intros Heq. destruct (decide (sighash_preimage t1 = sighash_preimage t2)) as [Hp|Hp].
    - left. by apply sighash_preimage_inj.
    - by right. }
  split; [|done]. unfold tx_hash. intros Heq.
  destruct (decide (sighash t1 ++ signature t1 = sighash t2 ++ signature t2)) as [Hp|Hp].
  - apply app_inj_len in Hp as [Hs Hg].
    + destruct (Hsig Hs) as [Hf|]; [|by right; right]. left. by apply tx_sign_eq.
    + unfold sighash. by rewrite !(proj1 (sha3_256_ok _)).
  - right. by left.
Qed.

Lemma tx_hash_binding_witness :
  let t := transaction_new 7 zero_address (replicate 32 1) 10 1 0 in
  tx_ok t /\ t = t.
Proof.
  assert (Ht : tx_ok (transaction_new 7 zero_address (replicate 32 1) 10 1 0)).
  { split; [apply (bool_decide_unpack _); vm_compute; exact I|].
    split; [apply (bool_decide_unpack _); vm_compute; exact I|].
    vm_compute. repeat split; try congruence. constructor. }
  split; [exact Ht|].
  destruct (proj1 (@tx_hash_binding toy_sha3 _ _ Ht Ht) eq_refl) as [He|[[Hne _]|[Hne _]]]; [exact He|by destruct Hne|by destruct Hne].
Defined.

(** The clock-skew allowance of [validate_basic] is dead: a transaction that passes the
    static checks and is stamped 1 to 30 seconds ahead of [now] underflows
    [now - timestamp], which panics in a debug build and in a release build wraps to an
    age above every limit below 2^64 - 30, so the transaction is refused; one that is not
    stamped ahead is accepted exactly when its age and its signature length are in range. *)
Theorem validate_basic_clock {E} (now max_age : Z) (tx : Transaction) :
  tx_ok tx -> fits 64 (now + 30) -> 0 <= now -> 0 <= max_age < 2 ^ 64 - 30 ->
  tx_from tx <> zero_address -> tx_to tx <> zero_address -> tx_from tx <> tx_to tx ->
  amount tx <> 0 -> fits 128 (amount tx + fee tx) ->
  (now < tx_timestamp tx <= now + 30 ->
     validate_basic (BP := debug_profile) (E := E) now max_age tx = Panic /\
     validate_basic (BP := release_profile) (E := E) now max_age tx = Ok false) /\
  (tx_timestamp tx <= now ->
     forall BP : BuildProfile,
     validate_basic (E := E) now max_age tx =
     Ok (bool_decide (now - tx_timestamp tx <= max_age
                      /\ signature tx <> [] /\ Z.of_nat (length (signature tx)) <= 5000))).
Proof.
  intros (_ & _ & _ & _ & _ & _ & Hts) H30 Hnow Hmax Hf Ht Hft Ha Hc.
  assert (Hpre : forall BP : BuildProfile, validate_basic (E := E) now max_age tx =
    if now + 30 <? tx_timestamp tx then Ok false
    else let? age := sub_u64 now (tx_timestamp tx) in
         if max_age <? age then Ok false
         else Ok (negb (bool_decide (signature tx = []))
                  && (Z.of_nat (length (signature tx)) <=? 5000))).
  { intros BP. unfold validate_basic, checked_add_none, add_u64.
    rewrite !bool_decide_eq_false_2, (proj2 (Z.eqb_neq _ _)) by (tauto || done).
    cbn [orb]. by rewrite arith_fits. }
  unfold fits in *. rewrite !Hpre. split.
  - intros Hfut. rewrite (proj2 (Z.ltb_ge _ _)) by lia.
    rewrite sub_u64_underflow_release by (unfold fits; lia).
    unfold sub_u64, arith. rewrite decide_False by (unfold fits; lia).
    split; [done|]. cbn -[Z.pow]. by rewrite (proj2 (Z.ltb_lt _ _)) by lia.
  - intros Hpast BP. rewrite Hpre, (proj2 (Z.ltb_ge _ _)) by lia.
    unfold sub_u64. rewrite arith_fits by (unfold fits; lia). cbn -[Z.pow].
    destruct (Z.ltb_spec max_age (now - tx_timestamp tx)); f_equal.
    + rewrite bool_decide_eq_false_2; [done|]. lia.
    + destruct (signature tx) as [|s0 sig] eqn:Hsig.
      * rewrite (bool_decide_eq_false_2 (_ /\ _)); [done|]. tauto.
      * rewrite (bool_decide_eq_false_2 (_ = _)) by done. cbn [negb andb].
        apply eq_true_iff_eq. rewrite bool_decide_eq_true, Z.leb_le. naive_solver.
Qed.

Lemma validate_basic_clock_witness :
  validate_basic (BP := release_profile) (E := unit) 1000 3600
    (mkTx (replicate 32 1) (replicate 32 2) 10 1 0 [7] 1005) = Ok false.
Proof.
  refine (proj2 (proj1 (validate_basic_clock (E := unit) 1000 3600
    (mkTx (replicate 32 1) (replicate 32 2) 10 1 0 [7] 1005) _ _ _ _ _ _ _ _ _) _)).
  - split; [apply (bool_decide_unpack _); vm_compute; exact I|].
    split; [apply (bool_decide_unpack _); vm_compute; exact I|].
    repeat split; try (vm_compute; congruence).
    apply (bool_decide_unpack _); vm_compute; exact I.
  - vm_compute; split; congruence.
  - vm_compute; congruence.
  - vm_compute; split; congruence.
  - vm_compute; congruence.
  - vm_compute; congruence.
  - vm_compute; congruence.
  - vm_compute; congruence.
  - vm_compute; split; congruence.
  - vm_compute; split; congruence.
Defined.
