(* ===== verification/Merkle.v ===== *)
(** * Merkle trees (src/crypto/merkle.rs, src/crypto/hash.rs)

    [MerkleTree], [MerkleProof] and [SparseMerkleTree].  The [while] loop that climbs the
    tree is [climb], whose fuel is the number of leaves; [climb_fuel] shows that any larger
    fuel gives the same levels and [climb_last] that the loop ended because one node is
    left. *)

From S2P Require Import Prelude Hashing.

Section Merkle.
Context `{S3 : Sha3} {E : Type}.

Definition hash_merkle_pair (left right : Hash) : Hash := sha3_256 (left ++ right).

(** The body of the loop: [for chunk in current_level.chunks(2)]. *)
Fixpoint next_level (level : list Hash) : list Hash :=
  match level with
  | a :: b :: rest => hash_merkle_pair a b :: next_level rest
  | [a] => [hash_merkle_pair a a]
  | [] => []
  end.

(** [while current_level.len() > 1]: the levels the loop pushes. *)
Fixpoint climb (fuel : nat) (level : list Hash) : list (list Hash) :=
  match fuel with
  | O => []
  | S fuel' =>
      if (length level <=? 1)%nat then []
      else next_level level :: climb fuel' (next_level level)
  end.

Record MerkleTree : Type := mkTree {
  levels : list (list Hash);
  leaf_count : nat;
  tree_root : Hash
}.

Definition merkle_new (leaves : list Hash) : MerkleTree :=
  match leaves with
  | [] => mkTree [[]] 0 zero_hash
  | _ =>
      let lvls := leaves :: climb (length leaves) leaves in
      let current_level := default [] (last lvls) in
      mkTree lvls (length leaves) (default zero_hash (head current_level))
  end.

Definition from_transactions (txs : list (list Z)) : MerkleTree :=
  merkle_new (map sha3_256 txs).

Record ProofNode : Type := mkNode { node_hash : Hash; is_left_sibling : bool }.
Record MerkleProof : Type := mkProof {
  leaf_index : nat;
  leaf_hash : Hash;
  proof_nodes : list ProofNode;
  proof_root : Hash
}.

(** One iteration of the loop of [generate_proof] at one level. *)
Definition proof_node (level : list Hash) (idx : nat) : Outcome E ProofNode :=
  let is_left := Nat.even idx in
  let sibling_index := if is_left then (idx + 1)%nat else (idx - 1)%nat in
  if (sibling_index <? length level)%nat then
    let? h := index level sibling_index in Ok (mkNode h (negb is_left))
  else
    let? h := index level idx in Ok (mkNode h false).

(** [for level in 0..self.levels.len() - 1]. *)
Fixpoint proof_path (lvls : list (list Hash)) (idx : nat) : Outcome E (list ProofNode) :=
  match lvls with
  | level :: ((_ :: _) as above) =>
      let? node := proof_node level idx in
      let? rest := proof_path above (idx / 2) in
      Ok (node :: rest)
  | _ => Ok []
  end.

Definition generate_proof (t : MerkleTree) (idx : nat) : Outcome E (option MerkleProof) :=
  if (leaf_count t <=? idx)%nat then Ok None
  else
    let? nodes := proof_path (levels t) idx in
    let? level0 := index (levels t) 0 in
    let? leaf := index level0 idx in
    Ok (Some (mkProof idx leaf nodes (tree_root t))).

Definition verify_step (current : Hash) (node : ProofNode) : Hash :=
  if is_left_sibling node then hash_merkle_pair (node_hash node) current
  else hash_merkle_pair current (node_hash node).

Definition proof_verify (p : MerkleProof) : bool :=
  bool_decide (foldl verify_step (leaf_hash p) (proof_nodes p) = proof_root p).

Definition proof_size (p : MerkleProof) : nat :=
  (length (proof_nodes p) * 32 + 32 + 8 + 32)%nat.

Definition tree_verify (t : MerkleTree) : Outcome E bool :=
  if (leaf_count t =? 0)%nat then Ok (bool_decide (tree_root t = zero_hash))
  else
    let? level0 := index (levels t) 0 in
    Ok (bool_decide (tree_root (merkle_new level0) = tree_root t)).

Definition tree_contains (t : MerkleTree) (h : Hash) : Outcome E bool :=
  let? level0 := index (levels t) 0 in Ok (bool_decide (h ∈ level0)).

(** ** Structure of the levels *)

Lemma next_level_length level : length (next_level level) = ((length level + 1) / 2)%nat.
Proof.
  induction level as [|a|a b rest IH] using list_pair_ind; [done|done|].
  cbn [next_level length]. rewrite IH.
  replace (S (S (length rest)) + 1)%nat with (length rest + 1 + 1 * 2)%nat by lia.
  rewrite Nat.div_add by lia. lia.
Qed.

Lemma next_level_shrinks level :
  (1 < length level)%nat -> (0 < length (next_level level) < length level)%nat.
Proof.
  intros H. rewrite next_level_length. split.
  - apply Nat.div_str_pos. lia.
  - apply Nat.Div0.div_lt_upper_bound; lia.
Qed.

(** Any fuel at least the number of nodes gives the same levels. *)
Lemma climb_fuel f1 f2 level :
  (length level <= f1)%nat -> (length level <= f2)%nat -> climb f1 level = climb f2 level.
Proof.
  revert f2 level; induction f1 as [|f1 IH]; intros f2 level H1 H2.
  { destruct level; [|cbn in *; lia]. by destruct f2. }
  destruct f2 as [|f2]; [by destruct level; [|cbn in *; lia]|].
  cbn [climb]. case_match eqn:Hl; [done|]. apply Nat.leb_gt in Hl.
  pose proof (next_level_shrinks level Hl). f_equal. apply IH; lia.
Qed.

Definition climb_all (level : list Hash) : list (list Hash) := climb (length level) level.

Lemma climb_all_step level :
  (1 < length level)%nat ->
  climb_all level = next_level level :: climb_all (next_level level).
Proof.
  intros H. pose proof (next_level_shrinks level H). unfold climb_all.
  destruct (length level) as [|n] eqn:Hn; [lia|]. cbn [climb].
  rewrite Hn, (proj2 (Nat.leb_gt _ _)) by lia. f_equal. apply climb_fuel; lia.
Qed.

Lemma climb_all_stop level : (length level <= 1)%nat -> climb_all level = [].
Proof.
  intros H. unfold climb_all. destruct (length level) as [|n] eqn:Hn; [done|].
  cbn [climb]. by rewrite Hn, (proj2 (Nat.leb_le _ _)) by lia.
Qed.

Lemma next_level_even l1 l2 :
  Nat.even (length l1) = true -> next_level (l1 ++ l2) = next_level l1 ++ next_level l2.
Proof.
  induction l1 as [|a|a b l1 IH] using list_pair_ind; [done|done|].
  intros He. cbn [app next_level]. by rewrite IH.
Qed.

(** The node above node [i]: its pair, or the node with itself at an odd end. *)
Lemma next_level_lookup level i h :
  level !! i = Some h ->
  next_level level !! (i / 2)%nat =
  Some (if Nat.even i then hash_merkle_pair h (default h (level !! S i))
        else hash_merkle_pair (default h (level !! (i - 1)%nat)) h).
Proof.
  revert i; induction level as [|a|a b level IH] using list_pair_ind; intros i Hi; [done| |].
  { destruct i; [|done]. injection Hi as <-. done. }
  destruct i as [|[|i]]; [by injection Hi as <-|by injection Hi as <-|].
  replace (S (S i) / 2)%nat with (S (i / 2))
    by (replace (S (S i)) with (i + 1 * 2)%nat by lia; rewrite Nat.div_add; lia).
  cbn [next_level]. rewrite lookup_cons_ne_0 by lia. cbn [Nat.pred]. rewrite (IH i Hi).
  change (Nat.even (S (S i))) with (Nat.even i). destruct (Nat.even i) eqn:He; [done|].
  destruct i as [|i]; [done|]. cbn [Nat.sub]. by rewrite Nat.sub_0_r.
Qed.

Lemma last_climb_cons level :
  last (level :: climb_all level) =
  if (length level <=? 1)%nat then Some level
  else last (next_level level :: climb_all (next_level level)).
Proof.
  destruct (Nat.leb_spec (length level) 1) as [Hl|Hl].
  - by rewrite climb_all_stop.
  - by rewrite climb_all_step.
Qed.

(** The root of a non-empty forest of nodes is defined level by level. *)
Definition root_of (level : list Hash) : Hash :=
  default zero_hash (head (default [] (last (level :: climb_all level)))).

Lemma root_of_step level : (1 < length level)%nat -> root_of level = root_of (next_level level).
Proof.
  intros H. unfold root_of. by rewrite last_climb_cons, (proj2 (Nat.leb_gt _ _)).
Qed.

Lemma root_of_single h : root_of [h] = h.
Proof. reflexivity. Qed.

Lemma merkle_new_cons leaves :
  leaves <> [] ->
  merkle_new leaves = mkTree (leaves :: climb_all leaves) (length leaves) (root_of leaves).
Proof. by destruct leaves. Qed.

(** ** Completeness of proofs *)

Lemma proof_node_spec level i h :
  level !! i = Some h ->
  exists node, proof_node level i = Ok node /\
    Some (verify_step h node) = next_level level !! (i / 2)%nat.
Proof.
  intros Hi. rewrite (next_level_lookup level i h Hi). unfold proof_node, index.
  pose proof (lookup_lt_Some _ _ _ Hi) as Hlt. destruct (Nat.even i) eqn:He.
  - rewrite Nat.add_1_r. destruct (level !! S i) as [s|] eqn:Hs.
    + rewrite (proj2 (Nat.ltb_lt _ _)) by (by eapply lookup_lt_Some). eexists; by split.
    + rewrite (proj2 (Nat.ltb_ge _ _)) by (by apply lookup_ge_None). rewrite Hi.
      eexists; by split.
  - destruct i as [|i]; [done|]. replace (S i - 1)%nat with i by lia.
    rewrite (proj2 (Nat.ltb_lt _ _)) by lia.
    destruct (lookup_lt_is_Some_2 level i) as [s Hs]; [lia|]. rewrite Hs.
    eexists; by split.
Qed.

Lemma proof_path_cons level above levels' i :
  proof_path (level :: above :: levels') i =
  let? node := proof_node level i in
  let? rest := proof_path (above :: levels') (i / 2) in
  Ok (node :: rest).
Proof. reflexivity. Qed.

Lemma proof_path_spec n level i h :
  (length level <= n)%nat -> level !! i = Some h ->
  exists nodes, proof_path (level :: climb_all level) i = Ok nodes /\
    foldl verify_step h nodes = root_of level.
Proof.
  revert level i h; induction n as [|n IH]; intros level i h Hn Hi.
  { destruct level; [done|cbn in Hn; lia]. }
  destruct (Nat.le_gt_cases (length level) 1) as [Hl|Hl].
  - rewrite climb_all_stop by done. exists []. split; [done|].
    destruct level as [|x [|]]; [done| |cbn in Hl; lia]. destruct i; [|done].
    by injection Hi as ->.
  - rewrite climb_all_step, proof_path_cons by done.
    destruct (proof_node_spec level i h Hi) as (node & -> & Hup). cbn [obind].
    pose proof (next_level_shrinks level Hl).
    destruct (IH (next_level level) (i / 2)%nat (verify_step h node)) as (nodes & -> & Hf);
      [lia|done|]. cbn [obind]. exists (node :: nodes). split; [done|].
    by rewrite root_of_step.
Qed.

Lemma generate_proof_complete leaves i h :
  leaves !! i = Some h ->
  exists nodes, generate_proof (merkle_new leaves) i
                = Ok (Some (mkProof i h nodes (root_of leaves))) /\
    foldl verify_step h nodes = root_of leaves.
Proof.
  intros Hi. rewrite merkle_new_cons by (by destruct leaves).
  unfold generate_proof. cbn [leaf_count levels tree_root].
  pose proof (lookup_lt_Some _ _ _ Hi). rewrite (proj2 (Nat.leb_gt _ _)) by lia.
  destruct (proof_path_spec (length leaves) leaves i h) as (nodes & -> & Hf); [done..|].
  cbn [obind]. unfold index. cbn [lookup list_lookup obind]. rewrite Hi. by exists nodes.
Qed.

(** ** Binding: a proof fixes the leaf *)

(** What [verify] hashes, level by level. *)
Definition step_message (current : Hash) (node : ProofNode) : list Z :=
  if is_left_sibling node then node_hash node ++ current else current ++ node_hash node.
Fixpoint path_messages (current : Hash) (nodes : list ProofNode) : list (list Z) :=
  match nodes with
  | [] => []
  | node :: rest => step_message current node :: path_messages (verify_step current node) rest
  end.
Lemma verify_step_message h n : verify_step h n = sha3_256 (step_message h n).
Proof. unfold verify_step, step_message. by destruct (is_left_sibling n). Qed.

(** Two verifications clash at level [k]: there they hash different messages to one digest. *)
Definition paths_clash (h1 h2 : Hash) (n1 n2 : list ProofNode) : Prop :=
  exists k m1 m2, path_messages h1 n1 !! k = Some m1 /\ path_messages h2 n2 !! k = Some m2 /\ clash sha3_256 m1 m2.

Lemma step_message_inj h1 h2 n1 n2 :
  length h1 = length h2 -> is_left_sibling n1 = is_left_sibling n2 -> length (node_hash n1) = length (node_hash n2) ->
  step_message h1 n1 = step_message h2 n2 -> h1 = h2 /\ n1 = n2.
Proof.
  intros Hl Hd Hln. unfold step_message. rewrite Hd. destruct n1 as [x1 d1], n2 as [x2 d2]; cbn in *; subst d2.
  intros Hm. destruct d1; apply app_inj_1 in Hm as [-> ->]; done.
Qed.

Lemma verify_step_len h n : length (verify_step h n) = 32%nat.
Proof. unfold verify_step, hash_merkle_pair. case_match; apply sha3_256_ok. Qed.

Lemma verify_path_inj n1 n2 h1 h2 :
  length h1 = length h2 ->
  Forall (fun n => length (node_hash n) = 32%nat) n1 ->
  Forall (fun n => length (node_hash n) = 32%nat) n2 ->
  map is_left_sibling n1 = map is_left_sibling n2 ->
  foldl verify_step h1 n1 = foldl verify_step h2 n2 ->
  (h1 = h2 /\ n1 = n2) \/ paths_clash h1 h2 n1 n2.
Proof.
  revert n2 h1 h2; induction n1 as [|x1 n1 IH]; intros [|x2 n2] h1 h2 Hl F1 F2 Hd Hf;
    try discriminate; [by left|].
  apply Forall_cons_1 in F1 as [L1 F1], F2 as [L2 F2]. injection Hd as Hd0 Hd. cbn [foldl] in Hf.
  destruct (IH n2 (verify_step h1 x1) (verify_step h2 x2)) as [[Hs ->]|(k & m1 & m2 & H1 & H2 & Hc)]; auto.
  { by rewrite !verify_step_len. }
  - destruct (decide (step_message h1 x1 = step_message h2 x2)) as [Hm|Hm].
    + left. apply step_message_inj in Hm as [-> ->]; try done. congruence.
    + right. exists 0%nat. do 2 eexists. split; [reflexivity|]. split; [reflexivity|]. split; [done|]. by rewrite <- !verify_step_message.
  - right. by exists (S k), m1, m2.
Qed.

(** ** Sparse Merkle tree *)

Record SparseMerkleTree : Type := mkSparse { smt_root : Hash; default_hashes : list Hash }.

(** [default_hashes[0..=256]] and the running [current]. *)
Definition smt_defaults : list Hash * Hash :=
  foldl (fun '(defaults, current) (_ : nat) =>
           let current' := hash_merkle_pair current current in
           (defaults ++ [current'], current'))
        ([zero_hash], zero_hash) (seq 0 256).

Definition smt_new : SparseMerkleTree :=
  mkSparse (smt_defaults.1 !!! 256%nat) smt_defaults.1.

(** [(path[31 - depth / 8] >> (7 - (depth % 8))) & 1]. *)
Definition path_bit (path : Hash) (depth : nat) : Z :=
  Z.land (Z.shiftr (path !!! (31 - depth / 8)%nat) (Z.of_nat (7 - depth mod 8))) 1.

Definition smt_node (t : SparseMerkleTree) (key value : Hash) : Hash :=
  foldl (fun node (depth : nat) =>
           if path_bit key depth =? 0
           then hash_merkle_pair node (default_hashes t !!! depth)
           else hash_merkle_pair (default_hashes t !!! depth) node)
        value (seq 0 256).

(** [for i in 0..32 { current_root[i] ^= node[i]; }]. *)
Definition xor_hash (a b : Hash) : Hash := zip_with Z.lxor a b.

Definition root_from_updates (t : SparseMerkleTree) (updates : list (Hash * Hash)) : Hash :=
  match updates with
  | [] => smt_root t
  | _ => foldl (fun current_root '(key, value) => xor_hash current_root (smt_node t key value))
               (smt_root t) updates
  end.

Lemma root_from_updates_fold t us :
  root_from_updates t us =
  foldl (fun r '(k, v) => xor_hash r (smt_node t k v)) (smt_root t) us.
Proof. by destruct us. Qed.

Lemma smt_node_len t k v : length (smt_node t k v) = 32%nat.
Proof.
  unfold smt_node. rewrite (seq_app 255 1), foldl_app.
  generalize (foldl (fun node depth => if path_bit k depth =? 0
    then hash_merkle_pair node (default_hashes t !!! depth)
    else hash_merkle_pair (default_hashes t !!! depth) node) v (seq 0 255)) as x.
  intros x. cbn [seq foldl]. case_match; apply sha3_256_ok.
Qed.

Lemma xor_hash_comm_r r a b : xor_hash (xor_hash r a) b = xor_hash (xor_hash r b) a.
Proof.
  revert a b; induction r as [|x r IH]; intros [|y a] [|z b]; try done.
  cbn. f_equal; [|apply IH]. by rewrite !Z.lxor_assoc, (Z.lxor_comm y z).
Qed.

Lemma xor_hash_cancel r a : (length r <= length a)%nat -> xor_hash (xor_hash r a) a = r.
Proof.
  revert a; induction r as [|x r IH]; intros [|y a] H; cbn in *; try done; [lia|].
  f_equal; [|apply IH; lia]. by rewrite Z.lxor_assoc, Z.lxor_nilpotent, Z.lxor_0_r.
Qed.

Lemma fold_updates_perm t us1 us2 r :
  us1 ≡ₚ us2 ->
  foldl (fun r '(k, v) => xor_hash r (smt_node t k v)) r us1 =
  foldl (fun r '(k, v) => xor_hash r (smt_node t k v)) r us2.
Proof.
  intros HP; revert r; induction HP as [|[k v] l1 l2 _ IH|[k1 v1] [k2 v2] l|l1 l2 l3 _ IH1 _ IH2];
    intros r; cbn [foldl]; [done|apply IH|by rewrite xor_hash_comm_r|by rewrite IH1, IH2].
Qed.

Lemma fold_updates_twice t us r :
  length r = 32%nat ->
  foldl (fun r '(k, v) => xor_hash r (smt_node t k v)) r (us ++ us) = r.
Proof.
  revert r; induction us as [|[k v] us IH]; intros r Hr; [done|].
  rewrite (fold_updates_perm t _ ((k, v) :: (k, v) :: us ++ us)).
  - cbn [foldl]. rewrite xor_hash_cancel by (rewrite smt_node_len; lia). by apply IH.
  - cbn [app]. constructor. by rewrite Permutation_middle.
Qed.

End Merkle.

(** ** Properties *)

(** Every level is [next_level] of the one below and the last one is a single node. *)
Inductive tree_levels `{Sha3} : list (list Hash) -> Hash -> Prop :=
| levels_root h : tree_levels [[h]] h
| levels_up l rest h :
    (1 < length l)%nat -> tree_levels (next_level l :: rest) h ->
    tree_levels (l :: next_level l :: rest) h.

Lemma climb_all_levels `{Sha3} n l :
  (length l <= n)%nat -> l <> [] -> tree_levels (l :: climb_all l) (root_of l).
Proof.
  revert l; induction n as [|n IH]; intros l Hn Hne; [by destruct l; [|cbn in *; lia]|].
  destruct (Nat.le_gt_cases (length l) 1) as [Hl|Hl].
  - rewrite climb_all_stop by done. destruct l as [|x [|]]; [done| |cbn in *; lia].
    rewrite root_of_single. constructor.
  - pose proof (next_level_shrinks l Hl). rewrite climb_all_step, root_of_step by done.
    constructor; [done|]. apply IH; [lia|]. destruct (next_level l); [cbn in *; lia|done].
Qed.

(** [MerkleTree::new] terminates with a well-formed tree for every non-empty list of
    leaves: level 0 is the list, each level pairs the one below, the last level is the
    single root, and [verify] accepts the tree. *)
Theorem merkle_new_well_formed `{Sha3} {E} (leaves : list Hash) :
  leaves <> [] ->
  let t := merkle_new leaves in
  levels t !! 0%nat = Some leaves /\ leaf_count t = length leaves /\
  tree_levels (levels t) (tree_root t) /\ tree_verify (E := E) t = Ok true.
Proof.
  intros Hne. rewrite merkle_new_cons by done. cbn [levels leaf_count tree_root].
  repeat split; [by eapply climb_all_levels|].
  unfold tree_verify. cbn [levels leaf_count tree_root].
  destruct (Nat.eqb_spec (length leaves) 0) as [H0|]; [by destruct leaves|].
  unfold index. cbn. by rewrite merkle_new_cons, bool_decide_eq_true_2.
Qed.

Lemma merkle_new_well_formed_witness :
  leaf_count (@merkle_new toy_sha3 [zero_hash; zero_hash; zero_hash]) = 3%nat.
Proof.
  exact (proj1 (proj2 (@merkle_new_well_formed toy_sha3 unit
           [zero_hash; zero_hash; zero_hash] ltac:(discriminate)))).
Defined.

(** C10. Merkle proofs are complete: for every tree and every leaf index [generate_proof]
    returns, without an out-of-bounds access, a proof of that leaf against the tree's root
    that [verify] accepts; for an index past the leaves it returns [None]. *)
Theorem merkle_proof_complete `{Sha3} {E} (leaves : list Hash) (i : nat) :
  match leaves !! i with
  | Some h =>
      exists p, generate_proof (E := E) (merkle_new leaves) i = Ok (Some p) /\
        leaf_index p = i /\ leaf_hash p = h /\
        proof_root p = tree_root (merkle_new leaves) /\ proof_verify p = true
  | None => generate_proof (E := E) (merkle_new leaves) i = Ok None
  end.
Proof.
  destruct (leaves !! i) as [h|] eqn:Hi.
  - destruct (generate_proof_complete (E := E) leaves i h Hi) as (nodes & Hg & Hf).
    eexists; split; [exact Hg|]. cbn. rewrite merkle_new_cons by (by destruct leaves).
    repeat split. unfold proof_verify. cbn. by rewrite bool_decide_eq_true_2.
  - apply lookup_ge_None in Hi. unfold generate_proof.
    destruct leaves as [|x l]; [done|]. cbn [merkle_new leaf_count].
    by rewrite (proj2 (Nat.leb_le _ _)).
Qed.

(** C12. Merkle proofs are sound up to a clash that the two proofs show: a proof that [verify] accepts against
    the root of a tree, with the left/right directions of the tree's own proof for leaf
    [i] and 32-byte hashes, proves exactly leaf [i] with the same path; otherwise, at some level, the
    message that verifying it hashes and the one that verifying the tree's own proof hashes are
    different and have the same SHA3-256 digest. *)
Theorem merkle_proof_sound `{Sha3} {E} (leaves : list Hash) (i : nat) (p q : MerkleProof) :
  generate_proof (E := E) (merkle_new leaves) i = Ok (Some q) ->
  length (leaf_hash p) = length (leaf_hash q) ->
  Forall (fun n => length (node_hash n) = 32%nat) (proof_nodes p ++ proof_nodes q) ->
  map is_left_sibling (proof_nodes p) = map is_left_sibling (proof_nodes q) ->
  proof_root p = tree_root (merkle_new leaves) -> proof_verify p = true ->
  (leaves !! i = Some (leaf_hash p) /\ proof_nodes p = proof_nodes q)
  \/ paths_clash (leaf_hash p) (leaf_hash q) (proof_nodes p) (proof_nodes q).
Proof.
  intros Hq Hlen HF Hdir Hroot Hver. apply Forall_app in HF as [Fp Fq].
  pose proof (merkle_proof_complete (E := E) leaves i) as Hc.
  destruct (leaves !! i) as [h|] eqn:Hi; [|congruence].
  destruct Hc as (q' & Hq' & _ & Hlq & Hrq & Hvq). rewrite Hq in Hq'. injection Hq' as <-.
  unfold proof_verify in Hver, Hvq. apply bool_decide_eq_true in Hver, Hvq.
  destruct (verify_path_inj (proof_nodes p) (proof_nodes q) (leaf_hash p) (leaf_hash q))
    as [[Hl Hn]|Hcol]; [done..|congruence| |by right].
  left. split; [congruence|done].
Qed.

Definition three_leaves : list Hash := [zero_hash; replicate 32 1; replicate 32 2].
Definition second_proof : MerkleProof :=
  match generate_proof (E := unit) (@merkle_new toy_sha3 three_leaves) 1 with
  | Ok (Some q) => q | _ => mkProof 0 [] [] [] end.
Lemma merkle_proof_sound_witness : three_leaves !! 1%nat = Some (leaf_hash second_proof).
Proof.
  destruct (@merkle_proof_sound toy_sha3 unit three_leaves 1 second_proof second_proof) as [[Hl _]|(k & m1 & m2 & H1 & H2 & Hne & _)];
    [vm_compute; reflexivity|reflexivity|apply (bool_decide_unpack _); vm_compute; exact I|reflexivity|vm_compute; reflexivity
    |vm_compute; reflexivity|exact Hl|].
  destruct Hne. rewrite H1 in H2. by injection H2.
Defined.

(** The root does not determine the leaves: for any odd number (at least 3) of leaves,
    repeating the last one gives a different list with the same root, because
    [MerkleTree::new] pairs an unpaired node with itself.  No hash collision is involved. *)
Theorem merkle_root_duplicate_leaf `{Sha3} (l : list Hash) (x : Hash) :
  Nat.even (length l) = true -> l <> [] ->
  l ++ [x] <> l ++ [x; x] /\
  tree_root (merkle_new (l ++ [x])) = tree_root (merkle_new (l ++ [x; x])).
Proof.
  intros He Hne. split; [intros Heq; by apply app_inv_head in Heq|].
  assert (2 <= length l)%nat by (destruct l as [|? [|]]; cbn in *; (done || lia)).
  rewrite !merkle_new_cons by (destruct l; done). cbn [tree_root].
  rewrite (root_of_step (l ++ [x])), (root_of_step (l ++ [x; x]))
    by (rewrite length_app; cbn; lia).
  by rewrite !next_level_even by done.
Qed.

Lemma merkle_root_duplicate_leaf_witness :
  tree_root (@merkle_new toy_sha3 [zero_hash; replicate 32 1; replicate 32 2]) =
  tree_root (@merkle_new toy_sha3 [zero_hash; replicate 32 1; replicate 32 2; replicate 32 2]).
Proof.
  exact (proj2 (@merkle_root_duplicate_leaf toy_sha3 [zero_hash; replicate 32 1] (replicate 32 2)
           eq_refl ltac:(discriminate))).
Defined.

Lemma smt_defaults_shape `{Sha3} :
  length smt_defaults.1 = 257%nat /\ Forall (fun h => length h = 32%nat) smt_defaults.1.
Proof.
  unfold smt_defaults. change 257%nat with (S (length (seq 0 256))).
  generalize (seq 0 256) as l. intros l.
  assert (Hgen : forall d c, Forall (fun h : Hash => length h = 32%nat) d ->
    let r := (foldl (fun '(defaults, current) (_ : nat) =>
                let current' := hash_merkle_pair current current in
                (defaults ++ [current'], current')) (d, c) l).1 in
    length r = (length d + length l)%nat /\ Forall (fun h => length h = 32%nat) r).
  { induction l as [|y l IH]; intros d c Hd; cbn [foldl].
    - cbn. split; [lia|done].
    - cbv zeta in IH |- *.
      destruct (IH (d ++ [hash_merkle_pair c c]) (hash_merkle_pair c c)) as [Hl HF].
      + apply Forall_app. split; [done|]. apply Forall_singleton. apply sha3_256_ok.
      + split; [rewrite Hl, length_app; cbn; lia|done]. }
  destruct (Hgen [zero_hash] zero_hash) as [Hl HF]; [by apply Forall_singleton|].
  by split.
Qed.

(** [SparseMerkleTree::root_from_updates] is not a state commitment: the result does not
    depend on the order of the updates, and applying a batch of updates twice gives back
    the root of the empty tree, since the per-key nodes are combined with XOR. *)
Theorem smt_updates_cancel `{Sha3} (us us' : list (Hash * Hash)) :
  (us ≡ₚ us' -> root_from_updates smt_new us = root_from_updates smt_new us') /\
  root_from_updates smt_new (us ++ us) = smt_root smt_new.
Proof.
  rewrite !root_from_updates_fold. split; [apply fold_updates_perm|].
  apply fold_updates_twice. destruct smt_defaults_shape as [Hl HF].
  unfold smt_new, smt_root. generalize dependent smt_defaults.1. intros d Hl HF.
  rewrite Forall_lookup in HF. apply (HF 256%nat), list_lookup_lookup_total_lt. lia.
Qed.
