(* ===== verification/Block.v ===== *)
(** * Blocks (src/types/block.rs)

    [bincode::serialize] of a block body is a parameter ([Bincode]); the clock is the
    argument [now]. *)

From S2P Require Import Prelude Hashing Types Merkle.

(** [bincode::serialize(body)]: the bytes, or [None] for its error. *)
Class Bincode : Type := bincode_body : list Transaction -> option (list Z).

Record BlockHeader : Type := mkHeader {
  height : Z;
  previous_hash : Hash;
  transactions_root_field : Hash;
  state_root : Hash;
  timestamp : Z;
  proposer : Address;
  transaction_count : Z;
  block_size : Z;
  header_signature : list Z
}.

Record Block : Type := mkBlock { header : BlockHeader; transactions : list Transaction }.

Definition header_ok (h : BlockHeader) : Prop :=
  fits 64 (height h) /\ hash_ok (previous_hash h) /\ hash_ok (transactions_root_field h) /\
  hash_ok (state_root h) /\ fits 64 (timestamp h) /\ hash_ok (proposer h) /\
  fits 32 (transaction_count h) /\ fits 32 (block_size h).

(** The bytes [BlockHeader::hash] feeds to the hasher; the signature is left out. *)
Definition header_preimage (h : BlockHeader) : list Z :=
  to_le_bytes 8 (height h) ++ previous_hash h ++ transactions_root_field h ++ state_root h ++
  to_le_bytes 8 (timestamp h) ++ proposer h ++ to_le_bytes 4 (transaction_count h) ++
  to_le_bytes 4 (block_size h).

Section Blocks.
Context `{S3 : Sha3} `{BC : Bincode} `{BP : BuildProfile} {E : Type}.

Definition header_hash (h : BlockHeader) : Hash := sha3_256 (header_preimage h).
Definition header_signing_hash (h : BlockHeader) : Hash := header_hash h.

(** [BlockHeader::validate], with the additions in the build's arithmetic. *)
Definition header_validate (now : Z) (h parent : BlockHeader) : Outcome E bool :=
  let? next := add_u64 (height parent) 1 in
  if negb (height h =? next) then Ok false
  else if negb (bool_decide (previous_hash h = header_hash parent)) then Ok false
  else
    let? limit := add_u64 now 30 in
    if (limit <? timestamp h) || (timestamp h <? timestamp parent) then Ok false
    else Ok true.

(** The loop of [BlockBody::transactions_root] over [hashes.chunks(2)]. *)
Fixpoint root_chunks (hashes : list Hash) : list Hash :=
  match hashes with
  | [] => []
  | c0 :: rest =>
      match rest with
      | c1 :: rest' => sha3_256 (c0 ++ c1) :: root_chunks rest'
      | [] => [sha3_256 (c0 ++ c0)]
      end
  end.

(** [while hashes.len() > 1]; the fuel is the number of hashes. *)
Fixpoint root_loop (fuel : nat) (hashes : list Hash) : list Hash :=
  match fuel with
  | O => hashes
  | S fuel' => if (length hashes <=? 1)%nat then hashes else root_loop fuel' (root_chunks hashes)
  end.

Definition transactions_root (txs : list Transaction) : Outcome E Hash :=
  match txs with
  | [] => Ok zero_hash
  | _ => let hashes := map tx_hash txs in index (root_loop (length hashes) hashes) 0
  end.

(** [iter().map(|tx| tx.fee).sum()] on [u128]. *)
Definition total_fees (txs : list Transaction) : Outcome E Z :=
  foldl (fun acc tx => let? s := acc in add_u128 s (fee tx)) (Ok 0) txs.

Definition body_size (txs : list Transaction) : Z :=
  match bincode_body txs with Some bytes => Z.of_nat (length bytes) | None => 0 end.

Definition block_new (now : Z) (h : Z) (prev : Hash) (txs : list Transaction) (prop : Address)
    : Outcome E Block :=
  let? root := transactions_root txs in
  Ok (mkBlock
        (mkHeader h prev root zero_hash now prop
           (cast 32 (Z.of_nat (length txs))) (cast 32 (body_size txs)) [])
        txs).

Definition block_genesis (now : Z) : Outcome E Block :=
  block_new now 0 zero_hash [] zero_address.

Definition block_hash (b : Block) : Hash := header_hash (header b).

Definition set_state_root (root : Hash) (b : Block) : Block :=
  let h := header b in
  mkBlock (mkHeader (height h) (previous_hash h) (transactions_root_field h) root (timestamp h)
             (proposer h) (transaction_count h) (block_size h) (header_signature h))
    (transactions b).
Definition block_sign (sig : list Z) (b : Block) : Block :=
  let h := header b in
  mkBlock (mkHeader (height h) (previous_hash h) (transactions_root_field h) (state_root h)
             (timestamp h) (proposer h) (transaction_count h) (block_size h) sig)
    (transactions b).

(** [&&] is lazy: the root is recomputed only for a valid header. *)
Definition block_validate (now : Z) (b parent : Block) : Outcome E bool :=
  let? hv := header_validate now (header b) (header parent) in
  if negb hv then Ok false
  else
    let? root := transactions_root (transactions b) in
    Ok (bool_decide (transactions_root_field (header b) = root)
        && (block_size (header b) =? cast 32 (body_size (transactions b)))
        && (transaction_count (header b) =? cast 32 (Z.of_nat (length (transactions b))))).

(** ** Lemmas *)

Lemma root_chunks_next_level hashes : root_chunks hashes = next_level hashes.
Proof.
  induction hashes as [|a|a b l IH] using list_pair_ind; [done|done|]. cbn. by rewrite IH.
Qed.

Lemma root_loop_root_of n hashes :
  (length hashes <= n)%nat -> hashes <> [] -> root_loop n hashes = [root_of hashes].
Proof.
  revert hashes; induction n as [|n IH]; intros hashes Hn Hne.
  { destruct hashes; [done|cbn in Hn; lia]. }
  cbn [root_loop]. destruct (Nat.leb_spec (length hashes) 1) as [Hl|Hl].
  - destruct hashes as [|x [|]]; [done|done|cbn in Hl; lia].
  - pose proof (next_level_shrinks hashes Hl). rewrite root_chunks_next_level, IH.
    + by rewrite <- root_of_step.
    + lia.
    + destruct (next_level hashes); [cbn in *; lia|done].
Qed.

Lemma transactions_root_merkle txs :
  transactions_root txs = Ok (tree_root (merkle_new (map tx_hash txs))).
Proof.
  destruct txs as [|tx txs]; [done|]. unfold transactions_root.
  rewrite root_loop_root_of by done. unfold index. cbn [lookup list_lookup].
  by rewrite merkle_new_cons.
Qed.

Lemma header_preimage_inj h1 h2 :
  header_ok h1 -> header_ok h2 -> header_preimage h1 = header_preimage h2 ->
  height h1 = height h2 /\ previous_hash h1 = previous_hash h2 /\
  transactions_root_field h1 = transactions_root_field h2 /\ state_root h1 = state_root h2 /\
  timestamp h1 = timestamp h2 /\ proposer h1 = proposer h2 /\
  transaction_count h1 = transaction_count h2 /\ block_size h1 = block_size h2.
Proof.
  intros (A1 & [B1 _] & [C1 _] & [D1 _] & F1 & [G1 _] & I1 & J1)
         (A2 & [B2 _] & [C2 _] & [D2 _] & F2 & [G2 _] & I2 & J2) Heq.
  unfold header_preimage in Heq.
  apply app_inj_len in Heq as [E0 Heq]; [|by autorewrite with pacyte].
  apply app_inj_len in Heq as [E1 Heq]; [|congruence].
  apply app_inj_len in Heq as [E2 Heq]; [|congruence].
  apply app_inj_len in Heq as [E3 Heq]; [|congruence].
  apply app_inj_len in Heq as [E4 Heq]; [|by autorewrite with pacyte].
  apply app_inj_len in Heq as [E5 Heq]; [|congruence].
  apply app_inj_len in Heq as [E6 E7]; [|by autorewrite with pacyte].
  apply to_le_bytes_inj in E0, E4, E6, E7; done.
Qed.

(** The three checks of an accepted header. *)
Lemma header_validate_true now h p :
  fits 64 (height p + 1) -> fits 64 (now + 30) ->
  header_validate now h p = Ok true <->
  height h = height p + 1 /\ previous_hash h = header_hash p /\
  timestamp p <= timestamp h <= now + 30.
Proof.
  intros Hp Hn. unfold header_validate, add_u64. rewrite !arith_fits by done. cbn [obind].
  destruct (Z.eqb_spec (height h) (height p + 1)) as [->|]; cbn [negb]; [|naive_solver].
  case_bool_decide; cbn [negb]; [|naive_solver].
  destruct (Z.ltb_spec (now + 30) (timestamp h)), (Z.ltb_spec (timestamp h) (timestamp p));
    cbn [orb]; split; intros; (lia || naive_solver lia).
Qed.
End Blocks.

(** ** Properties *)

(** [BlockBody::transactions_root], the loop of block.rs, computes for every list of
    transactions the root [MerkleTree::new] (merkle.rs) gives to their hashes, and its final
    [hashes[0]] never panics. *)
Theorem transactions_root_is_merkle_root `{Sha3} {E} (txs : list Transaction) :
  transactions_root (E := E) txs = Ok (tree_root (merkle_new (map tx_hash txs))).
Proof. apply transactions_root_merkle. Qed.

(** A block built by [Block::new] on top of [parent], with the parent's hash and the next
    height, is accepted by [Block::validate] at any clock at most 30 seconds behind the
    builder's, when the builder's clock is not behind the parent's timestamp. *)
Theorem block_new_validates `{Sha3} `{Bincode} `{BP : BuildProfile} {E}
    (t now : Z) (parent : Block) (txs : list Transaction) (prop : Address) :
  fits 64 (height (header parent) + 1) -> fits 64 (now + 30) ->
  timestamp (header parent) <= t <= now + 30 ->
  exists b,
    block_new (E := E) t (height (header parent) + 1) (block_hash parent) txs prop = Ok b /\
    block_validate (E := E) now b parent = Ok true.
Proof.
  intros Hh Hn Ht. unfold block_new. rewrite transactions_root_merkle. cbn [obind].
  eexists; split; [reflexivity|]. unfold block_validate. cbn [header transactions].
  rewrite (proj2 (header_validate_true _ _ _ Hh Hn)) by done. cbn [obind negb].
  rewrite transactions_root_merkle. cbn [obind].
  cbn [transactions_root_field block_size transaction_count].
  by rewrite bool_decide_eq_true_2, !Z.eqb_refl.
Qed.

Lemma block_new_validates_witness :
  exists p b,
    @block_genesis toy_sha3 (fun _ => Some [1; 2; 3]) unit 100 = Ok p /\
    @block_new toy_sha3 (fun _ => Some [1; 2; 3]) unit 101 1 (@block_hash toy_sha3 p)
      [transaction_new 99 (replicate 32 1) (replicate 32 2) 10 1 0] (replicate 32 9) = Ok b /\
    @block_validate toy_sha3 (fun _ => Some [1; 2; 3]) release_profile unit 101 b p = Ok true.
Proof.
  eexists. 
  destruct (@block_new_validates toy_sha3 (fun _ => Some [1; 2; 3]) release_profile unit 101 101
     (mkBlock (mkHeader 0 zero_hash zero_hash zero_hash 100 zero_address 0 3 []) [])
     [transaction_new 99 (replicate 32 1) (replicate 32 2) 10 1 0] (replicate 32 9))
    as (b & Hb & Hv); [vm_compute; split; congruence..|].
  exists b. split; [reflexivity|]. split; [exact Hb|exact Hv].
Defined.

(** The chain link binds the parent: if the same header validates against two
    well-formed parents, the parents agree on every hashed field (height, hashes, roots,
    timestamp, proposer, counts), or the bytes hashed for the two clash; and a validated
    child is exactly one above its parent and not older. *)
Theorem header_validate_binds_parent `{Sha3} `{BP : BuildProfile} {E}
    (now : Z) (h p1 p2 : BlockHeader) :
  header_ok p1 -> header_ok p2 ->
  fits 64 (height p1 + 1) -> fits 64 (height p2 + 1) -> fits 64 (now + 30) ->
  header_validate (E := E) now h p1 = Ok true -> header_validate (E := E) now h p2 = Ok true ->
  height h = height p1 + 1 /\ timestamp p1 <= timestamp h /\
  (header_preimage p1 = header_preimage p2 /\ state_root p1 = state_root p2 /\
   transactions_root_field p1 = transactions_root_field p2 \/ clash sha3_256 (header_preimage p1) (header_preimage p2)).
Proof.
  intros O1 O2 F1 F2 Fn V1 V2.
  apply header_validate_true in V1 as (Hh & Hp1 & Ht), V2 as (_ & Hp2 & _); [|done..].
  split; [done|split; [lia|]].
  destruct (decide (header_preimage p1 = header_preimage p2)) as [Heq|Hne].
  - left. pose proof (header_preimage_inj _ _ O1 O2 Heq) as (_ & _ & ? & ? & _). done.
  - right. split; [done|].
    unfold header_hash in *. congruence.
Qed.

Lemma header_validate_binds_parent_witness :
  let p := mkHeader 4 zero_hash zero_hash zero_hash 100 zero_address 0 3 [] in
  let h := mkHeader 5 (@header_hash toy_sha3 p) zero_hash zero_hash 120 zero_address 0 3 [] in
  height h = height p + 1.
Proof.
  intros p h.
  assert (Hok : header_ok p).
  { split; [vm_compute; split; congruence|].
    split; [apply (bool_decide_unpack _); vm_compute; exact I|].
    split; [apply (bool_decide_unpack _); vm_compute; exact I|].
    split; [apply (bool_decide_unpack _); vm_compute; exact I|].
    split; [vm_compute; split; congruence|].
    split; [apply (bool_decide_unpack _); vm_compute; exact I|].
    split; vm_compute; split; congruence. }
  exact (proj1 (@header_validate_binds_parent toy_sha3 release_profile unit 110 h p p Hok Hok
    ltac:(vm_compute; split; congruence) ltac:(vm_compute; split; congruence)
    ltac:(vm_compute; split; congruence) ltac:(vm_compute; reflexivity)
    ltac:(vm_compute; reflexivity))).
Defined.

(** The count check closes the leaf-duplication hole of the Merkle root: when a block
    validates, the same header over a body with any transactions appended (so also with the
    last transaction repeated, which keeps the root) does not, as long as the number of
    transactions stays below 2^32. *)
Theorem block_body_extension_rejected `{Sha3} `{Bincode} `{BP : BuildProfile} {E}
    (now : Z) (h : BlockHeader) (parent : Block) (txs more : list Transaction) :
  block_validate (E := E) now (mkBlock h txs) parent = Ok true ->
  more <> [] -> Z.of_nat (length (txs ++ more)) < 2 ^ 32 ->
  block_validate (E := E) now (mkBlock h (txs ++ more)) parent = Ok false.
Proof.
  intros Hv Hne Hlen. unfold block_validate in *. cbn [header transactions] in *.
  inv_bind Hv. rewrite transactions_root_merkle in *. cbn [obind] in *.
  destruct a; cbn [negb] in *; [|done]. injection Hv as Hv.
  apply andb_prop in Hv as [_ Hcount]. apply Z.eqb_eq in Hcount. f_equal.
  rewrite !andb_false_iff. right. apply Z.eqb_neq. rewrite Hcount.
  rewrite length_app in *. destruct more as [|m more]; [done|]. cbn [length] in *.
  unfold cast. rewrite !Z.mod_small by lia. lia.
Qed.

Lemma block_body_extension_rejected_witness :
  let tx := transaction_new 99 (replicate 32 1) (replicate 32 2) 10 1 0 in
  let p := mkBlock (mkHeader 0 zero_hash zero_hash zero_hash 100 zero_address 0 3 []) [] in
  exists b, @block_new toy_sha3 (fun _ => Some [1; 2; 3]) unit 101 1 (@block_hash toy_sha3 p)
      [tx; tx; tx] (replicate 32 9) = Ok b /\
    @block_validate toy_sha3 (fun _ => Some [1; 2; 3]) release_profile unit 101
      (mkBlock (header b) ([tx; tx; tx] ++ [tx])) p = Ok false.
Proof.
  intros tx p. eexists. split; [reflexivity|].
  apply (@block_body_extension_rejected toy_sha3 (fun _ => Some [1; 2; 3]) release_profile unit);
    [vm_compute; reflexivity|discriminate|vm_compute; reflexivity].
Defined.
