(* ===== verification/Gas.v ===== *)
(** * Gas accounting (src/execution/gas.rs)

    The gas constants, [GasCalculator], [GasMeter] and [GasSchedule].  Every [+], [-] and
    [*] on [u64] is the build profile's; [usize] is 64 bits wide. *)

From S2P Require Import Prelude Hashing Types.

Definition TX_BASE_GAS : Z := 21000.
Definition TX_DATA_NON_ZERO_GAS : Z := 68.
Definition TX_DATA_ZERO_GAS : Z := 4.
Definition CONTRACT_CREATION_GAS : Z := 32000.
Definition COLD_SLOAD_GAS : Z := 2100.
Definition WARM_SLOAD_GAS : Z := 100.
Definition SSTORE_SET_GAS : Z := 20000.
Definition SSTORE_RESET_GAS : Z := 5000.
Definition SSTORE_CLEAR_REFUND : Z := 15000.
Definition LOG_GAS : Z := 375.
Definition LOG_TOPIC_GAS : Z := 375.
Definition LOG_DATA_GAS : Z := 8.
Definition SHA3_GAS : Z := 30.
Definition SHA3_WORD_GAS : Z := 6.
Definition MEMORY_GAS : Z := 3.
Definition COPY_GAS : Z := 3.
Definition CALL_GAS : Z := 700.
Definition CALL_VALUE_GAS : Z := 9000.
Definition NEW_ACCOUNT_GAS : Z := 25000.
Definition SELFDESTRUCT_GAS : Z := 5000.
Definition SELFDESTRUCT_REFUND : Z := 24000.

(** ** GasCalculator *)

Record GasCalculator : Type := mkCalc {
  tx_base_gas : Z;
  tx_data_non_zero_gas : Z;
  tx_data_zero_gas : Z;
  contract_creation_gas : Z
}.

Definition default_calculator : GasCalculator :=
  mkCalc TX_BASE_GAS TX_DATA_NON_ZERO_GAS TX_DATA_ZERO_GAS CONTRACT_CREATION_GAS.

Section Calculator.
Context `{BP : BuildProfile} {E : Type} (c : GasCalculator).

(** [for byte in data { gas += ...; }]. *)
Definition byte_gas (gas byte : Z) : Outcome E Z :=
  if byte =? 0 then add_u64 gas (tx_data_zero_gas c)
  else add_u64 gas (tx_data_non_zero_gas c).
Definition data_gas (gas : Z) (data : list Z) : Outcome E Z :=
  foldl (fun acc byte => let? g := acc in byte_gas g byte) (Ok gas) data.

Definition intrinsic_gas (tx : Transaction) (is_contract_creation : bool) : Outcome E Z :=
  let? gas := data_gas (tx_base_gas c) (signature tx) in
  if is_contract_creation then add_u64 gas (contract_creation_gas c) else Ok gas.

Definition estimate_gas (tx : Transaction) (is_contract_creation : bool) : Outcome E Z :=
  let? intrinsic := intrinsic_gas tx is_contract_creation in
  if negb is_contract_creation && negb (bool_decide (tx_to tx = zero_address))
  then Ok intrinsic
  else mul_u64 intrinsic 3.

(** [(size + 31) / 32]. *)
Definition words_of (size : Z) : Outcome E Z :=
  let? s := add_u64 size 31 in Ok (s / 32).

(** [(words * words * MEMORY_GAS) / 512]. *)
Definition quadratic_gas (words : Z) : Outcome E Z :=
  let? sq := mul_u64 words words in
  let? m := mul_u64 sq MEMORY_GAS in
  Ok (m / 512).

Definition memory_expansion_gas (current_size new_size : Z) : Outcome E Z :=
  if new_size <=? current_size then Ok 0
  else
    let? current_words := words_of current_size in
    let? new_words := words_of new_size in
    let? hi := quadratic_gas new_words in
    let? lo := quadratic_gas current_words in
    sub_u64 hi lo.

Definition log_gas (topics data_len : Z) : Outcome E Z :=
  let? t := mul_u64 topics LOG_TOPIC_GAS in
  let? s := add_u64 LOG_GAS t in
  let? d := mul_u64 data_len LOG_DATA_GAS in
  add_u64 s d.

Definition sha3_gas (data_len : Z) : Outcome E Z :=
  let? words := words_of data_len in
  let? w := mul_u64 words SHA3_WORD_GAS in
  add_u64 SHA3_GAS w.

Definition copy_gas (len : Z) : Outcome E Z :=
  let? words := words_of len in mul_u64 COPY_GAS words.
End Calculator.

(** ** GasMeter *)

Record GasMeter : Type := mkMeter { gas_limit : Z; gas_used : Z; gas_refund : Z }.

Definition meter_new (limit : Z) : GasMeter := mkMeter limit 0 0.

Section Meter.
Context `{BP : BuildProfile} {E : Type}.

Definition use_gas (amount : Z) : ST GasMeter E bool :=
  do! used := sget gas_used in
  do! limit := sget gas_limit in
  do! total := slift (add_u64 used amount) in
  if limit <? total then sret false
  else
    do! total' := slift (add_u64 used amount) in
    run! smod (fun m => mkMeter (gas_limit m) total' (gas_refund m)) in
    sret true.

Definition add_refund (amount : Z) : ST GasMeter E unit :=
  do! r := sget gas_refund in
  do! r' := slift (add_u64 r amount) in
  smod (fun m => mkMeter (gas_limit m) (gas_used m) r').
End Meter.

Definition remaining (m : GasMeter) : Z := saturating_sub (gas_limit m) (gas_used m).
Definition used (m : GasMeter) : Z := gas_used m.
Definition max_refund (m : GasMeter) : Z := gas_used m / 5.
Definition actual_refund (m : GasMeter) : Z := Z.min (gas_refund m) (max_refund m).
Definition net_used (m : GasMeter) : Z := saturating_sub (gas_used m) (actual_refund m).
Definition is_depleted (m : GasMeter) : bool := gas_limit m <=? gas_used m.

(** ** GasSchedule *)

Record GasSchedule : Type := mkSchedule {
  base : Z; very_low : Z; low : Z; mid : Z; high : Z; exp : Z; exp_byte : Z;
  sha3 : Z; sha3_word : Z; sload : Z; sstore_set : Z; sstore_reset : Z;
  sstore_clear_refund : Z; sched_balance : Z; call : Z; call_value : Z; create : Z;
  selfdestruct : Z; selfdestruct_refund : Z
}.

Definition default_schedule : GasSchedule :=
  {| base := 2; very_low := 3; low := 5; mid := 8; high := 10; exp := 10; exp_byte := 50;
     sha3 := SHA3_GAS; sha3_word := SHA3_WORD_GAS; sload := COLD_SLOAD_GAS;
     sstore_set := SSTORE_SET_GAS; sstore_reset := SSTORE_RESET_GAS;
     sstore_clear_refund := SSTORE_CLEAR_REFUND; sched_balance := 100; call := CALL_GAS;
     call_value := CALL_VALUE_GAS; create := 32000; selfdestruct := SELFDESTRUCT_GAS;
     selfdestruct_refund := SELFDESTRUCT_REFUND |}.

(** ** Lemmas *)

(** The invariant of a meter: [u64] fields and no more used than allowed. *)
Definition meter_ok (m : GasMeter) : Prop :=
  0 <= gas_used m <= gas_limit m /\ gas_limit m < 2 ^ 64 /\ fits 64 (gas_refund m).

(** [use_gas] on a meter whose limit leaves room for [amount] below 2^64. *)
Lemma use_gas_spec `{BP : BuildProfile} {E} m amount :
  meter_ok m -> 0 <= amount -> gas_limit m + amount < 2 ^ 64 ->
  use_gas (E := E) amount m =
  if gas_used m + amount <=? gas_limit m
  then (Ok true, mkMeter (gas_limit m) (gas_used m + amount) (gas_refund m))
  else (Ok false, m).
Proof.
  intros (Hu & Hl & _) Ha Hroom. unfold use_gas, sbind, sget, slift, smod, sret, add_u64. cbn -[Z.pow].
  rewrite arith_fits by (unfold fits; lia).
  destruct (Z.ltb_spec (gas_limit m) (gas_used m + amount));
    destruct (Z.leb_spec (gas_used m + amount) (gas_limit m)); try lia; done.
Qed.

Lemma use_gas_meter_ok `{BP : BuildProfile} {E} m amount r m' :
  meter_ok m -> 0 <= amount -> gas_limit m + amount < 2 ^ 64 ->
  use_gas (E := E) amount m = (r, m') -> meter_ok m' /\ gas_limit m' = gas_limit m.
Proof.
  intros Hm Ha Hroom. rewrite use_gas_spec by done. destruct Hm as (Hu & Hl & Hr).
  destruct (Z.leb_spec (gas_used m + amount) (gas_limit m)); intros [= <- <-];
    unfold meter_ok; cbn; repeat split; try apply Hr; lia.
Qed.

(** The exact charge for a byte string: 4 per zero byte and 68 per other byte. *)
Definition data_cost (data : list Z) : Z :=
  foldr (fun b acc => (if b =? 0 then TX_DATA_ZERO_GAS else TX_DATA_NON_ZERO_GAS) + acc) 0 data.

Lemma data_cost_bound data :
  4 * Z.of_nat (length data) <= data_cost data <= 68 * Z.of_nat (length data).
Proof.
  unfold TX_DATA_ZERO_GAS, TX_DATA_NON_ZERO_GAS in *.
  induction data as [|b data IH]; cbn [data_cost foldr length]; [lia|].
  fold (data_cost data). unfold TX_DATA_ZERO_GAS, TX_DATA_NON_ZERO_GAS in *.
  destruct (b =? 0); lia.
Qed.

Lemma data_gas_spec `{BP : BuildProfile} {E} data gas :
  0 <= gas -> gas + 68 * Z.of_nat (length data) < 2 ^ 64 ->
  data_gas (E := E) default_calculator gas data = Ok (gas + data_cost data).
Proof.
  unfold data_gas. revert gas; induction data as [|b data IH]; intros gas Hg Hl.
  { cbn. f_equal. lia. }
  cbn [foldl obind length] in *.
  assert (Hb : byte_gas (E := E) default_calculator gas b
               = Ok (gas + if b =? 0 then TX_DATA_ZERO_GAS else TX_DATA_NON_ZERO_GAS)).
  { unfold byte_gas, add_u64. cbn [default_calculator tx_data_zero_gas tx_data_non_zero_gas].
    unfold TX_DATA_ZERO_GAS, TX_DATA_NON_ZERO_GAS.
    destruct (b =? 0); by rewrite arith_fits by (unfold fits; lia). }
  rewrite Hb. unfold TX_DATA_ZERO_GAS, TX_DATA_NON_ZERO_GAS in *. cbn [data_cost foldr].
  fold (data_cost data). unfold TX_DATA_ZERO_GAS, TX_DATA_NON_ZERO_GAS.
  destruct (b =? 0); rewrite IH by lia; f_equal; lia.
Qed.

(** The value [quadratic_gas] computes when nothing overflows. *)
Lemma quadratic_gas_spec `{BP : BuildProfile} {E} w :
  0 <= w < 2 ^ 31 -> quadratic_gas (E := E) w = Ok (w * w * 3 / 512).
Proof.
  intros Hw. unfold quadratic_gas, mul_u64, MEMORY_GAS.
  rewrite arith_fits by (unfold fits; nia). cbn [obind].
  rewrite arith_fits by (unfold fits; nia). done.
Qed.

Lemma words_of_spec `{BP : BuildProfile} {E} s :
  0 <= s < 2 ^ 35 -> words_of (E := E) s = Ok ((s + 31) / 32) /\ 0 <= (s + 31) / 32 <= 2 ^ 30.
Proof.
  intros Hs. unfold words_of, add_u64. rewrite arith_fits by (unfold fits; lia).
  split; [done|]. split; [apply Z.div_pos; lia|].
  apply Z.lt_succ_r, Z.div_lt_upper_bound; lia.
Qed.

(** The total price of a memory of [s] bytes. *)
Definition memory_price (s : Z) : Z := ((s + 31) / 32) * ((s + 31) / 32) * 3 / 512.

Lemma memory_price_mono a b : 0 <= a <= b -> memory_price a <= memory_price b.
Proof.
  intros H. unfold memory_price.
  assert (0 <= (a + 31) / 32 <= (b + 31) / 32).
  { split; [apply Z.div_pos; lia|]. apply Z.div_le_mono; lia. }
  apply Z.div_le_mono; nia.
Qed.

Lemma memory_expansion_spec `{BP : BuildProfile} {E} a b :
  0 <= a < 2 ^ 35 -> 0 <= b < 2 ^ 35 ->
  memory_expansion_gas (E := E) a b = Ok (if b <=? a then 0 else memory_price b - memory_price a).
Proof.
  intros Ha Hb. unfold memory_expansion_gas.
  destruct (Z.leb_spec b a) as [|Hlt]; [done|].
  destruct (words_of_spec (E := E) a Ha) as [-> Hwa].
  destruct (words_of_spec (E := E) b Hb) as [-> Hwb]. cbn [obind].
  rewrite !quadratic_gas_spec by lia. cbn [obind].
  fold (memory_price a) (memory_price b). pose proof (memory_price_mono a b).
  assert (0 <= memory_price a) by (apply Z.div_pos; nia).
  assert (memory_price b < 2 ^ 64) by (apply Z.div_lt_upper_bound; nia).
  unfold sub_u64. by rewrite arith_fits by (unfold fits; lia).
Qed.

(** ** Properties *)

(** [GasMeter::use_gas] never lets the gas used exceed the limit: on a meter that
    respects its limit, and for a limit that leaves room for the amount below 2^64, it
    grants the amount exactly when the sum stays within the limit, and otherwise leaves the
    meter unchanged; the refund it nets off afterwards is at most a fifth of the gas used. *)
Theorem gas_meter_bounded `{BP : BuildProfile} {E} (m : GasMeter) (amount : Z) :
  meter_ok m -> 0 <= amount -> gas_limit m + amount < 2 ^ 64 ->
  exists granted m',
    use_gas (E := E) amount m = (Ok granted, m') /\
    (granted = true <-> gas_used m + amount <= gas_limit m) /\
    gas_used m' = (if granted then gas_used m + amount else gas_used m) /\
    meter_ok m' /\ remaining m' = gas_limit m - gas_used m' /\
    gas_used m' - gas_used m' / 5 <= net_used m' <= gas_used m'.
Proof.
  intros Hm Ha Hroom. destruct (use_gas (E := E) amount m) as [r m'] eqn:Hu.
  pose proof (use_gas_meter_ok m amount r m' Hm Ha Hroom Hu) as [Hok Hlim].
  rewrite use_gas_spec in Hu by done.
  assert (Hnet : remaining m' = gas_limit m - gas_used m' /\
                 gas_used m' - gas_used m' / 5 <= net_used m' <= gas_used m').
  { destruct Hok as (? & ? & [? ?]).
    unfold remaining, net_used, actual_refund, max_refund, saturating_sub.
    assert (0 <= gas_used m' / 5 <= gas_used m')
      by (split; [apply Z.div_pos|apply Z.div_le_upper_bound]; lia). lia. }
  destruct (Z.leb_spec (gas_used m + amount) (gas_limit m)) as [Hle|Hgt];
    injection Hu as <- <-; [exists true|exists false]; eexists; split; try reflexivity;
    cbn in *; repeat split; try apply Hok; try apply Hnet; try done; try lia.
Qed.

Lemma gas_meter_bounded_witness :
  exists granted m', use_gas (BP := debug_profile) (E := unit) 300 (mkMeter 1000 800 0) = (Ok granted, m') /\
    (granted = true <-> 800 + 300 <= 1000).
Proof.
  destruct (gas_meter_bounded (BP := debug_profile) (E := unit) (mkMeter 1000 800 0) 300)
    as (g & m' & H1 & H2 & _); [vm_compute; repeat split; congruence..|].
  exists g, m'. exact (conj H1 H2).
Defined.

(** The bound needs that room: in a release build the sum wraps, so a meter whose limit is
    the largest [u64] grants an amount that exceeds what is left and forgets the gas used
    before; in a debug build the same call panics. *)
Theorem gas_meter_wraps {E} (amount : Z) :
  1 < amount < 2 ^ 63 ->
  use_gas (BP := release_profile) (E := E) amount (mkMeter U64_MAX (U64_MAX - 1) 0)
    = (Ok true, mkMeter U64_MAX (amount - 2) 0) /\
  (use_gas (BP := debug_profile) (E := E) amount (mkMeter U64_MAX (U64_MAX - 1) 0)).1 = Panic.
Proof.
  intros Ha. unfold use_gas, sbind, sget, slift, smod, sret, add_u64. cbn [gas_used gas_limit gas_refund].
  assert (Hno : ~ fits 64 (U64_MAX - 1 + amount)) by (unfold fits, U64_MAX; lia).
  unfold arith. rewrite !decide_False by done. split; [|done].
  assert (Hmod : (U64_MAX - 1 + amount) mod 2 ^ 64 = amount - 2).
  { symmetry. apply Z.mod_unique_pos with (q := 1); unfold U64_MAX; lia. }
  change (@overflow_checks release_profile) with false. cbn iota beta. rewrite Hmod.
  destruct (Z.ltb_spec U64_MAX (amount - 2)); [unfold U64_MAX in *; lia|done].
Qed.

Lemma gas_meter_wraps_witness :
  use_gas (BP := release_profile) (E := unit) 3 (mkMeter U64_MAX (U64_MAX - 1) 0)
  = (Ok true, mkMeter U64_MAX 1 0).
Proof. exact (proj1 (gas_meter_wraps (E := unit) 3 ltac:(lia))). Defined.

(** Intrinsic gas is exact and cannot overflow for any transaction the node accepts (a
    signature of at most 5000 bytes): 21000, plus 4 per zero and 68 per other byte of the
    signature field, plus 32000 for a creation; [estimate_gas] returns it for a plain
    transfer and three times it otherwise. *)
Theorem intrinsic_gas_exact `{BP : BuildProfile} {E} (tx : Transaction) (creation : bool) :
  Z.of_nat (length (signature tx)) <= 5000 ->
  let g := 21000 + data_cost (signature tx) + (if creation then 32000 else 0) in
  intrinsic_gas (E := E) default_calculator tx creation = Ok g /\
  estimate_gas (E := E) default_calculator tx creation =
    Ok (if negb creation && negb (bool_decide (tx_to tx = zero_address)) then g else g * 3) /\
  21000 <= g <= 393000.
Proof.
  intros Hlen g. pose proof (data_cost_bound (signature tx)) as Hb.
  assert (Hg : 21000 <= g <= 393000) by (unfold g; destruct creation; lia).
  assert (Hi : intrinsic_gas (E := E) default_calculator tx creation = Ok g).
  { unfold intrinsic_gas. rewrite data_gas_spec by (cbn; unfold TX_BASE_GAS; lia).
    cbn [obind default_calculator tx_base_gas contract_creation_gas].
    unfold TX_BASE_GAS, CONTRACT_CREATION_GAS, add_u64. destruct creation.
    - by rewrite arith_fits by (unfold fits; lia).
    - unfold g. f_equal. lia. }
  split; [done|split; [|done]]. unfold estimate_gas. rewrite Hi. cbn [obind].
  case_match; [done|]. unfold mul_u64. by rewrite arith_fits by (unfold fits; lia).
Qed.

Lemma intrinsic_gas_exact_witness :
  intrinsic_gas (BP := debug_profile) (E := unit) default_calculator
    (mkTx zero_address zero_address 5 1 0 [0; 7] 0) true = Ok 53072.
Proof.
  exact (proj1 (intrinsic_gas_exact (BP := debug_profile) (E := unit)
    (mkTx zero_address zero_address 5 1 0 [0; 7] 0) true ltac:(vm_compute; congruence))).
Defined.

(** Memory expansion below 32 GiB never overflows and its price does not depend on the
    path: growing from [a] to [b] and then to [c] costs what growing from [a] to [c] costs,
    a growth never costs less than zero, and shrinking is free. *)
Theorem memory_expansion_path_independent `{BP : BuildProfile} {E} (a b c : Z) :
  0 <= a <= b -> b <= c < 2 ^ 35 ->
  exists ab bc,
    memory_expansion_gas (E := E) a b = Ok ab /\ memory_expansion_gas (E := E) b c = Ok bc /\
    memory_expansion_gas (E := E) a c = Ok (ab + bc) /\ 0 <= ab /\ 0 <= bc /\
    memory_expansion_gas (E := E) c a = Ok 0.
Proof.
  intros Hab Hbc. rewrite !memory_expansion_spec by lia.
  pose proof (memory_price_mono a b Hab). pose proof (memory_price_mono b c ltac:(lia)).
  eexists _, _. split; [reflexivity|split; [reflexivity|]].
  destruct (Z.leb_spec b a), (Z.leb_spec c b), (Z.leb_spec c a), (Z.leb_spec a c); try lia;
    repeat split; try f_equal; try lia;
    try (assert (a = b) as -> by lia); try (assert (b = c) as -> by lia); lia.
Qed.

Lemma memory_expansion_path_independent_witness :
  exists ab bc, memory_expansion_gas (BP := debug_profile) (E := unit) 0 1024 = Ok ab /\
    memory_expansion_gas (BP := debug_profile) (E := unit) 1024 4096 = Ok bc /\
    memory_expansion_gas (BP := debug_profile) (E := unit) 0 4096 = Ok (ab + bc).
Proof.
  destruct (memory_expansion_path_independent (BP := debug_profile) (E := unit) 0 1024 4096)
    as (ab & bc & H1 & H2 & H3 & _); [lia|lia|]. exists ab, bc. exact (conj H1 (conj H2 H3)).
Defined.
