(* ===== verification/VM.v ===== *)
(** * The EVM-style virtual machine (src/execution/vm.rs)

    Memory, stack, opcodes, the gas-charging step and the [run] loop.  The stack is the
    [Vec] of the source, its top at the end.  A step is a stateful call that keeps the
    machine's state on [Err], since the executor reads the gas used after a failure.
    [Keccak256] is a parameter. *)

From S2P Require Import Prelude Hashing Words Gas.
From Stdlib Require String.

(** ** ExecutionError (src/execution/mod.rs) *)

Inductive ExecutionError : Type :=
| OutOfGas (used limit : Z)
| Revert (reason : list Z)
| InvalidOpcode (byte : Z)
| StackOverflow
| StackUnderflow
| InvalidJump
| CallDepthExceeded
| ContractNotFound (a : Address)
| InvalidSignature
| NonceTooLow (expected actual : Z)
| InsufficientBalance (required available : Z)
| Other (msg : String.string).

(** [String::from_utf8_lossy(b).to_string()] as UTF-8 bytes: every maximal ill-formed
    prefix becomes U+FFFD. *)
Definition cont (lo hi b : Z) : bool := (lo <=? b) && (b <=? hi).
Definition utf8_second (b0 b1 : Z) : bool :=
  if b0 =? 224 then cont 160 191 b1
  else if b0 =? 237 then cont 128 159 b1
  else if b0 =? 240 then cont 144 191 b1
  else if b0 =? 244 then cont 128 143 b1
  else cont 128 191 b1.
Definition utf8_width (b0 : Z) : nat :=
  if b0 <? 128 then 1 else if cont 194 223 b0 then 2 else if cont 224 239 b0 then 3
  else if cont 240 244 b0 then 4 else 0.
(** [(n, true)]: a well-formed character of [n] bytes; [(n, false)]: [n] bytes to replace. *)
Definition utf8_chunk (b0 : Z) (rest : list Z) : nat * bool :=
  match utf8_width b0, rest with
  | 1%nat, _ => (1%nat, true)
  | O, _ => (1%nat, false)
  | S (S n), b1 :: rest' =>
      if negb (utf8_second b0 b1) then (1%nat, false)
      else match n, rest' with
           | O, _ => (2%nat, true)
           | S m, b2 :: rest'' =>
               if negb (cont 128 191 b2) then (2%nat, false)
               else match m, rest'' with
                    | O, _ => (3%nat, true)
                    | S _, b3 :: _ => if cont 128 191 b3 then (4%nat, true) else (3%nat, false)
                    | S _, [] => (3%nat, false)
                    end
           | S _, [] => (2%nat, false)
           end
  | S (S _), [] => (1%nat, false)
  end.
Fixpoint lossy_loop (fuel : nat) (l : list Z) : list Z :=
  match fuel, l with
  | S fuel', b0 :: rest =>
      let '(n, good) := utf8_chunk b0 rest in
      (if good then take n l else [239; 191; 189]) ++ lossy_loop fuel' (drop n l)
  | _, _ => []
  end.
Definition from_utf8_lossy (l : list Z) : list Z := lossy_loop (length l) l.

(** ** Memory *)

Record Memory : Type := mkMemory { mem_data : list Z; last_gas_cost : Z }.
Definition memory_new : Memory := mkMemory [] 0.
Definition mem_size (m : Memory) : Z := Z.of_nat (length (mem_data m)).

Section MemoryOps.
Context `{BP : BuildProfile} {E : Type}.

(** [vec![0; n]] and [Vec::resize]: a length above [isize::MAX] is a capacity overflow. *)
Definition zeros (n : Z) : Outcome E (list Z) :=
  if ISIZE_MAX <? n then Panic else Ok (replicate (Z.to_nat n) 0).
Definition vec_resize (v : list Z) (n : Z) : Outcome E (list Z) :=
  if ISIZE_MAX <? n then Panic
  else Ok (take (Z.to_nat n) v ++ replicate (Z.to_nat n - length v) 0).

Definition mem_resize (new_size : Z) (m : Memory) : Outcome E Memory :=
  if mem_size m <? new_size then
    let? d := vec_resize (mem_data m) new_size in Ok (mkMemory d (last_gas_cost m))
  else Ok m.

(** A range [a..b] with [b] within the data panics when [b < a]. *)
Definition mem_read (offset size : Z) (m : Memory) : Outcome E (list Z) :=
  if mem_size m <=? offset then zeros size
  else
    let? sum := add_u64 offset size in
    let end_ := Z.min sum (mem_size m) in
    if end_ <? offset then Panic
    else
      let result := slice (mem_data m) (Z.to_nat offset) (Z.to_nat end_) in
      if Z.of_nat (length result) <? size then vec_resize result size else Ok result.

(** [copy_from_slice] into [[u8; 32]]: the lengths agree since [read] returns [size] bytes. *)
Definition mem_read_word (offset : Z) (m : Memory) : Outcome E Word := mem_read offset 32 m.

Definition mem_write (offset : Z) (data : list Z) (m : Memory) : Outcome E Memory :=
  let? end_ := add_u64 offset (Z.of_nat (length data)) in
  let? m' := (if mem_size m <? end_ then mem_resize end_ m else Ok m) in
  if end_ <? offset then Panic
  else Ok (mkMemory (take (Z.to_nat offset) (mem_data m') ++ data
                     ++ drop (Z.to_nat end_) (mem_data m')) (last_gas_cost m')).

Definition mem_write_word (offset : Z) (w : Word) (m : Memory) : Outcome E Memory :=
  mem_write offset w m.
End MemoryOps.

(** ** Stack *)

Definition MAX_STACK_SIZE : nat := 1024.
Abbreviation Stack := (list Word).

Definition push (value : Word) : ST Stack ExecutionError unit :=
  fun s => if (MAX_STACK_SIZE <=? length s)%nat then (Err StackOverflow, s)
           else (Ok tt, s ++ [value]).
Definition pop : ST Stack ExecutionError Word :=
  fun s => match last s with
           | Some v => (Ok v, take (length s - 1) s)
           | None => (Err StackUnderflow, s)
           end.
Definition peek (depth : nat) (s : Stack) : Outcome ExecutionError Word :=
  if (length s <=? depth)%nat then Err StackUnderflow
  else index s (length s - 1 - depth).
Definition dup (depth : nat) : ST Stack ExecutionError unit :=
  do! value := (fun s => (peek depth s, s)) in push value.
(** [Vec::swap(len - 1, len - 1 - depth)]. *)
Definition swap (depth : nat) : ST Stack ExecutionError unit :=
  fun s => let len := length s in
    if (len <=? depth)%nat then (Err StackUnderflow, s)
    else match s !! (len - 1)%nat, s !! (len - 1 - depth)%nat with
         | Some x, Some y => (Ok tt, <[(len - 1)%nat := y]> (<[(len - 1 - depth)%nat := x]> s))
         | _, _ => (Panic, s)
         end.

(** ** Opcodes *)

Module Op.
Inductive Opcode : Type :=
  | Stop | Add | Mul | Sub | Div | SDiv | Mod | SMod | AddMod | MulMod | Exp | SignExtend | Lt
  | Gt | SLt | SGt | Eq | IsZero | And | Or | Xor | Not | Byte | Shl | Shr | Sar | Sha3
  | Address | Balance | Origin | Caller | CallValue | CallDataLoad | CallDataSize
  | CallDataCopy | CodeSize | CodeCopy | GasPrice | ExtCodeSize | ExtCodeCopy | RetDataSize
  | RetDataCopy | ExtCodeHash | BlockHash | Coinbase | Timestamp | Number | Difficulty
  | GasLimit | ChainId | SelfBalance | BaseFee | Pop | MLoad | MStore | MStore8 | SLoad
  | SStore | Jump | JumpI | PC | MSize | Gas | JumpDest | Push1 | Push2 | Push3 | Push4 | Push5
  | Push6 | Push7 | Push8 | Push9 | Push10 | Push11 | Push12 | Push13 | Push14 | Push15
  | Push16 | Push17 | Push18 | Push19 | Push20 | Push21 | Push22 | Push23 | Push24 | Push25
  | Push26 | Push27 | Push28 | Push29 | Push30 | Push31 | Push32 | Dup1 | Dup2 | Dup3 | Dup4
  | Dup5 | Dup6 | Dup7 | Dup8 | Dup9 | Dup10 | Dup11 | Dup12 | Dup13 | Dup14 | Dup15 | Dup16
  | Swap1 | Swap2 | Swap3 | Swap4 | Swap5 | Swap6 | Swap7 | Swap8 | Swap9 | Swap10 | Swap11
  | Swap12 | Swap13 | Swap14 | Swap15 | Swap16 | Log0 | Log1 | Log2 | Log3 | Log4 | Create
  | Call | CallCode | Return | DelegateCall | Create2 | StaticCall | Revert | Invalid
  | SelfDestruct.

(** The discriminants of the [#[repr(u8)]] enum. *)
Definition to_u8 (op : Opcode) : Z :=
  match op with
  | Stop => 0 | Add => 1 | Mul => 2 | Sub => 3 | Div => 4 | SDiv => 5 | Mod => 6 | SMod => 7
  | AddMod => 8 | MulMod => 9 | Exp => 10 | SignExtend => 11 | Lt => 16 | Gt => 17 | SLt => 18
  | SGt => 19 | Eq => 20 | IsZero => 21 | And => 22 | Or => 23 | Xor => 24 | Not => 25
  | Byte => 26 | Shl => 27 | Shr => 28 | Sar => 29 | Sha3 => 32 | Address => 48 | Balance => 49
  | Origin => 50 | Caller => 51 | CallValue => 52 | CallDataLoad => 53 | CallDataSize => 54
  | CallDataCopy => 55 | CodeSize => 56 | CodeCopy => 57 | GasPrice => 58 | ExtCodeSize => 59
  | ExtCodeCopy => 60 | RetDataSize => 61 | RetDataCopy => 62 | ExtCodeHash => 63
  | BlockHash => 64 | Coinbase => 65 | Timestamp => 66 | Number => 67 | Difficulty => 68
  | GasLimit => 69 | ChainId => 70 | SelfBalance => 71 | BaseFee => 72 | Pop => 80
  | MLoad => 81 | MStore => 82 | MStore8 => 83 | SLoad => 84 | SStore => 85 | Jump => 86
  | JumpI => 87 | PC => 88 | MSize => 89 | Gas => 90 | JumpDest => 91 | Push1 => 96
  | Push2 => 97 | Push3 => 98 | Push4 => 99 | Push5 => 100 | Push6 => 101 | Push7 => 102
  | Push8 => 103 | Push9 => 104 | Push10 => 105 | Push11 => 106 | Push12 => 107 | Push13 => 108
  | Push14 => 109 | Push15 => 110 | Push16 => 111 | Push17 => 112 | Push18 => 113
  | Push19 => 114 | Push20 => 115 | Push21 => 116 | Push22 => 117 | Push23 => 118
  | Push24 => 119 | Push25 => 120 | Push26 => 121 | Push27 => 122 | Push28 => 123
  | Push29 => 124 | Push30 => 125 | Push31 => 126 | Push32 => 127 | Dup1 => 128 | Dup2 => 129
  | Dup3 => 130 | Dup4 => 131 | Dup5 => 132 | Dup6 => 133 | Dup7 => 134 | Dup8 => 135
  | Dup9 => 136 | Dup10 => 137 | Dup11 => 138 | Dup12 => 139 | Dup13 => 140 | Dup14 => 141
  | Dup15 => 142 | Dup16 => 143 | Swap1 => 144 | Swap2 => 145 | Swap3 => 146 | Swap4 => 147
  | Swap5 => 148 | Swap6 => 149 | Swap7 => 150 | Swap8 => 151 | Swap9 => 152 | Swap10 => 153
  | Swap11 => 154 | Swap12 => 155 | Swap13 => 156 | Swap14 => 157 | Swap15 => 158
  | Swap16 => 159 | Log0 => 160 | Log1 => 161 | Log2 => 162 | Log3 => 163 | Log4 => 164
  | Create => 240 | Call => 241 | CallCode => 242 | Return => 243 | DelegateCall => 244
  | Create2 => 245 | StaticCall => 250 | Revert => 253 | Invalid => 254 | SelfDestruct => 255
  end.

(** The one-byte arms of [Opcode::from_u8]. *)
Definition opcode_table : list (Z * Opcode) :=
  [(0, Stop); (1, Add); (2, Mul); (3, Sub); (4, Div); (5, SDiv); (6, Mod); (7, SMod);
   (8, AddMod); (9, MulMod); (10, Exp); (11, SignExtend); (16, Lt); (17, Gt); (18, SLt);
   (19, SGt); (20, Eq); (21, IsZero); (22, And); (23, Or); (24, Xor); (25, Not); (26, Byte);
   (27, Shl); (28, Shr); (29, Sar); (32, Sha3); (48, Address); (49, Balance); (50, Origin);
   (51, Caller); (52, CallValue); (53, CallDataLoad); (54, CallDataSize); (55, CallDataCopy);
   (56, CodeSize); (57, CodeCopy); (58, GasPrice); (59, ExtCodeSize); (60, ExtCodeCopy);
   (61, RetDataSize); (62, RetDataCopy); (63, ExtCodeHash); (64, BlockHash); (65, Coinbase);
   (66, Timestamp); (67, Number); (68, Difficulty); (69, GasLimit); (70, ChainId);
   (71, SelfBalance); (72, BaseFee); (80, Pop); (81, MLoad); (82, MStore); (83, MStore8);
   (84, SLoad); (85, SStore); (86, Jump); (87, JumpI); (88, PC); (89, MSize); (90, Gas);
   (91, JumpDest); (240, Create); (241, Call); (242, CallCode); (243, Return);
   (244, DelegateCall); (245, Create2); (250, StaticCall); (253, Revert); (254, Invalid);
   (255, SelfDestruct)].

Definition from_u8 (byte : Z) : option Opcode :=
  match list_find (fun p => p.1 = byte) opcode_table with
  | Some (_, (_, op)) => Some op
  | None =>
      if (96 <=? byte) && (byte <=? 127) then Some Push1
      else if (128 <=? byte) && (byte <=? 143) then Some Dup1
      else if (144 <=? byte) && (byte <=? 159) then Some Swap1
      else if (160 <=? byte) && (byte <=? 164) then Some Log0
      else None
  end.

Definition gas_cost (schedule : GasSchedule) (op : Opcode) : Z :=
  match op with
  | Stop => 0
  | Add | Sub | Mul | Div | Mod | Lt | Gt | Eq | IsZero | And | Or | Xor | Not
  | Pop | PC | MSize | Gas | Address | Caller | Origin
  | CallDataSize | CodeSize | RetDataSize => base schedule
  | SDiv | SMod | SignExtend | SLt | SGt | Byte | Shl | Shr | Sar => low schedule
  | AddMod | MulMod | Jump | JumpI => mid schedule
  | Exp => exp schedule
  | Sha3 => sha3 schedule
  | SLoad => sload schedule
  | SStore => sstore_set schedule
  | Balance | ExtCodeSize | ExtCodeHash => sched_balance schedule
  | Call | CallCode | DelegateCall | StaticCall => call schedule
  | Create | Create2 => create schedule
  | SelfDestruct => selfdestruct schedule
  | MLoad | MStore | MStore8 => very_low schedule
  | JumpDest => 1
  | Invalid => 0
  | Return | Revert => 0
  | _ => mid schedule
  end.
End Op.

(** ** The machine *)

Record VM : Type := mkVM {
  code : list Z;
  pc : Z;
  stack : Stack;
  memory : Memory;
  gas_meter : GasMeter;
  gas_schedule : GasSchedule;
  return_data : list Z;
  stopped : bool
}.

Definition with_schedule (c : list Z) (limit : Z) (schedule : GasSchedule) : VM :=
  mkVM c 0 [] memory_new (meter_new limit) schedule [] false.
Definition vm_new (c : list Z) (limit : Z) : VM := with_schedule c limit default_schedule.

Definition set_pc (p : Z) (v : VM) : VM :=
  mkVM (code v) p (stack v) (memory v) (gas_meter v) (gas_schedule v) (return_data v) (stopped v).
Definition set_stack (s : Stack) (v : VM) : VM :=
  mkVM (code v) (pc v) s (memory v) (gas_meter v) (gas_schedule v) (return_data v) (stopped v).
Definition set_memory (m : Memory) (v : VM) : VM :=
  mkVM (code v) (pc v) (stack v) m (gas_meter v) (gas_schedule v) (return_data v) (stopped v).
Definition set_meter (g : GasMeter) (v : VM) : VM :=
  mkVM (code v) (pc v) (stack v) (memory v) g (gas_schedule v) (return_data v) (stopped v).
Definition set_return (d : list Z) (v : VM) : VM :=
  mkVM (code v) (pc v) (stack v) (memory v) (gas_meter v) (gas_schedule v) d (stopped v).
Definition set_stopped (b : bool) (v : VM) : VM :=
  mkVM (code v) (pc v) (stack v) (memory v) (gas_meter v) (gas_schedule v) (return_data v) b.

(** Calls on the fields of [self]. *)
Definition on_stack {A} (m : ST Stack ExecutionError A) : ST VM ExecutionError A :=
  fun v => let '(r, s) := m (stack v) in (r, set_stack s v).
Definition on_meter {A} (m : ST GasMeter ExecutionError A) : ST VM ExecutionError A :=
  fun v => let '(r, g) := m (gas_meter v) in (r, set_meter g v).
Definition on_memory (f : Memory -> Outcome ExecutionError Memory) : ST VM ExecutionError unit :=
  fun v => match f (memory v) with
           | Ok m => (Ok tt, set_memory m v)
           | Err e => (Err e, v)
           | Panic => (Panic, v)
           | Deadlock => (Deadlock, v)
           end.
Definition read_memory {A} (f : Memory -> Outcome ExecutionError A) : ST VM ExecutionError A :=
  fun v => (f (memory v), v).

Definition bool_word (b : bool) : Word := if b then word_one else word_zero.

Section Machine.
Context `{BP : BuildProfile} `{KC : Keccak}.

Definition pop_usize : ST VM ExecutionError Z :=
  do! w := on_stack pop in sret (word_to_usize w).
Definition binop (f : Word -> Word -> Word) : ST VM ExecutionError unit :=
  do! a := on_stack pop in
  do! b := on_stack pop in
  on_stack (push (f a b)).

(** [dest >= self.code.len() || self.code[dest] != 0x5b]. *)
Definition jump_to (dest : Z) : ST VM ExecutionError unit :=
  do! c := sget code in
  if Z.of_nat (length c) <=? dest then sfail InvalidJump
  else
    do! target := slift (index c (Z.to_nat dest)) in
    if negb (target =? 91) then sfail InvalidJump else smod (set_pc dest).

(** The [match opcode] of [step]. *)
Definition exec (op : Op.Opcode) : ST VM ExecutionError unit :=
  match op with
  | Op.Stop => smod (set_stopped true)
  | Op.Add => binop add
  | Op.Mul =>
      do! a := on_stack pop in
      do! b := on_stack pop in
      do! result := slift (mul a b) in
      on_stack (push result)
  | Op.Sub => binop sub
  | Op.Div => binop div
  | Op.Lt => binop (fun a b => bool_word (lt a b))
  | Op.Gt => binop (fun a b => bool_word (gt a b))
  | Op.Eq => binop (fun a b => bool_word (bool_decide (a = b)))
  | Op.IsZero =>
      do! a := on_stack pop in on_stack (push (bool_word (is_zero a)))
  | Op.And => binop (zip_with Z.land)
  | Op.Or => binop (zip_with Z.lor)
  | Op.Xor => binop (zip_with Z.lxor)
  | Op.Not =>
      do! a := on_stack pop in on_stack (push (map (fun x => Z.lxor x 255) a))
  | Op.Pop => do! _ := on_stack pop in sret tt
  | Op.MLoad =>
      do! offset := pop_usize in
      do! value := read_memory (mem_read_word offset) in
      on_stack (push value)
  | Op.MStore =>
      do! offset := pop_usize in
      do! value := on_stack pop in
      on_memory (mem_write_word offset value)
  | Op.MStore8 =>
      do! offset := pop_usize in
      do! value := on_stack pop in
      do! byte := slift (index value 31) in
      on_memory (mem_write offset [byte])
  | Op.Jump => do! dest := pop_usize in jump_to dest
  | Op.JumpI =>
      do! dest := pop_usize in
      do! cond := on_stack pop in
      if is_zero cond then sret tt else jump_to dest
  | Op.JumpDest => sret tt
  | Op.PC =>
      do! p := sget pc in on_stack (push (replicate 24 0 ++ to_be_bytes 8 p))
  | Op.Gas =>
      do! g := sget gas_meter in on_stack (push (replicate 24 0 ++ to_be_bytes 8 (remaining g)))
  | Op.Sha3 =>
      do! offset := pop_usize in
      do! size := pop_usize in
      do! data := read_memory (mem_read offset size) in
      on_stack (push (keccak256 data))
  | Op.Return =>
      do! offset := pop_usize in
      do! size := pop_usize in
      do! data := read_memory (mem_read offset size) in
      run! smod (set_return data) in
      smod (set_stopped true)
  | Op.Revert =>
      do! offset := pop_usize in
      do! size := pop_usize in
      do! reason := read_memory (mem_read offset size) in
      sfail (Revert (from_utf8_lossy reason))
  | Op.Invalid => sfail (InvalidOpcode 254)
  | _ => sret tt
  end.

Definition step : ST VM ExecutionError unit :=
  do! c := sget code in
  do! p := sget pc in
  do! opcode_byte := slift (index c (Z.to_nat p)) in
  do! opcode := slift (ok_or (Op.from_u8 opcode_byte) (InvalidOpcode opcode_byte)) in
  do! schedule := sget gas_schedule in
  do! granted := on_meter (use_gas (Op.gas_cost schedule opcode)) in
  if negb granted then
    do! g := sget gas_meter in sfail (OutOfGas (used g) (gas_limit g))
  else
    do! p' := slift (add_u64 p 1) in
    run! smod (set_pc p') in
    exec opcode.

(** [while !self.stopped && self.pc < self.code.len()]; [None] is a loop that has not
    ended within the fuel. *)
Fixpoint run (fuel : nat) (v : VM) : option (Outcome ExecutionError (list Z) * VM) :=
  if negb (stopped v) && (pc v <? Z.of_nat (length (code v))) then
    match fuel with
    | O => None
    | S fuel' =>
        match step v with
        | (Ok _, v') => run fuel' v'
        | (Err e, v') => Some (Err e, v')
        | (Panic, v') => Some (Panic, v')
        | (Deadlock, v') => Some (Deadlock, v')
        end
    end
  else Some (Ok (return_data v), v).

Definition vm_gas_used (v : VM) : Z := used (gas_meter v).
Definition vm_gas_remaining (v : VM) : Z := remaining (gas_meter v).
End Machine.
