(* ===== verification/VMFacts.v ===== *)
(** * What the virtual machine guarantees

    Proofs about [VM]: a Hoare-style rule for stateful calls, the well-formedness
    invariant of a machine and its preservation by every opcode, termination of [run] by
    gas, the memory laws and the behaviour of the opcodes. *)

From S2P Require Import Prelude Hashing Words Gas VM.

(** ** The invariant *)

(** Every price is a non-negative number that can be added to the limit without overflow. *)
Definition room (limit : Z) (s : GasSchedule) : Prop :=
  forall op, 0 <= Op.gas_cost s op /\ limit + Op.gas_cost s op < 2 ^ 64.

Record vm_ok (v : VM) : Prop := {
  ok_words : Forall word_ok (stack v);
  ok_depth : (length (stack v) <= MAX_STACK_SIZE)%nat;
  ok_memory : Forall byte_ok (mem_data (memory v));
  ok_return : Forall byte_ok (return_data v);
  ok_pc : 0 <= pc v;
  ok_code : Z.of_nat (length (code v)) <= ISIZE_MAX;
  ok_meter : meter_ok (gas_meter v);
  ok_room : room (gas_limit (gas_meter v)) (gas_schedule v)
}.

(** [inv m Q]: [m] keeps the invariant and a value it returns satisfies [Q]. *)
Definition inv {A} (m : ST VM ExecutionError A) (Q : A -> Prop) : Prop :=
  forall v, vm_ok v -> vm_ok (m v).2 /\ (m v).1 <> Deadlock /\ forall a, (m v).1 = Ok a -> Q a.

Lemma inv_bind_rule {A B} (m : ST VM ExecutionError A) (k : A -> ST VM ExecutionError B) Q R :
  inv m Q -> (forall a, Q a -> inv (k a) R) -> inv (sbind m k) R.
Proof.
  intros Hm Hk v Hv. destruct (Hm v Hv) as (Hv' & Hd & HQ). unfold sbind.
  destruct (m v) as [[a|e| |] v']; cbn in *; [apply Hk; auto|by split_and!..].
Qed.

Lemma inv_ret {A} (a : A) (Q : A -> Prop) : Q a -> inv (sret a) Q.
Proof. intros Ha v Hv. cbn. split_and!; [done|done|]. by intros ? [= <-]. Qed.

Lemma inv_fail {A} e (Q : A -> Prop) : inv (sfail e) Q.
Proof. intros v Hv. by split_and!. Qed.

Lemma inv_get {A} (f : VM -> A) (Q : A -> Prop) : (forall v, vm_ok v -> Q (f v)) -> inv (sget f) Q.
Proof. intros Hf v Hv. cbn. split_and!; [done|done|]. intros ? [= <-]. auto. Qed.

Lemma inv_lift {A} (m : Outcome ExecutionError A) (Q : A -> Prop) :
  m <> Deadlock -> (forall a, m = Ok a -> Q a) -> inv (slift m) Q.
Proof. intros Hd HQ v Hv. by split_and!. Qed.

Lemma inv_mod (f : VM -> VM) : (forall v, vm_ok v -> vm_ok (f v)) -> inv (smod f) (fun _ => True).
Proof. intros Hf v Hv. split_and!; [by apply Hf|done|done]. Qed.

Lemma inv_weaken {A} (m : ST VM ExecutionError A) (Q R : A -> Prop) :
  inv m Q -> (forall a, Q a -> R a) -> inv m R.
Proof. intros Hm HR v Hv. destruct (Hm v Hv) as (? & ? & ?). split_and!; auto. Qed.

Ltac vm_record := intros []; split; cbn in *; auto.

Lemma set_stack_ok s v :
  vm_ok v -> Forall word_ok s -> (length s <= MAX_STACK_SIZE)%nat -> vm_ok (set_stack s v).
Proof. vm_record. Qed.
Lemma set_memory_ok m v : vm_ok v -> Forall byte_ok (mem_data m) -> vm_ok (set_memory m v).
Proof. vm_record. Qed.
Lemma set_return_ok d v : vm_ok v -> Forall byte_ok d -> vm_ok (set_return d v).
Proof. vm_record. Qed.
Lemma set_stopped_ok b v : vm_ok v -> vm_ok (set_stopped b v).
Proof. vm_record. Qed.
Lemma set_pc_ok p v : vm_ok v -> 0 <= p -> vm_ok (set_pc p v).
Proof. vm_record. Qed.

(** ** Stack, memory and meter keep it *)

Lemma last_snoc_take {A} (l : list A) x : last l = Some x -> l = take (length l - 1) l ++ [x].
Proof.
  intros Hl. apply last_Some in Hl as [l' ->]. rewrite length_app. cbn.
  replace (length l' + 1 - 1)%nat with (length l') by lia. by rewrite take_app_length.
Qed.

Lemma inv_pop : inv (on_stack pop) word_ok.
Proof.
  intros v Hv. pose proof Hv as []. unfold on_stack, pop.
  destruct (last (stack v)) as [x|] eqn:Hl; cbn.
  - split_and!; [|done|].
    + apply set_stack_ok; [done|by apply Forall_take|]. rewrite length_take. lia.
    + intros ? [= <-]. rewrite Forall_lookup in ok_words0.
      rewrite last_lookup in Hl. by eapply ok_words0.
  - split_and!; [|done|done]. apply set_stack_ok; done.
Qed.

Lemma inv_push w : word_ok w -> inv (on_stack (push w)) (fun _ => True).
Proof.
  intros Hw v Hv. pose proof Hv as []. unfold on_stack, push.
  destruct (Nat.leb_spec MAX_STACK_SIZE (length (stack v))) as [Hle|Hlt]; cbn.
  - split_and!; [by apply set_stack_ok|done|done].
  - split_and!; [|done|done]. apply set_stack_ok; [done| |].
    + apply Forall_app. split; [done|]. by apply Forall_singleton.
    + rewrite length_app. cbn. unfold MAX_STACK_SIZE in *. lia.
Qed.

Section Memory.
Context `{BP : BuildProfile}.

Lemma zeros_len {E} n l : zeros (E := E) n = Ok l ->
  length l = Z.to_nat n /\ Forall byte_ok l.
Proof.
  unfold zeros. case_match; [done|]. intros [= <-]. rewrite length_replicate.
  split; [done|]. apply Forall_replicate. unfold byte_ok. lia.
Qed.

Lemma vec_resize_len {E} d n l : vec_resize (E := E) d n = Ok l -> Forall byte_ok d ->
  length l = Z.to_nat n /\ Forall byte_ok l.
Proof.
  unfold vec_resize. case_match; [done|]. intros [= <-] Hd.
  rewrite length_app, length_take, length_replicate. split; [lia|].
  apply Forall_app. split; [by apply Forall_take|]. apply Forall_replicate. unfold byte_ok. lia.
Qed.

Lemma mem_read_len {E} off size m l :
  0 <= off -> 0 <= size -> Forall byte_ok (mem_data m) ->
  mem_read (E := E) off size m = Ok l -> length l = Z.to_nat size /\ Forall byte_ok l.
Proof.
  intros Ho Hs Hm. unfold mem_read. destruct (Z.leb_spec (mem_size m) off) as [|Hin].
  { apply zeros_len. }
  intros H. inv_bind H. pose proof (arith_ok_range 64 _ _ ltac:(lia) Hm0) as Ha.
  destruct (Z.ltb_spec (Z.min a (mem_size m)) off) as [|Hge]; [done|].
  assert (HF : Forall byte_ok (slice (mem_data m) (Z.to_nat off) (Z.to_nat (Z.min a (mem_size m)))))
    by by apply Forall_slice.
  destruct (Z.ltb_spec (Z.of_nat (length (slice (mem_data m) (Z.to_nat off)
              (Z.to_nat (Z.min a (mem_size m)))))) size) as [|Hfull].
  { intros; by eapply vec_resize_len. }
  injection H as <-. split; [|done].
  unfold mem_size in *. rewrite length_slice in * by lia.
  unfold add_u64, arith in Hm0. case_decide as Hf; [injection Hm0 as <-; lia|].
  destruct overflow_checks; [done|]. injection Hm0 as <-. unfold fits in *.
  assert (HH : (off + size) mod 2 ^ 64 < off + size \/ off + size < 2 ^ 64).
  { destruct (Z.lt_ge_cases (off + size) (2 ^ 64)); [by right|left].
    pose proof (Z.mod_pos_bound (off + size) (2 ^ 64)). lia. }
  lia.
Qed.

Lemma mem_write_ok {E} off d m m' :
  Forall byte_ok d -> Forall byte_ok (mem_data m) ->
  mem_write (E := E) off d m = Ok m' -> Forall byte_ok (mem_data m').
Proof.
  intros Hd Hm H. unfold mem_write in H. inv_bind H. inv_bind H.
  assert (Ha0 : Forall byte_ok (mem_data a0)).
  { clear H. unfold mem_resize in Hm1. case_match; [|by simplify_eq].
    inv_bind Hm1. injection Hm1 as <-. cbn. by eapply vec_resize_len. }
  case_match; [done|]. injection H as <-. cbn.
  rewrite !Forall_app. split_and!; [by apply Forall_take|done|by apply Forall_drop].
Qed.

Lemma mem_ops_total {E} off size d m :
  mem_read (E := E) off size m <> Deadlock /\ mem_write (E := E) off d m <> Deadlock /\
  (forall e, mem_read (E := E) off size m <> Err e) /\ (forall e, mem_write (E := E) off d m <> Err e).
Proof.
  unfold mem_read, mem_write, mem_resize, zeros, vec_resize, add_u64, arith.
  repeat (case_match || case_decide || split_and! || intros ? || cbn in *); by simplify_eq.
Qed.
End Memory.

(** ** Every opcode keeps it *)

Lemma bool_word_ok b : word_ok (bool_word b).
Proof. destruct b; auto with pacyte. Qed.

Lemma zip_word_ok f a b :
  (forall x y, byte_ok x -> byte_ok y -> byte_ok (f x y)) ->
  word_ok a -> word_ok b -> word_ok (zip_with f a b).
Proof.
  intros Hf [Hla Ha] [Hlb Hb]. split; [rewrite length_zip_with; lia|].
  eapply Forall_zip_with_fst with (P := byte_ok); [done|].
  eapply Forall_impl; [exact Hb|]. intros y Hy x Hx. by apply Hf.
Qed.

Lemma not_word_ok a : word_ok a -> word_ok (map (fun x => Z.lxor x 255) a).
Proof.
  intros [Hl Ha]. split; [by rewrite length_map|]. apply Forall_map.
  eapply Forall_impl; [exact Ha|]. intros x Hx. apply lxor_byte; [done|]. unfold byte_ok. lia.
Qed.

Lemma u64_word_ok z : word_ok (replicate 24 0 ++ to_be_bytes 8 z).
Proof.
  split; [by rewrite length_app, length_to_be_bytes|].
  apply Forall_app. split; [|auto with pacyte]. apply Forall_replicate. unfold byte_ok. lia.
Qed.

Lemma usize_fits w : word_ok w -> fits 64 (word_to_usize w).
Proof.
  intros [Hl Hw]. unfold word_to_usize. pose proof (from_be_bytes_bound (slice w 24 32)) as H.
  rewrite length_slice in H by lia. apply H. by apply Forall_slice.
Qed.

#[export] Hint Resolve bool_word_ok not_word_ok u64_word_ok land_byte lor_byte lxor_byte : pacyte.

Section Invariant.
Context `{BP : BuildProfile} `{KC : Keccak}.

Lemma inv_pop_usize : inv pop_usize (fits 64).
Proof.
  eapply inv_bind_rule; [apply inv_pop|]. intros w Hw. apply inv_ret. by apply usize_fits.
Qed.

Lemma inv_binop f :
  (forall a b, word_ok a -> word_ok b -> word_ok (f a b)) -> inv (binop f) (fun _ => True).
Proof.
  intros Hf. eapply inv_bind_rule; [apply inv_pop|]. intros a Ha.
  eapply inv_bind_rule; [apply inv_pop|]. intros b Hb. apply inv_push. auto.
Qed.

Lemma index_not_deadlock {E A} (l : list A) i : index (E := E) l i <> Deadlock.
Proof. unfold index. by case_match. Qed.

Lemma inv_jump_to dest : 0 <= dest -> inv (jump_to dest) (fun _ => True).
Proof.
  intros Hd. eapply inv_bind_rule with (Q := fun _ => True); [by apply inv_get|]. intros c _.
  case_match; [apply inv_fail|].
  eapply inv_bind_rule with (Q := fun _ => True).
  { apply inv_lift; [apply index_not_deadlock|done]. }
  intros t _. case_match; [apply inv_fail|]. apply inv_mod. intros v Hv. by apply set_pc_ok.
Qed.

Lemma inv_read off size :
  0 <= off -> 0 <= size ->
  inv (read_memory (mem_read off size)) (fun d => length d = Z.to_nat size /\ Forall byte_ok d).
Proof.
  intros Ho Hs v Hv. pose proof Hv as []. unfold read_memory. cbn.
  split_and!; [done|apply (mem_ops_total off size [])|]. intros a. by apply mem_read_len.
Qed.

Lemma inv_write off d :
  Forall byte_ok d -> inv (on_memory (mem_write off d)) (fun _ => True).
Proof.
  intros Hd v Hv. pose proof Hv as []. unfold on_memory.
  pose proof (proj1 (proj2 (mem_ops_total (E := ExecutionError) off 0 d (memory v)))).
  destruct (mem_write off d (memory v)) as [m| | |] eqn:Hw; cbn; [|done..].
  split_and!; [|done|done]. apply set_memory_ok; [done|]. exact (mem_write_ok off d (memory v) m Hd ok_memory0 Hw).
Qed.

(** Two popped [usize]s and the memory range they describe. *)
Lemma inv_range {A} (k : list Z -> ST VM ExecutionError A) Q :
  (forall d, Forall byte_ok d -> inv (k d) Q) ->
  inv (do! offset := pop_usize in
       do! size := pop_usize in
       do! data := read_memory (mem_read offset size) in k data) Q.
Proof.
  intros Hk. eapply inv_bind_rule; [apply inv_pop_usize|]. intros off [Ho _].
  eapply inv_bind_rule; [apply inv_pop_usize|]. intros size [Hs _].
  eapply inv_bind_rule; [by apply inv_read|]. intros d [_ Hd]. auto.
Qed.

Lemma inv_exec op : inv (exec op) (fun _ => True).
Proof.
  destruct op; cbn [exec];
    lazymatch goal with
    | |- inv (sret _) _ => apply inv_ret; exact I
    | |- inv (binop (zip_with _)) _ => apply inv_binop; intros; apply zip_word_ok; auto with pacyte
    | |- inv (binop _) _ => apply inv_binop; intros; auto with pacyte
    | _ => idtac
    end.
  - apply inv_mod. intros v Hv. by apply set_stopped_ok.
  - (* Mul *)
    eapply inv_bind_rule; [apply inv_pop|]. intros a Ha.
    eapply inv_bind_rule; [apply inv_pop|]. intros b Hb.
    eapply inv_bind_rule with (Q := word_ok).
    { apply inv_lift; [|apply mul_ok]. unfold mul, mul_u128, arith.
      by case_decide; [|destruct overflow_checks]. }
    intros r Hr. by apply inv_push.
  - (* IsZero *)
    eapply inv_bind_rule; [apply inv_pop|]. intros a Ha. apply inv_push. auto with pacyte.
  - (* Not *)
    eapply inv_bind_rule; [apply inv_pop|]. intros a Ha. apply inv_push. auto with pacyte.
  - (* Sha3 *) apply inv_range. intros d Hd. apply inv_push. apply keccak256_ok.
  - (* Pop *) eapply inv_bind_rule; [apply inv_pop|]. intros. by apply inv_ret.
  - (* MLoad *)
    eapply inv_bind_rule; [apply inv_pop_usize|]. intros off [Ho _].
    eapply inv_bind_rule; [by apply inv_read|]. intros w [Hl Hw]. by apply inv_push.
  - (* MStore *)
    eapply inv_bind_rule; [apply inv_pop_usize|]. intros off [Ho _].
    eapply inv_bind_rule; [apply inv_pop|]. intros w [Hl Hw]. by apply inv_write.
  - (* MStore8 *)
    eapply inv_bind_rule; [apply inv_pop_usize|]. intros off [Ho _].
    eapply inv_bind_rule; [apply inv_pop|]. intros w [Hl Hw].
    eapply inv_bind_rule with (Q := byte_ok).
    { apply inv_lift; [apply index_not_deadlock|]. unfold index. intros b.
      case_match eqn:Hi; [|done]. intros [= <-]. rewrite Forall_lookup in Hw. by eapply Hw. }
    intros b Hb. apply inv_write. by apply Forall_singleton.
  - (* Jump *)
    eapply inv_bind_rule; [apply inv_pop_usize|]. intros d [Hd _]. by apply inv_jump_to.
  - (* JumpI *)
    eapply inv_bind_rule; [apply inv_pop_usize|]. intros d [Hd _].
    eapply inv_bind_rule; [apply inv_pop|]. intros c Hc.
    case_match; [by apply inv_ret|by apply inv_jump_to].
  - (* PC *)
    eapply inv_bind_rule with (Q := fun _ => True); [by apply inv_get|]. intros p _.
    apply inv_push. auto with pacyte.
  - (* Gas *)
    eapply inv_bind_rule with (Q := fun _ => True); [by apply inv_get|]. intros g _.
    apply inv_push. auto with pacyte.
  - (* Return *)
    apply inv_range. intros d Hd.
    eapply inv_bind_rule with (Q := fun _ => True).
    + apply inv_mod. intros v Hv. by apply set_return_ok.
    + intros _ _. apply inv_mod. intros v Hv. by apply set_stopped_ok.
  - (* Revert *) apply inv_range. intros. apply inv_fail.
  - (* Invalid *) apply inv_fail.
Qed.
End Invariant.

(** ** One step *)

(** The opcodes after whose success the loop ends. *)
Definition halting (op : Op.Opcode) : bool :=
  match op with Op.Stop | Op.Return | Op.Revert | Op.Invalid => true | _ => false end.

(** Every other opcode costs something. *)
Definition paying (s : GasSchedule) : Prop :=
  forall op, halting op = false -> 1 <= Op.gas_cost s op.

Lemma default_paying : paying default_schedule.
Proof. intros []; cbn; intros; (done || vm_compute; congruence). Qed.

Lemma default_room limit : 0 <= limit < 2 ^ 64 - 32000 -> room limit default_schedule.
Proof.
  intros Hl op. assert (0 <= Op.gas_cost default_schedule op <= 32000)
    by (destruct op; vm_compute; split; congruence). lia.
Qed.

Definition frame (v w : VM) : Prop :=
  gas_meter w = gas_meter v /\ code w = code v /\ gas_schedule w = gas_schedule v.

Definition framed {A} (m : ST VM ExecutionError A) : Prop := forall v, frame v (m v).2.

Lemma framed_bind {A B} (m : ST VM ExecutionError A) (k : A -> ST VM ExecutionError B) :
  framed m -> (forall a, framed (k a)) -> framed (sbind m k).
Proof.
  intros Hm Hk v. specialize (Hm v). unfold sbind.
  destruct (m v) as [[a| | |] w]; cbn in *; try done.
  specialize (Hk a w). unfold frame in *. intuition congruence.
Qed.
Lemma framed_const {A} (f : VM -> Outcome ExecutionError A) : framed (fun v => (f v, v)).
Proof. done. Qed.
Lemma framed_mod f : (forall v, frame v (f v)) -> framed (smod f).
Proof. intros H v. apply H. Qed.
Lemma framed_stack {A} (m : ST Stack ExecutionError A) : framed (on_stack m).
Proof. intros v. unfold on_stack. by destruct (m (stack v)). Qed.
Lemma framed_memory f : framed (on_memory f).
Proof. intros v. unfold on_memory. by destruct (f (memory v)). Qed.

Ltac framed_tac :=
  repeat lazymatch goal with
  | |- framed (sbind _ _) => apply framed_bind; [|intros ?]
  | |- framed (on_stack _) => apply framed_stack
  | |- framed (on_memory _) => apply framed_memory
  | |- framed (smod _) => apply framed_mod; done
  | |- framed (if _ then _ else _) => case_match
  | |- framed pop_usize => apply framed_bind; [|intros ?]
  | |- framed _ => apply framed_const
  end.

Section Steps.
Context `{BP : BuildProfile} `{KC : Keccak}.

Lemma framed_exec op : framed (exec op).
Proof. destruct op; cbn [exec]; unfold binop, jump_to; framed_tac. Qed.

(** The machine after the gas of [op] has been charged and the counter advanced. *)
Definition charged (op : Op.Opcode) (v : VM) : VM :=
  set_pc (pc v + 1)
    (set_meter (mkMeter (gas_limit (gas_meter v))
                  (gas_used (gas_meter v) + Op.gas_cost (gas_schedule v) op)
                  (gas_refund (gas_meter v))) v).

Lemma set_meter_id v : set_meter (gas_meter v) v = v.
Proof. by destruct v. Qed.

(** A step, with the gas test of the machine's invariant. *)
Lemma step_spec v b :
  vm_ok v -> code v !! Z.to_nat (pc v) = Some b ->
  step v =
  match Op.from_u8 b with
  | None => (Err (InvalidOpcode b), v)
  | Some op =>
      if gas_used (gas_meter v) + Op.gas_cost (gas_schedule v) op <=? gas_limit (gas_meter v)
      then exec op (charged op v)
      else (Err (OutOfGas (gas_used (gas_meter v)) (gas_limit (gas_meter v))), v)
  end.
Proof.
  intros Hv Hb. pose proof Hv as []. unfold step, sbind, sget, slift, index. rewrite Hb.
  destruct (Op.from_u8 b) as [op|]; cbn [ok_or]; [|done].
  unfold on_meter. destruct (ok_room0 op) as [Hc Hr]. rewrite use_gas_spec by done.
  apply lookup_lt_Some in Hb.
  destruct (Z.leb_spec (gas_used (gas_meter v) + Op.gas_cost (gas_schedule v) op)
              (gas_limit (gas_meter v))); cbn [negb].
  - unfold add_u64. by rewrite arith_fits by (unfold fits, ISIZE_MAX in *; lia).
  - unfold sfail. by rewrite set_meter_id.
Qed.

Lemma charged_ok op v :
  vm_ok v ->
  gas_used (gas_meter v) + Op.gas_cost (gas_schedule v) op <= gas_limit (gas_meter v) ->
  vm_ok (charged op v).
Proof.
  intros [] Hle. destruct (ok_room0 op) as [Hc _]. destruct ok_meter0 as (? & ? & ?).
  split; cbn; try done; [lia|]. unfold meter_ok. cbn. split_and!; (done || lia).
Qed.

Lemma inv_step v r v' :
  vm_ok v -> pc v < Z.of_nat (length (code v)) -> step v = (r, v') ->
  vm_ok v' /\ r <> Deadlock /\ code v' = code v /\ gas_schedule v' = gas_schedule v /\
  gas_limit (gas_meter v') = gas_limit (gas_meter v).
Proof.
  intros Hv Hpc Hs. pose proof (ok_pc v Hv).
  destruct (lookup_lt_is_Some_2 (code v) (Z.to_nat (pc v))) as [b Hb]; [lia|].
  rewrite (step_spec v b Hv Hb) in Hs.
  destruct (Op.from_u8 b) as [op|]; [|by injection Hs as <- <-].
  destruct (Z.leb_spec (gas_used (gas_meter v) + Op.gas_cost (gas_schedule v) op)
              (gas_limit (gas_meter v))); [|by injection Hs as <- <-].
  destruct (inv_exec op (charged op v) (charged_ok op v Hv ltac:(done))) as (Hok & Hd & _).
  destruct (framed_exec op (charged op v)) as (Hg & Hc & Hsch).
  rewrite Hs in *. cbn in *. split_and!; try done. by rewrite Hg.
Qed.

Lemma halting_stops op v v' u :
  halting op = true -> exec op v = (Ok u, v') -> stopped v' = true.
Proof.
  destruct op; try done; intros _ H; cbn [exec] in H.
  - by injection H as <- <-.
  - repeat (step_st H; try discriminate). unfold smod in *. by simplify_eq.
  - repeat (step_st H; try discriminate).
Qed.

(** Progress towards the end of the loop: a successful step halts or uses gas. *)
Lemma step_pays v u v' :
  vm_ok v -> paying (gas_schedule v) -> pc v < Z.of_nat (length (code v)) ->
  step v = (Ok u, v') ->
  stopped v' = true \/ gas_used (gas_meter v) + 1 <= gas_used (gas_meter v').
Proof.
  intros Hv Hp Hpc Hs. pose proof (ok_pc v Hv).
  destruct (lookup_lt_is_Some_2 (code v) (Z.to_nat (pc v))) as [b Hb]; [lia|].
  rewrite (step_spec v b Hv Hb) in Hs. destruct (Op.from_u8 b) as [op|]; [|done].
  destruct (_ <=? _); [|done]. destruct (halting op) eqn:Hh.
  - left. by eapply halting_stops.
  - right. destruct (framed_exec op (charged op v)) as (Hg & _). rewrite Hs in Hg. cbn in Hg.
    rewrite Hg. cbn. specialize (Hp op Hh). lia.
Qed.

Lemma run_stop fuel v :
  negb (stopped v) && (pc v <? Z.of_nat (length (code v))) = false ->
  run fuel v = Some (Ok (return_data v), v).
Proof. intros H. destruct fuel; cbn [run]; by rewrite H. Qed.

Lemma run_terminates n v :
  vm_ok v -> paying (gas_schedule v) ->
  gas_limit (gas_meter v) - gas_used (gas_meter v) <= Z.of_nat n ->
  exists res, run (S (S n)) v = Some res.
Proof.
  revert v; induction n as [|n IH]; intros v Hv Hp Hn;
    destruct (negb (stopped v) && (pc v <? Z.of_nat (length (code v)))) eqn:Hc;
    try (rewrite run_stop by done; eauto; fail);
    apply andb_prop in Hc as Hc'; destruct Hc' as [_ Hpc]; apply Z.ltb_lt in Hpc;
    cbn [run]; rewrite Hc; destruct (step v) as [[u| | |] v'] eqn:Hs; eauto;
    destruct (inv_step v _ v' Hv Hpc Hs) as (Hv' & _ & Hcode & Hsch & Hlim);
    destruct (step_pays v u v' Hv Hp Hpc Hs) as [Hst|Hgas].
  - change (exists res, run 1 v' = Some res). rewrite run_stop by (by rewrite Hst). eauto.
  - destruct (ok_meter v' Hv') as (? & _). lia.
  - change (exists res, run (S (S n)) v' = Some res). rewrite run_stop by (by rewrite Hst). eauto.
  - apply (IH v' Hv'); [by rewrite Hsch|lia].
Qed.

Lemma run_ok fuel v r v' :
  vm_ok v -> run fuel v = Some (r, v') ->
  vm_ok v' /\ r <> Deadlock /\ (forall d, r = Ok d -> Forall byte_ok d) /\
  code v' = code v /\ gas_limit (gas_meter v') = gas_limit (gas_meter v).
Proof.
  revert v; induction fuel as [|fuel IH]; intros v Hv Hr; cbn [run] in Hr;
    destruct (negb (stopped v) && (pc v <? Z.of_nat (length (code v)))) eqn:Hc; try done;
    try (injection Hr as <- <-; split_and!; try done; intros ? [= <-]; by destruct Hv).
  apply andb_prop in Hc as [_ Hpc]. apply Z.ltb_lt in Hpc.
  destruct (step v) as [r1 v1] eqn:Hs.
  destruct (inv_step v r1 v1 Hv Hpc Hs) as (Hv1 & Hd & Hcode & Hsch & Hlim).
  destruct r1; try (injection Hr as <- <-; split_and!; (done || congruence)).
  destruct (IH v1 Hv1 Hr) as (? & ? & ? & ? & ?). split_and!; (done || congruence).
Qed.

Lemma vm_new_ok c limit :
  0 <= limit < 2 ^ 64 - 32000 -> Z.of_nat (length c) <= ISIZE_MAX -> vm_ok (vm_new c limit).
Proof.
  intros Hl Hc. split; cbn; try done; [unfold MAX_STACK_SIZE; lia| |by apply default_room].
  unfold meter_ok, fits. cbn. lia.
Qed.
End Steps.

(** ** Memory laws *)

(** The data extended with zeros up to [n] bytes. *)
Definition padded (d : list Z) (n : nat) : list Z := d ++ replicate (n - length d) 0.

Lemma padded_lookup d n i : default 0 (padded d n !! i) = default 0 (d !! i).
Proof.
  unfold padded. destruct (Nat.lt_ge_cases i (length d)) as [Hi|Hi].
  - by rewrite lookup_app_l.
  - rewrite lookup_app_r, (lookup_ge_None_2 d) by done. cbn.
    destruct (replicate (n - length d) 0 !! (i - length d)%nat) eqn:Hr; [|done].
    by apply lookup_replicate in Hr as [-> _].
Qed.

Lemma mem_write_spec `{BP : BuildProfile} {E} off d m :
  0 <= off < 2 ^ 64 -> Z.of_nat (length d) <= ISIZE_MAX -> mem_size m <= ISIZE_MAX ->
  mem_write (E := E) off d m =
  if off + Z.of_nat (length d) <=? ISIZE_MAX then
    let n := Z.to_nat (off + Z.of_nat (length d)) in
    let d' := padded (mem_data m) n in
    Ok (mkMemory (take (Z.to_nat off) d' ++ d ++ drop n d') (last_gas_cost m))
  else Panic.
Proof.
  intros Ho Hd Hm. unfold mem_write. set (e := off + Z.of_nat (length d)).
  unfold ISIZE_MAX in *. destruct (Z.leb_spec e 9223372036854775807) as [Hle|Hgt].
  - unfold add_u64. fold e. rewrite arith_fits by (unfold fits; lia). cbn [obind].
    unfold mem_resize, vec_resize, mem_size, padded, ISIZE_MAX in *.
    destruct (Z.ltb_spec (Z.of_nat (length (mem_data m))) e) as [Hlt|Hge].
    + rewrite (proj2 (Z.ltb_ge _ _)) by lia. cbn [obind].
      rewrite (proj2 (Z.ltb_ge _ _)) by lia. cbn [mem_data last_gas_cost].
      by rewrite (take_ge (mem_data m)) by lia.
    + cbn [obind]. rewrite (proj2 (Z.ltb_ge _ _)) by lia.
      replace (Z.to_nat e - length (mem_data m))%nat with O by lia. by rewrite app_nil_r.
  - unfold add_u64, arith. fold e. case_decide as Hf.
    + cbn [obind]. unfold mem_resize, vec_resize, ISIZE_MAX, fits in *.
      by rewrite (proj2 (Z.ltb_lt _ _)), (proj2 (Z.ltb_lt _ _)) by lia.
    + destruct overflow_checks; [done|]. cbn [obind]. unfold fits in Hf.
      assert (Hmod : e mod 2 ^ 64 = e - 2 ^ 64)
        by (symmetry; apply Z.mod_unique_pos with (q := 1); lia).
      rewrite Hmod. unfold mem_resize, vec_resize, ISIZE_MAX.
      rewrite (proj2 (Z.ltb_ge 9223372036854775807 _)) by lia.
      destruct (mem_size m <? e - 2 ^ 64); cbn [obind];
        by rewrite (proj2 (Z.ltb_lt _ off)) by lia.
Qed.

Lemma mem_write_read `{BP : BuildProfile} {E} off d m :
  0 <= off -> off + Z.of_nat (length d) <= ISIZE_MAX -> mem_size m <= ISIZE_MAX ->
  exists m', mem_write (E := E) off d m = Ok m' /\
    mem_size m' = Z.max (mem_size m) (off + Z.of_nat (length d)) /\
    mem_read (E := E) off (Z.of_nat (length d)) m' = Ok d /\
    (forall i, (Z.of_nat i < off \/ off + Z.of_nat (length d) <= Z.of_nat i) ->
       default 0 (mem_data m' !! i) = default 0 (mem_data m !! i)).
Proof.
  intros Ho He Hm. rewrite mem_write_spec by (unfold ISIZE_MAX in *; lia).
  rewrite (proj2 (Z.leb_le _ _)) by done. cbv zeta. eexists; split; [reflexivity|].
  set (n := Z.to_nat (off + Z.of_nat (length d))). set (d' := padded (mem_data m) n).
  assert (Hld' : length d' = Nat.max (length (mem_data m)) n)
    by (unfold d', padded; rewrite length_app, length_replicate; lia).
  assert (Hlen : length (take (Z.to_nat off) d' ++ d ++ drop n d') = length d').
  { rewrite !length_app, length_take, length_drop. lia. }
  assert (Hsz : mem_size (mkMemory (take (Z.to_nat off) d' ++ d ++ drop n d') (last_gas_cost m))
                = Z.max (mem_size m) (off + Z.of_nat (length d)))
    by (unfold mem_size in *; cbn [mem_data]; rewrite Hlen; lia).
  assert (Hto : length (take (Z.to_nat off) d') = Z.to_nat off) by (rewrite length_take; lia).
  split_and!; [done| |].
  - unfold mem_read. rewrite Hsz. destruct (Z.leb_spec (Z.max (mem_size m) (off + Z.of_nat (length d))) off).
    + assert (length d = O) as Hd0 by lia. apply nil_length_inv in Hd0 as ->. done.
    + unfold add_u64. rewrite arith_fits by (unfold fits, ISIZE_MAX in *; lia). cbn [obind].
      rewrite Z.min_l by lia. rewrite (proj2 (Z.ltb_ge _ off)) by lia.
      assert (Hsl : slice (take (Z.to_nat off) d' ++ d ++ drop n d') (Z.to_nat off) n = d).
      { unfold slice. rewrite drop_app_length' by done.
        by rewrite take_app_length' by lia. }
      cbn [mem_data]. fold n. rewrite Hsl. by rewrite (proj2 (Z.ltb_ge _ _)) by lia.
  - intros i Hi. cbn [mem_data]. rewrite <- (padded_lookup (mem_data m) n i). fold d'.
    destruct Hi as [Hi|Hi].
    + rewrite lookup_app_l by lia. by rewrite lookup_take_lt by lia.
    + rewrite lookup_app_r by lia. rewrite lookup_app_r by lia. rewrite lookup_drop, Hto.
      f_equal. f_equal. lia.
Qed.

(** ** Stack effects *)

Lemma pop_snoc s x : pop (s ++ [x]) = (Ok x, s).
Proof.
  unfold pop. rewrite last_snoc, length_app. cbn.
  replace (length s + 1 - 1)%nat with (length s) by lia. by rewrite take_app_length.
Qed.

Lemma on_pop_snoc v s x : stack v = s ++ [x] -> on_stack pop v = (Ok x, set_stack s v).
Proof. intros H. unfold on_stack. by rewrite H, pop_snoc. Qed.

Lemma on_push v w :
  (length (stack v) < MAX_STACK_SIZE)%nat ->
  on_stack (push w) v = (Ok tt, set_stack (stack v ++ [w]) v).
Proof. intros H. unfold on_stack, push. by rewrite (proj2 (Nat.leb_gt _ _)). Qed.

Lemma binop_spec f v s a b :
  stack v = s ++ [b; a] -> (length (stack v) <= MAX_STACK_SIZE)%nat ->
  binop f v = (Ok tt, set_stack (s ++ [f a b]) v).
Proof.
  intros Hs Hl. unfold binop, sbind.
  rewrite (on_pop_snoc v (s ++ [b]) a) by (by rewrite Hs, <- app_assoc).
  rewrite (on_pop_snoc _ s b) by done. rewrite on_push; [done|].
  cbn. rewrite Hs, length_app in Hl. cbn in Hl. lia.
Qed.

(** What the two-operand opcodes are to compute on 256-bit numbers. *)
Definition alu_ref (op : Op.Opcode) : option (Z -> Z -> Z) :=
  match op with
  | Op.Add => Some (fun x y => (x + y) mod 2 ^ 256)
  | Op.Sub => Some (fun x y => (x - y) mod 2 ^ 256)
  | Op.Lt => Some (fun x y => if x <? y then 1 else 0)
  | Op.Gt => Some (fun x y => if y <? x then 1 else 0)
  | Op.Eq => Some (fun x y => if x =? y then 1 else 0)
  | _ => None
  end.

Lemma bool_word_val b : word_val (bool_word b) = if b then 1 else 0.
Proof. by destruct b. Qed.

Lemma alu_exec `{BP : BuildProfile} `{KC : Keccak} op f v s a b :
  alu_ref op = Some f -> word_ok a -> word_ok b ->
  stack v = s ++ [b; a] -> (length (stack v) <= MAX_STACK_SIZE)%nat ->
  exists r, exec op v = (Ok tt, set_stack (s ++ [r]) v) /\ word_val r = f (word_val a) (word_val b).
Proof.
  intros Hop Ha Hb Hs Hl.
  destruct op; try discriminate; injection Hop as <-; cbn [exec]; eexists;
    (split; [by apply binop_spec|]).
  - by apply add_val.
  - by apply sub_val.
  - rewrite bool_word_val. destruct Ha, Hb. rewrite lt_val_gen by congruence. done.
  - rewrite bool_word_val, gt_is_lt_flip. destruct Ha, Hb. rewrite lt_val_gen by congruence. done.
  - rewrite bool_word_val. destruct (Z.eqb_spec (word_val a) (word_val b)) as [He|He].
    + rewrite bool_decide_eq_true_2; [done|]. by apply word_val_inj.
    + rewrite bool_decide_eq_false_2; [done|]. by intros ->.
Qed.

Lemma shifted_opcodes b :
  96 <= b <= 164 ->
  exists op, Op.from_u8 b = Some op /\
    (op = Op.Push1 \/ op = Op.Dup1 \/ op = Op.Swap1 \/ op = Op.Log0).
Proof.
  intros Hb.
  assert (Hall : Forall (fun b => exists op, Op.from_u8 b = Some op /\
    (op = Op.Push1 \/ op = Op.Dup1 \/ op = Op.Swap1 \/ op = Op.Log0)) (seqZ 96 69)).
  { vm_compute seqZ. repeat (apply Forall_cons_2; [eexists; split; [vm_compute; reflexivity|tauto]|]).
    apply Forall_nil_2. }
  rewrite Forall_forall in Hall. apply Hall. apply elem_of_seqZ. lia.
Qed.
