(* ===== verification/VMProps.v ===== *)
(** * Properties of the virtual machine (src/execution/vm.rs) *)

From S2P Require Import Prelude Hashing Words Gas VM VMFacts.

(** A machine of the witnesses: [stack] holds the words of the given numbers. *)
Definition machine (c : list Z) (s : list Z) (limit : Z) : VM :=
  set_stack (map word_of s) (vm_new c limit).

Lemma machine_ok c s limit :
  0 <= limit < 2 ^ 64 - 32000 -> Z.of_nat (length c) <= ISIZE_MAX ->
  (length s <= MAX_STACK_SIZE)%nat -> vm_ok (machine c s limit).
Proof.
  intros Hl Hc Hs. apply set_stack_ok; [by apply vm_new_ok| |by rewrite length_map].
  apply Forall_map, Forall_true. intros z.
  split; [apply length_to_be_bytes|apply to_be_bytes_ok].
Qed.

(** C1. [VM::run] always terminates: for any byte code and any gas limit below
    2^64 - 32000, the loop started by [VM::new] ends within [gas_limit + 2] steps, in either
    build profile; it returns, errors or panics but never blocks, and the gas it reports
    is within the limit. *)
Theorem vm_run_terminates `{BP : BuildProfile} `{KC : Keccak} (c : list Z) (limit : Z) :
  0 <= limit < 2 ^ 64 - 32000 -> Z.of_nat (length c) <= ISIZE_MAX ->
  exists r v',
    run (S (S (Z.to_nat limit))) (vm_new c limit) = Some (r, v') /\
    r <> Deadlock /\ 0 <= vm_gas_used v' <= limit.
Proof.
  intros Hl Hc. pose proof (vm_new_ok c limit Hl Hc) as Hok.
  destruct (run_terminates (Z.to_nat limit) (vm_new c limit) Hok default_paying) as [[r v'] Hr].
  { cbn. lia. }
  destruct (run_ok _ _ _ _ Hok Hr) as (Hv' & Hd & _ & _ & Hlim).
  exists r, v'. split_and!; try done; destruct (ok_meter v' Hv') as (? & _);
    unfold vm_gas_used, used; cbn in Hlim; lia.
Qed.

(** An endless loop, JUMPDEST PC ISZERO JUMP: it runs until the gas is gone. *)
Lemma vm_run_terminates_witness :
  exists r v', @run release_profile toy_keccak (S (S (Z.to_nat 100))) (vm_new [91; 88; 21; 86] 100)
    = Some (r, v') /\ 0 <= vm_gas_used v' <= 100.
Proof.
  destruct (@vm_run_terminates release_profile toy_keccak [91; 88; 21; 86] 100)
    as (r & v' & Hr & _ & Hg); [lia|vm_compute; congruence|]. exists r, v'. exact (conj Hr Hg).
Defined.

(** C14. A machine that is well formed (32-byte words, at most 1024 of them, byte-valued memory
    and return data, gas within the limit) is well formed after [run], whatever the code does
    and however it ends; the code and the gas limit are unchanged, and the returned data
    are bytes. *)
Theorem vm_run_preserves_invariant `{BP : BuildProfile} `{KC : Keccak}
    (fuel : nat) (v v' : VM) (r : Outcome ExecutionError (list Z)) :
  vm_ok v -> run fuel v = Some (r, v') ->
  vm_ok v' /\ code v' = code v /\ gas_limit (gas_meter v') = gas_limit (gas_meter v) /\
  (forall d, r = Ok d -> Forall byte_ok d).
Proof. intros Hv Hr. destruct (run_ok _ _ _ _ Hv Hr) as (? & ? & ? & ? & ?). by split_and!. Qed.

Lemma vm_run_preserves_invariant_witness :
  exists v', @run release_profile toy_keccak 9 (machine [1; 0] [5; 7] 1000) = Some (Ok [], v') /\ vm_ok v'.
Proof.
  eexists. split; [vm_compute; reflexivity|].
  refine (proj1 (@vm_run_preserves_invariant release_profile toy_keccak 9
            (machine [1; 0] [5; 7] 1000) _ (Ok []) _ _)).
  - apply machine_ok; [lia|vm_compute; congruence|vm_compute; lia].
  - vm_compute. reflexivity.
Defined.



(** A jump only ever lands on a JUMPDEST: when a JUMP step succeeds the new program counter
    is the position, inside the code, of a byte 0x5b; a JUMPI step that succeeds either does
    so or falls through to the next byte. *)
Theorem vm_jump_lands_on_jumpdest `{BP : BuildProfile} `{KC : Keccak} (v v' : VM) (b : Z) (u : unit) :
  vm_ok v -> code v !! Z.to_nat (pc v) = Some b -> (b = 86 \/ b = 87) ->
  step v = (Ok u, v') ->
  code v' !! Z.to_nat (pc v') = Some 91 \/ (b = 87 /\ pc v' = pc v + 1).
Proof.
  intros Hv Hb Hj Hs. rewrite (step_spec v b Hv Hb) in Hs.
  assert (Hland : forall d w w', 0 <= d -> jump_to d w = (Ok u, w') ->
            code w' !! Z.to_nat (pc w') = Some 91).
  { intros d w w' Hd H. unfold jump_to, sbind, sget in H. case_match; [done|].
    unfold slift, index in H. destruct (code w !! Z.to_nat d) as [t|] eqn:Ht; [|done].
    destruct (Z.eqb_spec t 91) as [->|]; [|done]. injection H as _ <-. done. }
  assert (Hpop : forall w d w', vm_ok w -> pop_usize w = (Ok d, w') ->
            0 <= d /\ vm_ok w' /\ pc w' = pc w).
  { intros w d w' Hw Hp. pose proof (inv_pop_usize w Hw) as (Hok & _ & Hd). rewrite Hp in *.
    cbn in *. destruct (Hd d eq_refl). split_and!; try done.
    unfold pop_usize, sbind, on_stack, sret in Hp.
    destruct (pop (stack w)) as [[x| | |] st]; try discriminate. by injection Hp as _ <-. }
  destruct Hj as [-> | ->];
    [change (Op.from_u8 86) with (Some Op.Jump) in Hs|change (Op.from_u8 87) with (Some Op.JumpI) in Hs];
    cbn iota in Hs; (case_match eqn:Hg; [|done]); apply Z.leb_le in Hg; cbn [exec] in Hs;
    pose proof (charged_ok _ v Hv Hg) as Hc; step_st Hs; try discriminate;
    destruct (Hpop _ _ _ Hc Hm) as (Hr & Hs0 & Hpc).
  - left. by eapply Hland.
  - step_st Hs; try discriminate. case_match; [|left; by eapply Hland].
    right. split; [done|]. unfold on_stack, sret in *.
    destruct (pop (stack s)) as [x st]. injection Hm0 as _ <-. injection Hs as _ <-. exact Hpc.
Qed.

Lemma vm_jump_lands_on_jumpdest_witness :
  exists v', @step release_profile toy_keccak (machine [86; 0; 91] [2] 1000) = (Ok tt, v') /\
    (code v' !! Z.to_nat (pc v') = Some 91 \/ (86 = 87 /\ pc v' = 1)).
Proof.
  eexists. split; [vm_compute; reflexivity|].
  refine (@vm_jump_lands_on_jumpdest release_profile toy_keccak (machine [86; 0; 91] [2] 1000)
            _ 86 tt _ _ _ _).
  - apply machine_ok; [lia|vm_compute; congruence|vm_compute; lia].
  - reflexivity.
  - left. reflexivity.
  - vm_compute. reflexivity.
Defined.

(** PUSH, DUP, SWAP and LOG do nothing: a step on any byte from 0x60 to 0xa4 charges 8 gas and
    advances the counter by one, leaving the stack, the memory and the rest of the machine
    as they are.  In particular the immediate bytes of a PUSH are executed as opcodes. *)
Theorem vm_push_is_noop `{BP : BuildProfile} `{KC : Keccak} (v : VM) (b : Z) :
  vm_ok v -> gas_schedule v = default_schedule ->
  code v !! Z.to_nat (pc v) = Some b -> 96 <= b <= 164 ->
  gas_used (gas_meter v) + 8 <= gas_limit (gas_meter v) ->
  step v = (Ok tt, mkVM (code v) (pc v + 1) (stack v) (memory v)
              (mkMeter (gas_limit (gas_meter v)) (gas_used (gas_meter v) + 8)
                 (gas_refund (gas_meter v)))
              (gas_schedule v) (return_data v) (stopped v)).
Proof.
  intros Hv Hsch Hb Hr Hg. destruct (shifted_opcodes b Hr) as (op & Hop & Hcases).
  rewrite (step_spec v b Hv Hb), Hop.
  assert (Hcost : Op.gas_cost (gas_schedule v) op = 8)
    by (rewrite Hsch; destruct Hcases as [-> | [-> | [-> | ->]]]; reflexivity).
  unfold charged. rewrite Hcost, (proj2 (Z.leb_le _ _)) by done.
  destruct Hcases as [-> | [-> | [-> | ->]]]; reflexivity.
Qed.

(** The byte code of the repository's own test, PUSH1 1 PUSH1 2 ADD STOP. *)
Lemma vm_push_is_noop_witness :
  exists v', @step release_profile toy_keccak (vm_new [96; 1; 96; 2; 1; 0] 100000) = (Ok tt, v') /\
    stack v' = [] /\ pc v' = 1.
Proof.
  eexists. split.
  - apply (@vm_push_is_noop release_profile toy_keccak (vm_new [96; 1; 96; 2; 1; 0] 100000) 96);
      [apply vm_new_ok; [lia|vm_compute; congruence]|reflexivity|reflexivity|lia|vm_compute; congruence].
  - split; reflexivity.
Defined.

(** Memory behaves as an array of bytes that is zero where it was never written:
    [write] followed by [read] of the same range returns the data, bytes outside the range
    keep their value, the size grows to the end of the range; a range that ends beyond
    [isize::MAX] makes [write] panic in both build profiles. *)
Theorem memory_write_read `{BP : BuildProfile} {E} (off : Z) (d : list Z) (m : Memory) :
  0 <= off < 2 ^ 64 -> Z.of_nat (length d) <= ISIZE_MAX -> mem_size m <= ISIZE_MAX ->
  if off + Z.of_nat (length d) <=? ISIZE_MAX then
    exists m', mem_write (E := E) off d m = Ok m' /\
      mem_size m' = Z.max (mem_size m) (off + Z.of_nat (length d)) /\
      mem_read (E := E) off (Z.of_nat (length d)) m' = Ok d /\
      (forall i, Z.of_nat i < off \/ off + Z.of_nat (length d) <= Z.of_nat i ->
         default 0 (mem_data m' !! i) = default 0 (mem_data m !! i))
  else mem_write (E := E) off d m = Panic.
Proof.
  intros Ho Hd Hm. case_match eqn:He.
  - apply Z.leb_le in He. apply mem_write_read; (done || lia).
  - by rewrite mem_write_spec, He by done.
Qed.

Lemma memory_write_read_witness :
  exists m', mem_write (BP := release_profile) (E := unit) 10 [1; 2; 3] memory_new = Ok m' /\
    mem_read (BP := release_profile) (E := unit) 10 3 m' = Ok [1; 2; 3].
Proof.
  destruct (memory_write_read (BP := release_profile) (E := unit) 10 [1; 2; 3] memory_new)
    as (m' & H1 & _ & H2 & _); [lia|vm_compute; congruence|vm_compute; congruence|].
  exists m'. exact (conj H1 H2).
Defined.

(** Memory growth is not charged for: an MSTORE costs 3 gas whatever the offset, while the
    memory it leaves behind reaches 32 bytes past the offset, up to [isize::MAX] bytes
    ([memory_expansion_gas] is never called by the machine). *)
Theorem vm_mstore_growth_unpriced `{BP : BuildProfile} `{KC : Keccak} (v : VM) (s : list Word)
    (value offset : Word) :
  vm_ok v -> gas_schedule v = default_schedule ->
  code v !! Z.to_nat (pc v) = Some 82 -> stack v = s ++ [value; offset] ->
  mem_size (memory v) <= ISIZE_MAX -> word_to_usize offset + 32 <= ISIZE_MAX ->
  gas_used (gas_meter v) + 3 <= gas_limit (gas_meter v) ->
  exists v', step v = (Ok tt, v') /\
    vm_gas_used v' = vm_gas_used v + 3 /\
    mem_size (memory v') = Z.max (mem_size (memory v)) (word_to_usize offset + 32).
Proof.
  intros Hv Hsch Hb Hs Hm Ho Hg. pose proof (ok_words v Hv) as Hstack.
  assert (Hw : word_ok value /\ word_ok offset).
  { rewrite Hs in Hstack. apply Forall_app in Hstack as [_ Hstack]. by inv_Forall. }
  destruct Hw as [[Hlv _] Hwo]. pose proof (usize_fits offset Hwo) as [Hz _].
  rewrite (step_spec v 82 Hv Hb).
  change (Op.from_u8 82) with (Some Op.MStore). cbn iota.
  assert (Hcost : Op.gas_cost (gas_schedule v) Op.MStore = 3) by (by rewrite Hsch).
  rewrite Hcost, (proj2 (Z.leb_le _ _)) by done. cbn [exec]. unfold sbind, pop_usize, sbind.
  rewrite (on_pop_snoc _ (s ++ [value]) offset) by (cbn; by rewrite Hs, <- app_assoc).
  unfold sret. rewrite (on_pop_snoc _ s value) by done. unfold on_memory, mem_write_word.
  destruct (mem_write_read (E := ExecutionError) (word_to_usize offset) value (memory v))
    as (m' & Hwr & Hsz & _); [done|by rewrite Hlv|done|].
  cbn [memory set_stack charged set_pc set_meter] in *. rewrite Hwr.
  eexists; split; [reflexivity|]. cbn. rewrite Hsch, Hsz, Hlv. done.
Qed.

Lemma vm_mstore_growth_unpriced_witness :
  exists v', @step release_profile toy_keccak (machine [82] [7; 2 ^ 40] 1000) = (Ok tt, v') /\
    vm_gas_used v' = 3 /\ mem_size (memory v') = 2 ^ 40 + 32.
Proof.
  refine (@vm_mstore_growth_unpriced release_profile toy_keccak (machine [82] [7; 2 ^ 40] 1000) []
            (word_of 7) (word_of (2 ^ 40)) _ _ _ _ _ _ _).
  - apply machine_ok; [lia|vm_compute; congruence|vm_compute; lia].
  - reflexivity.
  - reflexivity.
  - reflexivity.
  - vm_compute. congruence.
  - vm_compute. congruence.
  - vm_compute. congruence.
Defined.
