(* ===== verification/Precompiles.v ===== *)
(** * Precompiled contracts (src/execution/precompiles.rs)

    The [Precompile] trait is a record of operations; its nine implementations and the
    [PrecompileManager] that dispatches to them.  SHA-256 and RIPEMD-160 are parameters. *)

From S2P Require Import Prelude Hashing Errors.

(** [{ let mut addr = [0u8; 32]; addr[31] = n; addr }]. *)
Definition precompile_address (n : Z) : Address := <[31%nat := n]> (replicate 32 0).
Definition ECRECOVER_ADDRESS : Address := precompile_address 1.
Definition SHA256_ADDRESS : Address := precompile_address 2.
Definition RIPEMD160_ADDRESS : Address := precompile_address 3.
Definition IDENTITY_ADDRESS : Address := precompile_address 4.
Definition MODEXP_ADDRESS : Address := precompile_address 5.
Definition ECADD_ADDRESS : Address := precompile_address 6.
Definition ECMUL_ADDRESS : Address := precompile_address 7.
Definition ECPAIRING_ADDRESS : Address := precompile_address 8.
Definition BLAKE2F_ADDRESS : Address := precompile_address 9.

(** The trait. *)
Record Precompile : Type := mkPrecompile {
  address : Address;
  execute : list Z -> Z -> PacyteResult (list Z * Z);
  gas_cost : list Z -> PacyteResult Z
}.

Section Precompiles.
Context `{BP : BuildProfile} `{DG : Digests}.

(** The common opening of every [execute]: price the input, refuse it above the limit. *)
Definition charge (cost : PacyteResult Z) (gas_limit : Z) (body : PacyteResult (list Z))
    : PacyteResult (list Z * Z) :=
  let? c := cost in
  if gas_limit <? c then Err PE.OutOfGas
  else let? out := body in Ok (out, c).

(** [a + b * ((input.len() + 31) / 32) as u64]. *)
Definition per_word (a b : Z) (input : list Z) : PacyteResult Z :=
  let? n := add_u64 (Z.of_nat (length input)) 31 in
  let? w := mul_u64 b (n / 32) in
  add_u64 a w.

(** [address[12..].copy_from_slice(&hash[0..20])]. *)
Definition ec_recover_address (hash : list Z) : list Z := replicate 12 0 ++ take 20 hash.

Definition EcRecoverPrecompile : Precompile := {|
  address := ECRECOVER_ADDRESS;
  gas_cost := fun _ => Ok 3000;
  execute := fun input gas_limit =>
    charge (Ok 3000) gas_limit
      (if negb (length input =? 128)%nat then Ok []
       else Ok (ec_recover_address (slice input 0 32)))
|}.

Definition Sha256Precompile : Precompile := {|
  address := SHA256_ADDRESS;
  gas_cost := per_word 60 12;
  execute := fun input gas_limit => charge (per_word 60 12 input) gas_limit (Ok (sha256 input))
|}.

Definition Ripemd160Precompile : Precompile := {|
  address := RIPEMD160_ADDRESS;
  gas_cost := per_word 600 120;
  execute := fun input gas_limit =>
    charge (per_word 600 120 input) gas_limit
      (Ok (replicate 12 0 ++ ripemd160 (sha256 input)))
|}.

Definition IdentityPrecompile : Precompile := {|
  address := IDENTITY_ADDRESS;
  gas_cost := per_word 15 3;
  execute := fun input gas_limit => charge (per_word 15 3 input) gas_limit (Ok input)
|}.

Definition ModExpPrecompile : Precompile := {|
  address := MODEXP_ADDRESS;
  gas_cost := fun _ => Ok 100000;
  execute := fun input gas_limit => charge (Ok 100000) gas_limit (Ok [])
|}.

Definition EcAddPrecompile : Precompile := {|
  address := ECADD_ADDRESS;
  gas_cost := fun _ => Ok 500;
  execute := fun input gas_limit => charge (Ok 500) gas_limit (Ok (replicate 64 0))
|}.

Definition EcMulPrecompile : Precompile := {|
  address := ECMUL_ADDRESS;
  gas_cost := fun _ => Ok 40000;
  execute := fun input gas_limit => charge (Ok 40000) gas_limit (Ok (replicate 64 0))
|}.

Definition pairing_gas (input : list Z) : PacyteResult Z :=
  let? p := mul_u64 80000 (Z.of_nat (length input) / 192) in add_u64 100000 p.

Definition EcPairingPrecompile : Precompile := {|
  address := ECPAIRING_ADDRESS;
  gas_cost := pairing_gas;
  execute := fun input gas_limit => charge (pairing_gas input) gas_limit (Ok (replicate 32 1))
|}.

Definition blake2f_gas (input : list Z) : PacyteResult Z :=
  if (length input <? 4)%nat then Ok 0 else Ok (from_be_bytes (take 4 input)).

Definition Blake2FPrecompile : Precompile := {|
  address := BLAKE2F_ADDRESS;
  gas_cost := blake2f_gas;
  execute := fun input gas_limit => charge (blake2f_gas input) gas_limit (Ok (replicate 64 0))
|}.

(** ** PrecompileManager *)

Abbreviation PrecompileManager := (gmap Address Precompile).

Definition register (p : Precompile) (m : PrecompileManager) : PrecompileManager :=
  <[address p := p]> m.

Definition manager_new : PrecompileManager :=
  foldl (fun m p => register p m) ∅
    [EcRecoverPrecompile; Sha256Precompile; Ripemd160Precompile; IdentityPrecompile;
     ModExpPrecompile; EcAddPrecompile; EcMulPrecompile; EcPairingPrecompile; Blake2FPrecompile].

Definition is_precompile (m : PrecompileManager) (a : Address) : bool :=
  bool_decide (is_Some (m !! a)).

Definition manager_execute (m : PrecompileManager) (a : Address) (input : list Z) (gas_limit : Z)
    : PacyteResult (list Z * Z) :=
  let? p := ok_or (m !! a) (PE.PrecompileNotFound a) in
  execute p input gas_limit.

Definition manager_gas_cost (m : PrecompileManager) (a : Address) (input : list Z)
    : option (PacyteResult Z) :=
  (fun p => gas_cost p input) <$> m !! a.

(** ** The contract every precompile keeps *)

(** What [execute] promises: it fails with [OutOfGas] exactly when the price exceeds the
    limit, and otherwise charges exactly the price. *)
Definition priced (p : Precompile) (input : list Z) : Prop :=
  exists c, gas_cost p input = Ok c /\ 0 <= c /\
    forall gas_limit,
      if gas_limit <? c then execute p input gas_limit = Err PE.OutOfGas
      else exists out, execute p input gas_limit = Ok (out, c).

Lemma charge_priced c gas_limit body :
  (exists out, body = Ok out) ->
  if gas_limit <? c then charge (Ok c) gas_limit body = Err PE.OutOfGas
  else exists out, charge (Ok c) gas_limit body = Ok (out, c).
Proof.
  intros [out ->]. unfold charge. cbn [obind]. destruct (gas_limit <? c); [done|]. by exists out.
Qed.

Lemma per_word_spec a b input :
  0 <= a <= 1000 -> 0 <= b <= 1000 -> Z.of_nat (length input) <= 2 ^ 50 ->
  exists c, per_word a b input = Ok c /\ 0 <= c.
Proof.
  intros Ha Hb Hi. unfold per_word, add_u64, mul_u64.
  rewrite arith_fits by (unfold fits; lia). cbn [obind].
  assert (0 <= (Z.of_nat (length input) + 31) / 32 <= 2 ^ 50).
  { split; [apply Z.div_pos; lia|]. apply Z.div_le_upper_bound; lia. }
  rewrite arith_fits by (unfold fits; nia). cbn [obind].
  rewrite arith_fits by (unfold fits; nia). eexists; split; [reflexivity|]. nia.
Qed.

Lemma pairing_gas_spec input :
  Z.of_nat (length input) <= 2 ^ 40 -> exists c, pairing_gas input = Ok c /\ 0 <= c.
Proof.
  intros Hi. unfold pairing_gas, mul_u64, add_u64.
  assert (0 <= Z.of_nat (length input) / 192 <= 2 ^ 40).
  { split; [apply Z.div_pos; lia|]. apply Z.div_le_upper_bound; lia. }
  rewrite arith_fits by (unfold fits; lia). cbn [obind].
  rewrite arith_fits by (unfold fits; lia). eexists; split; [reflexivity|]. lia.
Qed.

Lemma blake2f_gas_spec input :
  Forall byte_ok input -> exists c, blake2f_gas input = Ok c /\ 0 <= c.
Proof.
  intros Hi. unfold blake2f_gas. case_match; eexists; (split; [reflexivity|]); [lia|].
  apply (from_be_bytes_bound (take 4 input)). by apply Forall_take.
Qed.

Lemma priced_intro p input (cost : PacyteResult Z) (body : PacyteResult (list Z)) :
  gas_cost p input = cost -> (exists c, cost = Ok c /\ 0 <= c) ->
  (forall gas_limit, execute p input gas_limit = charge cost gas_limit body) ->
  (exists out, body = Ok out) -> priced p input.
Proof.
  intros Hg (c & -> & Hc) He Hb. exists c. split_and!; try done.
  intros gl. rewrite He. by apply charge_priced.
Qed.

Definition all_precompiles : list Precompile :=
  [EcRecoverPrecompile; Sha256Precompile; Ripemd160Precompile; IdentityPrecompile;
   ModExpPrecompile; EcAddPrecompile; EcMulPrecompile; EcPairingPrecompile; Blake2FPrecompile].

Lemma all_priced input :
  Forall byte_ok input -> Z.of_nat (length input) <= 2 ^ 40 ->
  Forall (fun p => priced p input) all_precompiles.
Proof.
  intros Hb Hl.
  repeat apply Forall_cons_2; try apply Forall_nil_2;
    eapply priced_intro; try (intros gl; reflexivity); try reflexivity;
    try (eexists; split; [reflexivity|lia]); try (eexists; reflexivity);
    try (apply per_word_spec; lia); try (by apply pairing_gas_spec); try (by apply blake2f_gas_spec).
  case_match; eexists; reflexivity.
Qed.

Lemma precompile_address_inj a b :
  precompile_address a = precompile_address b -> a = b.
Proof. unfold precompile_address. cbn. congruence. Qed.

(** The manager maps the addresses 1 to 9 to the nine implementations and nothing else. *)
Lemma manager_lookup a :
  manager_new !! a =
  match list_find (fun p => address p = a) all_precompiles with
  | Some (_, p) => Some p
  | None => None
  end.
Proof.
  unfold manager_new, all_precompiles, register. cbn [foldl list_find fmap option_fmap option_map].
  repeat case_decide; subst; cbn -[precompile_address];
  repeat (rewrite lookup_insert_ne by (try done; intros He; apply precompile_address_inj in He; lia));
    rewrite ?lookup_insert_eq, ?lookup_empty; done.
Qed.
End Precompiles.

(** ** Properties *)

(** The manager serves exactly the addresses 1 to 9 and prices every call: for such an
    address, [execute] fails with [OutOfGas] exactly when [gas_cost] exceeds the limit and
    otherwise charges exactly [gas_cost]; any other address is [PrecompileNotFound].  No
    input of up to 2^40 bytes overflows the price. *)
Theorem precompile_dispatch `{BP : BuildProfile} `{DG : Digests}
    (a : Address) (input : list Z) (gas_limit : Z) :
  Forall byte_ok input -> Z.of_nat (length input) <= 2 ^ 40 ->
  if is_precompile manager_new a then
    exists n c, 1 <= n <= 9 /\ a = precompile_address n /\
      manager_gas_cost manager_new a input = Some (Ok c) /\ 0 <= c /\
      if gas_limit <? c then manager_execute manager_new a input gas_limit = Err PE.OutOfGas
      else exists out, manager_execute manager_new a input gas_limit = Ok (out, c)
  else
    manager_gas_cost manager_new a input = None /\
    manager_execute manager_new a input gas_limit = Err (PE.PrecompileNotFound a).
Proof.
  intros Hb Hl. unfold is_precompile, manager_gas_cost, manager_execute. rewrite manager_lookup.
  destruct (list_find (fun p => address p = a) all_precompiles) as [[i p]|] eqn:Hf.
  - rewrite bool_decide_eq_true_2 by done. apply list_find_Some in Hf as (Hp & Ha & _).
    pose proof (all_priced input Hb Hl) as Hall.
    destruct (proj1 (Forall_lookup _ _) Hall i p Hp) as (c & Hc & Hpos & Hex).
    assert (Hn : exists n, 1 <= n <= 9 /\ address p = precompile_address n).
    { do 9 (destruct i as [|i]; [injection Hp as <-; eexists; split; [|reflexivity]; lia|]). done. }
    destruct Hn as (n & Hn & Han). exists n, c. subst a. cbn. rewrite Hc.
    split; [exact Hn|]. split; [done|]. split; [done|]. split; [done|]. apply Hex.
  - rewrite bool_decide_eq_false_2; [done|]. by intros [].
Qed.

Lemma precompile_dispatch_witness :
  exists n c, 1 <= n <= 9 /\ IDENTITY_ADDRESS = precompile_address n /\
    @manager_gas_cost (@manager_new debug_profile toy_digests) IDENTITY_ADDRESS [1; 2; 3] = Some (Ok c) /\
    0 <= c /\
    if 18 <? c
    then @manager_execute (@manager_new debug_profile toy_digests) IDENTITY_ADDRESS [1; 2; 3] 18 = Err PE.OutOfGas
    else exists out, @manager_execute (@manager_new debug_profile toy_digests) IDENTITY_ADDRESS [1; 2; 3] 18 = Ok (out, c).
Proof.
  apply (@precompile_dispatch debug_profile toy_digests IDENTITY_ADDRESS [1; 2; 3] 18).
  - apply (bool_decide_unpack _). vm_compute. exact I.
  - vm_compute. congruence.
Defined.

(** What the implemented precompiles return when the gas suffices: IDENTITY its input,
    SHA256 the 32-byte digest, RIPEMD160 32 bytes, twelve zeros and the digest of the SHA-256
    digest; ECRECOVER performs no recovery: for any 128-byte input it answers the first
    20 bytes of the message hash, whatever the signature. *)
Theorem precompile_outputs `{BP : BuildProfile} `{DG : Digests} (input sig : list Z) (gas_limit : Z) :
  Forall byte_ok input -> Z.of_nat (length input) <= 2 ^ 40 -> 2 ^ 50 <= gas_limit ->
  (exists c, execute IdentityPrecompile input gas_limit = Ok (input, c)) /\
  (exists c, execute Sha256Precompile input gas_limit = Ok (sha256 input, c)) /\
  (exists out c, execute Ripemd160Precompile input gas_limit = Ok (out, c) /\ length out = 32%nat) /\
  (length input = 32%nat -> length sig = 96%nat ->
     execute EcRecoverPrecompile (input ++ sig) gas_limit = Ok (replicate 12 0 ++ take 20 input, 3000)).
Proof.
  intros Hb Hl Hg.
  assert (Hw : forall a b, 0 <= a <= 1000 -> 0 <= b <= 1000 ->
            exists c, per_word a b input = Ok c /\ c <= gas_limit).
  { intros a b Ha Hbb. unfold per_word, add_u64, mul_u64.
    rewrite arith_fits by (unfold fits; lia). cbn [obind].
    assert (0 <= (Z.of_nat (length input) + 31) / 32 <= 2 ^ 36).
    { split; [apply Z.div_pos; lia|]. apply Z.div_le_upper_bound; lia. }
    rewrite arith_fits by (unfold fits; nia). cbn [obind].
    rewrite arith_fits by (unfold fits; nia). eexists; split; [reflexivity|]. nia. }
  cbn [execute IdentityPrecompile Sha256Precompile Ripemd160Precompile EcRecoverPrecompile].
  unfold charge. split_and!.
  - destruct (Hw 15 3) as (c & -> & Hc); [lia..|]. cbn [obind].
    rewrite (proj2 (Z.ltb_ge _ _)) by lia. by exists c.
  - destruct (Hw 60 12) as (c & -> & Hc); [lia..|]. cbn [obind].
    rewrite (proj2 (Z.ltb_ge _ _)) by lia. by exists c.
  - destruct (Hw 600 120) as (c & -> & Hc); [lia..|]. cbn [obind].
    rewrite (proj2 (Z.ltb_ge _ _)) by lia. eexists _, c. split; [reflexivity|].
    rewrite length_app. by rewrite (proj1 (ripemd160_ok _)).
  - intros Hi Hs. cbn [obind]. rewrite (proj2 (Z.ltb_ge _ _)) by lia.
    rewrite length_app, Hi, Hs. cbn [Nat.add Nat.eqb negb obind]. do 2 f_equal.
    unfold ec_recover_address, slice. f_equal. rewrite drop_0.
    rewrite take_app_le by lia. rewrite (take_ge input) by lia. done.
Qed.

Lemma precompile_outputs_witness :
  exists c, @execute (@IdentityPrecompile debug_profile) [1; 2; 3] (2 ^ 50) = Ok ([1; 2; 3], c).
Proof.
  exact (proj1 (@precompile_outputs debug_profile toy_digests [1; 2; 3] [] (2 ^ 50)
    ltac:(apply (bool_decide_unpack _); vm_compute; exact I)
    ltac:(vm_compute; congruence) ltac:(vm_compute; congruence))).
Defined.
