(* ===== verification/BridgeManager.v ===== *)
(** * The shard bridge (src/vault/bridge.rs)

    [BridgeTransaction], [BridgeManager] and the sweep of [BridgeReaper].  The six locks of
    the manager are the fields of a record: no operation asks twice for the same lock.
    Iteration over a [HashMap] is [map_to_list]; no property depends on its order. *)

From S2P Require Import Prelude Hashing Errors.
From Stdlib Require Import String.
Abbreviation length := List.length.

Definition BRIDGE_TIMEOUT_SECS : Z := 60.
Definition MAX_BRIDGE_AMOUNT : Z := 10000000000000.
Definition BRIDGE_FEE_BPS : Z := 10.

Inductive BridgeStatus : Type :=
  Pending | Locked | Relayed | Finalized | Reverting | Reverted | Expired.
#[export] Instance BridgeStatus_eq_dec : EqDecision BridgeStatus.
Proof. solve_decision. Defined.

(** [Display], which prints the [Debug] name. *)
Definition status_to_string (s : BridgeStatus) : string :=
  match s with
  | Pending => "Pending" | Locked => "Locked" | Relayed => "Relayed" | Finalized => "Finalized"
  | Reverting => "Reverting" | Reverted => "Reverted" | Expired => "Expired"
  end.

Record BridgeTransaction : Type := mkBridge {
  id : Z;
  sender : Address;
  recipient : Address;
  bridge_amount : Z;
  source_shard : Z;
  target_shard : Z;
  status : BridgeStatus;
  bridge_created_at : Z;
  expires_at : Z;
  bridge_hash : Hash
}.

Definition set_status (s : BridgeStatus) (t : BridgeTransaction) : BridgeTransaction :=
  mkBridge (id t) (sender t) (recipient t) (bridge_amount t) (source_shard t) (target_shard t) s
    (bridge_created_at t) (expires_at t) (bridge_hash t).

Definition is_expired (t : BridgeTransaction) (current_time : Z) : bool :=
  expires_at t <? current_time.

Record BridgeManager : Type := mkManager {
  bridges : gmap Z BridgeTransaction;
  pending_by_shard : gmap Z (list Z);
  processed : gmap Hash BridgeStatus;
  next_bridge_id : Z;
  total_bridged : Z;
  total_failed : Z
}.

Definition bridge_manager_new : BridgeManager := mkManager ∅ ∅ ∅ 1 0 0.

Definition set_bridges b m := mkManager b (pending_by_shard m) (processed m) (next_bridge_id m)
  (total_bridged m) (total_failed m).
Definition set_pending p m := mkManager (bridges m) p (processed m) (next_bridge_id m)
  (total_bridged m) (total_failed m).
Definition set_processed p m := mkManager (bridges m) (pending_by_shard m) p (next_bridge_id m)
  (total_bridged m) (total_failed m).
Definition set_next n m := mkManager (bridges m) (pending_by_shard m) (processed m) n
  (total_bridged m) (total_failed m).
Definition set_total_bridged t m := mkManager (bridges m) (pending_by_shard m) (processed m)
  (next_bridge_id m) t (total_failed m).
Definition set_total_failed t m := mkManager (bridges m) (pending_by_shard m) (processed m)
  (next_bridge_id m) (total_bridged m) t.

(** [list.retain(|id| *id != bridge_id)]. *)
Definition retain_ne (i : Z) (l : list Z) : list Z := filter (fun j => j <> i) l.
(** [entry(shard).or_insert_with(Vec::new).push(id)]. *)
Definition push_pending (shard i : Z) (p : gmap Z (list Z)) : gmap Z (list Z) :=
  <[shard := default [] (p !! shard) ++ [i]]> p.
(** [if let Some(list) = pending.get_mut(&shard) { list.retain(..) }]. *)
Definition drop_pending (shard i : Z) (p : gmap Z (list Z)) : gmap Z (list Z) :=
  alter (retain_ne i) shard p.

Section Bridge.
Context `{BP : BuildProfile}.
Abbreviation M := (ST BridgeManager PacyteError).

Definition bridge_new (now i : Z) (s r : Address) (amt src tgt : Z) : PacyteResult BridgeTransaction :=
  let? expires := add_u64 now BRIDGE_TIMEOUT_SECS in
  Ok (mkBridge i s r amt src tgt Pending now expires zero_hash).

Definition time_remaining (t : BridgeTransaction) (current_time : Z) : PacyteResult Z :=
  if expires_at t <=? current_time then Ok 0 else sub_u64 (expires_at t) current_time.

Definition calculate_fee (t : BridgeTransaction) : PacyteResult Z :=
  let? x := mul_u128 (bridge_amount t) BRIDGE_FEE_BPS in Ok (x / 10000).

Definition initiate_bridge (now : Z) (s r : Address) (amt src tgt : Z) : M BridgeTransaction :=
  if MAX_BRIDGE_AMOUNT <? amt then sfail (PE.BridgeAmountTooLarge amt MAX_BRIDGE_AMOUNT)
  else if src =? tgt then sfail PE.SameShardTransfer
  else
    do! i := sget next_bridge_id in
    do! next := slift (add_u64 i 1) in
    run! smod (set_next next) in
    do! tx := slift (bridge_new now i s r amt src tgt) in
    run! smod (fun m => set_bridges (<[i := tx]> (bridges m)) m) in
    run! smod (fun m => set_pending (push_pending src i (pending_by_shard m)) m) in
    sret tx.

(** [bridges.get_mut(&id).ok_or_else(..)?]. *)
Definition get_mut (i : Z) : M BridgeTransaction :=
  fun m => (ok_or (bridges m !! i) (PE.BridgeNotFound i), m).
(** Assignment through the [&mut BridgeTransaction]. *)
Definition put_status (i : Z) (tx : BridgeTransaction) (s : BridgeStatus) : M unit :=
  smod (fun m => set_bridges (<[i := set_status s tx]> (bridges m)) m).
Definition expect_status (tx : BridgeTransaction) (s : BridgeStatus) : M unit :=
  if negb (bool_decide (status tx = s))
  then sfail (PE.InvalidBridgeStatus (status_to_string s) (status_to_string (status tx)))
  else sret tt.

Definition lock_bridge (i : Z) : M unit :=
  do! tx := get_mut i in
  run! expect_status tx Pending in
  put_status i tx Locked.

Definition relay_bridge (i : Z) : M unit :=
  do! tx := get_mut i in
  run! expect_status tx Locked in
  run! put_status i tx Relayed in
  smod (fun m => set_pending
          (push_pending (target_shard tx) i
             (drop_pending (source_shard tx) i (pending_by_shard m))) m).

Definition finalize_bridge (i : Z) : M unit :=
  do! tx := get_mut i in
  run! expect_status tx Relayed in
  run! put_status i tx Finalized in
  do! total := sget total_bridged in
  do! total' := slift (add_u128 total (bridge_amount tx)) in
  run! smod (set_total_bridged total') in
  run! smod (fun m => set_processed (<[bridge_hash tx := Finalized]> (processed m)) m) in
  smod (fun m => set_pending (drop_pending (target_shard tx) i (pending_by_shard m)) m).

Definition revert_bridge (i : Z) : M unit :=
  do! tx := get_mut i in
  if bool_decide (status tx = Finalized) then sfail PE.BridgeAlreadyFinalized
  else put_status i tx Reverting.

Definition mark_reverted (i : Z) : M unit :=
  do! tx := get_mut i in
  run! put_status i tx Reverted in
  do! failed := sget total_failed in
  do! failed' := slift (add_u64 failed 1) in
  run! smod (set_total_failed failed') in
  smod (fun m => set_pending (retain_ne i <$> pending_by_shard m) m).

Definition find_expired_bridges (current_time : Z) (m : BridgeManager) : list Z :=
  (filter (fun p : Z * BridgeTransaction =>
             status p.2 <> Finalized /\ status p.2 <> Reverted /\ is_expired p.2 current_time = true)
     (map_to_list (bridges m))).*1.

Definition get_bridge (i : Z) (m : BridgeManager) : option BridgeTransaction := bridges m !! i.

Definition get_pending_for_shard (shard : Z) (m : BridgeManager) : list BridgeTransaction :=
  match pending_by_shard m !! shard with
  | Some ids => omap (M:=list) (fun i => bridges m !! i) ids
  | None => []
  end.

Definition get_all_pending (m : BridgeManager) : list BridgeTransaction :=
  filter (fun t => status t = Pending \/ status t = Locked \/ status t = Relayed)
    (map_to_list (bridges m)).*2.

Record BridgeStats : Type := mkStats {
  total_bridges : Z; n_pending : Z; n_locked : Z; n_relayed : Z; n_finalized : Z; n_reverted : Z;
  stat_bridged : Z; stat_failed : Z
}.

Definition count_status (P : BridgeStatus -> bool) (m : BridgeManager) : Z :=
  map_sum (fun t => if P (status t) then 1 else 0) (bridges m).

Definition stats (m : BridgeManager) : BridgeStats :=
  mkStats (Z.of_nat (size (bridges m)))
    (count_status (fun s => bool_decide (s = Pending)) m)
    (count_status (fun s => bool_decide (s = Locked)) m)
    (count_status (fun s => bool_decide (s = Relayed)) m)
    (count_status (fun s => bool_decide (s = Finalized)) m)
    (count_status (fun s => bool_decide (s = Reverting) || bool_decide (s = Reverted)) m)
    (total_bridged m) (total_failed m).

(** One [bridge_id] of the reaper's sweep: errors are logged and dropped. *)
Definition reap_one (i : Z) : M unit :=
  fun m => match revert_bridge i m with
           | (Err _, m') => (Ok tt, m')
           | (Ok _, m') =>
               match mark_reverted i m' with
               | (Err _, m'') => (Ok tt, m'')
               | r => r
               end
           | r => r
           end.

(** [for bridge_id in expired]. *)
Fixpoint reap_all (ids : list Z) : M unit :=
  match ids with
  | [] => sret tt
  | i :: ids => run! reap_one i in reap_all ids
  end.

(** One tick of the loop of [BridgeReaper::start]. *)
Definition reap (now : Z) : M unit := fun m => reap_all (find_expired_bridges now m) m.

(** ** The manager as a transition system

    The operations other code calls; [mark_reverted] is called by the reaper only, after
    [revert_bridge] succeeded, and is part of [reap]. *)

Inductive bridge_op : Type :=
| OpInitiate (now : Z) (s r : Address) (amt src tgt : Z)
| OpLock (i : Z)
| OpRelay (i : Z)
| OpFinalize (i : Z)
| OpRevert (i : Z)
| OpReap (now : Z).

Definition run_op (op : bridge_op) : M unit :=
  match op with
  | OpInitiate now s r amt src tgt => do! _ := initiate_bridge now s r amt src tgt in sret tt
  | OpLock i => lock_bridge i
  | OpRelay i => relay_bridge i
  | OpFinalize i => finalize_bridge i
  | OpRevert i => revert_bridge i
  | OpReap now => reap now
  end.

(** Calls that return, with [u128] amounts and identifiers left to hand out. *)
Inductive bridge_reachable : BridgeManager -> Prop :=
| reach_new : bridge_reachable bridge_manager_new
| reach_step op m m' r :
    bridge_reachable m -> next_bridge_id m < U64_MAX ->
    (forall now s r amt src tgt, op = OpInitiate now s r amt src tgt -> fits 128 amt) ->
    run_op op m = (r, m') -> r <> Panic -> r <> Deadlock ->
    bridge_reachable m'.

(** The whole public interface: [mark_reverted] can be called on its own too. *)
Inductive bridge_call : Type := CallOp (op : bridge_op) | CallMarkReverted (i : Z).
Definition run_call (c : bridge_call) : M unit :=
  match c with CallOp op => run_op op | CallMarkReverted i => mark_reverted i end.
(** Public calls in any order, whatever each returns. *)
Inductive call_reachable : BridgeManager -> Prop :=
| called_new : call_reachable bridge_manager_new
| called_step c m : call_reachable m -> next_bridge_id m < U64_MAX -> call_reachable (run_call c m).2.
End Bridge.
