(* ===== verification/BridgeProps.v ===== *)
(** * The life of a bridge transaction

    The invariant of every reachable [BridgeManager], the edges of the status machine, the
    complete run of one transfer, and the unguarded [mark_reverted]. *)

From S2P Require Import Prelude Hashing Errors BridgeManager.
Abbreviation length := List.length.

(** ** Specification *)

(** The pending list of a shard, absent lists read as empty. *)
Definition queue (p : gmap Z (list Z)) (shard : Z) : list Z := default [] (p !! shard).

(** The shard whose queue holds a transaction of the given status. *)
Definition location (t : BridgeTransaction) : option Z :=
  match status t with
  | Pending | Locked => Some (source_shard t)
  | Relayed => Some (target_shard t)
  | _ => None
  end.

(** What moved by the finalized transactions. *)
Definition moved (t : BridgeTransaction) : Z :=
  if bool_decide (status t = Finalized) then bridge_amount t else 0.

Record entry_ok (m : BridgeManager) (i : Z) (t : BridgeTransaction) : Prop := {
  entry_id : id t = i /\ 1 <= i < next_bridge_id m;
  entry_amount : 0 <= bridge_amount t <= MAX_BRIDGE_AMOUNT;
  entry_shards : source_shard t <> target_shard t;
  entry_status : status t <> Expired;
  entry_queued : status t <> Reverting ->
    forall s, i ∈ queue (pending_by_shard m) s <-> location t = Some s
}.

Record bridge_inv (m : BridgeManager) : Prop := {
  inv_next : 1 <= next_bridge_id m;
  inv_entries : forall i t, bridges m !! i = Some t -> entry_ok m i t;
  inv_known : forall s i, i ∈ queue (pending_by_shard m) s -> is_Some (bridges m !! i);
  inv_nodup : forall s, NoDup (queue (pending_by_shard m) s);
  inv_volume : map_sum bridge_amount (bridges m) <= MAX_BRIDGE_AMOUNT * (next_bridge_id m - 1);
  inv_total : total_bridged m = map_sum moved (bridges m)
}.

(** The edges a single call can take a transaction along. *)
Inductive status_edge : BridgeStatus -> BridgeStatus -> Prop :=
| edge_stay s : status_edge s s
| edge_lock : status_edge Pending Locked
| edge_relay : status_edge Locked Relayed
| edge_finalize : status_edge Relayed Finalized
| edge_reverting s : s <> Finalized -> status_edge s Reverting
| edge_reverted s : s <> Finalized -> status_edge s Reverted.

(** ** Queues *)

Lemma queue_push p shard i s :
  queue (push_pending shard i p) s = if decide (s = shard) then queue p s ++ [i] else queue p s.
Proof.
  unfold queue, push_pending. case_decide as Hs; [subst; by rewrite lookup_insert_eq|].
  by rewrite lookup_insert_ne.
Qed.

Lemma queue_drop p shard i s :
  queue (drop_pending shard i p) s
  = if decide (s = shard) then retain_ne i (queue p s) else queue p s.
Proof.
  unfold queue, drop_pending. case_decide as Hs; [subst; rewrite lookup_alter_eq|].
  - by destruct (p !! shard).
  - by rewrite lookup_alter_ne.
Qed.

Lemma queue_retain_all p i s : queue (retain_ne i <$> p) s = retain_ne i (queue p s).
Proof. unfold queue. rewrite lookup_fmap. by destruct (p !! s). Qed.

Lemma elem_of_retain_ne i j l : j ∈ retain_ne i l <-> j <> i /\ j ∈ l.
Proof. unfold retain_ne. by rewrite list_elem_of_filter. Qed.

Lemma retain_ne_NoDup i l : NoDup l -> NoDup (retain_ne i l).
Proof. apply NoDup_filter. Qed.

#[export] Hint Rewrite queue_push queue_drop queue_retain_all elem_of_retain_ne : pacyte.
#[export] Hint Resolve retain_ne_NoDup : pacyte.

(** ** One call at a time *)

Section Calls.
Context `{BP : BuildProfile}.

(** The manager after the status of bridge [i] was rewritten. *)
Definition with_status (m : BridgeManager) (i : Z) (t : BridgeTransaction) (s : BridgeStatus) :
  BridgeManager := set_bridges (<[i := set_status s t]> (bridges m)) m.

(** A rejected call: an error, and no change. *)
Definition rejected {A} (c : Outcome PacyteError A * BridgeManager) (m : BridgeManager) : Prop :=
  exists e, c = (Err e, m).

Lemma get_mut_cases i m :
  rejected (get_mut i m) m
  \/ exists t, bridges m !! i = Some t /\ get_mut i m = (Ok t, m).
Proof.
  unfold get_mut, rejected. destruct (bridges m !! i) as [t|]; cbn; eauto.
Qed.

Lemma expect_status_cases t s m :
  (status t <> s /\ rejected (expect_status t s m) m)
  \/ (status t = s /\ expect_status t s m = (Ok tt, m)).
Proof.
  unfold expect_status, rejected. case_bool_decide; cbn; [right|left]; eauto.
Qed.

Lemma lock_cases i m :
  rejected (lock_bridge i m) m
  \/ exists t, bridges m !! i = Some t /\ status t = Pending
       /\ lock_bridge i m = (Ok tt, with_status m i t Locked).
Proof.
  unfold lock_bridge, sbind. destruct (get_mut_cases i m) as [[e ->]|(t & Ht & ->)]; [left; by exists e|].
  destruct (expect_status_cases t Pending m) as [[_ [e ->]]|[Hs ->]]; [left; by exists e|]. eauto.
Qed.

Lemma relay_cases i m :
  rejected (relay_bridge i m) m
  \/ exists t, bridges m !! i = Some t /\ status t = Locked
       /\ relay_bridge i m
          = (Ok tt, set_pending (push_pending (target_shard t) i
                       (drop_pending (source_shard t) i (pending_by_shard m)))
                      (with_status m i t Relayed)).
Proof.
  unfold relay_bridge, sbind. destruct (get_mut_cases i m) as [[e ->]|(t & Ht & ->)]; [left; by exists e|].
  destruct (expect_status_cases t Locked m) as [[_ [e ->]]|[Hs ->]]; [left; by exists e|]. eauto.
Qed.

Lemma lock_ok i m t :
  bridges m !! i = Some t -> status t = Pending ->
  lock_bridge i m = (Ok tt, with_status m i t Locked).
Proof. intros Ht Hs. unfold lock_bridge, sbind, get_mut, expect_status. by rewrite Ht; cbn; rewrite Hs. Qed.

Lemma relay_ok i m t :
  bridges m !! i = Some t -> status t = Locked ->
  relay_bridge i m
  = (Ok tt, set_pending (push_pending (target_shard t) i
               (drop_pending (source_shard t) i (pending_by_shard m))) (with_status m i t Relayed)).
Proof. intros Ht Hs. unfold relay_bridge, sbind, get_mut, expect_status. by rewrite Ht; cbn; rewrite Hs. Qed.

(** The manager after a finalization whose addition did not overflow. *)
Definition finalized (m : BridgeManager) (i : Z) (t : BridgeTransaction) : BridgeManager :=
  set_pending (drop_pending (target_shard t) i (pending_by_shard m))
    (set_processed (<[bridge_hash t := Finalized]> (processed m))
      (set_total_bridged (total_bridged m + bridge_amount t) (with_status m i t Finalized))).

Lemma finalize_cases i m :
  (forall t, bridges m !! i = Some t -> status t = Relayed ->
     fits 128 (total_bridged m + bridge_amount t)) ->
  rejected (finalize_bridge i m) m
  \/ exists t, bridges m !! i = Some t /\ status t = Relayed
       /\ finalize_bridge i m = (Ok tt, finalized m i t).
Proof.
  intros Hfit. unfold finalize_bridge, sbind.
  destruct (get_mut_cases i m) as [[e ->]|(t & Ht & ->)]; [left; by exists e|].
  destruct (expect_status_cases t Relayed m) as [[_ [e ->]]|[Hs ->]]; [left; by exists e|].
  right. exists t. split_and!; [done|done|]. cbn. unfold slift, add_u128.
  by rewrite arith_fits by eauto.
Qed.

Lemma finalize_ok i m t :
  bridges m !! i = Some t -> status t = Relayed -> fits 128 (total_bridged m + bridge_amount t) ->
  finalize_bridge i m = (Ok tt, finalized m i t).
Proof.
  intros Ht Hs Hfit. unfold finalize_bridge, sbind.
  destruct (get_mut_cases i m) as [[e He]|(u & Hu & ->)].
  { unfold get_mut in He. by rewrite Ht in He. }
  simplify_eq. destruct (expect_status_cases t Relayed m) as [[Hn _]|[_ ->]]; [done|].
  cbn. unfold slift, add_u128. by rewrite arith_fits.
Qed.

Lemma revert_cases i m :
  rejected (revert_bridge i m) m
  \/ exists t, bridges m !! i = Some t /\ status t <> Finalized
       /\ revert_bridge i m = (Ok tt, with_status m i t Reverting).
Proof.
  unfold revert_bridge, sbind. destruct (get_mut_cases i m) as [[e ->]|(t & Ht & ->)]; [left; by exists e|].
  case_bool_decide; [left; by eexists|eauto].
Qed.

(** [mark_reverted] only fails on an unknown bridge. *)
Lemma mark_reverted_cases i m r m' :
  mark_reverted i m = (r, m') -> r <> Panic -> r <> Deadlock ->
  rejected (mark_reverted i m) m /\ m' = m
  \/ exists t failed, bridges m !! i = Some t
       /\ m' = set_pending (retain_ne i <$> pending_by_shard m)
                 (set_total_failed failed (with_status m i t Reverted)).
Proof.
  unfold mark_reverted, sbind.
  destruct (get_mut_cases i m) as [[e ->]|(t & Ht & ->)].
  { intros [= <- <-] _ _. left. split; [by exists e|done]. }
  cbn. unfold slift. destruct (add_u64 _ _) as [f|e| |] eqn:Hf; cbn.
  - intros [= <- <-] _ _. right. by exists t, f.
  - by apply arith_not_err in Hf.
  - intros [= <- <-]. done.
  - intros [= <- <-]. done.
Qed.

(** A successful initiation hands out the next identifier. *)
Definition initiated (m : BridgeManager) (t : BridgeTransaction) : BridgeManager :=
  set_pending (push_pending (source_shard t) (next_bridge_id m) (pending_by_shard m))
    (set_bridges (<[next_bridge_id m := t]> (bridges m)) (set_next (next_bridge_id m + 1) m)).

Lemma initiate_cases now s r amt src tgt m c m' :
  1 <= next_bridge_id m < U64_MAX ->
  initiate_bridge now s r amt src tgt m = (c, m') -> c <> Panic ->
  (m' = m /\ exists e, c = Err e)
  \/ exists expires,
       let t := mkBridge (next_bridge_id m) s r amt src tgt Pending now expires zero_hash in
       c = Ok t /\ amt <= MAX_BRIDGE_AMOUNT /\ src <> tgt /\ m' = initiated m t.
Proof.
  intros Hn. unfold initiate_bridge.
  destruct (MAX_BRIDGE_AMOUNT <? amt) eqn:Hmax; [intros [= <- <-]; eauto|].
  destruct (src =? tgt) eqn:Hst; [intros [= <- <-]; eauto|].
  apply Z.ltb_ge in Hmax. apply Z.eqb_neq in Hst.
  unfold sbind, sget, slift, smod, add_u64.
  rewrite arith_fits by (unfold fits, U64_MAX in *; lia).
  unfold bridge_new, add_u64.
  destruct (arith 64 (now + BRIDGE_TIMEOUT_SECS)) as [x|e| |] eqn:Hx; cbn.
  - intros [= <- <-] _. right. by exists x.
  - by apply arith_not_err in Hx.
  - intros [= <- <-]. done.
  - by apply arith_not_deadlock in Hx.
Qed.
End Calls.

(** ** The invariant *)

(** Rewriting the status of one bridge, its place in the queues and the total together. *)
Lemma inv_restatus m i t s p pr tb tf :
  bridge_inv m -> bridges m !! i = Some t -> s <> Expired ->
  (forall j sh, j <> i -> j ∈ queue p sh <-> j ∈ queue (pending_by_shard m) sh) ->
  (s <> Reverting -> forall sh, i ∈ queue p sh <-> location (set_status s t) = Some sh) ->
  (forall sh, NoDup (queue p sh)) ->
  tb = total_bridged m - moved t + moved (set_status s t) ->
  bridge_inv (mkManager (<[i := set_status s t]> (bridges m)) p pr (next_bridge_id m) tb tf).
Proof.
  intros Hinv Ht Hs Hother Hloc Hnd Htb. destruct Hinv as [Hn He Hk _ Hv Hsum].
  split; cbn.
  - done.
  - intros j u. rewrite lookup_insert_Some. intros [[<- <-]|[Hij Hu]].
    + destruct (He i t Ht) as [? ? ? ? ?]. by split.
    + destruct (He j u Hu) as [? ? ? ? Hq]. split; [done..|].
      intros Hr sh. cbn. rewrite Hother by congruence. by apply Hq.
  - intros sh j Hj. destruct (decide (j = i)) as [->|Hne]; [rewrite lookup_insert_eq; eauto|].
    rewrite lookup_insert_ne by done. apply (Hk sh). by apply Hother.
  - done.
  - rewrite (map_sum_update _ _ _ t) by done. cbn. lia.
  - rewrite (map_sum_update _ _ _ t) by done. lia.
Qed.

Lemma inv_initiated m t :
  bridge_inv m -> id t = next_bridge_id m -> 0 <= bridge_amount t <= MAX_BRIDGE_AMOUNT ->
  source_shard t <> target_shard t -> status t = Pending -> bridge_inv (initiated m t).
Proof.
  intros Hinv Hid Hamt Hsh Hst. destruct Hinv as [Hn He Hk Hnd Hv Hsum].
  assert (Hfresh : bridges m !! next_bridge_id m = None).
  { destruct (bridges m !! next_bridge_id m) as [u|] eqn:Hu; [|done].
    destruct (entry_id _ _ _ (He _ _ Hu)). lia. }
  assert (Hnq : forall s, next_bridge_id m ∉ queue (pending_by_shard m) s).
  { intros s Hq. destruct (Hk _ _ Hq) as [u Hu]. congruence. }
  split; cbn.
  - lia.
  - intros j u. rewrite lookup_insert_Some. intros [[<- <-]|[Hij Hu]].
    + split; [split; [done|cbn; lia]|done|done|by rewrite Hst|].
      intros _ s. cbn. rewrite queue_push. unfold location. rewrite Hst.
      specialize (Hnq s). case_decide; set_solver.
    + destruct (He j u Hu) as [[? ?] ? ? ? Hq]. split; [split; [done|cbn; lia]|done..|].
      intros Hr s. cbn. rewrite queue_push, <- Hq by done. case_decide; set_solver.
  - intros s j. rewrite queue_push. intros Hj.
    destruct (decide (j = next_bridge_id m)) as [->|Hne]; [rewrite lookup_insert_eq; eauto|].
    rewrite lookup_insert_ne by done. apply (Hk s). case_decide; set_solver.
  - intros s. rewrite queue_push. case_decide; [|done]. apply NoDup_app.
    split_and!; [done| |apply NoDup_singleton]. specialize (Hnq s). set_solver.
  - rewrite map_sum_insert_new by done. lia.
  - rewrite map_sum_insert_new by done. unfold moved at 1.
    rewrite Hst, bool_decide_false by done. lia.
Qed.

Section Invariant.
Context `{BP : BuildProfile}.

Lemma inv_queued m i t s :
  bridge_inv m -> bridges m !! i = Some t -> status t <> Reverting ->
  i ∈ queue (pending_by_shard m) s <-> location t = Some s.
Proof. intros Hinv Ht Hs. exact (entry_queued _ _ _ (inv_entries m Hinv i t Ht) Hs s). Qed.

(** Volumes never overflow: ten trillion units for each of fewer than 2^64 bridges. *)
Lemma inv_no_overflow m i t :
  bridge_inv m -> next_bridge_id m <= U64_MAX -> bridges m !! i = Some t ->
  status t = Relayed -> fits 128 (total_bridged m + bridge_amount t).
Proof.
  intros Hinv Hn Ht Hs. destruct Hinv as [_ He _ _ Hv Hsum].
  assert (Hle : map_sum moved (bridges m) + bridge_amount t <= map_sum bridge_amount (bridges m)).
  { rewrite (map_sum_delete moved _ i t), (map_sum_delete bridge_amount _ i t) by done.
    unfold moved at 1. rewrite Hs, bool_decide_false by done.
    assert (map_sum moved (delete i (bridges m)) <= map_sum bridge_amount (delete i (bridges m))); [|lia].
    apply map_sum_le. intros j u Hu. apply lookup_delete_Some in Hu as [_ Hu].
    destruct (entry_amount _ _ _ (He j u Hu)). unfold moved. case_bool_decide; lia. }
  destruct (entry_amount _ _ _ (He i t Ht)).
  assert (0 <= map_sum moved (bridges m)).
  { apply map_sum_nonneg. intros j u Hu. destruct (entry_amount _ _ _ (He j u Hu)).
    unfold moved. case_bool_decide; lia. }
  unfold fits, MAX_BRIDGE_AMOUNT, U64_MAX in *. lia.
Qed.

Lemma moved_not_finalized t : status t <> Finalized -> moved t = 0.
Proof. intros Hs. unfold moved. by rewrite bool_decide_false. Qed.

Lemma moved_finalized t : status t = Finalized -> moved t = bridge_amount t.
Proof. intros Hs. unfold moved. by rewrite bool_decide_true. Qed.

Lemma inv_lock m i t :
  bridge_inv m -> bridges m !! i = Some t -> status t = Pending ->
  bridge_inv (with_status m i t Locked).
Proof.
  intros Hinv Ht Hs. apply (inv_restatus m i t Locked); [done|done|done|done| |by apply Hinv|].
  - intros _ sh. rewrite (inv_queued m i t sh) by (done || congruence).
    unfold location. by rewrite Hs.
  - rewrite !moved_not_finalized by (cbn; congruence). cbn. lia.
Qed.

Lemma inv_relay m i t :
  bridge_inv m -> bridges m !! i = Some t -> status t = Locked ->
  bridge_inv (set_pending (push_pending (target_shard t) i
                (drop_pending (source_shard t) i (pending_by_shard m))) (with_status m i t Relayed)).
Proof.
  intros Hinv Ht Hs.
  pose proof (entry_shards _ _ _ (inv_entries m Hinv i t Ht)) as Hne.
  assert (Hq : forall sh, i ∈ queue (pending_by_shard m) sh <-> sh = source_shard t).
  { intros sh. rewrite (inv_queued m i t sh) by (done || congruence).
    unfold location. rewrite Hs. naive_solver. }
  apply (inv_restatus m i t Relayed); [done|done|done| | | |].
  - intros j sh Hj. rewrite queue_push, queue_drop. unfold retain_ne.
    repeat case_decide; subst; rewrite ?elem_of_app, ?list_elem_of_filter; set_solver.
  - intros _ sh. rewrite queue_push, queue_drop. unfold location. cbn. specialize (Hq sh).
    repeat case_decide; subst; rewrite ?elem_of_app, ?elem_of_retain_ne; set_solver.
  - intros sh. rewrite queue_push, queue_drop. pose proof (inv_nodup m Hinv sh).
    repeat case_decide; subst; auto with pacyte; [congruence|].
    apply NoDup_app; split_and!; [done| |apply NoDup_singleton].
    specialize (Hq (target_shard t)). set_solver.
  - rewrite !moved_not_finalized by (cbn; congruence). cbn. lia.
Qed.

Lemma inv_finalize m i t :
  bridge_inv m -> bridges m !! i = Some t -> status t = Relayed -> bridge_inv (finalized m i t).
Proof.
  intros Hinv Ht Hs.
  assert (Hq : forall sh, i ∈ queue (pending_by_shard m) sh <-> sh = target_shard t).
  { intros sh. rewrite (inv_queued m i t sh) by (done || congruence).
    unfold location. rewrite Hs. naive_solver. }
  apply (inv_restatus m i t Finalized); [done|done|done| | | |].
  - intros j sh Hj. rewrite queue_drop. case_decide; [|done]. rewrite elem_of_retain_ne. tauto.
  - intros _ sh. rewrite queue_drop. unfold location. cbn. specialize (Hq sh).
    case_decide; rewrite ?elem_of_retain_ne; naive_solver.
  - intros sh. rewrite queue_drop. pose proof (inv_nodup m Hinv sh). case_decide; auto with pacyte.
  - rewrite moved_not_finalized, moved_finalized by (cbn; congruence). cbn. lia.
Qed.

Lemma inv_reverting m i t :
  bridge_inv m -> bridges m !! i = Some t -> status t <> Finalized ->
  bridge_inv (with_status m i t Reverting).
Proof.
  intros Hinv Ht Hs. apply (inv_restatus m i t Reverting); [done|done|done|done|done|by apply Hinv|].
  rewrite !moved_not_finalized by done. cbn. lia.
Qed.

Lemma inv_reverted m i t failed :
  bridge_inv m -> bridges m !! i = Some t -> status t <> Finalized ->
  bridge_inv (set_pending (retain_ne i <$> pending_by_shard m)
                (set_total_failed failed (with_status m i t Reverted))).
Proof.
  intros Hinv Ht Hs. apply (inv_restatus m i t Reverted); [done|done|done| | | |].
  - intros j sh Hj. rewrite queue_retain_all, elem_of_retain_ne. tauto.
  - intros _ sh. rewrite queue_retain_all, elem_of_retain_ne. unfold location. cbn. naive_solver.
  - intros sh. rewrite queue_retain_all. pose proof (inv_nodup m Hinv sh). auto with pacyte.
  - rewrite !moved_not_finalized by done. cbn. lia.
Qed.

Lemma inv_new : bridge_inv bridge_manager_new.
Proof.
  split; cbn; [done|..]; try done.
  - intros s i. unfold queue. rewrite lookup_empty. cbn. set_solver.
  - intros s. unfold queue. rewrite lookup_empty. apply NoDup_nil_2.
Qed.

(** A property of managers that every reap and every call keeps. *)
Lemma reap_keeps (P : BridgeManager -> Prop) :
  (forall m i t, P m -> bridges m !! i = Some t -> status t <> Finalized ->
     P (with_status m i t Reverting)) ->
  (forall m i t f, P m -> bridges m !! i = Some t -> status t <> Finalized ->
     P (set_pending (retain_ne i <$> pending_by_shard m)
          (set_total_failed f (with_status m i t Reverted)))) ->
  forall now m m', P m -> reap now m = (Ok tt, m') -> P m'.
Proof.
  intros Hrev Hmark now m m' HP. unfold reap.
  set (ids := find_expired_bridges now m). clearbody ids.
  revert m m' HP. induction ids as [|i ids IH]; intros m m' HP; cbn [reap_all]; [by intros [= <-]|].
  unfold sbind. destruct (reap_one i m) as [[[]| | |] m1] eqn:H1; [|done..].
  apply IH. clear IH. revert H1. unfold reap_one.
  destruct (revert_cases i m) as [[e ->]|(t & Ht & Hs & ->)]; [by intros [= <-]|].
  set (m2 := with_status m i t Reverting).
  assert (Hi2 : bridges m2 !! i = Some (set_status Reverting t)) by apply lookup_insert_eq.
  assert (HP2 : P m2) by (by apply Hrev).
  destruct (mark_reverted i m2) as [r m3] eqn:H3. intros Hr.
  assert (Hr3 : r <> Panic /\ r <> Deadlock /\ m3 = m1).
  { destruct r; simplify_eq; done. }
  destruct Hr3 as (Hr3 & Hr4 & ->).
  destruct (mark_reverted_cases i m2 r m1 H3 Hr3 Hr4) as [[_ ->]|(u & f & Hu & ->)]; [done|].
  apply Hmark; [done|done|]. rewrite Hi2 in Hu. injection Hu as <-. done.
Qed.

(** The sweep drops every error. *)
Lemma reap_no_err now m m' e : reap now m <> (Err e, m').
Proof.
  unfold reap. generalize (find_expired_bridges now m) as ids. intros ids. revert m m'.
  induction ids as [|i ids IH]; intros m m'; cbn [reap_all]; [done|].
  unfold sbind. destruct (reap_one i m) as [[[]|e1| |] m1] eqn:H1; [apply IH| |done..].
  revert H1. unfold reap_one. destruct (revert_bridge i m) as [[| | |] ?]; [|done..].
  by destruct (mark_reverted i _) as [[| | |] ?].
Qed.

(** The calls of a reachable manager, one case per effect. *)
Lemma run_op_cases op m r m' :
  bridge_inv m -> next_bridge_id m < U64_MAX ->
  run_op op m = (r, m') -> r <> Panic -> r <> Deadlock ->
  m' = m
  \/ (exists now s rc amt src tgt e, op = OpInitiate now s rc amt src tgt /\ amt <= MAX_BRIDGE_AMOUNT
      /\ src <> tgt
      /\ m' = initiated m (mkBridge (next_bridge_id m) s rc amt src tgt Pending now e zero_hash))
  \/ (exists i t, bridges m !! i = Some t /\
        (status t = Pending /\ m' = with_status m i t Locked
         \/ status t = Locked
            /\ m' = set_pending (push_pending (target_shard t) i
                      (drop_pending (source_shard t) i (pending_by_shard m))) (with_status m i t Relayed)
         \/ status t = Relayed /\ m' = finalized m i t
         \/ status t <> Finalized /\ m' = with_status m i t Reverting))
  \/ (exists now, op = OpReap now /\ r = Ok tt).
Proof.
  intros Hinv Hn Hrun Hp Hd. pose proof (inv_next m Hinv).
  destruct op as [now s rc amt src tgt|i|i|i|i|now]; cbn [run_op] in Hrun.
  - revert Hrun. unfold sbind.
    destruct (initiate_bridge now s rc amt src tgt m) as [c m1] eqn:Hc. intros Hrun.
    assert (c <> Panic) by (destruct c; naive_solver).
    assert (m1 = m') as -> by (destruct c; unfold sret in Hrun; naive_solver).
    eapply initiate_cases in Hc as [[-> _]|(e & _ & Ha & Hst & ->)]; [by left| |lia|done].
    right; left. by exists now, s, rc, amt, src, tgt, e.
  - destruct (lock_cases i m) as [[e He]|(t & Ht & Hs & He)]; rewrite He in Hrun;
      injection Hrun as <- <-; [by left|]. right; right; left. exists i, t. tauto.
  - destruct (relay_cases i m) as [[e He]|(t & Ht & Hs & He)]; rewrite He in Hrun;
      injection Hrun as <- <-; [by left|]. right; right; left. exists i, t. tauto.
  - destruct (finalize_cases i m) as [[e He]|(t & Ht & Hs & He)];
      [intros; eapply inv_no_overflow; eauto; lia|..]; rewrite He in Hrun; injection Hrun as <- <-; [by left|]. right; right; left. exists i, t. tauto.
  - destruct (revert_cases i m) as [[e He]|(t & Ht & Hs & He)]; rewrite He in Hrun;
      injection Hrun as <- <-; [by left|]. right; right; left. exists i, t. tauto.
  - right; right; right. exists now. split; [done|].
    destruct r as [[]|e| |]; [done| |done..]. by apply reap_no_err in Hrun.
Qed.

Lemma bridge_inv_step op m r m' :
  bridge_inv m -> next_bridge_id m < U64_MAX ->
  (forall now s rc amt src tgt, op = OpInitiate now s rc amt src tgt -> fits 128 amt) ->
  run_op op m = (r, m') -> r <> Panic -> r <> Deadlock -> bridge_inv m'.
Proof.
  intros Hinv Hn Hamt Hrun Hp Hd.
  destruct (run_op_cases op m r m' Hinv Hn Hrun Hp Hd)
    as [->|[(now & s & rc & amt & src & tgt & e & -> & Ha & Hst & ->)
           |[(i & t & Ht & [[Hs ->]|[[Hs ->]|[[Hs ->]|[Hs ->]]]])|(now & -> & ->)]]].
  - done.
  - specialize (Hamt _ _ _ _ _ _ eq_refl). unfold fits in Hamt. by apply inv_initiated; cbn; [|lia..| |].
  - by apply inv_lock.
  - by apply inv_relay.
  - by apply inv_finalize.
  - by apply inv_reverting.
  - revert Hinv Hrun. apply reap_keeps; intros; [by apply inv_reverting|by apply inv_reverted].
Qed.

Lemma reachable_inv m : bridge_reachable m -> bridge_inv m.
Proof. induction 1; [apply inv_new|by eapply bridge_inv_step]. Qed.

(** *** Every public call, whatever it returns *)

Lemma set_status_same t : set_status (status t) t = t.
Proof. by destruct t. Qed.

(** The identifiers in use have been handed out. *)
Definition ids_ok (m : BridgeManager) : Prop := 0 <= next_bridge_id m /\ forall i t, bridges m !! i = Some t -> i < next_bridge_id m.

(** The bridges keep their data, and their statuses move as [E] allows. *)
Definition restatus (E : Z -> BridgeStatus -> BridgeStatus -> Prop) (m m' : BridgeManager) : Prop :=
  next_bridge_id m' = next_bridge_id m /\ dom (bridges m') = dom (bridges m) /\
  forall i t, bridges m !! i = Some t -> exists s, bridges m' !! i = Some (set_status s t) /\ E i (status t) s.

Lemma restatus_same (E : Z -> BridgeStatus -> BridgeStatus -> Prop) m m' :
  (forall i s, E i s s) -> bridges m' = bridges m -> next_bridge_id m' = next_bridge_id m -> restatus E m m'.
Proof. intros HE Hb Hn. split_and!; [done|by rewrite Hb|]. intros i t Ht. exists (status t). by rewrite set_status_same, Hb. Qed.
Lemma restatus_one (E : Z -> BridgeStatus -> BridgeStatus -> Prop) m m' i t s :
  (forall i s, E i s s) -> bridges m !! i = Some t -> bridges m' = <[i := set_status s t]> (bridges m) ->
  next_bridge_id m' = next_bridge_id m -> E i (status t) s -> restatus E m m'.
Proof.
  intros HE Ht Hb Hn Hs. split_and!; [done|rewrite Hb, dom_insert_L; apply elem_of_dom_2 in Ht; set_solver|].
  intros j u Hu. rewrite Hb. destruct (decide (j = i)) as [->|Hne].
  - rewrite lookup_insert_eq. simplify_eq. by exists s.
  - rewrite lookup_insert_ne by done. exists (status u). by rewrite set_status_same.
Qed.
Lemma restatus_trans (E : Z -> BridgeStatus -> BridgeStatus -> Prop) m1 m2 m3 :
  (forall i s1 s2 s3, E i s1 s2 -> E i s2 s3 -> E i s1 s3) -> restatus E m1 m2 -> restatus E m2 m3 -> restatus E m1 m3.
Proof.
  intros HE (Hn & Hd & H12) (Hn' & Hd' & H23). split_and!; [congruence|congruence|]. intros i t Ht. destruct (H12 i t Ht) as (s & Hs & Es).
  destruct (H23 i _ Hs) as (s' & Hs' & Es'). exists s'. split; [done|]. by eapply HE.
Qed.
Lemma restatus_mono (E F : Z -> BridgeStatus -> BridgeStatus -> Prop) m m' :
  (forall i s s', E i s s' -> F i s s') -> restatus E m m' -> restatus F m m'.
Proof. intros HE (Hn & Hd & H). split_and!; [done|done|]. intros i t Ht. destruct (H i t Ht) as (s & ? & ?). eauto. Qed.

Lemma mark_restatus i m : restatus (fun j s s' => s' = s \/ j = i /\ s' = Reverted) m (mark_reverted i m).2.
Proof.
  unfold mark_reverted, sbind. destruct (get_mut_cases i m) as [[e ->]|(t & Ht & ->)]; [apply restatus_same; [by left|done..]|].
  cbn. unfold slift. destruct (add_u64 _ _); apply (restatus_one _ _ _ i t Reverted); cbn; try done; intros; tauto.
Qed.
(** What reverting does to a status: nothing to a finalized one. *)
Definition undone (s s' : BridgeStatus) : Prop := s' = s \/ s <> Finalized /\ (s' = Reverting \/ s' = Reverted).
Lemma undone_trans s1 s2 s3 : undone s1 s2 -> undone s2 s3 -> undone s1 s3.
Proof. intros [->|[H1 H2]]; [done|]. intros [->|[H3 H4]]; right; tauto. Qed.
Lemma undone_same (i : Z) s : undone s s.
Proof. by left. Qed.
Lemma reap_one_restatus i m : restatus (fun _ => undone) m (reap_one i m).2.
Proof.
  unfold reap_one. destruct (revert_cases i m) as [[e ->]|(t & Ht & Hs & ->)]; [apply restatus_same; [apply undone_same|done..]|].
  eapply (restatus_trans _ _ (with_status m i t Reverting)); [by intros ?; apply undone_trans| |].
  - apply (restatus_one _ _ _ i t Reverting); [apply undone_same|done|done|done|]. right. split; [done|by left].
  - pose proof (mark_restatus i (with_status m i t Reverting)) as (Hn & Hd & Hm).
    assert (Hr : (match mark_reverted i (with_status m i t Reverting) with (Err _, m'') => (Ok tt, m'') | r => r end).2
      = (mark_reverted i (with_status m i t Reverting)).2) by by destruct (mark_reverted i _) as [[| | |] ?].
    rewrite Hr. split_and!; [done|done|]. intros j u Hu. destruct (Hm j u Hu) as (s & Hj & Hc). exists s. split; [done|].
    destruct Hc as [->|[-> ->]]; [by left|]. unfold with_status in Hu. cbn in Hu. rewrite lookup_insert_eq in Hu. injection Hu as <-. right. cbn. split; [done|tauto].
Qed.
Lemma reap_restatus now m : restatus (fun _ => undone) m (reap now m).2.
Proof.
  unfold reap. generalize (find_expired_bridges now m) as ids. intros ids. revert m.
  induction ids as [|i ids IH]; intros m; cbn [reap_all]; [apply restatus_same; [apply undone_same|done..]|].
  unfold sbind. pose proof (reap_one_restatus i m) as H1. destruct (reap_one i m) as [[[]| | |] m1]; [|done..].
  eapply restatus_trans; [by intros ?; apply undone_trans|exact H1|apply IH].
Qed.

(** The edges of a call: those of the status machine, and from any status to Reverted when it is [mark_reverted]. *)
Definition call_edge (c : bridge_call) (i : Z) (s s' : BridgeStatus) : Prop := status_edge s s' \/ c = CallMarkReverted i /\ s' = Reverted.
Lemma call_restatus c m :
  ids_ok m -> next_bridge_id m < U64_MAX ->
  restatus (call_edge c) m (run_call c m).2
  \/ (bridges (run_call c m).2 = bridges m /\ next_bridge_id (run_call c m).2 = next_bridge_id m + 1)
  \/ exists t, status t = Pending /\ bridges (run_call c m).2 = <[next_bridge_id m := t]> (bridges m) /\ next_bridge_id (run_call c m).2 = next_bridge_id m + 1.
Proof.
  intros [Hn0 _] Hn. assert (Hstay : forall i s, call_edge c i s s) by (intros; left; constructor).
  destruct c as [[now s r amt src tgt|i|i|i|i|now]|i]; cbn [run_call run_op].
  all: cycle 1. 1-6: left.
  - destruct (lock_cases i m) as [[e ->]|(t & Ht & Hs & ->)]; [by apply restatus_same|].
    apply (restatus_one _ _ _ i t Locked); try done. left. rewrite Hs. constructor.
  - destruct (relay_cases i m) as [[e ->]|(t & Ht & Hs & ->)]; [by apply restatus_same|].
    apply (restatus_one _ _ _ i t Relayed); try done. left. rewrite Hs. constructor.
  - unfold finalize_bridge, sbind. destruct (get_mut_cases i m) as [[e ->]|(t & Ht & ->)]; [by apply restatus_same|].
    destruct (expect_status_cases t Relayed m) as [[_ [e ->]]|[Hs ->]]; [by apply restatus_same|].
    cbn. unfold slift. destruct (add_u128 _ _); apply (restatus_one _ _ _ i t Finalized); try done; left; rewrite Hs; constructor.
  - destruct (revert_cases i m) as [[e ->]|(t & Ht & Hs & ->)]; [by apply restatus_same|].
    apply (restatus_one _ _ _ i t Reverting); try done. left. by constructor.
  - eapply restatus_mono; [|apply reap_restatus]. intros i s s' [->|[Hs [->| ->]]]; left; by constructor.
  - eapply restatus_mono; [|apply mark_restatus]. intros j s s' [->|[-> ->]]; [done|by right].
  - unfold initiate_bridge. destruct (_ <? amt); [left; by apply restatus_same|]. destruct (src =? tgt); [left; by apply restatus_same|]. right.
    unfold sbind, sget, slift, smod, add_u64. rewrite arith_fits by (unfold fits, U64_MAX in *; lia). cbn.
    unfold bridge_new. destruct (add_u64 now _) as [x|e| |] eqn:Hx; cbn; [|by left..]. right. eexists. split; [|done]. done.
Qed.
Lemma call_ids c m : ids_ok m -> next_bridge_id m < U64_MAX -> ids_ok (run_call c m).2.
Proof.
  intros Hok Hn. destruct Hok as [H0 Hi] eqn:E. clear E. unfold ids_ok.
  destruct (call_restatus c m (conj H0 Hi) Hn) as [(Hnx & Hd & _)|[(Hb & Hnx)|(t & _ & Hb & Hnx)]]; rewrite Hnx; split; try lia; intros i u Hu.
  - apply elem_of_dom_2 in Hu. rewrite Hd in Hu. apply elem_of_dom in Hu as [v Hv]. by apply (Hi i v).
  - rewrite Hb in Hu. specialize (Hi i u Hu). lia.
  - rewrite Hb in Hu. apply lookup_insert_Some in Hu as [[<- _]|[_ Hu]]; [lia|]. specialize (Hi i u Hu). lia.
Qed.
Lemma called_ids m : call_reachable m -> ids_ok m.
Proof. induction 1; [by split|by apply call_ids]. Qed.
End Invariant.
#[export] Hint Constructors status_edge : pacyte.

(** ** Properties *)

Section Properties.
Context `{BP : BuildProfile}.

(** C5. In every reachable manager: identifiers are the handed-out ones, amounts are at most
    [MAX_BRIDGE_AMOUNT], a pending or locked bridge is queued exactly at its source shard, a
    relayed one exactly at its target, finalized and reverted ones nowhere, and
    [total_bridged] is exactly the sum of the finalized amounts. *)
Theorem bridge_manager_invariant (m : BridgeManager) : bridge_reachable m -> bridge_inv m.
Proof. apply reachable_inv. Qed.

(** C31. Every public call of the manager, [mark_reverted] included, whatever it returns, on every manager such calls
    lead to, while identifiers are left: it moves each bridge along at most one edge of the status machine and changes
    nothing else of it: Pending, Locked, Relayed, Finalized in this order, or from any status but Finalized to
    Reverting or Reverted; only [mark_reverted] of that bridge takes a finalized one to Reverted, every other call
    leaves a finalized bridge as it is.  No bridge disappears, and a new one is Pending under the next identifier. *)
Theorem bridge_lifecycle (c : bridge_call) (m m' : BridgeManager) (r : PacyteResult unit) :
  call_reachable m -> next_bridge_id m < U64_MAX -> run_call c m = (r, m') ->
  (forall i t, bridges m !! i = Some t ->
     exists s, bridges m' !! i = Some (set_status s t) /\ (status_edge (status t) s \/ c = CallMarkReverted i /\ s = Reverted))
  /\ (forall i t, bridges m !! i = Some t -> status t = Finalized -> c <> CallMarkReverted i -> bridges m' !! i = Some t)
  /\ (forall i t, bridges m !! i = None -> bridges m' !! i = Some t -> i = next_bridge_id m /\ status t = Pending).
Proof.
  intros Hreach Hn Hrun. destruct (called_ids m Hreach) as [Hn0 Hi]. pose proof (call_restatus c m (conj Hn0 Hi) Hn) as Hc. rewrite Hrun in Hc. cbn [snd] in Hc.
  assert (Hmove : forall i t, bridges m !! i = Some t -> exists s, bridges m' !! i = Some (set_status s t) /\ call_edge c i (status t) s).
  { intros i t Ht. destruct Hc as [(_ & _ & Hc)|[(Hb & _)|(u & _ & Hb & _)]]; [by apply Hc|..]; exists (status t); rewrite set_status_same, Hb.
    - split; [done|left; constructor].
    - split; [|left; constructor]. rewrite lookup_insert_ne; [done|]. specialize (Hi i t Ht). lia. }
  split_and!; [exact Hmove| |].
  - intros i t Ht Hf Hne. destruct (Hmove i t Ht) as (s & -> & [He|[? _]]); [|done]. rewrite Hf in He. f_equal.
    inversion He; subst; try done. rewrite <- Hf. apply set_status_same.
  - intros i t Hnone Ht. destruct Hc as [(_ & Hd & _)|[(Hb & _)|(u & Hu & Hb & _)]].
    + apply elem_of_dom_2 in Ht. rewrite Hd in Ht. by apply not_elem_of_dom in Hnone.
    + congruence.
    + rewrite Hb in Ht. apply lookup_insert_Some in Ht as [[<- <-]|[_ Ht]]; [done|congruence].
Qed.

Lemma retain_ne_fresh i l : i ∉ l -> retain_ne i l = l.
Proof.
  unfold retain_ne. induction l as [|j l IH]; [done|]. rewrite not_elem_of_cons. intros [Hj Hl].
  rewrite filter_cons_True by done. f_equal. auto.
Qed.

Lemma retain_ne_app i l1 l2 : retain_ne i (l1 ++ l2) = retain_ne i l1 ++ retain_ne i l2.
Proof. apply filter_app. Qed.

Lemma retain_ne_self i : retain_ne i [i] = [].
Proof. unfold retain_ne. by rewrite filter_cons_False by naive_solver. Qed.

(** Locking, relaying and finalizing a pending bridge. *)
Lemma run_transfer_tail m i t :
  bridge_inv m -> bridges m !! i = Some t -> status t = Pending ->
  next_bridge_id m <= U64_MAX ->
  exists m', (run! lock_bridge i in run! relay_bridge i in run! finalize_bridge i in sret i) m = (Ok i, m')
    /\ bridges m' = <[i := set_status Finalized t]> (bridges m)
    /\ total_bridged m' = total_bridged m + bridge_amount t
    /\ (forall sh, queue (pending_by_shard m') sh = retain_ne i (queue (pending_by_shard m) sh))
    /\ bridge_inv m'.
Proof.
  intros Hinv Ht Hs Hn.
  pose proof (lock_ok i m t Ht Hs) as E1. set (m1 := with_status m i t Locked) in *.
  assert (Hinv1 : bridge_inv m1) by (by apply inv_lock).
  assert (Ht1 : bridges m1 !! i = Some (set_status Locked t)) by apply lookup_insert_eq.
  pose proof (relay_ok i m1 _ Ht1 eq_refl) as E2. revert E2. set (m2 := set_pending _ _). intros E2.
  assert (Hinv2 : bridge_inv m2) by (by apply inv_relay).
  assert (Ht2 : bridges m2 !! i = Some (set_status Relayed (set_status Locked t))) by apply lookup_insert_eq.
  pose proof (finalize_ok i m2 _ Ht2 eq_refl) as E3. specialize (E3 ltac:(by eapply inv_no_overflow)).
  eexists. unfold sbind. rewrite E1, E2, E3. split_and!; [reflexivity|..].
  - cbn. by rewrite !insert_insert_eq.
  - done.
  - intros sh. change (pending_by_shard _) with (drop_pending (target_shard t) i
      (push_pending (target_shard t) i (drop_pending (source_shard t) i (pending_by_shard m)))) at 1.
    rewrite queue_drop, queue_push, queue_drop.
    pose proof (inv_queued m i t sh Hinv Ht ltac:(congruence)) as Hq. unfold location in Hq.
    rewrite Hs in Hq. pose proof (entry_shards _ _ _ (inv_entries m Hinv i t Ht)).
    repeat case_decide; subst; try congruence.
    + rewrite retain_ne_app, retain_ne_self. apply app_nil_r.
    + by rewrite retain_ne_fresh by naive_solver.
  - by apply inv_finalize.
Qed.

(** The four calls of one transfer, in order. *)
Definition transfer (now : Z) (s rc : Address) (amt src tgt : Z) : ST BridgeManager PacyteError Z :=
  do! t := initiate_bridge now s rc amt src tgt in
  run! lock_bridge (id t) in
  run! relay_bridge (id t) in
  run! finalize_bridge (id t) in
  sret (id t).

(** C32. On every reachable manager a transfer within the limits, between two shards, runs
    through its four calls without error: it gets a fresh identifier, ends Finalized and in
    no queue, adds exactly its amount to [total_bridged], and leaves every other bridge. *)
Theorem bridge_transfer_completes (m : BridgeManager) (now : Z) (s rc : Address) (amt src tgt : Z) :
  bridge_reachable m -> next_bridge_id m < U64_MAX -> 0 <= amt <= MAX_BRIDGE_AMOUNT ->
  src <> tgt -> fits 64 (now + BRIDGE_TIMEOUT_SECS) -> bridges m !! next_bridge_id m = None /\
  exists m', transfer now s rc amt src tgt m = (Ok (next_bridge_id m), m')
    /\ bridges m' = <[next_bridge_id m := mkBridge (next_bridge_id m) s rc amt src tgt Finalized now
                        (now + BRIDGE_TIMEOUT_SECS) zero_hash]> (bridges m)
    /\ total_bridged m' = total_bridged m + amt
    /\ (forall sh, queue (pending_by_shard m') sh = queue (pending_by_shard m) sh)
    /\ bridge_inv m'.
Proof.
  intros Hreach Hn Hamt Hst Hnow. pose proof (reachable_inv m Hreach) as Hinv.
  pose proof (inv_next m Hinv) as Hpos. set (n := next_bridge_id m) in *.
  set (t := mkBridge n s rc amt src tgt Pending now (now + BRIDGE_TIMEOUT_SECS) zero_hash).
  assert (Hfresh : bridges m !! n = None).
  { destruct (bridges m !! n) as [u|] eqn:Hu; [|done].
    destruct (entry_id _ _ _ (inv_entries m Hinv n u Hu)). lia. }
  assert (Hnq : forall sh, n ∉ queue (pending_by_shard m) sh).
  { intros sh Hq. destruct (inv_known m Hinv _ _ Hq) as [u Hu]. congruence. }
  split; [done|].
  assert (H1 : initiate_bridge now s rc amt src tgt m = (Ok t, initiated m t)).
  { unfold initiate_bridge. rewrite (proj2 (Z.ltb_ge _ _)), (proj2 (Z.eqb_neq _ _)) by (done || lia).
    unfold sbind, sget, slift, smod, bridge_new, add_u64. fold n.
    rewrite arith_fits by (unfold fits, U64_MAX in *; lia). by rewrite arith_fits. }
  set (m1 := initiated m t) in *.
  assert (Hinv1 : bridge_inv m1) by (by apply inv_initiated).
  assert (Ht1 : bridges m1 !! n = Some t) by apply lookup_insert_eq.
  destruct (run_transfer_tail m1 n t) as (m' & Htail & Hb & Htot & Hp & Hinv'); [done..|cbn; lia|].
  exists m'. unfold transfer, sbind. rewrite H1. split_and!; [exact Htail| | | |done].
  - rewrite Hb. unfold m1. cbn. apply insert_insert_eq.
  - rewrite Htot. done.
  - intros sh. rewrite Hp.
    change (pending_by_shard m1) with (push_pending src n (pending_by_shard m)).
    rewrite queue_push. specialize (Hnq sh).
    case_decide; [|by apply retain_ne_fresh].
    rewrite retain_ne_app, (retain_ne_fresh n _ Hnq), retain_ne_self. apply app_nil_r.
Qed.

(** One expired bridge of the sweep. *)
Lemma reap_one_ok i m t :
  bridges m !! i = Some t -> status t <> Finalized -> 0 <= total_failed m < U64_MAX ->
  exists m', reap_one i m = (Ok tt, m')
    /\ bridges m' = <[i := set_status Reverted t]> (bridges m)
    /\ total_failed m' = total_failed m + 1 /\ total_bridged m' = total_bridged m.
Proof.
  intros Ht Hs Hf. unfold reap_one.
  destruct (revert_cases i m) as [[e He]|(u & Hu & _ & ->)].
  { exfalso. revert He. unfold revert_bridge, sbind, get_mut. rewrite Ht. cbn.
    by rewrite bool_decide_false. }
  simplify_eq. unfold mark_reverted, sbind, get_mut at 1.
  change (bridges (with_status m i t Reverting)) with (<[i := set_status Reverting t]> (bridges m)).
  rewrite lookup_insert_eq. cbn. unfold slift, add_u64.
  rewrite arith_fits by (unfold fits, U64_MAX in *; lia).
  eexists. split; [reflexivity|]. split_and!; [|done..]. cbn. by rewrite insert_insert_eq.
Qed.

Lemma reap_all_ok ids m :
  NoDup ids -> (forall i, i ∈ ids -> exists t, bridges m !! i = Some t /\ status t <> Finalized) ->
  0 <= total_failed m -> total_failed m + Z.of_nat (length ids) <= U64_MAX ->
  exists m', reap_all ids m = (Ok tt, m')
    /\ (forall i, bridges m' !! i
          = if decide (i ∈ ids) then set_status Reverted <$> bridges m !! i else bridges m !! i)
    /\ total_failed m' = total_failed m + Z.of_nat (length ids) /\ total_bridged m' = total_bridged m.
Proof.
  revert m. induction ids as [|i ids IH]; intros m Hnd Hall Hpos Hf; cbn [reap_all].
  { exists m. cbn. split_and!; [done| |lia|done]. intros i. by rewrite decide_False by set_solver. }
  apply NoDup_cons in Hnd as [Hi Hnd]. cbn [length] in *.
  destruct (Hall i ltac:(set_solver)) as (t & Ht & Hs).
  destruct (reap_one_ok i m t Ht Hs) as (m1 & E1 & Hb1 & Hf1 & Ht1); [lia|].
  destruct (IH m1) as (m' & E & Hb & Hf' & Ht'); [done| |lia|lia|].
  { intros j Hj. rewrite Hb1, lookup_insert_ne by set_solver. apply Hall. set_solver. }
  exists m'. unfold sbind. rewrite E1. split_and!; [done| |lia|congruence].
  intros j. rewrite Hb, Hb1. destruct (decide (j = i)) as [->|Hne].
  - rewrite decide_False, decide_True, lookup_insert_eq, Ht by set_solver. done.
  - rewrite lookup_insert_ne by done. by repeat case_decide; set_solver.
Qed.

(** Unless the failure counter is exhausted, one tick of the reaper reverts exactly the
    expired bridges that are neither finalized nor reverted, counts each of them once as
    failed, touches no other bridge, and leaves nothing expired. *)
Theorem reap_reverts_expired (now : Z) (m : BridgeManager) :
  0 <= total_failed m -> total_failed m + Z.of_nat (length (find_expired_bridges now m)) <= U64_MAX ->
  exists m', reap now m = (Ok tt, m')
    /\ (forall i, bridges m' !! i
          = if decide (i ∈ find_expired_bridges now m) then set_status Reverted <$> bridges m !! i
            else bridges m !! i)
    /\ total_failed m' = total_failed m + Z.of_nat (length (find_expired_bridges now m))
    /\ total_bridged m' = total_bridged m
    /\ find_expired_bridges now m' = [].
Proof.
  intros Hpos Hf.
  assert (Hin : forall m0 i, i ∈ find_expired_bridges now m0 <-> exists t, bridges m0 !! i = Some t
            /\ status t <> Finalized /\ status t <> Reverted /\ is_expired t now = true).
  { intros m0 i. unfold find_expired_bridges. rewrite list_elem_of_fmap. split.
    - intros ([j t] & -> & Hj). rewrite list_elem_of_filter, elem_of_map_to_list in Hj. naive_solver.
    - intros (t & Ht & Hs). exists (i, t). by rewrite list_elem_of_filter, elem_of_map_to_list. }
  destruct (reap_all_ok (find_expired_bridges now m) m) as (m' & E & Hb & Hf' & Ht'); [| |done|done|].
  { apply NoDup_fmap_fst; [|apply NoDup_filter, NoDup_map_to_list].
    intros i t1 t2. rewrite !list_elem_of_filter, !elem_of_map_to_list. naive_solver. }
  { intros i Hi. apply Hin in Hi. naive_solver. }
  exists m'. split_and!; [done..|]. apply elem_of_nil_inv. intros i Hi. apply Hin in Hi.
  destruct Hi as (t & Ht & Hs1 & Hs2 & He). rewrite Hb in Ht. case_decide as Hd.
  - apply fmap_Some in Ht as (u & Hu & ->). done.
  - apply Hd, Hin. eauto.
Qed.

(** [mark_reverted] has no guard: called on a finalized bridge of a reachable manager it
    succeeds and turns it Reverted, after which [total_bridged] counts an amount that no
    finalized bridge accounts for. *)
Theorem mark_reverted_unguarded (m : BridgeManager) (i : Z) (t : BridgeTransaction) :
  bridge_reachable m -> bridges m !! i = Some t -> status t = Finalized ->
  0 <= total_failed m < U64_MAX ->
  exists m', mark_reverted i m = (Ok tt, m')
    /\ bridges m' !! i = Some (set_status Reverted t)
    /\ total_bridged m' = map_sum moved (bridges m') + bridge_amount t.
Proof.
  intros Hreach Ht Hs Hf. pose proof (reachable_inv m Hreach) as Hinv.
  unfold mark_reverted, sbind, get_mut. rewrite Ht. cbn. unfold slift, add_u64.
  rewrite arith_fits by (unfold fits, U64_MAX in *; lia).
  eexists. split; [reflexivity|]. cbn. split; [apply lookup_insert_eq|].
  rewrite (map_sum_update _ _ _ t) by done. rewrite (moved_finalized t) by done.
  rewrite moved_not_finalized by done. rewrite (inv_total m Hinv). lia.
Qed.
End Properties.

(** ** Concrete runs *)

Section Witnesses.
#[local] Existing Instance release_profile.

(** A manager after one completed transfer of five units from shard 1 to shard 2. *)
Definition demo_ops : list bridge_op :=
  [OpInitiate 100 zero_address zero_address 5 1 2; OpLock 1; OpRelay 1; OpFinalize 1].
Definition demo_manager : BridgeManager := foldl (fun m op => (run_op op m).2) bridge_manager_new demo_ops.

Lemma reach_run op m :
  bridge_reachable m -> next_bridge_id m < U64_MAX ->
  (forall now s r amt src tgt, op = OpInitiate now s r amt src tgt -> fits 128 amt) ->
  (run_op op m).1 <> Panic -> (run_op op m).1 <> Deadlock -> bridge_reachable (run_op op m).2.
Proof. intros. eapply reach_step; [done..|apply surjective_pairing|done|done]. Qed.

Lemma demo_reachable : bridge_reachable demo_manager.
Proof.
  unfold demo_manager, demo_ops. cbn [foldl].
  do 4 (apply reach_run; [|by vm_compute|intros; simplify_eq; by vm_compute|by vm_compute|by vm_compute]).
  apply reach_new.
Qed.

Lemma bridge_manager_invariant_witness : total_bridged demo_manager = 5 /\ bridge_inv demo_manager.
Proof. split; [by vm_compute|]. apply bridge_manager_invariant, demo_reachable. Defined.

Lemma demo_called : call_reachable demo_manager.
Proof.
  unfold demo_manager, demo_ops. cbn [foldl].
  apply (called_step (CallOp (OpFinalize 1))); [|by vm_compute]. apply (called_step (CallOp (OpRelay 1))); [|by vm_compute].
  apply (called_step (CallOp (OpLock 1))); [|by vm_compute].
  apply (called_step (CallOp (OpInitiate 100 zero_address zero_address 5 1 2))); [|by vm_compute]. apply called_new.
Qed.
Lemma demo_finalized : exists t, bridges demo_manager !! 1 = Some t /\ status t = Finalized.
Proof. eexists. split; [vm_compute; reflexivity|reflexivity]. Qed.
Lemma bridge_lifecycle_witness :
  exists t, bridges demo_manager !! 1 = Some t /\ bridges (run_call (CallOp (OpRevert 1)) demo_manager).2 !! 1 = Some t.
Proof.
  destruct demo_finalized as (t & Ht & Hf). exists t. split; [exact Ht|].
  eapply (bridge_lifecycle (CallOp (OpRevert 1)) demo_manager _ (run_call (CallOp (OpRevert 1)) demo_manager).1);
    [apply demo_called|by vm_compute|apply surjective_pairing|exact Ht|exact Hf|done].
Defined.

Lemma bridge_transfer_completes_witness :
  bridges demo_manager !! next_bridge_id demo_manager = None
  /\ exists m', transfer 200 zero_address zero_address 7 2 3 demo_manager = (Ok 2, m')
       /\ total_bridged m' = 12.
Proof.
  destruct (bridge_transfer_completes demo_manager 200 zero_address zero_address 7 2 3)
    as (Hn & m' & E & _ & Ht & _); [apply demo_reachable|by vm_compute..|].
  split; [exact Hn|]. exists m'. split; [exact E|]. rewrite Ht. by vm_compute.
Defined.

Lemma reap_reverts_expired_witness :
  exists m', reap 1000 (run_op (OpInitiate 100 zero_address zero_address 5 1 2) bridge_manager_new).2
             = (Ok tt, m') /\ total_failed m' = 1 /\ find_expired_bridges 1000 m' = [].
Proof.
  destruct (reap_reverts_expired 1000
    (run_op (OpInitiate 100 zero_address zero_address 5 1 2) bridge_manager_new).2)
    as (m' & E & _ & Hf & _ & Hx); [by vm_compute..|].
  exists m'. split; [exact E|]. split; [|exact Hx]. rewrite Hf. by vm_compute.
Defined.

Lemma mark_reverted_unguarded_witness :
  exists m' t, mark_reverted 1 demo_manager = (Ok tt, m') /\ bridges m' !! 1 = Some (set_status Reverted t).
Proof.
  destruct (bridges demo_manager !! 1) as [t|] eqn:Ht; [|by vm_compute in Ht].
  destruct (mark_reverted_unguarded demo_manager 1 t) as (m' & E & Hb & _);
    [apply demo_reachable|exact Ht| |by vm_compute|].
  - apply (f_equal (fmap status)) in Ht. vm_compute in Ht. by injection Ht.
  - exists m', t. by split.
Defined.
End Witnesses.
