(* ===== verification/Validators.v ===== *)
(** * Validators (src/consensus/validator.rs, the set of src/consensus/mod.rs)

    [ValidatorRecord], [ValidatorSet] and [ValidatorManager].  The manager's [validators] lock
    is the one several of its methods hold while they call each other: such a callee takes the
    guard of its caller as an argument. *)

From S2P Require Import Prelude Hashing Errors.
Abbreviation length := List.length.

(** ** Configuration and validator sets (consensus/mod.rs) *)

Record ConsensusConfig : Type := mkConfig {
  max_block_size : Z;
  validator_count : Z;
  quorum_size_field : Z;
  block_time_target_ms : Z;
  proposal_timeout_ms : Z;
  vote_timeout_ms : Z;
  round_timeout_ms : Z;
  max_rounds : Z;
  sync_timeout_ms : Z
}.
Definition default_config : ConsensusConfig :=
  mkConfig 1000000 21 15 1000 3000 2000 4000 10 10000.

(** [(n * 2 / 3) + 1], the threshold every component computes. *)
Definition two_thirds `{BuildProfile} {E} (n : Z) : Outcome E Z :=
  let? d := mul_u64 n 2 in add_u64 (d / 3) 1.

Definition quorum_size `{BuildProfile} {E} (c : ConsensusConfig) : Outcome E Z :=
  two_thirds (validator_count c).
Definition is_quorum `{BuildProfile} {E} (c : ConsensusConfig) (votes : Z) : Outcome E bool :=
  let? q := quorum_size c in Ok (q <=? votes).

Record ValidatorInfo : Type := mkInfo {
  vi_id : Z;
  vi_address : Address;
  vi_public_key : list Z;
  vi_stake : Z;
  vi_voting_power : Z;
  vi_is_active : bool
}.

Record ValidatorSet : Type := mkSet {
  set_validators : list ValidatorInfo;
  set_total_stake : Z;
  set_epoch : Z
}.
Definition validator_set_new : ValidatorSet := mkSet [] 0 0.

Section Sets.
Context `{BP : BuildProfile} {E : Type}.

Definition add_validator (info : ValidatorInfo) (s : ValidatorSet) : Outcome E ValidatorSet :=
  let? t := add_u128 (set_total_stake s) (vi_stake info) in
  Ok (mkSet (set_validators s ++ [info]) t (set_epoch s)).

Definition set_get_validator (i : Z) (s : ValidatorSet) : option ValidatorInfo :=
  List.find (fun v => vi_id v =? i) (set_validators s).

Definition set_get_proposer (height round : Z) (s : ValidatorSet) : Outcome E (option ValidatorInfo) :=
  match set_validators s with
  | [] => Ok None
  | vs => let? n := add_u64 height round in
          Ok (vs !! Z.to_nat (n mod Z.of_nat (length vs)))
  end.

Definition set_is_proposer (i height round : Z) (s : ValidatorSet) : Outcome E bool :=
  let? p := set_get_proposer height round s in
  Ok (match p with Some v => vi_id v =? i | None => false end).

(** [map(..).sum()], with the overflow behaviour of [+]. *)
Definition sum_u64 (l : list Z) : Outcome E Z :=
  foldl (fun acc x => let? a := acc in add_u64 a x) (Ok 0) l.

Definition total_voting_power (s : ValidatorSet) : Outcome E Z :=
  sum_u64 (map vi_voting_power (set_validators s)).
Definition quorum_voting_power (s : ValidatorSet) : Outcome E Z :=
  let? t := total_voting_power s in two_thirds t.

Definition active_validators (s : ValidatorSet) : list ValidatorInfo :=
  List.filter vi_is_active (set_validators s).
Definition set_active_count (s : ValidatorSet) : Z := Z.of_nat (length (active_validators s)).
End Sets.

(** ** Validator records *)

Inductive ValidatorStatus : Type := Active | Inactive | Jailed | Slashed | Unbonding.
#[export] Instance ValidatorStatus_eq_dec : EqDecision ValidatorStatus.
Proof. solve_decision. Defined.

Record ValidatorRecord : Type := mkRecord {
  vr_id : Z;
  vr_address : Address;
  vr_public_key : list Z;
  vr_stake : Z;
  voting_power : Z;
  vr_status : ValidatorStatus;
  joined_at : Z;
  last_active : Z;
  total_blocks_proposed : Z;
  total_votes_cast : Z;
  missed_blocks : Z;
  slashed_amount : Z;
  commission_rate : Z;
  delegators : gmap Address Z;
  hardware_verified : bool;
  avx512_supported : bool
}.

Definition MIN_VALIDATOR_STAKE : Z := 1000000000000.
Definition MAX_VALIDATORS : Z := 21.
Definition UNBONDING_PERIOD_SECS : Z := 14 * 24 * 60 * 60.

(** The target the node was compiled for, with what CPUID leaf 7 returns in [ebx]. *)
Inductive Arch : Type := X86_64 (leaf7_ebx : Z) | Aarch64 | OtherArch.

(** AVX-512 F, BW, DQ and VL decide; the other bits are only logged. *)
Definition check_hardware_features (cpu : Arch) : bool * bool :=
  match cpu with
  | X86_64 ebx => (true, Z.testbit ebx 16 && Z.testbit ebx 30 && Z.testbit ebx 17 && Z.testbit ebx 26)
  | Aarch64 => (true, false)
  | OtherArch => (false, false)
  end.

Definition calculate_voting_power (stake : Z) : Z := cast 64 (stake / 1000000).

Definition record_new (now : Z) (cpu : Arch) (i : Z) (a : Address) (pk : list Z) (stake : Z) :
  ValidatorRecord :=
  let hw := check_hardware_features cpu in
  mkRecord i a pk stake (calculate_voting_power stake) Active now now 0 0 0 0 10 ∅ hw.1 hw.2.

Definition is_active (r : ValidatorRecord) : bool := bool_decide (vr_status r = Active).

Definition set_stake (s : Z) (r : ValidatorRecord) : ValidatorRecord :=
  mkRecord (vr_id r) (vr_address r) (vr_public_key r) s (voting_power r) (vr_status r)
    (joined_at r) (last_active r) (total_blocks_proposed r) (total_votes_cast r) (missed_blocks r)
    (slashed_amount r) (commission_rate r) (delegators r) (hardware_verified r) (avx512_supported r).
Definition update_voting_power (r : ValidatorRecord) : ValidatorRecord :=
  mkRecord (vr_id r) (vr_address r) (vr_public_key r) (vr_stake r) (calculate_voting_power (vr_stake r)) (vr_status r)
    (joined_at r) (last_active r) (total_blocks_proposed r) (total_votes_cast r) (missed_blocks r)
    (slashed_amount r) (commission_rate r) (delegators r) (hardware_verified r) (avx512_supported r).
Definition set_vr_status (st : ValidatorStatus) (r : ValidatorRecord) : ValidatorRecord :=
  mkRecord (vr_id r) (vr_address r) (vr_public_key r) (vr_stake r) (voting_power r) st
    (joined_at r) (last_active r) (total_blocks_proposed r) (total_votes_cast r) (missed_blocks r)
    (slashed_amount r) (commission_rate r) (delegators r) (hardware_verified r) (avx512_supported r).
Definition set_slashed (z : Z) (r : ValidatorRecord) : ValidatorRecord :=
  mkRecord (vr_id r) (vr_address r) (vr_public_key r) (vr_stake r) (voting_power r) (vr_status r)
    (joined_at r) (last_active r) (total_blocks_proposed r) (total_votes_cast r) (missed_blocks r)
    z (commission_rate r) (delegators r) (hardware_verified r) (avx512_supported r).
Definition set_delegators (d : gmap Address Z) (r : ValidatorRecord) : ValidatorRecord :=
  mkRecord (vr_id r) (vr_address r) (vr_public_key r) (vr_stake r) (voting_power r) (vr_status r)
    (joined_at r) (last_active r) (total_blocks_proposed r) (total_votes_cast r) (missed_blocks r)
    (slashed_amount r) (commission_rate r) d (hardware_verified r) (avx512_supported r).
Definition set_counters (act prop votes missed : Z) (r : ValidatorRecord) : ValidatorRecord :=
  mkRecord (vr_id r) (vr_address r) (vr_public_key r) (vr_stake r) (voting_power r) (vr_status r)
    (joined_at r) act prop votes missed
    (slashed_amount r) (commission_rate r) (delegators r) (hardware_verified r) (avx512_supported r).

Section Records.
Context `{BP : BuildProfile}.
Abbreviation R := (ST ValidatorRecord PacyteError).

Definition add_delegation (d : Address) (amt : Z) : R unit :=
  run! smod (fun r => set_delegators
               (<[d := saturating_add 128 (default 0 (delegators r !! d)) amt]> (delegators r)) r) in
  smod (fun r => update_voting_power (set_stake (saturating_add 128 (vr_stake r) amt) r)).

Definition remove_delegation (d : Address) (amt : Z) : R Z :=
  do! entry := fun r => (ok_or (delegators r !! d) (PE.AccountNotFound (debug_bytes d)), r) in
  if entry <? amt then sfail (PE.InsufficientBalance amt entry)
  else
    do! rest := slift (sub_u128 entry amt) in
    run! smod (fun r => set_delegators (<[d := rest]> (delegators r)) r) in
    run! smod (fun r => update_voting_power (set_stake (saturating_sub (vr_stake r) amt) r)) in
    sret amt.

Definition record_block_proposed (now : Z) : R unit :=
  do! n := sget total_blocks_proposed in
  do! n' := slift (add_u64 n 1) in
  smod (fun r => set_counters now n' (total_votes_cast r) (missed_blocks r) r).

Definition record_vote_cast (now : Z) : R unit :=
  do! n := sget total_votes_cast in
  do! n' := slift (add_u64 n 1) in
  smod (fun r => set_counters now (total_blocks_proposed r) n' (missed_blocks r) r).

Definition record_missed_block : R unit :=
  do! n := sget missed_blocks in
  do! n' := slift (add_u64 n 1) in
  run! smod (fun r => set_counters (last_active r) (total_blocks_proposed r) (total_votes_cast r) n' r) in
  if 50 <=? n' then smod (set_vr_status Jailed) else sret tt.

Definition record_slash (amt : Z) : R unit :=
  do! stake := sget vr_stake in
  if stake <? amt then sfail (PE.InsufficientBalance amt stake)
  else
    do! stake' := slift (sub_u128 stake amt) in
    run! smod (set_stake stake') in
    do! total := sget slashed_amount in
    do! total' := slift (add_u128 total amt) in
    run! smod (set_slashed total') in
    run! smod update_voting_power in
    if stake' <? MIN_VALIDATOR_STAKE then smod (set_vr_status Inactive) else sret tt.
End Records.

(** ** The manager *)

Record ValidatorManager : Type := mkVM {
  validators : gmap Z ValidatorRecord;
  address_to_id : gmap Address Z;
  next_validator_id : Z;
  current_set : ValidatorSet;
  epoch : Z;
  epoch_start_height : Z
}.
Definition validator_manager_new : ValidatorManager := mkVM ∅ ∅ 1 validator_set_new 0 0.

Definition set_records v m := mkVM v (address_to_id m) (next_validator_id m) (current_set m) (epoch m)
  (epoch_start_height m).
Definition set_addresses a m := mkVM (validators m) a (next_validator_id m) (current_set m) (epoch m)
  (epoch_start_height m).
Definition set_next_id n m := mkVM (validators m) (address_to_id m) n (current_set m) (epoch m)
  (epoch_start_height m).
Definition set_current s m := mkVM (validators m) (address_to_id m) (next_validator_id m) s (epoch m)
  (epoch_start_height m).

Definition info_of (r : ValidatorRecord) : ValidatorInfo :=
  mkInfo (vr_id r) (vr_address r) (vr_public_key r) (vr_stake r) (voting_power r) true.

Section Manager.
Context `{BP : BuildProfile} `{Iter : !HashMapIter Z ValidatorRecord}.
Abbreviation M := (ST ValidatorManager PacyteError).

(** The records the current set is chosen from, in the order it is chosen. *)
Definition candidates (m : ValidatorManager) : list ValidatorRecord :=
  sort_desc vr_stake (List.filter (fun v => is_active v && avx512_supported v) (values (validators m))).

(** [validators] is read-locked first, under the guard [g] of the caller. *)
Definition update_validator_set (g : Guard) : M unit :=
  run! slift (acquire_read g) in
  do! set := fun m =>
    (foldl (fun acc v => let? s := acc in add_validator (info_of v) s)
       (Ok (mkSet [] 0 (epoch m))) (take (Z.to_nat MAX_VALIDATORS) (candidates m)), m) in
  smod (set_current set).

(** [let id = *next_id; *next_id += 1; id]. *)
Definition take_id : M Z :=
  do! i := sget next_validator_id in
  do! n := slift (add_u64 i 1) in
  run! smod (set_next_id n) in
  sret i.

Definition replace_validator (now : Z) (cpu : Arch) (g : Guard) (a : Address) (pk : list Z) (stake : Z) :
  M Z :=
  do! g' := slift (acquire_write g) in
  do! min_v := sget (fun m => min_by_key vr_stake (List.filter is_active (values (validators m)))) in
  match min_v with
  | Some min_v =>
      if vr_stake min_v <? stake then
        run! smod (fun m => set_records (alter (set_vr_status Inactive) (vr_id min_v) (validators m)) m) in
        do! i := take_id in
        run! smod (fun m => set_records (<[i := record_new now cpu i a pk stake]> (validators m)) m) in
        run! smod (fun m => set_addresses (<[a := i]> (address_to_id m)) m) in
        run! update_validator_set g' in
        sret i
      else sfail PE.ValidatorSetFull
  | None => sfail PE.ValidatorSetFull
  end.

Definition active_records (m : ValidatorManager) : Z :=
  Z.of_nat (length (List.filter is_active (values (validators m)))).

Definition register_validator (now : Z) (cpu : Arch) (a : Address) (pk : list Z) (stake : Z) : M Z :=
  if negb (check_hardware_features cpu).2 then sfail PE.HardwareInsufficient
  else if stake <? MIN_VALIDATOR_STAKE then sfail (PE.InsufficientStake stake MIN_VALIDATOR_STAKE)
  else
    do! known := sget (fun m => bool_decide (is_Some (address_to_id m !! a))) in
    if known : bool then sfail PE.ValidatorAlreadyExists
    else
      do! g := slift (acquire_read NoGuard) in
      do! n := sget active_records in
      if MAX_VALIDATORS <=? n then replace_validator now cpu g a pk stake
      else
        do! i := take_id in
        run! smod (fun m => set_records (<[i := record_new now cpu i a pk stake]> (validators m)) m) in
        run! smod (fun m => set_addresses (<[a := i]> (address_to_id m)) m) in
        run! update_validator_set NoGuard in
        sret i.

Definition get_validator (i : Z) (m : ValidatorManager) : option ValidatorRecord := validators m !! i.
Definition get_validator_by_address (a : Address) (m : ValidatorManager) : option ValidatorRecord :=
  match address_to_id m !! a with Some i => get_validator i m | None => None end.
Definition get_proposer (height round : Z) (m : ValidatorManager) : PacyteResult (option Z) :=
  let? p := set_get_proposer height round (current_set m) in Ok (vi_id <$> p).
Definition active_count (m : ValidatorManager) : Z := set_active_count (current_set m).

(** Runs a method of the record behind [validators.get_mut(&id)]. *)
Definition on_record {A} (i : Z) (c : ST ValidatorRecord PacyteError A) : M A :=
  fun m => match validators m !! i with
           | None => (Err (PE.ValidatorNotFound i), m)
           | Some r => let '(res, r') := c r in (res, set_records (<[i := r']> (validators m)) m)
           end.

Definition slash (i amt : Z) : M unit :=
  do! g := slift (acquire_write NoGuard) in
  run! on_record i (record_slash amt) in
  do! inactive := sget (fun m => match validators m !! i with
                                 | Some r => bool_decide (vr_status r = Inactive)
                                 | None => false
                                 end) in
  if inactive : bool then update_validator_set g else sret tt.

Definition slash_double_sign (i : Z) : M unit :=
  do! g := slift (acquire_write NoGuard) in
  run! on_record i (do! s := sget vr_stake in
                    run! record_slash (s / 20) in
                    smod (set_vr_status Slashed)) in
  update_validator_set g.
End Manager.
