(* ===== verification/ValidatorProps.v ===== *)
(** * The validator set: selection, registration, quorums

    What [update_validator_set] elects, what a registration establishes, the overlap of two
    quorums, and the methods that block on the manager's own lock. *)

From S2P Require Import Prelude Hashing Errors Validators.
Abbreviation length := List.length.

(** ** Sets built by folding *)

Lemma Forall_stakes_sum l :
  Forall (fun v => 0 <= vr_stake v) l -> 0 <= list_sum (map vr_stake l).
Proof. intros H. apply list_sum_nonneg, Forall_map, H. Qed.

Lemma build_set `{BuildProfile} {E} l ep acc t :
  Forall (fun v => 0 <= vr_stake v) l -> 0 <= t -> t + list_sum (map vr_stake l) < 2 ^ 128 ->
  foldl (fun acc v => let? s := acc in add_validator (info_of v) s) (@Ok E _ (mkSet acc t ep)) l
  = Ok (mkSet (acc ++ map info_of l) (t + list_sum (map vr_stake l)) ep).
Proof.
  revert acc t. induction l as [|v l IH]; intros acc t Hl Ht Hs; cbn [foldl map list_sum foldr].
  { rewrite app_nil_r. do 2 f_equal. cbn. lia. }
  apply Forall_cons in Hl as [Hv Hl]. pose proof (Forall_stakes_sum l Hl).
  cbn [list_sum foldr map] in Hs. fold (list_sum (map vr_stake l)) in Hs |- *.
  change (obind (Ok (mkSet acc t ep)) (fun s => add_validator (info_of v) s))
    with (@add_validator _ E (info_of v) (mkSet acc t ep)).
  unfold add_validator, add_u128. cbn. rewrite arith_fits by (unfold fits; lia). cbn [obind].
  rewrite IH by (done || lia). rewrite <- app_assoc. do 2 f_equal. lia.
Qed.

Lemma sorted_split {A} (R : A -> A -> Prop) n l :
  StronglySorted R l -> Forall (fun x => Forall (R x) (drop n l)) (take n l).
Proof.
  intros Hl. revert n. induction Hl as [|x l Hl IH Hx]; intros n; [by rewrite take_nil|].
  destruct n as [|n]; [constructor|]. cbn. constructor; [|apply IH].
  by apply Forall_drop.
Qed.

Section Manager.
Context `{BP : BuildProfile} `{Iter : !HashMapIter Z ValidatorRecord}.

(** May be elected: active, on AVX-512 hardware. *)
Definition eligible (r : ValidatorRecord) : Prop := is_active r = true /\ avx512_supported r = true.

Lemma elem_of_candidates m r :
  r ∈ candidates m <-> eligible r /\ exists i, validators m !! i = Some r.
Proof.
  unfold candidates, eligible. rewrite sort_desc_perm, list_elem_of_In, filter_In, <- list_elem_of_In.
  rewrite elem_of_values, andb_true_iff. tauto.
Qed.

(** Stakes as the ledger holds them: non-negative, with a sum that is a [u128]. *)
Definition stakes_ok (m : ValidatorManager) : Prop :=
  (forall i r, validators m !! i = Some r -> 0 <= vr_stake r)
  /\ map_sum vr_stake (validators m) < 2 ^ 128.

Lemma list_sum_perm l1 l2 : l1 ≡ₚ l2 -> list_sum l1 = list_sum l2.
Proof. unfold list_sum. induction 1; cbn; lia. Qed.

Lemma list_sum_filter {A} (f : A -> Z) (P : A -> bool) l :
  Forall (fun x => 0 <= f x) l -> list_sum (map f (List.filter P l)) <= list_sum (map f l).
Proof.
  unfold list_sum. induction 1 as [|x l Hx Hl IH]; cbn; [done|]. destruct (P x); cbn; lia.
Qed.

Lemma map_sum_values (f : ValidatorRecord -> Z) (m : gmap Z ValidatorRecord) :
  list_sum (map f (values m)) = map_sum f m.
Proof.
  rewrite (list_sum_perm _ (map f (map_to_list m).*2)) by (by rewrite values_perm).
  induction m as [|k v m Hk IH] using map_ind; [done|].
  rewrite map_sum_insert_new by done.
  rewrite (list_sum_perm _ (map f ((k, v) :: map_to_list m).*2)) by (by rewrite map_to_list_insert).
  cbn. by rewrite <- IH.
Qed.

Lemma list_sum_take {A} (f : A -> Z) n l :
  Forall (fun x => 0 <= f x) l -> list_sum (map f (take n l)) <= list_sum (map f l).
Proof.
  intros Hl. rewrite <- (take_drop n l) at 2. rewrite map_app, list_sum_app.
  assert (0 <= list_sum (map f (drop n l))); [|lia].
  apply list_sum_nonneg, Forall_map. by apply Forall_drop.
Qed.

(** The election, with no overflow. *)
Lemma update_set_ok m :
  stakes_ok m ->
  let chosen := take (Z.to_nat MAX_VALIDATORS) (candidates m) in
  update_validator_set NoGuard m
  = (Ok tt, set_current (mkSet (map info_of chosen) (list_sum (map vr_stake chosen)) (epoch m)) m).
Proof.
  intros [Hpos Hsum] chosen. unfold update_validator_set, sbind, slift, acquire_read. cbn beta iota.
  assert (Hall : Forall (fun r => 0 <= vr_stake r) (values (validators m))).
  { apply Forall_forall. intros r Hr. apply elem_of_values in Hr as [i Hi]. eauto. }
  assert (Hcand : Forall (fun r => 0 <= vr_stake r) (candidates m)).
  { apply Forall_forall. intros r Hr. apply elem_of_candidates in Hr as [_ [i Hi]]. eauto. }
  assert (Hle : list_sum (map vr_stake chosen) < 2 ^ 128).
  { eapply Z.le_lt_trans; [apply list_sum_take, Hcand|]. unfold candidates.
    rewrite (list_sum_perm _ _ (Permutation_map vr_stake (sort_desc_perm vr_stake _))).
    eapply Z.le_lt_trans; [apply list_sum_filter, Hall|]. by rewrite map_sum_values. }
  rewrite build_set; [done|by apply Forall_take|done|done].
Qed.

(** C36. With stakes that sum to a [u128], [update_validator_set] elects at most 21 validators,
    all active and on AVX-512 hardware, with the sum of their stakes as total; an eligible
    validator is left out only when 21 others with at least its stake are in. *)
Theorem update_validator_set_elects_top (m : ValidatorManager) :
  stakes_ok m ->
  exists chosen,
    update_validator_set NoGuard m
    = (Ok tt, set_current (mkSet (map info_of chosen) (list_sum (map vr_stake chosen)) (epoch m)) m)
    /\ (length chosen <= 21)%nat
    /\ (forall r, r ∈ chosen -> eligible r /\ exists i, validators m !! i = Some r)
    /\ (forall i r, validators m !! i = Some r -> eligible r ->
          r ∈ chosen
          \/ length chosen = 21%nat /\ forall c, c ∈ chosen -> vr_stake r <= vr_stake c).
Proof.
  intros Hok. exists (take (Z.to_nat MAX_VALIDATORS) (candidates m)). change (Z.to_nat MAX_VALIDATORS) with 21%nat.
  split_and!; [by apply update_set_ok|rewrite length_take; lia| |].
  - intros r Hr. apply elem_of_candidates. revert Hr. apply elem_of_subseteq, subseteq_take.
  - intros i r Hi He. assert (Hr : r ∈ candidates m) by (apply elem_of_candidates; eauto).
    rewrite <- (take_drop 21 (candidates m)), elem_of_app in Hr. destruct Hr as [Hr|Hr]; [by left|right].
    assert (21 < length (candidates m))%nat.
    { destruct (decide (21 < length (candidates m))%nat); [done|].
      rewrite drop_ge in Hr by lia. by apply not_elem_of_nil in Hr. }
    split; [rewrite length_take; lia|]. intros c Hc.
    pose proof (sorted_split _ 21 _ (sort_desc_sorted vr_stake (List.filter (fun v => is_active v && avx512_supported v) (values (validators m))))) as Hs.
    rewrite Forall_forall in Hs. specialize (Hs c Hc). rewrite Forall_forall in Hs. by apply Hs.
Qed.

(** ** Registration *)

(** The two indexes of the manager agree and voting power follows stake. *)
Record manager_ok (m : ValidatorManager) : Prop := {
  mo_next : 1 <= next_validator_id m;
  mo_record : forall i r, validators m !! i = Some r ->
    vr_id r = i /\ 1 <= i < next_validator_id m /\ address_to_id m !! vr_address r = Some i
    /\ voting_power r = calculate_voting_power (vr_stake r);
  mo_address : forall a i, address_to_id m !! a = Some i ->
    exists r, validators m !! i = Some r /\ vr_address r = a
}.

Lemma manager_ok_fresh m : manager_ok m -> validators m !! next_validator_id m = None.
Proof.
  intros [_ Hr _]. destruct (validators m !! next_validator_id m) as [r|] eqn:Hi; [|done].
  apply Hr in Hi. lia.
Qed.

Lemma manager_ok_insert m r :
  manager_ok m -> vr_id r = next_validator_id m -> address_to_id m !! vr_address r = None ->
  voting_power r = calculate_voting_power (vr_stake r) ->
  forall s, manager_ok (mkVM (<[next_validator_id m := r]> (validators m))
                          (<[vr_address r := next_validator_id m]> (address_to_id m))
                          (next_validator_id m + 1) s (epoch m) (epoch_start_height m)).
Proof.
  intros Hok Hid Hnew Hvp s. pose proof (manager_ok_fresh m Hok) as Hfresh.
  destruct Hok as [Hn Hr Ha]. split; cbn; [lia| |].
  - intros i r'. rewrite lookup_insert_Some. intros [[<- <-]|[Hne Hi]].
    + split_and!; [done|lia|lia|by rewrite lookup_insert_eq|done].
    + destruct (Hr i r' Hi) as (? & ? & Haddr & ?). split_and!; [done|lia|lia| |done].
      rewrite lookup_insert_ne; [done|]. intros Heq. congruence.
  - intros a i. rewrite lookup_insert_Some. intros [[<- <-]|[Hne Hi]].
    + exists r. by rewrite lookup_insert_eq.
    + destruct (Ha a i Hi) as (r' & Hr' & <-). exists r'. split; [|done].
      rewrite lookup_insert_ne; [done|]. intros <-. congruence.
Qed.

(** On AVX-512 hardware, with a free seat, a new address that stakes at least
    [MIN_VALIDATOR_STAKE] is registered: it gets the next identifier, is found under its
    address with the voting power of its stake, the other records stay, the two indexes keep
    agreeing, and the validator set is elected anew. *)
Theorem register_validator_ok (m : ValidatorManager) now cpu a pk stake :
  manager_ok m -> stakes_ok m -> (check_hardware_features cpu).2 = true ->
  MIN_VALIDATOR_STAKE <= stake -> map_sum vr_stake (validators m) + stake < 2 ^ 128 ->
  address_to_id m !! a = None -> active_records m < MAX_VALIDATORS -> next_validator_id m < U64_MAX ->
  exists m', register_validator now cpu a pk stake m = (Ok (next_validator_id m), m')
    /\ get_validator_by_address a m' = Some (record_new now cpu (next_validator_id m) a pk stake)
    /\ (forall i, i <> next_validator_id m -> get_validator i m' = get_validator i m)
    /\ manager_ok m' /\ stakes_ok m'
    /\ current_set m' = mkSet (map info_of (take 21 (candidates m')))
                          (list_sum (map vr_stake (take 21 (candidates m')))) (epoch m).
Proof.
  intros Hok Hst Hcpu Hmin Hsum Hnew Hseat Hn. pose proof (manager_ok_fresh m Hok) as Hfresh.
  pose proof (mo_next m Hok) as Hpos. set (r := record_new now cpu (next_validator_id m) a pk stake).
  set (m1 := mkVM (<[next_validator_id m := r]> (validators m))
               (<[a := next_validator_id m]> (address_to_id m))
               (next_validator_id m + 1) (current_set m) (epoch m) (epoch_start_height m)).
  assert (Hst1 : stakes_ok m1).
  { destruct Hst as [Hp Hs]. split.
    - intros i r'. cbn. rewrite lookup_insert_Some. intros [[<- <-]|[_ Hi]]; [|eauto].
      unfold MIN_VALIDATOR_STAKE in Hmin. cbn. lia.
    - cbn. rewrite map_sum_insert_new by done. cbn. lia. }
  exists (set_current (mkSet (map info_of (take 21 (candidates m1)))
                        (list_sum (map vr_stake (take 21 (candidates m1)))) (epoch m)) m1).
  split_and!.
  - unfold register_validator. rewrite Hcpu. cbn [negb]. rewrite (proj2 (Z.ltb_ge _ _)) by lia.
    unfold sbind at 1, sget at 1. cbn beta iota. rewrite Hnew, bool_decide_false by (by intros []).
    unfold sbind at 1, slift at 1, acquire_read. cbn beta iota.
    unfold sbind at 1, sget at 1. cbn beta iota. rewrite (proj2 (Z.leb_gt _ _)) by lia.
    unfold take_id, sbind at 1, sbind at 1, sget at 1. cbn beta iota.
    unfold sbind at 1, slift at 1, add_u64. rewrite arith_fits by (unfold fits, U64_MAX in *; lia).
    cbn beta iota.
    unfold sbind, smod, sret. cbn beta iota. change (set_addresses _ _) with m1.
    by rewrite (update_set_ok m1 Hst1).
  - unfold get_validator_by_address, get_validator. cbn. by rewrite !lookup_insert_eq.
  - intros i Hi. unfold get_validator. cbn. by rewrite lookup_insert_ne.
  - by apply (manager_ok_insert m r).
  - exact Hst1.
  - done.
Qed.

(** ** Methods that block on their own lock *)

(** Once 21 validators are active, a registration that passes the hardware, stake and
    address checks never returns: [register_validator] still holds the read guard of
    [validators] when [replace_validator] asks for the write guard. *)
Theorem register_validator_full_blocks (m : ValidatorManager) now cpu a pk stake :
  (check_hardware_features cpu).2 = true -> MIN_VALIDATOR_STAKE <= stake ->
  address_to_id m !! a = None -> MAX_VALIDATORS <= active_records m ->
  register_validator now cpu a pk stake m = (Deadlock, m).
Proof.
  intros Hcpu Hmin Hnew Hfull. unfold register_validator. rewrite Hcpu. cbn [negb].
  rewrite (proj2 (Z.ltb_ge _ _)) by lia. unfold sbind at 1, sget at 1. cbn beta iota.
  rewrite Hnew, bool_decide_false by (by intros []).
  unfold sbind at 1, slift at 1, acquire_read. cbn beta iota.
  unfold sbind at 1, sget at 1. cbn beta iota. by rewrite (proj2 (Z.leb_le _ _)) by lia.
Qed.

(** Slashing a known validator for double signing takes a twentieth of its stake and marks
    it Slashed, but never returns: the record's write guard is held when
    [update_validator_set] asks for a read guard, so the elected set stays as it was. *)
Theorem slash_double_sign_blocks (m : ValidatorManager) (i : Z) (r : ValidatorRecord) :
  validators m !! i = Some r -> fits 128 (vr_stake r) -> fits 128 (slashed_amount r + vr_stake r / 20) ->
  exists m', slash_double_sign i m = (Deadlock, m')
    /\ (exists r', validators m' !! i = Some r' /\ vr_status r' = Slashed
          /\ vr_stake r' = vr_stake r - vr_stake r / 20
          /\ voting_power r' = calculate_voting_power (vr_stake r'))
    /\ current_set m' = current_set m.
Proof.
  intros Hi Hs Hf. unfold slash_double_sign, sbind at 1, slift at 1, acquire_write. cbn beta iota.
  unfold sbind at 1, on_record. rewrite Hi.
  assert (Hle : 0 <= vr_stake r / 20 <= vr_stake r).
  { unfold fits in Hs. split; [apply Z.div_pos; lia|]. apply Z.div_le_upper_bound; lia. }
  unfold sbind at 1, sget at 1. cbn beta iota. unfold sbind at 1, record_slash, sbind at 1, sget at 1.
  cbn beta iota. rewrite (proj2 (Z.ltb_ge _ _)) by lia.
  unfold sbind, slift, sub_u128, smod, sget. rewrite arith_fits by (unfold fits in *; lia).
  cbn beta iota. cbn [slashed_amount set_stake]. unfold add_u128. rewrite arith_fits by done.
  cbn beta iota. destruct (_ <? MIN_VALIDATOR_STAKE); cbn beta iota; unfold sret; cbn beta iota.
  all: eexists; split; [reflexivity|]; cbn; split; [|done]; eexists; rewrite lookup_insert_eq; by split_and!.
Qed.
End Manager.

(** ** Quorums *)

Section Quorums.
Context `{BP : BuildProfile}.

(** The voting power of the members of a set of identifiers. *)
Definition power_of (P : Z -> bool) (s : ValidatorSet) : Z :=
  list_sum (map (fun v => if P (vi_id v) then vi_voting_power v else 0) (set_validators s)).

Lemma sum_u64_exact {E} l a :
  Forall (fun x => 0 <= x) l -> 0 <= a -> a + list_sum l < 2 ^ 64 ->
  foldl (fun acc x => let? a := acc in add_u64 a x) (@Ok E Z a) l = Ok (a + list_sum l).
Proof.
  intros Hl. revert a. induction Hl as [|x l Hx Hl IH]; intros a Ha Hs; cbn in *; [f_equal; lia|].
  pose proof (list_sum_nonneg l Hl). fold (list_sum l) in *. unfold add_u64.
  rewrite arith_fits by (unfold fits; lia). rewrite IH by lia. f_equal. lia.
Qed.

Lemma power_inclusion_exclusion P Q (s : ValidatorSet) :
  power_of P s + power_of Q s
  = power_of (fun i => P i || Q i) s + power_of (fun i => P i && Q i) s.
Proof.
  unfold power_of, list_sum. induction (set_validators s) as [|v l IH]; cbn [map foldr]; [done|].
  destruct (P (vi_id v)), (Q (vi_id v)); cbn [orb andb] in *; lia.
Qed.

Lemma power_le_total P (s : ValidatorSet) :
  Forall (fun v => 0 <= vi_voting_power v) (set_validators s) ->
  power_of P s <= list_sum (map vi_voting_power (set_validators s)).
Proof.
  unfold power_of, list_sum. induction 1 as [|v l Hv Hl IH]; cbn; [done|]. destruct (P _); lia.
Qed.

(** C21. Two groups of validators that both reach [quorum_voting_power] share validators with
    more than a third of the total voting power, so at least one honest validator when less
    than a third of the power is faulty; the computation does not overflow below 2^63. *)
Theorem quorum_intersection (s : ValidatorSet) (P Q : Z -> bool) :
  Forall (fun v => 0 <= vi_voting_power v) (set_validators s) ->
  list_sum (map vi_voting_power (set_validators s)) < 2 ^ 63 ->
  exists t q, total_voting_power s = @Ok PacyteError Z t /\ quorum_voting_power s = @Ok PacyteError Z q
    /\ t = list_sum (map vi_voting_power (set_validators s))
    /\ (q <= power_of P s -> q <= power_of Q s -> t < 3 * power_of (fun i => P i && Q i) s).
Proof.
  intros Hpos Hmax. set (t := list_sum _) in *. exists t, (t * 2 / 3 + 1).
  assert (Ht : 0 <= t) by (apply list_sum_nonneg, Forall_map, Hpos).
  assert (Hsum : total_voting_power s = @Ok PacyteError Z t).
  { unfold total_voting_power, sum_u64. rewrite sum_u64_exact; [f_equal; lia| |done|].
    - by apply Forall_map.
    - fold t. lia. }
  split_and!; [done| |done|].
  - unfold quorum_voting_power. rewrite Hsum. cbn. unfold two_thirds, mul_u64, add_u64.
    assert (0 <= t * 2 / 3 <= t) by (split; [apply Z.div_pos; lia|apply Z.div_le_upper_bound; lia]).
    rewrite arith_fits by (unfold fits; lia). cbn. by rewrite arith_fits by (unfold fits; lia).
  - intros HP HQ. pose proof (power_inclusion_exclusion P Q s).
    pose proof (power_le_total (fun i => P i || Q i) s Hpos). fold t in H0.
    pose proof (Z.div_mod (t * 2) 3). pose proof (Z.mod_pos_bound (t * 2) 3). lia.
Qed.
End Quorums.

(** ** Concrete runs *)

Section Witnesses.
#[local] Existing Instance release_profile.
#[local] Instance order : HashMapIter Z ValidatorRecord := key_order.

(** A CPU with all of AVX-512 F, BW, DQ and VL. *)
Definition demo_cpu : Arch := X86_64 (Z.shiftl 1 16 + Z.shiftl 1 30 + Z.shiftl 1 17 + Z.shiftl 1 26).
Definition demo_address (i : Z) : Address := replicate 31 0 ++ [i].
Definition enroll (m : ValidatorManager) (i : Z) : ValidatorManager :=
  (register_validator 0 demo_cpu (demo_address i) [] (MIN_VALIDATOR_STAKE + i) m).2.
(** Twenty-one registrations on a fresh manager. *)
Definition demo_set : ValidatorManager := foldl enroll validator_manager_new (seqZ 1 21).

Lemma demo_stakes_ok : stakes_ok demo_set.
Proof.
  split; [|by vm_compute].
  assert (H : map_Forall (fun _ r => 0 <= vr_stake r) (validators demo_set)); [|exact H].
  refine (proj1 (bool_decide_eq_true (map_Forall (fun _ r => 0 <= vr_stake r) (validators demo_set))) _).
  vm_compute. reflexivity.
Qed.

Lemma update_validator_set_elects_top_witness :
  exists chosen, update_validator_set NoGuard demo_set
    = (Ok tt, set_current (mkSet (map info_of chosen) (list_sum (map vr_stake chosen)) 0) demo_set).
Proof.
  destruct (update_validator_set_elects_top demo_set demo_stakes_ok) as (chosen & H & _).
  exists chosen. exact H.
Defined.

Lemma manager_ok_new : manager_ok validator_manager_new.
Proof. split; cbn; [done|..]; intros ? ?; by rewrite lookup_empty. Qed.

Lemma stakes_ok_new : stakes_ok validator_manager_new.
Proof. split; [|by vm_compute]. intros i r. cbn. by rewrite lookup_empty. Qed.

Lemma register_validator_ok_witness :
  exists m', register_validator 7 demo_cpu (demo_address 1) [] MIN_VALIDATOR_STAKE validator_manager_new
             = (Ok 1, m') /\ manager_ok m'.
Proof.
  destruct (register_validator_ok validator_manager_new 7 demo_cpu (demo_address 1) [] MIN_VALIDATOR_STAKE)
    as (m' & H & _ & _ & Hok & _);
    [apply manager_ok_new|apply stakes_ok_new|by vm_compute..|].
  exists m'. by split.
Defined.

Lemma register_validator_full_blocks_witness :
  register_validator 7 demo_cpu (demo_address 99) [] MIN_VALIDATOR_STAKE demo_set = (Deadlock, demo_set).
Proof. apply (register_validator_full_blocks demo_set); by vm_compute. Defined.

Lemma slash_double_sign_blocks_witness :
  exists m', slash_double_sign 3 demo_set = (Deadlock, m') /\ current_set m' = current_set demo_set.
Proof.
  destruct (validators demo_set !! 3) as [r|] eqn:Hr; [|by vm_compute in Hr].
  assert (Hv : vr_stake r = MIN_VALIDATOR_STAKE + 3 /\ slashed_amount r = 0).
  { apply (f_equal (fmap (fun r => (vr_stake r, slashed_amount r)))) in Hr. vm_compute in Hr.
    injection Hr as H1 H2. exact (conj (eq_sym H1) (eq_sym H2)). }
  assert (Hs : fits 128 (vr_stake r)) by (clear Hr; rewrite (proj1 Hv); by vm_compute).
  assert (Hf : fits 128 (slashed_amount r + vr_stake r / 20)).
  { clear Hr. rewrite (proj1 Hv), (proj2 Hv). by vm_compute. }
  destruct (slash_double_sign_blocks demo_set 3 r Hr Hs Hf) as (m' & H & _ & Hc).
  exists m'. exact (conj H Hc).
Defined.

Lemma quorum_intersection_witness :
  let s := mkSet (map (fun i => mkInfo i (demo_address i) [] 1 1 true) [1; 2; 3; 4]) 4 0 in
  exists t q, total_voting_power s = @Ok PacyteError Z t /\ quorum_voting_power s = @Ok PacyteError Z q
    /\ t < 3 * power_of (fun i => (i <=? 3) && (2 <=? i)) s.
Proof.
  destruct (quorum_intersection
    (mkSet (map (fun i => mkInfo i (demo_address i) [] 1 1 true) [1; 2; 3; 4]) 4 0)
    (fun i => i <=? 3) (fun i => 2 <=? i)) as (t & q & Ht & Hq & _ & H); [|by vm_compute|].
  { repeat constructor; done. }
  exists t, q. split; [exact Ht|]. split; [exact Hq|]. apply H.
  - vm_compute in Hq. injection Hq as <-. by vm_compute.
  - vm_compute in Hq. injection Hq as <-. by vm_compute.
Defined.
End Witnesses.
