(* ===== verification/Votes.v ===== *)
(** * Votes (src/consensus/vote.rs, the vote of src/consensus/mod.rs)

    [Vote], [VoteManager] and [VoteAggregator].  [votes] is the lock the manager's methods hold
    while calling each other, so it appears as a guard.  Signature verification is a parameter:
    it is done by the crates behind [Ed25519Verifier] and [Dilithium5Verifier]. *)

From stdpp Require Import sorting.
From S2P Require Import Prelude Hashing Errors Validators.
Abbreviation length := List.length.

Inductive VoteType : Type := Prevote | Precommit.
#[export] Instance VoteType_eq_dec : EqDecision VoteType.
Proof. solve_decision. Defined.
(** [vote_type as u8]. *)
Definition vote_type_u8 (t : VoteType) : Z := match t with Prevote => 1 | Precommit => 2 end.

Record Vote : Type := mkVote {
  v_height : Z;
  v_round : Z;
  v_block_hash : Hash;
  voter : Z;
  vote_type : VoteType;
  v_signature : list Z;
  v_timestamp : Z
}.

Definition vote_new (now h r : Z) (bh : Hash) (i : Z) (t : VoteType) : Vote := mkVote h r bh i t [] now.
Definition vote_sign (sig : list Z) (v : Vote) : Vote :=
  mkVote (v_height v) (v_round v) (v_block_hash v) (voter v) (vote_type v) sig (v_timestamp v).
Definition vote_preimage (v : Vote) : list Z :=
  to_le_bytes 8 (v_height v) ++ to_le_bytes 8 (v_round v) ++ v_block_hash v ++ to_le_bytes 8 (voter v)
  ++ to_le_bytes 1 (vote_type_u8 (vote_type v)) ++ to_le_bytes 8 (v_timestamp v).
Definition vote_signing_hash `{Sha3} (v : Vote) : Hash := sha3_256 (vote_preimage v).

(** A vote whose fields are values of their Rust types. *)
Definition vote_ok (v : Vote) : Prop :=
  fits 64 (v_height v) /\ fits 64 (v_round v) /\ hash_ok (v_block_hash v) /\ fits 64 (voter v)
  /\ fits 64 (v_timestamp v).

(** ** Vote manager *)

Record RoundVotes : Type := mkRoundVotes {
  rv_round : Z;
  prevotes : gmap Hash (list Vote);
  precommits : gmap Hash (list Vote)
}.
Definition round_votes_new (r : Z) : RoundVotes := mkRoundVotes r ∅ ∅.

Definition vote_map (t : VoteType) (rv : RoundVotes) : gmap Hash (list Vote) :=
  match t with Prevote => prevotes rv | Precommit => precommits rv end.
Definition set_vote_map (t : VoteType) (m : gmap Hash (list Vote)) (rv : RoundVotes) : RoundVotes :=
  match t with
  | Prevote => mkRoundVotes (rv_round rv) m (precommits rv)
  | Precommit => mkRoundVotes (rv_round rv) (prevotes rv) m
  end.

(** [VoteKey { height, round, vote_type, voter }]. *)
Definition VoteKey : Type := Z * Z * Z * Z.
Definition vote_key (v : Vote) : VoteKey := (v_height v, v_round v, vote_type_u8 (vote_type v), voter v).

Record VoteManager : Type := mkVoteManager {
  validator_manager : ValidatorManager;
  votes : gmap Z RoundVotes;
  seen_votes : gset VoteKey
}.
Definition vote_manager_new (vm : ValidatorManager) : VoteManager := mkVoteManager vm ∅ ∅.
Definition set_votes x m := mkVoteManager (validator_manager m) x (seen_votes m).
Definition set_seen x m := mkVoteManager (validator_manager m) (votes m) x.
Definition set_manager x m := mkVoteManager x (votes m) (seen_votes m).

Inductive VoteResult : Type := Added (quorum_reached : bool) | AlreadySeen | Invalid.

Section VoteManager.
Context `{BP : BuildProfile} `{S : Sha3} `{Sig : Signatures} `{Iter : !HashMapIter Z ValidatorRecord}.
Abbreviation M := (ST VoteManager PacyteError).

Definition verify_vote_signature (v : Vote) (public_key : list Z) : bool :=
  let message := vote_signing_hash v in
  let n := Z.of_nat (length (v_signature v)) in
  if n =? 64 then ed25519_verify message (v_signature v) public_key
  else if n =? 4595 then dilithium5_verify message (v_signature v) public_key
  else false.

Definition validate_vote (now : Z) (v : Vote) (m : VoteManager) : PacyteResult unit :=
  let? validator := ok_or (get_validator (voter v) (validator_manager m)) (PE.ValidatorNotFound (voter v)) in
  if negb (is_active validator) then Err (PE.ValidatorInactive (voter v))
  else if negb (verify_vote_signature v (vr_public_key validator)) then Err PE.InvalidSignature
  else
    let? latest := add_u64 now 10 in
    if latest <? v_timestamp v then Err PE.InvalidTimestamp
    else
      let? earliest := sub_u64 now 60 in
      if v_timestamp v <? earliest then Err PE.InvalidTimestamp else Ok tt.

(** [match votes.get(&height) { Some(rv) if rv.round == round => .. }]. *)
Definition round_votes_at (height round : Z) (m : VoteManager) : option RoundVotes :=
  match votes m !! height with
  | Some rv => if rv_round rv =? round then Some rv else None
  | None => None
  end.
Definition votes_for (height round : Z) (bh : Hash) (t : VoteType) (m : VoteManager) : list Vote :=
  match round_votes_at height round m with
  | Some rv => default [] (vote_map t rv !! bh)
  | None => []
  end.

Definition get_voting_power_for_votes (g : Guard) (height round : Z) (bh : Hash) (t : VoteType)
  (m : VoteManager) : PacyteResult Z :=
  let? _ := acquire_read g in
  sum_u64 (map voting_power
    (omap (M:=list) (fun v => get_validator (voter v) (validator_manager m))
       (votes_for height round bh t m))).

Definition check_quorum (g : Guard) (height round : Z) (bh : Hash) (t : VoteType) (m : VoteManager) :
  PacyteResult bool :=
  let? g' := acquire_read g in
  match round_votes_at height round m with
  | None => Ok false
  | Some _ =>
      let? power := get_voting_power_for_votes g' height round bh t m in
      let? threshold := two_thirds (active_count (validator_manager m)) in
      Ok (threshold <=? power)
  end.

Definition store_vote (v : Vote) : M bool :=
  do! g := slift (acquire_write NoGuard) in
  do! rv := sget (fun m =>
    let rv := default (round_votes_new (v_round v)) (votes m !! v_height v) in
    if negb (rv_round rv =? v_round v) then round_votes_new (v_round v) else rv) in
  let here := default [] (vote_map (vote_type v) rv !! v_block_hash v) in
  let store l := smod (fun m => set_votes
    (<[v_height v := set_vote_map (vote_type v) (<[v_block_hash v := l]> (vote_map (vote_type v) rv)) rv]>
       (votes m)) m) in
  run! store here in
  if existsb (fun x => voter x =? voter v) here then sret false
  else
    run! store (here ++ [v]) in
    fun m => (check_quorum g (v_height v) (v_round v) (v_block_hash v) (vote_type v) m, m).

Definition detect_double_voting (v : Vote) (m : VoteManager) : PacyteResult bool :=
  let? _ := acquire_read NoGuard in
  Ok (match round_votes_at (v_height v) (v_round v) m with
      | None => false
      | Some rv =>
          existsb (fun p => negb (bool_decide (p.1 = v_block_hash v))
                            && existsb (fun x => voter x =? voter v) p.2)
            (map_to_list (vote_map (vote_type v) rv))
      end).

(** [self.validator_manager.slash_double_sign(..)], whose [Err] is dropped. *)
Definition punish (i : Z) : M unit :=
  fun m => let '(r, vm) := slash_double_sign i (validator_manager m) in
           (match r with Err _ => Ok tt | r => r end, set_manager vm m).

Definition add_vote (now : Z) (v : Vote) : M VoteResult :=
  run! (fun m => (validate_vote now v m, m)) in
  do! seen := sget (fun m => bool_decide (vote_key v ∈ seen_votes m)) in
  if seen : bool then sret AlreadySeen
  else
    run! smod (fun m => set_seen ({[vote_key v]} ∪ seen_votes m) m) in
    do! quorum_reached := store_vote v in
    do! double := fun m => (detect_double_voting v m, m) in
    if double : bool then
      run! punish (voter v) in
      sfail (PE.DoubleVoting (voter v))
    else sret (Added quorum_reached).

Definition get_vote_count (height round : Z) (bh : Hash) (t : VoteType) (m : VoteManager) : Z :=
  Z.of_nat (length (votes_for height round bh t m)).
Definition has_quorum (height round : Z) (bh : Hash) (t : VoteType) (m : VoteManager) : PacyteResult bool :=
  check_quorum NoGuard height round bh t m.
Definition clear_round (height : Z) : M unit := smod (fun m => set_votes (delete height (votes m)) m).

Definition prune_old_heights (keep_last : Z) : M unit :=
  smod (fun m =>
    let heights := merge_sort Z.le (map_to_list (votes m)).*1 in
    if keep_last <? Z.of_nat (length heights) then
      set_votes (foldl (fun x h => delete h x) (votes m)
                   (take (Z.to_nat (Z.of_nat (length heights) - keep_last)) heights)) m
    else m).

Definition get_all_votes (height round : Z) (m : VoteManager) : list Vote :=
  match round_votes_at height round m with
  | None => []
  | Some rv => concat (map_to_list (prevotes rv)).*2 ++ concat (map_to_list (precommits rv)).*2
  end.
End VoteManager.

(** ** Vote aggregator *)

Record AggregatedVotes : Type := mkAggregated {
  ag_prevotes : Z;
  ag_precommits : Z;
  ag_voting_power : Z;
  voters : gset Z
}.
Definition aggregated_default : AggregatedVotes := mkAggregated 0 0 0 ∅.
Definition VoteAggregator : Type := gmap Hash AggregatedVotes.

Section Aggregator.
Context `{BP : BuildProfile} {E : Type} `{Iter : !HashMapIter Hash AggregatedVotes}.

Definition aggregate_vote (v : Vote) (power : Z) (e : AggregatedVotes) : Outcome E AggregatedVotes :=
  if bool_decide (voter v ∈ voters e) then Ok e
  else
    let? p := add_u64 (ag_voting_power e) power in
    let? e' := match vote_type v with
               | Prevote => let? n := add_u64 (ag_prevotes e) 1 in Ok (n, ag_precommits e)
               | Precommit => let? n := add_u64 (ag_precommits e) 1 in Ok (ag_prevotes e, n)
               end in
    Ok (mkAggregated e'.1 e'.2 p ({[voter v]} ∪ voters e)).

Definition aggregator_add_vote (v : Vote) (power : Z) (a : VoteAggregator) : Outcome E VoteAggregator :=
  let? e := aggregate_vote v power (default aggregated_default (a !! v_block_hash v)) in
  Ok (<[v_block_hash v := e]> a).

Definition aggregator_clear (a : VoteAggregator) : VoteAggregator := ∅.

Definition get_winner (quorum : Z) (a : VoteAggregator) : option Hash :=
  fst <$> max_by_key (fun p : Hash * AggregatedVotes => ag_voting_power p.2)
            (List.filter (fun p => (quorum <=? ag_prevotes p.2) && (quorum <=? ag_precommits p.2)) (entries a)).
End Aggregator.
