(* ===== verification/VoteProps.v ===== *)
(** * Votes: the self-deadlock of [add_vote], the aggregator, signed votes *)

From S2P Require Import Prelude Hashing Errors Types Validators Votes.
Abbreviation length := List.length.

(** ** [add_vote] *)

Section Adding.
Context `{BP : BuildProfile} `{S : Sha3} `{Sig : Signatures} `{Iter : !HashMapIter Z ValidatorRecord}.

(** The calls that change a vote manager; the validator manager it shares may change in
    any way between them. *)
Inductive vote_reachable : VoteManager -> Prop :=
| vreach_new vm : vote_reachable (vote_manager_new vm)
| vreach_validators m vm : vote_reachable m -> vote_reachable (set_manager vm m)
| vreach_add now v m m' r :
    vote_reachable m -> add_vote now v m = (r, m') -> r <> Panic -> r <> Deadlock -> vote_reachable m'
| vreach_clear h m : vote_reachable m -> vote_reachable (clear_round h m).2
| vreach_prune k m : vote_reachable m -> vote_reachable (prune_old_heights k m).2.

(** No vote has been recorded. *)
Definition no_votes (m : VoteManager) : Prop := votes m = ∅ /\ seen_votes m = ∅.

(** The first vote that validates blocks its thread. *)
Lemma add_vote_no_votes now v m :
  no_votes m ->
  match validate_vote now v m with
  | Ok _ => (add_vote now v m).1 = Deadlock
  | Err e => add_vote now v m = (Err e, m)
  | Panic => add_vote now v m = (Panic, m)
  | Deadlock => add_vote now v m = (Deadlock, m)
  end.
Proof.
  intros [Hv Hs]. destruct (validate_vote now v m) as [[]| | |] eqn:Hval;
    unfold add_vote, sbind at 1; rewrite Hval; try reflexivity.
  unfold sbind at 1, sget at 1. cbn beta iota. rewrite Hs, bool_decide_false by set_solver.
  unfold sbind, smod. cbn beta iota. unfold store_vote, sbind, slift, sget, smod. cbn beta iota.
  unfold acquire_write. cbn beta iota. change (votes (set_seen _ m)) with (votes m).
  rewrite Hv, lookup_empty. cbn. rewrite Z.eqb_refl. cbn.
  assert (Hempty : vote_map (vote_type v) (round_votes_new (v_round v)) = ∅) by (by destruct (vote_type v)).
  rewrite Hempty, lookup_empty. reflexivity.
Qed.

Lemma reachable_no_votes m : vote_reachable m -> no_votes m.
Proof.
  induction 1 as [vm|m vm _ IH|now v m m' r _ IH Hadd Hp Hd|h m _ IH|k m _ IH].
  - done.
  - exact IH.
  - pose proof (add_vote_no_votes now v m IH) as Hcase.
    destruct (validate_vote now v m); rewrite Hadd in Hcase; cbn in Hcase; simplify_eq; done.
  - destruct IH as [Hv Hs]. unfold no_votes. cbn. by rewrite Hv, delete_empty.
  - destruct IH as [Hv Hs]. unfold no_votes, prune_old_heights. cbn.
    rewrite Hv, map_to_list_empty. cbn. destruct (_ <? _); cbn; [|done].
    split; [|done]. rewrite (take_nil (A:=Z)). cbn. done.
Qed.

(** No vote is ever counted: in every reachable vote manager a vote that passes
    [validate_vote] blocks forever inside [add_vote], which holds the write guard of [votes]
    when [check_quorum] asks for a read guard; every other vote is returned as the
    validation's error without a change, and no vote ever reaches a quorum. *)
Theorem add_vote_blocks (now : Z) (v : Vote) (m : VoteManager) :
  vote_reachable m ->
  (validate_vote now v m = Ok tt -> (add_vote now v m).1 = Deadlock)
  /\ (forall e, validate_vote now v m = Err e -> add_vote now v m = (Err e, m))
  /\ (forall h r bh t, has_quorum h r bh t m = Ok false).
Proof.
  intros Hm. apply reachable_no_votes in Hm. pose proof (add_vote_no_votes now v m Hm) as Hcase.
  split_and!.
  - intros Hv. by rewrite Hv in Hcase.
  - intros e Hv. by rewrite Hv in Hcase.
  - intros h r bh t. unfold has_quorum, check_quorum, round_votes_at. cbn.
    by rewrite (proj1 Hm), lookup_empty.
Qed.
End Adding.

(** ** The aggregator *)

Section Aggregating.
Context `{BP : BuildProfile} `{Iter : !HashMapIter Hash AggregatedVotes}.

(** Feeding votes, with the power of each, to a new aggregator. *)
Definition aggregate (l : list (Vote * Z)) : PacyteResult VoteAggregator :=
  foldl (fun acc p => let? a := acc in aggregator_add_vote p.1 p.2 a) (Ok ∅) l.

Definition entry_counts (ids : gset Z) (e : AggregatedVotes) : Prop :=
  0 <= ag_prevotes e /\ 0 <= ag_precommits e
  /\ ag_prevotes e + ag_precommits e = Z.of_nat (size (voters e)) /\ voters e ⊆ ids.

Lemma aggregate_vote_counts ids v p e e' :
  Z.of_nat (size ids) < 2 ^ 64 -> voter v ∈ ids -> entry_counts ids e ->
  aggregate_vote (E := PacyteError) v p e = Ok e' -> entry_counts ids e'.
Proof.
  intros Hsz Hv (Hpv & Hpc & Hsum & Hsub). unfold aggregate_vote. case_bool_decide as Hin; [by intros [= <-]|].
  intros H. inv_bind H.
  assert (Hnew : size ({[voter v]} ∪ voters e) = S (size (voters e))).
  { rewrite size_union by set_solver. by rewrite size_singleton. }
  assert (Hlt : Z.of_nat (size (voters e)) < Z.of_nat (size ids)).
  { apply Nat2Z.inj_lt. rewrite <- Nat.le_succ_l, <- Hnew. apply subseteq_size. set_solver. }
  destruct (vote_type v); unfold add_u64 in H; rewrite arith_fits in H by (unfold fits; lia);
    cbn in H; injection H as <-; unfold entry_counts; cbn; rewrite Hnew; (split_and!; [lia..|set_solver]).
Qed.

Lemma aggregate_counts ids l a :
  Z.of_nat (size ids) < 2 ^ 64 -> Forall (fun p => voter p.1 ∈ ids) l ->
  aggregate l = Ok a -> map_Forall (fun _ e => entry_counts ids e) a.
Proof.
  intros Hsz. revert a. induction l as [|p l IH] using rev_ind; intros a Hl Ha.
  { injection Ha as <-. apply map_Forall_empty. }
  apply Forall_app in Hl as [Hl Hp]. rewrite Forall_singleton in Hp. unfold aggregate in Ha.
  rewrite foldl_app in Ha. cbn [foldl] in Ha. fold (aggregate l) in Ha. inv_bind Ha.
  specialize (IH a0 Hl eq_refl). unfold aggregator_add_vote in Ha. inv_bind Ha. injection Ha as <-.
  apply map_Forall_insert_2; [|done]. eapply aggregate_vote_counts; [done|done| |done].
  destruct (a0 !! v_block_hash p.1) as [e|] eqn:He; cbn; [by apply (IH _ _ He)|].
  split_and!; cbn; [done|done|by rewrite size_empty|set_solver].
Qed.

(** The aggregator counts a voter once per block, whichever of prevote and precommit came
    first, so with the [2n/3 + 1] threshold of [n] validators no block ever has both quorums:
    [get_winner] answers [None] for every sequence of votes of these validators. *)
Theorem aggregator_never_elects (ids : gset Z) (l : list (Vote * Z)) (a : VoteAggregator) (q : Z) :
  Z.of_nat (size ids) < 2 ^ 62 -> Forall (fun p => voter p.1 ∈ ids) l -> aggregate l = Ok a ->
  two_thirds (E := PacyteError) (Z.of_nat (size ids)) = Ok q -> get_winner q a = None.
Proof.
  intros Hsz Hl Ha Hq. set (n := Z.of_nat (size ids)) in *.
  assert (Hqv : q = n * 2 / 3 + 1).
  { revert Hq. unfold two_thirds, mul_u64, add_u64. rewrite arith_fits by (unfold fits; lia). cbn.
    assert (0 <= n * 2 / 3 <= n * 2) by (split; [apply Z.div_pos|apply Z.div_le_upper_bound]; lia).
    rewrite arith_fits by (unfold fits; lia). by intros [= <-]. }
  unfold get_winner. destruct (max_by_key _ _) as [[h e]|] eqn:Hmax; [|done].
  apply max_by_key_elem_of in Hmax. rewrite list_elem_of_In, filter_In, <- list_elem_of_In in Hmax.
  destruct Hmax as [He Hb]. apply elem_of_entries in He. cbn in Hb.
  apply andb_true_iff in Hb as [H1%Z.leb_le H2%Z.leb_le].
  destruct (aggregate_counts ids l a ltac:(fold n; lia) Hl Ha h e He) as (_ & _ & Hsum & Hsub).
  apply subseteq_size in Hsub. apply inj_le in Hsub. fold n in Hsub.
  pose proof (Z.div_mod (n * 2) 3). pose proof (Z.mod_pos_bound (n * 2) 3). lia.
Qed.
End Aggregating.

(** ** Signed votes *)

Lemma vote_preimage_inj v1 v2 :
  vote_ok v1 -> vote_ok v2 -> vote_preimage v1 = vote_preimage v2 ->
  vote_sign [] v1 = vote_sign [] v2.
Proof.
  intros (Hh1 & Hr1 & [Hl1 _] & Hv1 & Ht1) (Hh2 & Hr2 & [Hl2 _] & Hv2 & Ht2) Heq.
  unfold vote_preimage in Heq.
  apply app_inj_len in Heq as [Eh Heq]; [|by autorewrite with pacyte].
  apply app_inj_len in Heq as [Er Heq]; [|by autorewrite with pacyte].
  apply app_inj_len in Heq as [Eb Heq]; [|congruence].
  apply app_inj_len in Heq as [Ev Heq]; [|by autorewrite with pacyte].
  apply app_inj_len in Heq as [Et Ets]; [|by autorewrite with pacyte].
  apply to_le_bytes_inj in Eh, Er, Ev, Ets; try done.
  apply to_le_bytes_inj in Et; [|destruct (vote_type v1); cbn; lia|destruct (vote_type v2); cbn; lia].
  assert (vote_type v1 = vote_type v2) by (destruct (vote_type v1), (vote_type v2); done).
  unfold vote_sign. congruence.
Qed.

(** A signature on a vote commits its signer to everything but the signature itself: two
    votes with the same [signing_hash] agree on height, round, block, voter, type and time, or
    the messages hashed for them clash. *)
Theorem vote_signing_hash_binding `{S : Sha3} (v1 v2 : Vote) :
  vote_ok v1 -> vote_ok v2 -> vote_signing_hash v1 = vote_signing_hash v2 ->
  vote_sign [] v1 = vote_sign [] v2 \/ clash sha3_256 (vote_preimage v1) (vote_preimage v2).
Proof.
  intros H1 H2 Heq. destruct (decide (vote_preimage v1 = vote_preimage v2)) as [Hp|Hp].
  - left. by apply vote_preimage_inj.
  - by right.
Qed.

(** ** Concrete runs *)

Section Witnesses.
#[local] Existing Instance release_profile.
#[local] Existing Instance toy_sha3.
#[local] Instance accept_all : Signatures :=
  {| ed25519_verify _ _ _ := true; dilithium5_verify _ _ _ := true |}.
#[local] Instance record_order : HashMapIter Z ValidatorRecord := key_order.
#[local] Instance hash_order : HashMapIter Hash AggregatedVotes := key_order.

Definition one_validator : ValidatorManager :=
  (register_validator 0 (X86_64 (2 ^ 32 - 1)) (replicate 32 1) [] MIN_VALIDATOR_STAKE
     validator_manager_new).2.
Definition demo_vote (i : Z) (t : VoteType) : Vote :=
  vote_sign (replicate 64 0) (vote_new 100 1 0 zero_hash i t).

Lemma add_vote_blocks_witness : (add_vote 100 (demo_vote 1 Prevote) (vote_manager_new one_validator)).1 = Deadlock.
Proof.
  apply (proj1 (add_vote_blocks 100 (demo_vote 1 Prevote) (vote_manager_new one_validator) (vreach_new _))).
  by vm_compute.
Defined.

(** Three validators that all prevote and precommit the same block. *)
Lemma aggregator_never_elects_witness :
  let l := flat_map (fun i => [(demo_vote i Prevote, 10); (demo_vote i Precommit, 10)]) [1; 2; 3] in
  exists a, aggregate l = Ok a /\ get_winner 3 a = None.
Proof.
  set (l := flat_map _ _). destruct (aggregate l) as [a|e| |] eqn:Ha.
  - exists a. split; [exact Ha|].
    apply (aggregator_never_elects (list_to_set [1; 2; 3]) l a 3); [by vm_compute| |exact Ha|by vm_compute].
    apply (bool_decide_unpack _). vm_compute. exact I.
  - by vm_compute in Ha.
  - by vm_compute in Ha.
  - by vm_compute in Ha.
Defined.

Lemma vote_signing_hash_binding_witness :
  vote_sign [] (demo_vote 1 Prevote) = vote_sign [] (vote_new 100 1 0 zero_hash 1 Prevote)
  \/ clash sha3_256 (vote_preimage (demo_vote 1 Prevote)) (vote_preimage (vote_new 100 1 0 zero_hash 1 Prevote)).
Proof.
  apply vote_signing_hash_binding; [| |reflexivity].
  - split_and!; try (by vm_compute). apply (bool_decide_unpack _). vm_compute. exact I.
  - split_and!; try (by vm_compute). apply (bool_decide_unpack _). vm_compute. exact I.
Defined.
End Witnesses.
