(* ===== verification/Safety.v ===== *)
(** * Safety rules (src/consensus/safety.rs, the proposal of src/consensus/mod.rs)

    [Proposal] and [SafetyRules]: who may propose, the lock on a precommitted block, and the
    set of committed blocks.  The validator manager is shared with the vote manager; here it
    is a field, changed only by the slashing calls. *)

From stdpp Require Import strings pretty.
From S2P Require Import Prelude Hashing Errors Types Block Validators Votes.
Abbreviation length := List.length.

Record Proposal : Type := mkProposal {
  p_height : Z;
  p_round : Z;
  p_block : Block;
  p_proposer : Z;
  p_signature : list Z;
  p_timestamp : Z
}.

Definition proposal_new (now h r : Z) (b : Block) (i : Z) : Proposal := mkProposal h r b i [] now.
Definition proposal_sign (sig : list Z) (p : Proposal) : Proposal :=
  mkProposal (p_height p) (p_round p) (p_block p) (p_proposer p) sig (p_timestamp p).

Record LockedProposal : Type := mkLocked {
  lk_height : Z;
  lk_round : Z;
  lk_block_hash : Hash;
  locked_at : Z
}.

Record SafetyRules : Type := mkSafety {
  sr_validators : ValidatorManager;
  locked_proposal : option LockedProposal;
  committed : gset Hash;
  seen_proposals : gset (Z * Z * Z)
}.
Definition safety_new (vm : ValidatorManager) : SafetyRules := mkSafety vm None ∅ ∅.
Definition set_sr_validators x s := mkSafety x (locked_proposal s) (committed s) (seen_proposals s).
Definition set_locked x s := mkSafety (sr_validators s) x (committed s) (seen_proposals s).
Definition set_committed x s := mkSafety (sr_validators s) (locked_proposal s) x (seen_proposals s).
Definition set_seen_proposals x s := mkSafety (sr_validators s) (locked_proposal s) (committed s) x.

Inductive EquivocationEvidence : Type :=
| EvDoubleProposal (height round : Z) (block1 block2 : Hash)
| EvDoubleVote (vote1 vote2 : Vote).

Section Safety.
Context `{BP : BuildProfile} `{S : Sha3} `{Iter : !HashMapIter Z ValidatorRecord}.
Abbreviation M := (ST SafetyRules PacyteError).

Definition proposal_hash (p : Proposal) : Hash := block_hash (p_block p).
Definition proposal_signing_hash (p : Proposal) : Hash :=
  sha3_256 (to_le_bytes 8 (p_height p) ++ to_le_bytes 8 (p_round p) ++ block_hash (p_block p)
            ++ to_le_bytes 8 (p_proposer p) ++ to_le_bytes 8 (p_timestamp p)).

Definition proposal_key (p : Proposal) : Z * Z * Z := (p_height p, p_round p, p_proposer p).

(** A call of the shared validator manager. *)
Definition on_validators {A} (c : ST ValidatorManager PacyteError A) : M A :=
  fun s => let '(r, vm) := c (sr_validators s) in (r, set_sr_validators vm s).
(** [let _ = call], which drops an [Err]. *)
Definition ignore_err {St A} (c : ST St PacyteError A) : ST St PacyteError unit :=
  fun s => let '(r, s') := c s in
           (match r with Ok _ | Err _ => Ok tt | Panic => Panic | Deadlock => Deadlock end, s').

(** The third check: the lock taken when a block was precommitted. *)
Definition lock_allows (p : Proposal) (l : LockedProposal) : PacyteResult unit :=
  if lk_height l =? p_height p then
    if negb (bool_decide (lk_block_hash l = proposal_hash p)) then
      Err (PE.SafetyViolation ("Cannot propose different block at height " +:+ pretty (p_height p)
             +:+ ": locked=" +:+ debug_bytes (lk_block_hash l))%string)
    else Ok tt
  else if p_height p <? lk_height l then
    Err (PE.SafetyViolation ("Locked at height " +:+ pretty (lk_height l) +:+ " > proposal height "
           +:+ pretty (p_height p))%string)
  else Ok tt.

Definition check_proposal_safety (p : Proposal) : M unit :=
  do! expected := fun s => (get_proposer (p_height p) (p_round p) (sr_validators s), s) in
  if negb (bool_decide (expected = Some (p_proposer p))) then
    sfail (PE.InvalidProposer expected (p_proposer p))
  else
    do! seen := sget (fun s => bool_decide (proposal_key p ∈ seen_proposals s)) in
    if seen : bool then
      do! amt := sget (fun s => match get_validator (p_proposer p) (sr_validators s) with
                                | Some v => vr_stake v / 20
                                | None => 0
                                end) in
      run! on_validators (ignore_err (slash (p_proposer p) amt)) in
      sfail (PE.DoubleProposal (p_proposer p))
    else
      run! smod (fun s => set_seen_proposals ({[proposal_key p]} ∪ seen_proposals s) s) in
      do! l := sget locked_proposal in
      match l with
      | Some l => slift (lock_allows p l)
      | None => sret tt
      end.

Definition check_prevote_safety (v : Vote) (l : option LockedProposal) : PacyteResult unit :=
  match l with
  | Some l =>
      if (lk_height l =? v_height v) && negb (bool_decide (lk_block_hash l = v_block_hash v)) then
        Err (PE.SafetyViolation ("Cannot prevote for " +:+ debug_bytes (v_block_hash v)
               +:+ ": locked on " +:+ debug_bytes (lk_block_hash l))%string)
      else Ok tt
  | None => Ok tt
  end.

Definition check_precommit_safety (v : Vote) (prevote_quorum_hash : option Hash) : PacyteResult unit :=
  match prevote_quorum_hash with
  | Some q =>
      if negb (bool_decide (q = v_block_hash v)) then
        Err (PE.SafetyViolation ("Can only precommit block with prevote quorum: " +:+ debug_bytes q
               +:+ " != " +:+ debug_bytes (v_block_hash v))%string)
      else Ok tt
  | None => Ok tt
  end.

Definition lock_proposal (now h r : Z) (bh : Hash) : M unit :=
  smod (set_locked (Some (mkLocked h r bh now))).
Definition unlock : M unit := smod (set_locked None).

Definition safety_commit_block (b : Block) : M unit :=
  do! known := sget (fun s => bool_decide (block_hash b ∈ committed s)) in
  if known : bool then sfail (PE.BlockAlreadyCommitted (height (header b)))
  else
    run! smod (fun s => set_committed ({[block_hash b]} ∪ committed s) s) in
    unlock.

Definition check_double_vote (v1 v2 : Vote) : bool :=
  (v_height v1 =? v_height v2) && (v_round v1 =? v_round v2) && (voter v1 =? voter v2)
  && bool_decide (vote_type v1 = vote_type v2) && negb (bool_decide (v_block_hash v1 = v_block_hash v2)).

Definition check_fork (b parent : Block) : bool :=
  (height (header b) =? height (header parent)) && negb (bool_decide (block_hash b = block_hash parent)).

Definition report_equivocation (i : Z) (ev : EquivocationEvidence) : M unit :=
  match ev with
  | EvDoubleProposal _ _ _ _ => on_validators (slash_double_sign i)
  | EvDoubleVote _ _ => on_validators (slash_double_sign i)
  end.

(** ** Properties *)

(** C38. A proposal that passes the safety check comes from the round-robin proposer, is the
    first of that proposer for its height and round, respects the lock (no lower height, and
    the locked block at the locked height), and from then on no proposal for the same height,
    round and proposer passes. *)
Theorem proposal_safety_rules (p : Proposal) (s s' : SafetyRules) :
  check_proposal_safety p s = (Ok tt, s') ->
  get_proposer (p_height p) (p_round p) (sr_validators s) = Ok (Some (p_proposer p))
  /\ proposal_key p ∉ seen_proposals s /\ seen_proposals s' = {[proposal_key p]} ∪ seen_proposals s
  /\ (forall l, locked_proposal s = Some l ->
        lk_height l <= p_height p /\ (lk_height l = p_height p -> lk_block_hash l = proposal_hash p))
  /\ (forall p2, proposal_key p2 = proposal_key p -> (check_proposal_safety p2 s').1 <> Ok tt).
Proof.
  unfold check_proposal_safety at 1, sbind at 1.
  destruct (get_proposer _ _ _) as [expected| | |] eqn:Hexp; try discriminate.
  destruct (negb _) eqn:Hprop; [discriminate|]. apply negb_false_iff, bool_decide_eq_true in Hprop as ->.
  unfold sbind at 1, sget at 1. cbn beta iota. case_bool_decide as Hseen; cbn beta iota.
  { unfold sbind at 1, sget at 1. cbn beta iota. unfold sbind at 1.
    destruct (on_validators _ _) as [[[]| | |] ?]; discriminate. }
  unfold sbind, smod, sget. cbn beta iota. intros H.
  assert (Hs' : s' = set_seen_proposals ({[proposal_key p]} ∪ seen_proposals s) s).
  { cbn in H. destruct (locked_proposal s); unfold slift, sret in H; by simplify_eq. }
  split_and!; [done|done|by rewrite Hs'| |].
  - intros l Hl. cbn in H. rewrite Hl in H. unfold slift, lock_allows in H.
    destruct (lk_height l =? p_height p) eqn:Hh.
    + apply Z.eqb_eq in Hh. destruct (negb _) eqn:Hb; [discriminate|].
      apply negb_false_iff, bool_decide_eq_true in Hb. split; [lia|done].
    + apply Z.eqb_neq in Hh. destruct (_ <? _) eqn:Hlt; [discriminate|].
      apply Z.ltb_ge in Hlt. split; [lia|]. intros. lia.
  - intros p2 Hk. unfold check_proposal_safety, sbind.
    destruct (get_proposer (p_height p2) (p_round p2) (sr_validators s')) as [e2| | |]; [|done..].
    destruct (bool_decide (e2 = Some (p_proposer p2))); cbn; [|done].
    rewrite bool_decide_true by (rewrite Hk, Hs'; cbn; set_solver). cbn.
    by destruct (on_validators _ _) as [[[]| | |] ?].
Qed.

(** A block is committed at most once: the first [commit_block] adds its hash to the
    committed set, keeps the earlier ones and releases the lock; a second one for the same
    hash is refused with BlockAlreadyCommitted and changes nothing. *)
Theorem commit_block_once (b : Block) (s : SafetyRules) :
  block_hash b ∉ committed s ->
  exists s', safety_commit_block b s = (Ok tt, s')
    /\ committed s' = {[block_hash b]} ∪ committed s /\ locked_proposal s' = None
    /\ forall b2 s2, committed s' ⊆ committed s2 -> block_hash b2 = block_hash b ->
         safety_commit_block b2 s2 = (Err (PE.BlockAlreadyCommitted (height (header b2))), s2).
Proof.
  intros Hnew. eexists. unfold safety_commit_block at 1, sbind, sget, smod. cbn beta iota.
  rewrite bool_decide_false by done. split; [reflexivity|]. split_and!; [done|done|].
  intros b2 s2 Hsub Hh. unfold safety_commit_block, sbind, sget. cbn in *.
  rewrite bool_decide_true by (rewrite Hh; set_solver). done.
Qed.
End Safety.

Section Witnesses.
#[local] Existing Instance release_profile.
#[local] Existing Instance toy_sha3.
#[local] Instance safety_order : HashMapIter Z ValidatorRecord := key_order.

Definition lone_validator : ValidatorManager :=
  (Validators.register_validator 0 (X86_64 (2 ^ 32 - 1)) (replicate 32 1) [] MIN_VALIDATOR_STAKE
     validator_manager_new).2.
Definition demo_block : Block :=
  mkBlock (mkHeader 1 zero_hash zero_hash zero_hash 0 zero_address 0 0 []) [].
Definition demo_proposal : Proposal := proposal_new 0 1 0 demo_block 1.

Lemma proposal_safety_rules_witness :
  (check_proposal_safety demo_proposal (check_proposal_safety demo_proposal (safety_new lone_validator)).2).1
  <> Ok tt.
Proof.
  destruct (proposal_safety_rules demo_proposal (safety_new lone_validator)
    (check_proposal_safety demo_proposal (safety_new lone_validator)).2) as (_ & _ & _ & _ & H);
    [by vm_compute|]. apply H. reflexivity.
Defined.

Lemma commit_block_once_witness :
  exists s', safety_commit_block demo_block (safety_new lone_validator) = (Ok tt, s')
    /\ committed s' = {[block_hash demo_block]} ∪ ∅.
Proof.
  destruct (commit_block_once demo_block (safety_new lone_validator)) as (s' & H & Hc & _).
  - apply (bool_decide_unpack _). vm_compute. exact I.
  - exists s'. split; [exact H|exact Hc].
Defined.
End Witnesses.
