(* ===== verification/Engine.v ===== *)
(** * The HotStuff engine (src/consensus/engine.rs)

    [HotStuffEngine] and its handlers.  Storage, state, mempool and network are the traits the
    engine calls: the class [NodeEnv] gives their operations on an abstract world.  The command
    and event channels are the lists of what was sent.  None of the engine's locks is held over
    a call that asks for it again, so the locks are plain fields. *)

From stdpp Require Import strings.
From S2P Require Import Prelude Hashing Errors Types Block Validators Votes Safety.
Abbreviation length := List.length.

Inductive ConsensusState : Type :=
  Idle | Proposing | Prevoting | Precommitting | Committed | WaitingForBlock | Syncing.

Inductive ConsensusCommand : Type :=
| CmdPropose (height round : Z)
| CmdProposalReceived (p : Proposal)
| CmdVoteReceived (v : Vote)
| CmdTimeout (height round : Z)
| CmdNewBlock (b : Block)
| CmdSynced (height : Z)
| CmdStop.

Inductive ConsensusEvent : Type :=
| EvBlockCommitted (b : Block) (height : Z)
| EvNewRound (height round : Z)
| EvProposalSent (height round : Z)
| EvVoteSent (height round : Z) (t : VoteType)
| EvQuorumReached (height round : Z) (t : VoteType)
| EvTimeout (height round : Z)
| EvError (e : PacyteError).

(** The two messages the engine broadcasts: [ConsensusProposal] and [ConsensusVote]. *)
Inductive ConsensusMessage : Type :=
| MsgProposal (height round : Z) (block : Block) (proposer : Z) (signature : list Z)
| MsgVote (height round : Z) (block_hash : Hash) (voter : Z) (t : VoteType) (signature : list Z).
Definition proposal_message (p : Proposal) : ConsensusMessage :=
  MsgProposal (p_height p) (p_round p) (p_block p) (p_proposer p) (p_signature p).
Definition vote_message (v : Vote) : ConsensusMessage :=
  MsgVote (v_height v) (v_round v) (v_block_hash v) (voter v) (vote_type v) (v_signature v).

(** What the engine asks of [Storage], [StateManager], [Mempool] and [Network]. *)
Class NodeEnv (W : Type) : Type := {
  get_latest_block : ST W PacyteError (option Block);
  save_block : Block -> ST W PacyteError unit;
  apply_block : Block -> ST W PacyteError unit;
  select_for_block : Z -> Z -> ST W PacyteError (list Transaction);
  cleanup : list Hash -> ST W PacyteError unit;
  broadcast : ConsensusMessage -> ST W PacyteError unit
}.

Record Engine (W : Type) : Type := mkEngine {
  config : ConsensusConfig;
  cstate : ConsensusState;
  e_height : Z;
  e_round : Z;
  validator_set : ValidatorSet;
  my_validator_id : option Z;
  signer : option (Hash -> list Z);
  e_prevotes : gmap Z (gmap Hash (list Vote));
  e_precommits : gmap Z (gmap Hash (list Vote));
  current_proposal : option Proposal;
  e_locked_proposal : option Proposal;
  committed_blocks : list Hash;
  world : W;
  commands : list ConsensusCommand;
  events : list ConsensusEvent;
  round_start_time : option Z
}.
Arguments mkEngine {W}.
Arguments config {W}.
Arguments cstate {W}.
Arguments e_height {W}.
Arguments e_round {W}.
Arguments validator_set {W}.
Arguments my_validator_id {W}.
Arguments signer {W}.
Arguments e_prevotes {W}.
Arguments e_precommits {W}.
Arguments current_proposal {W}.
Arguments e_locked_proposal {W}.
Arguments committed_blocks {W}.
Arguments world {W}.
Arguments commands {W}.
Arguments events {W}.
Arguments round_start_time {W}.

(** Functional update of the fields the handlers write. *)
Section Updates.
Context {W : Type}.
Implicit Type e : Engine W.
Definition set_cstate x e := mkEngine (config e) x (e_height e) (e_round e) (validator_set e)
  (my_validator_id e) (signer e) (e_prevotes e) (e_precommits e) (current_proposal e)
  (e_locked_proposal e) (committed_blocks e) (world e) (commands e) (events e) (round_start_time e).
Definition set_height_round h r e := mkEngine (config e) (cstate e) h r (validator_set e)
  (my_validator_id e) (signer e) (e_prevotes e) (e_precommits e) (current_proposal e)
  (e_locked_proposal e) (committed_blocks e) (world e) (commands e) (events e) (round_start_time e).
Definition set_start t e := mkEngine (config e) (cstate e) (e_height e) (e_round e) (validator_set e)
  (my_validator_id e) (signer e) (e_prevotes e) (e_precommits e) (current_proposal e)
  (e_locked_proposal e) (committed_blocks e) (world e) (commands e) (events e) t.
Definition set_vote_maps pv pc e := mkEngine (config e) (cstate e) (e_height e) (e_round e)
  (validator_set e) (my_validator_id e) (signer e) pv pc (current_proposal e)
  (e_locked_proposal e) (committed_blocks e) (world e) (commands e) (events e) (round_start_time e).
Definition set_proposal p e := mkEngine (config e) (cstate e) (e_height e) (e_round e)
  (validator_set e) (my_validator_id e) (signer e) (e_prevotes e) (e_precommits e) p
  (e_locked_proposal e) (committed_blocks e) (world e) (commands e) (events e) (round_start_time e).
Definition set_committed_blocks l e := mkEngine (config e) (cstate e) (e_height e) (e_round e)
  (validator_set e) (my_validator_id e) (signer e) (e_prevotes e) (e_precommits e)
  (current_proposal e) (e_locked_proposal e) l (world e) (commands e) (events e) (round_start_time e).
Definition set_world (w : W) (e : Engine W) := mkEngine (config e) (cstate e) (e_height e) (e_round e)
  (validator_set e) (my_validator_id e) (signer e) (e_prevotes e) (e_precommits e)
  (current_proposal e) (e_locked_proposal e) (committed_blocks e) w (commands e) (events e)
  (round_start_time e).
Definition send_cmd c e := mkEngine (config e) (cstate e) (e_height e) (e_round e)
  (validator_set e) (my_validator_id e) (signer e) (e_prevotes e) (e_precommits e)
  (current_proposal e) (e_locked_proposal e) (committed_blocks e) (world e) (commands e ++ [c])
  (events e) (round_start_time e).
Definition send_event v e := mkEngine (config e) (cstate e) (e_height e) (e_round e)
  (validator_set e) (my_validator_id e) (signer e) (e_prevotes e) (e_precommits e)
  (current_proposal e) (e_locked_proposal e) (committed_blocks e) (world e) (commands e)
  (events e ++ [v]) (round_start_time e).
Definition engine_new (c : ConsensusConfig) (w : W) : Engine W :=
  mkEngine c Idle 0 0 validator_set_new None None ∅ ∅ None None [] w [] [] None.
Definition set_validator (i : Z) (sg : Hash -> list Z) e := mkEngine (config e) (cstate e) (e_height e)
  (e_round e) (validator_set e) (Some i) (Some sg) (e_prevotes e) (e_precommits e)
  (current_proposal e) (e_locked_proposal e) (committed_blocks e) (world e) (commands e) (events e)
  (round_start_time e).
Definition engine_update_validator_set (s : ValidatorSet) e := mkEngine (config e) (cstate e)
  (e_height e) (e_round e) s (my_validator_id e) (signer e) (e_prevotes e) (e_precommits e)
  (current_proposal e) (e_locked_proposal e) (committed_blocks e) (world e) (commands e) (events e)
  (round_start_time e).
End Updates.

Section Engine.
Context {W : Type} `{Env : !NodeEnv W} `{BP : BuildProfile} `{S : Sha3} `{Bin : Bincode}.
Abbreviation M := (ST (Engine W) PacyteError).

(** A call of one of the node's services. *)
Definition on_world {A} (c : ST W PacyteError A) : M A :=
  fun e => let '(r, w) := c (world e) in (r, set_world w e).

Definition engine_get_proposer (h r : Z) (e : Engine W) : PacyteResult (option Z) :=
  let? p := set_get_proposer h r (validator_set e) in Ok (vi_id <$> p).

Definition am_i_proposer (h r : Z) (e : Engine W) : PacyteResult bool :=
  match my_validator_id e with
  | Some me => let? p := engine_get_proposer h r e in Ok (bool_decide (p = Some me))
  | None => Ok false
  end.

Definition create_block (now h : Z) : M Block :=
  do! latest := on_world get_latest_block in
  do! prev := match latest with
              | Some b => sret b
              | None => do! h' := slift (sub_u64 h 1) in sfail (PE.BlockNotFound h')
              end in
  do! max_size := sget (fun e => max_block_size (config e)) in
  do! txs := on_world (select_for_block 10000 max_size) in
  do! me := fun e => (ok_or (my_validator_id e) PE.NotValidator, e) in
  do! addr := sget (fun e => match set_get_validator me (validator_set e) with
                             | Some v => vi_address v
                             | None => zero_address
                             end) in
  slift (block_new now h (block_hash prev) txs addr).

Definition create_proposal (now h r : Z) (b : Block) : M Proposal :=
  do! me := fun e => (ok_or (my_validator_id e) PE.NotValidator, e) in
  let p := proposal_new now h r b me in
  sget (fun e => match signer e with
                 | Some sg => proposal_sign (sg (proposal_signing_hash p)) p
                 | None => p
                 end).

Definition broadcast_proposal (p : Proposal) : M unit :=
  run! on_world (broadcast (proposal_message p)) in
  smod (send_cmd (CmdProposalReceived p)).

Definition start_new_round (now h r : Z) : M unit :=
  run! smod (fun e => set_height_round (e_height e) r e) in
  run! smod (set_start (Some now)) in
  run! smod (set_cstate Proposing) in
  run! smod (send_event (EvNewRound h r)) in
  do! mine := fun e => (am_i_proposer h r e, e) in
  if mine : bool then
    do! b := create_block now h in
    do! p := create_proposal now h r b in
    run! broadcast_proposal p in
    run! smod (set_proposal (Some p)) in
    run! smod (set_cstate Prevoting) in
    smod (send_event (EvProposalSent h r))
  else smod (set_cstate WaitingForBlock).

(** [if !votes.iter().any(|v| v.voter == vote.voter) { votes.push(vote) }] in the nested map. *)
Definition record_vote (v : Vote) (maps : gmap Z (gmap Hash (list Vote))) : gmap Z (gmap Hash (list Vote)) :=
  let by_hash := default ∅ (maps !! v_height v) in
  let l := default [] (by_hash !! v_block_hash v) in
  let l' := if existsb (fun x => voter x =? voter v) l then l else l ++ [v] in
  <[v_height v := <[v_block_hash v := l']> by_hash]> maps.

Definition engine_add_vote (v : Vote) : M unit :=
  match vote_type v with
  | Prevote => smod (fun e => set_vote_maps (record_vote v (e_prevotes e)) (e_precommits e) e)
  | Precommit => smod (fun e => set_vote_maps (e_prevotes e) (record_vote v (e_precommits e)) e)
  end.

(** [maps.get(&height).and_then(|r| r.get(&hash)).map(|v| v.len()).unwrap_or(0)]. *)
Definition votes_at (maps : gmap Z (gmap Hash (list Vote))) (h : Z) (bh : Hash) : list Vote :=
  match maps !! h with Some r => default [] (r !! bh) | None => [] end.
Definition vote_count (maps : gmap Z (gmap Hash (list Vote))) (h : Z) (bh : Hash) : Z :=
  Z.of_nat (length (votes_at maps h bh)).

Definition engine_commit_block (now h : Z) : M unit :=
  do! p := fun e => (ok_or (current_proposal e) (PE.Internal "No proposal to commit"), e) in
  run! on_world (apply_block (p_block p)) in
  run! on_world (save_block (p_block p)) in
  run! on_world (cleanup (map tx_hash (transactions (p_block p)))) in
  run! smod (fun e => set_committed_blocks (committed_blocks e ++ [block_hash (p_block p)]) e) in
  run! smod (set_cstate Committed) in
  run! smod (send_event (EvBlockCommitted (p_block p) h)) in
  do! h1 := slift (add_u64 h 1) in
  run! smod (set_height_round h1 0) in
  do! h2 := slift (add_u64 h 1) in
  start_new_round now h2 0.

Definition check_precommit_quorum (now h r : Z) (bh : Hash) : M unit :=
  do! n := sget (fun e => vote_count (e_precommits e) h bh) in
  do! quorum := fun e => (two_thirds (set_active_count (validator_set e)), e) in
  if quorum <=? n then
    run! smod (send_event (EvQuorumReached h r Precommit)) in
    engine_commit_block now h
  else sret tt.

(** The vote of this node, signed when it has a signer. *)
Definition my_vote (now : Z) (bh : Hash) (t : VoteType) (me : Z) (e : Engine W) : Vote :=
  let v := vote_new now (e_height e) (e_round e) bh me t in
  match signer e with Some sg => vote_sign (sg (vote_signing_hash v)) v | None => v end.

Definition send_precommit (now : Z) (bh : Hash) : M unit :=
  do! h := sget e_height in
  do! r := sget e_round in
  do! me := fun e => (ok_or (my_validator_id e) PE.NotValidator, e) in
  do! v := sget (my_vote now bh Precommit me) in
  run! engine_add_vote v in
  run! on_world (broadcast (vote_message v)) in
  run! smod (send_event (EvVoteSent h r Precommit)) in
  check_precommit_quorum now h r bh.

Definition check_prevote_quorum (now h r : Z) (bh : Hash) : M unit :=
  do! n := sget (fun e => vote_count (e_prevotes e) h bh) in
  do! quorum := fun e => (two_thirds (set_active_count (validator_set e)), e) in
  if quorum <=? n then
    run! smod (send_event (EvQuorumReached h r Prevote)) in
    send_precommit now bh
  else sret tt.

Definition send_prevote (now : Z) (bh : Hash) : M unit :=
  do! h := sget e_height in
  do! r := sget e_round in
  do! me := fun e => (ok_or (my_validator_id e) PE.NotValidator, e) in
  do! v := sget (my_vote now bh Prevote me) in
  run! engine_add_vote v in
  run! on_world (broadcast (vote_message v)) in
  run! smod (send_event (EvVoteSent h r Prevote)) in
  check_prevote_quorum now h r bh.

(** The signature itself is not looked at. *)
Definition verify_proposal_signature (p : Proposal) (e : Engine W) : bool :=
  bool_decide (is_Some (set_get_validator (p_proposer p) (validator_set e))).

(** [for tx in txs { if !tx.validate_basic(3600) { return Ok(false) } }]. *)
Fixpoint all_valid (now : Z) (txs : list Transaction) : PacyteResult bool :=
  match txs with
  | [] => Ok true
  | tx :: txs => let? ok := validate_basic now 3600 tx in
                 if ok : bool then all_valid now txs else Ok false
  end.

Definition validate_block (now : Z) (b : Block) : M bool :=
  do! h := sget e_height in
  if negb (height (header b) =? h) then sret false
  else
    do! prev := on_world get_latest_block in
    if match prev with
       | Some p => negb (bool_decide (previous_hash (header b) = block_hash p))
       | None => false
       end
    then sret false
    else slift (all_valid now (transactions b)).

Definition handle_proposal (now : Z) (p : Proposal) : M unit :=
  do! h := sget e_height in
  do! r := sget e_round in
  if negb (p_height p =? h) || negb (p_round p =? r) then sret tt
  else
    do! expected := fun e => (engine_get_proposer h r e, e) in
    if negb (bool_decide (expected = Some (p_proposer p))) then sret tt
    else
      do! signed := sget (verify_proposal_signature p) in
      if negb signed then sret tt
      else
        do! valid := validate_block now (p_block p) in
        if negb valid then sret tt
        else
          run! smod (set_proposal (Some p)) in
          send_prevote now (proposal_hash p).

Definition handle_vote (now : Z) (v : Vote) : M unit :=
  do! h := sget e_height in
  do! r := sget e_round in
  if negb (v_height v =? h) || negb (v_round v =? r) then sret tt
  else
    run! engine_add_vote v in
    match vote_type v with
    | Prevote => check_prevote_quorum now h r (v_block_hash v)
    | Precommit => check_precommit_quorum now h r (v_block_hash v)
    end.

(** One command of the loop of [run]; [Err] results are dropped, [None] ends the loop. *)
Definition handle_command (now : Z) (c : ConsensusCommand) : M (option unit) :=
  match c with
  | CmdPropose h r => run! ignore_err (start_new_round now h r) in sret (Some tt)
  | CmdProposalReceived p => run! ignore_err (handle_proposal now p) in sret (Some tt)
  | CmdVoteReceived v => run! ignore_err (handle_vote now v) in sret (Some tt)
  | CmdTimeout h r =>
      do! here := sget (fun e => (h =? e_height e) && (r =? e_round e)) in
      if here : bool then
        do! more := sget (fun e => r <? max_rounds (config e)) in
        if more : bool then
          do! r' := slift (add_u64 r 1) in
          run! ignore_err (start_new_round now h r') in
          sret (Some tt)
        else sret (Some tt)
      else sret (Some tt)
  | CmdStop => sret None
  | CmdNewBlock _ | CmdSynced _ => sret (Some tt)
  end.
End Engine.
