(* ===== verification/EngineProps.v ===== *)
(** * The engine: what a command can commit

    Every handler keeps the vote tables well formed and commits at most one block, the current
    proposal, after a quorum of precommits from distinct voters; the quorum's hash and the
    voters' membership are not checked. *)

From stdpp Require Import strings.
From S2P Require Import Prelude Hashing Errors Types Block Validators Votes Safety Engine.
Abbreviation length := List.length.

(** ** What rounds, blocks and broadcasts leave alone *)

Section Frames.
Context {W : Type} `{Env : !NodeEnv W} `{BP : BuildProfile} `{S : Sha3} `{Bin : Bincode}.

Record same_votes (e e' : Engine W) : Prop := {
  sv_prevotes : e_prevotes e' = e_prevotes e;
  sv_precommits : e_precommits e' = e_precommits e;
  sv_set : validator_set e' = validator_set e;
  sv_config : config e' = config e
}.
Record same_chain (e e' : Engine W) : Prop := {
  sc_committed : committed_blocks e' = committed_blocks e;
  sc_height : e_height e' = e_height e
}.
Definition frame (e e' : Engine W) : Prop := same_votes e e' /\ same_chain e e'.

#[export] Instance frame_preorder : PreOrder frame.
Proof.
  split; [by repeat split|]. intros a b c [[] []] [[] []]. by repeat split; etransitivity.
Qed.

Lemma keeps_on_world {A} (c : ST W PacyteError A) : keeps frame (on_world c).
Proof. intros e r e'. unfold on_world. destruct (c (world e)). intros [= <- <-]. by repeat split. Qed.

(** Discharges [keeps frame] of a handler that changes neither votes nor chain. *)
Ltac frame_solver :=
  repeat first [ apply keeps_bind; [apply _| |intros ?] | keeps_leaf | apply keeps_on_world
               | case_match | progress cbn beta iota ].

Lemma create_block_frame now h : keeps frame (create_block now h).
Proof. unfold create_block. frame_solver. Qed.

Lemma create_proposal_frame now h r b : keeps frame (create_proposal now h r b).
Proof. unfold create_proposal. frame_solver. Qed.

Lemma broadcast_proposal_frame p : keeps frame (broadcast_proposal p).
Proof. unfold broadcast_proposal. frame_solver. Qed.

Lemma start_new_round_frame now h r : keeps frame (start_new_round now h r).
Proof.
  unfold start_new_round.
  repeat first [ apply create_block_frame | apply create_proposal_frame
               | apply broadcast_proposal_frame | frame_solver ].
Qed.

Lemma validate_block_frame now b : keeps frame (validate_block now b).
Proof. unfold validate_block. frame_solver. Qed.

(** ** Vote tables *)

(** The votes filed under a height and a hash are votes for them, one per voter. *)
Definition table_ok (t : VoteType) (maps : gmap Z (gmap Hash (list Vote))) : Prop :=
  forall h bh, NoDup (map voter (votes_at maps h bh))
    /\ Forall (fun v => v_height v = h /\ v_block_hash v = bh /\ vote_type v = t) (votes_at maps h bh).
Definition tables_ok (e : Engine W) : Prop :=
  table_ok Prevote (e_prevotes e) /\ table_ok Precommit (e_precommits e).

Lemma votes_at_record v maps h bh :
  votes_at (record_vote v maps) h bh
  = if decide (h = v_height v /\ bh = v_block_hash v)
    then let l := votes_at maps h bh in if existsb (fun x => voter x =? voter v) l then l else l ++ [v]
    else votes_at maps h bh.
Proof.
  unfold votes_at, record_vote. case_decide as Hd.
  - destruct Hd as [-> ->]. rewrite lookup_insert_eq, lookup_insert_eq. cbn.
    destruct (maps !! v_height v) as [r|]; cbn; [done|]. by rewrite lookup_empty.
  - destruct (decide (h = v_height v)) as [->|Hh].
    + rewrite lookup_insert_eq. rewrite lookup_insert_ne by naive_solver.
      destruct (maps !! v_height v) as [r|]; cbn; [done|]. by rewrite lookup_empty.
    + by rewrite lookup_insert_ne.
Qed.

Lemma table_ok_record v maps : table_ok (vote_type v) maps -> table_ok (vote_type v) (record_vote v maps).
Proof.
  intros Hok h bh. rewrite votes_at_record. destruct (Hok h bh) as [Hnd Hall].
  case_decide as Hd; [|done]. destruct Hd as [-> ->]. cbn.
  destruct (existsb _ _) eqn:Hex; [done|]. split.
  - rewrite map_app. apply NoDup_app. split_and!; [done| |apply NoDup_singleton].
    intros i Hi Hv. apply list_elem_of_singleton in Hv as ->.
    apply list_elem_of_fmap in Hi as (x & Hx & Hin).
    assert (existsb (fun x => voter x =? voter v) (votes_at maps (v_height v) (v_block_hash v)) = true); [|congruence].
    apply existsb_exists. exists x. split; [by apply list_elem_of_In|]. apply Z.eqb_eq. congruence.
  - apply Forall_app. split; [done|]. by repeat constructor.
Qed.

Lemma add_vote_state v e :
  exists e', engine_add_vote v e = (Ok tt, e')
    /\ same_chain e e' /\ validator_set e' = validator_set e /\ config e' = config e
    /\ current_proposal e' = current_proposal e
    /\ (tables_ok e -> tables_ok e').
Proof.
  unfold engine_add_vote. destruct (vote_type v) eqn:Ht; eexists; (split; [reflexivity|]);
    (split_and!; [by split|done|done|done|]); intros [Hp Hc]; split; cbn; try done;
    rewrite <- Ht; apply table_ok_record; by rewrite Ht.
Qed.
End Frames.

(** ** Commits *)

Section Commits.
Context {W : Type} `{Env : !NodeEnv W} `{BP : BuildProfile} `{S : Sha3} `{Bin : Bincode}.

(** [e'] results from [e] by committing the proposal [p] at height [h]. *)
Record commits (h : Z) (p : Proposal) (e e' : Engine W) : Prop := {
  cm_block : committed_blocks e' = committed_blocks e ++ [block_hash (p_block p)];
  cm_height : e_height e' = h + 1
}.

Lemma commit_block_cases now h e r e' :
  0 <= h < U64_MAX -> engine_commit_block now h e = (r, e') ->
  same_votes e e'
  /\ (same_chain e e' \/ exists p, current_proposal e = Some p /\ commits h p e e').
Proof.
  intros Hh. unfold engine_commit_block, sbind at 1. destruct (current_proposal e) as [p|] eqn:Hp; cbn [ok_or].
  2:{ intros [= <- <-]. split; [done|]. by left. }
  unfold sbind at 1. destruct (on_world (apply_block _) e) as [r1 e1] eqn:H1.
  pose proof (keeps_on_world _ _ _ _ H1) as [Hv1 Hc1].
  destruct r1; [|intros [= <- <-]; split; [done|by left]..].
  unfold sbind at 1. destruct (on_world (save_block _) e1) as [r2 e2] eqn:H2.
  pose proof (keeps_on_world _ _ _ _ H2) as [Hv2 Hc2].
  assert (Hf : frame e e2) by (etransitivity; by split).
  destruct r2; [|intros [= <- <-]; split; [apply Hf|left; apply Hf]..].
  unfold sbind at 1. destruct (on_world (cleanup _) e2) as [r3 e3] eqn:H3.
  assert (Hf3 : frame e e3) by (etransitivity; [exact Hf|exact (keeps_on_world _ _ _ _ H3)]). clear Hf. rename Hf3 into Hf.
  destruct r3; [|intros [= <- <-]; split; [apply Hf|left; apply Hf]..]. clear H3.
  unfold sbind, smod, slift, add_u64. rewrite arith_fits by (unfold fits, U64_MAX in *; lia). cbn beta iota.
  intros H3. apply start_new_round_frame in H3 as [Hv3 Hc3]. destruct Hf as [[] []], Hv3, Hc3. cbn in *.
  split; [split; congruence|]. right. exists p. split; [done|]. split; congruence.
Qed.

(** The outcome of the vote handlers: nothing happened to the chain, or the quorum did. *)
Definition quorum_commit (h : Z) (bh : Hash) (cur : option Proposal) (e e' : Engine W) : Prop :=
  exists p q, cur = Some p /\ commits h p e e'
    /\ two_thirds (E := PacyteError) (set_active_count (validator_set e)) = Ok q
    /\ q <= vote_count (e_precommits e') h bh.

Lemma check_precommit_quorum_cases now h r bh e o e' :
  0 <= h < U64_MAX -> check_precommit_quorum now h r bh e = (o, e') ->
  same_votes e e' /\ (same_chain e e' \/ quorum_commit h bh (current_proposal e) e e').
Proof.
  intros Hh. unfold check_precommit_quorum, sbind, sget, smod. cbn beta iota.
  destruct (two_thirds _) as [q| | |] eqn:Hq; [|intros [= <- <-]; split; [done|by left]..].
  destruct (q <=? _) eqn:Hle; [|intros [= <- <-]; split; [done|by left]].
  apply Z.leb_le in Hle. cbn beta iota. intros H. apply commit_block_cases in H as [Hv Hc]; [|done].
  assert (Hv' : same_votes e e') by (destruct Hv; split; cbn in *; congruence).
  split; [done|]. destruct Hc as [[Hc1 Hc2]|(p & Hp & [Hb Hht])]; [left; by split|right].
  exists p, q. split_and!; [done|by split|done|]. by rewrite (sv_precommits _ _ Hv').
Qed.

(** The part the [send_*] handlers share: file the own vote and broadcast it. *)
Definition cast_vote (now : Z) (bh : Hash) (t : VoteType) (k : Z -> Z -> ST (Engine W) PacyteError unit) :
  ST (Engine W) PacyteError unit :=
  do! h := sget e_height in
  do! r := sget e_round in
  do! me := fun e => (ok_or (my_validator_id e) PE.NotValidator, e) in
  do! v := sget (my_vote now bh t me) in
  run! engine_add_vote v in
  run! on_world (broadcast (vote_message v)) in
  run! smod (send_event (EvVoteSent h r t)) in
  k h r.

Lemma cast_vote_cases now bh t k e o e' :
  tables_ok e -> cast_vote now bh t k e = (o, e') ->
  (tables_ok e' /\ validator_set e' = validator_set e /\ same_chain e e')
  \/ exists e2, tables_ok e2 /\ validator_set e2 = validator_set e /\ same_chain e e2
       /\ current_proposal e2 = current_proposal e /\ k (e_height e) (e_round e) e2 = (o, e').
Proof.
  intros Hok. unfold cast_vote, sbind at 1, sget at 1. cbn beta iota.
  unfold sbind at 1, sget at 1. cbn beta iota. unfold sbind at 1.
  destruct (my_validator_id e) as [me|]; cbn [ok_or]; [|intros [= <- <-]; by left].
  unfold sbind at 1, sget at 1. cbn beta iota. set (v := my_vote _ _ _ _ _). unfold sbind at 1.
  destruct (add_vote_state v e) as (e1 & -> & [Hc1 Hh1] & Hs1 & _ & Hp1 & Ht1). specialize (Ht1 Hok).
  unfold sbind at 1. destruct (on_world _ e1) as [r2 e2] eqn:H2.
  assert (Hp2 : current_proposal e2 = current_proposal e1).
  { revert H2. unfold on_world. destruct (broadcast _ _). by intros [= <- <-]. }
  apply keeps_on_world in H2 as [[] []].
  assert (Hok2 : tables_ok e2) by (unfold tables_ok in *; congruence).
  destruct r2; [|intros [= <- <-]; left; split_and!; [done|congruence|split; congruence]..].
  unfold sbind, smod. cbn beta iota. intros H. right. exists (send_event (EvVoteSent (e_height e) (e_round e) t) e2).
  split_and!; [done|cbn; congruence|split; cbn; congruence|cbn; congruence|done].
Qed.

(** Moving a commit back over a change of the vote tables. *)
Lemma quorum_commit_before h bh cur e e2 e' :
  validator_set e2 = validator_set e -> same_chain e e2 ->
  quorum_commit h bh cur e2 e' -> quorum_commit h bh cur e e'.
Proof.
  intros Hs [Hc Hh] (p & q & Hp & [Hb Hht] & Hq & Hle). exists p, q.
  split_and!; [done|split; congruence|congruence|done].
Qed.

Lemma same_chain_trans (e e2 e' : Engine W) : same_chain e e2 -> same_chain e2 e' -> same_chain e e'.
Proof. intros [] []. split; congruence. Qed.

Lemma send_precommit_cases now bh e o e' :
  0 <= e_height e < U64_MAX -> tables_ok e -> send_precommit now bh e = (o, e') ->
  tables_ok e' /\ validator_set e' = validator_set e
  /\ (same_chain e e' \/ quorum_commit (e_height e) bh (current_proposal e) e e').
Proof.
  intros Hh Hok H. change (cast_vote now bh Precommit (fun h r => check_precommit_quorum now h r bh) e = (o, e')) in H.
  apply cast_vote_cases in H; [|done]. destruct H as [(? & ? & ?)|(e2 & Hok2 & Hs2 & Hc2 & Hp2 & H)]; [by split_and!; [..|left]|].
  apply check_precommit_quorum_cases in H as [[] Hc]; [|done].
  split_and!; [unfold tables_ok in *; congruence|congruence|]. rewrite Hp2 in Hc.
  destruct Hc as [Hc|Hc]; [left; by eapply same_chain_trans|right; by eapply quorum_commit_before].
Qed.

Lemma check_prevote_quorum_cases now h r bh e o e' :
  h = e_height e -> 0 <= h < U64_MAX -> tables_ok e -> check_prevote_quorum now h r bh e = (o, e') ->
  tables_ok e' /\ validator_set e' = validator_set e
  /\ (same_chain e e' \/ quorum_commit h bh (current_proposal e) e e').
Proof.
  intros -> Hh Hok. unfold check_prevote_quorum, sbind, sget, smod. cbn beta iota.
  destruct (two_thirds _) as [q| | |]; [|intros [= <- <-]; split_and!; [done|done|by left]..].
  destruct (q <=? _); [|intros [= <- <-]; split_and!; [done|done|by left]].
  cbn beta iota. intros H. apply send_precommit_cases in H; [|done|done].
  destruct H as (Ht & Hs & Hc). split_and!; [done|done|].
  destruct Hc as [[Ha Hb]|(p & q' & Hp & [Hb Hht] & Hq & Hle)]; [left; by split|right].
  exists p, q'. by split_and!.
Qed.

Lemma send_prevote_cases now bh e o e' :
  0 <= e_height e < U64_MAX -> tables_ok e -> send_prevote now bh e = (o, e') ->
  tables_ok e' /\ validator_set e' = validator_set e
  /\ (same_chain e e' \/ quorum_commit (e_height e) bh (current_proposal e) e e').
Proof.
  intros Hh Hok H. change (cast_vote now bh Prevote (fun h r => check_prevote_quorum now h r bh) e = (o, e')) in H.
  apply cast_vote_cases in H; [|done]. destruct H as [(? & ? & ?)|(e2 & Hok2 & Hs2 & Hc2 & Hp2 & H)]; [by split_and!; [..|left]|].
  apply check_prevote_quorum_cases in H as (Ht & Hs & Hc); [|symmetry; apply Hc2|done|done].
  split_and!; [done|congruence|]. rewrite Hp2 in Hc.
  destruct Hc as [Hc|Hc]; [left; by eapply same_chain_trans|right; by eapply quorum_commit_before].
Qed.

(** ** Handlers *)

Lemma handle_vote_cases now v e o e' :
  0 <= e_height e < U64_MAX -> tables_ok e -> handle_vote now v e = (o, e') ->
  tables_ok e' /\ validator_set e' = validator_set e
  /\ (same_chain e e'
      \/ quorum_commit (e_height e) (v_block_hash v) (current_proposal e) e e').
Proof.
  intros Hh Hok. unfold handle_vote, sbind at 1, sget at 1. cbn beta iota.
  unfold sbind at 1, sget at 1. cbn beta iota.
  destruct (_ || _); [intros [= <- <-]; split_and!; [done|done|by left]|].
  unfold sbind at 1. destruct (add_vote_state v e) as (e1 & -> & [Hc1 Hh1] & Hs1 & _ & Hp1 & Ht1).
  specialize (Ht1 Hok). rewrite <- Hh1. destruct (vote_type v); intros H.
  - apply check_prevote_quorum_cases in H as (Ht & Hs & Hc); [|done|lia|done].
    split_and!; [done|congruence|].
    destruct Hc as [[]|(p & q & Hp & [] & Hq & Hle)]; [left; split; congruence|right].
    exists p, q. split_and!; [congruence|split; congruence|congruence|done].
  - apply check_precommit_quorum_cases in H as [[] Hc]; [|lia].
    split_and!; [unfold tables_ok in *; congruence|congruence|].
    destruct Hc as [[]|(p & q & Hp & [] & Hq & Hle)]; [left; split; congruence|right].
    exists p, q. split_and!; [congruence|split; congruence|congruence|done].
Qed.

Lemma handle_proposal_cases now p e o e' :
  0 <= e_height e < U64_MAX -> tables_ok e -> handle_proposal now p e = (o, e') ->
  tables_ok e' /\ validator_set e' = validator_set e
  /\ (same_chain e e' \/ quorum_commit (e_height e) (proposal_hash p) (Some p) e e').
Proof.
  intros Hh Hok. unfold handle_proposal, sbind at 1, sget at 1. cbn beta iota.
  unfold sbind at 1, sget at 1. cbn beta iota.
  destruct (_ || _); [intros [= <- <-]; split_and!; [done|done|by left]|].
  unfold sbind at 1. destruct (engine_get_proposer _ _ _) as [x| | |];
    [|intros [= <- <-]; split_and!; [done|done|by left]..].
  destruct (negb _); [intros [= <- <-]; split_and!; [done|done|by left]|].
  unfold sbind at 1, sget at 1. cbn beta iota.
  destruct (negb _); [intros [= <- <-]; split_and!; [done|done|by left]|].
  unfold sbind at 1. destruct (validate_block now (p_block p) e) as [r1 e1] eqn:H1.
  apply validate_block_frame in H1 as [[] []].
  assert (Hok1 : tables_ok e1) by (unfold tables_ok in *; congruence).
  destruct r1 as [ok| | |]; [|intros [= <- <-]; split_and!; [done|done|left; split; congruence]..].
  destruct ok; cbn [negb]; [|intros [= <- <-]; split_and!; [done|done|left; split; congruence]].
  unfold sbind, smod. cbn beta iota. intros H.
  apply send_prevote_cases in H as (Ht & Hs & Hc); [|cbn; congruence|done].
  cbn in *. split_and!; [done|congruence|].
  destruct Hc as [[]|(p' & q & Hp & [] & Hq & Hle)]; [left; split; cbn in *; congruence|right].
  exists p', q. split_and!; [done|split; cbn in *; congruence|cbn in *; congruence|congruence].
Qed.

(** A commit of one command: which proposal, on which quorum. *)
Definition command_commit (c : ConsensusCommand) (e e' : Engine W) : Prop :=
  exists bh p, (current_proposal e = Some p \/ c = CmdProposalReceived p)
    /\ quorum_commit (e_height e) bh (Some p) e e'.

Lemma ignore_err_state {A} (c : ST (Engine W) PacyteError A) e r e' :
  ignore_err c e = (r, e') -> exists r', c e = (r', e').
Proof. unfold ignore_err. destruct (c e) as [r' e1]. intros [= _ <-]. by exists r'. Qed.

Lemma handle_command_cases now c e r e' :
  0 <= e_height e < U64_MAX -> tables_ok e -> handle_command now c e = (r, e') ->
  tables_ok e' /\ validator_set e' = validator_set e /\ (same_chain e e' \/ command_commit c e e').
Proof.
  intros Hh Hok.
  assert (Hround : forall h r0 o e1, start_new_round now h r0 e = (o, e1) ->
    tables_ok e1 /\ validator_set e1 = validator_set e /\ (same_chain e e1 \/ command_commit c e e1)).
  { intros h r0 o e1 H. apply start_new_round_frame in H as [[] Hc].
    split_and!; [unfold tables_ok in *; congruence|done|by left]. }
  destruct c as [h r0|p|v|h r0|b|h|]; cbn [handle_command].
  - unfold sbind. destruct (ignore_err _ e) as [o e1] eqn:H.
    apply ignore_err_state in H as [o' H]. apply Hround in H.
    destruct o; unfold sret; by intros [= <- <-].
  - unfold sbind. destruct (ignore_err _ e) as [o e1] eqn:H. apply ignore_err_state in H as [o' H].
    apply handle_proposal_cases in H as (Ht & Hs & Hc); [|done|done].
    assert (Hcmd : same_chain e e1 \/ command_commit (CmdProposalReceived p) e e1).
    { destruct Hc as [?|Hc]; [by left|right]. exists (proposal_hash p), p. by split; [right|]. }
    destruct o; unfold sret; by intros [= <- <-].
  - unfold sbind. destruct (ignore_err _ e) as [o e1] eqn:H. apply ignore_err_state in H as [o' H].
    apply handle_vote_cases in H as (Ht & Hs & Hc); [|done|done].
    assert (Hcmd : same_chain e e1 \/ command_commit (CmdVoteReceived v) e e1).
    { destruct Hc as [?|(p & q & Hp & Hq)]; [by left|right]. exists (v_block_hash v), p.
      split; [by left|]. by exists p, q. }
    destruct o; unfold sret; by intros [= <- <-].
  - unfold sbind, sget, slift. destruct (_ && _); [|intros [= <- <-]; split_and!; [done|done|by left]].
    destruct (_ <? _); [|intros [= <- <-]; split_and!; [done|done|by left]].
    destruct (add_u64 _ _) as [r1| | |]; [|intros [= <- <-]; split_and!; [done|done|by left]..].
    destruct (ignore_err _ e) as [o e1] eqn:H.
    apply ignore_err_state in H as [o' H]. apply Hround in H.
    destruct o; unfold sret; by intros [= <- <-].
  - intros [= <- <-]. split_and!; [done|done|by left].
  - intros [= <- <-]. split_and!; [done|done|by left].
  - intros [= <- <-]. split_and!; [done|done|by left].
Qed.

(** ** Where the precommits of the table come from *)

Section Filed.
Context (new : Vote -> Prop) (me : option Z) (new_own : forall v, me = Some (voter v) -> new v).

(** What is filed in [e'] was filed in [e] or is [new]. *)
Definition filed (e e' : Engine W) : Prop :=
  my_validator_id e = me -> my_validator_id e' = me
  /\ forall h bh v, v ∈ votes_at (e_precommits e') h bh -> v ∈ votes_at (e_precommits e) h bh \/ new v.
#[local] Instance filed_preorder : PreOrder filed.
Proof.
  split; [intros e Hm; split; [done|]; intros; by left|]. intros x y z Hxy Hyz Hm.
  destruct (Hxy Hm) as [Hy H1]. destruct (Hyz Hy) as [Hz H2]. split; [done|]. intros h bh v [Hv|Hv]%H2; [by apply H1|by right].
Qed.
Lemma filed_same (e e' : Engine W) : my_validator_id e' = my_validator_id e -> e_precommits e' = e_precommits e -> filed e e'.
Proof. intros Hi Hp Hm. rewrite Hi, Hp. split; [done|]. intros; by left. Qed.

Lemma filed_on_world {A} (c : ST W PacyteError A) : keeps filed (on_world c).
Proof. intros e r e'. unfold on_world. destruct (c (world e)). intros [= <- <-]. by apply filed_same. Qed.
Lemma filed_add_vote v : new v -> keeps filed (engine_add_vote v).
Proof.
  intros Hv. unfold engine_add_vote. destruct (vote_type v); apply keeps_smod; intros e; [by apply filed_same|].
  intros Hm. split; [done|]. intros h bh w. cbn. rewrite votes_at_record.
  case_decide; [|by left]. cbn. destruct (existsb _ _); [by left|]. rewrite elem_of_app, list_elem_of_singleton. intros [?| ->]; [by left|by right].
Qed.

Ltac filed_solver known :=
  repeat first [ known | apply keeps_bind; [apply _| |intros ?] | apply filed_on_world
               | apply keeps_smod; intros ?; apply filed_same; reflexivity | keeps_leaf
               | case_match | progress cbn beta iota ].
Lemma filed_create_block now h : keeps filed (create_block now h).
Proof. unfold create_block. filed_solver fail. Qed.
Lemma filed_start_new_round now h r : keeps filed (start_new_round now h r).
Proof.
  unfold start_new_round, create_proposal, broadcast_proposal.
  filed_solver ltac:(idtac; match goal with |- keeps _ (create_block _ _) => apply filed_create_block end).
Qed.
Lemma filed_commit now h : keeps filed (engine_commit_block now h).
Proof. unfold engine_commit_block. filed_solver ltac:(idtac; match goal with |- keeps _ (start_new_round _ _ _) => apply filed_start_new_round end). Qed.
Lemma filed_check_precommit now h r bh : keeps filed (check_precommit_quorum now h r bh).
Proof. unfold check_precommit_quorum. filed_solver ltac:(idtac; match goal with |- keeps _ (engine_commit_block _ _) => apply filed_commit end). Qed.

Lemma filed_cast now bh t k : (forall h r, keeps filed (k h r)) -> keeps filed (cast_vote now bh t k).
Proof.
  intros Hk e o e'. unfold cast_vote. unfold sbind at 1, sget at 1. cbn beta iota. unfold sbind at 1, sget at 1. cbn beta iota. unfold sbind at 1.
  destruct (my_validator_id e) as [i|] eqn:Hi; cbn [ok_or]; [|by intros [= <- <-]].
  unfold sbind at 1, sget at 1. cbn beta iota. set (v := my_vote _ _ _ _ _). intros H Hm.
  assert (Hvi : voter v = i) by (unfold v, my_vote; by destruct (signer e)).
  refine (keeps_bind filed (engine_add_vote v) _ _ _ e o e' H Hm); [|intros; filed_solver ltac:(idtac; match goal with |- keeps _ (k _ _) => apply Hk end)].
  apply filed_add_vote, new_own. congruence.
Qed.
Lemma filed_send_precommit now bh : keeps filed (send_precommit now bh).
Proof. change (keeps filed (cast_vote now bh Precommit (fun h r => check_precommit_quorum now h r bh))). apply filed_cast. intros. apply filed_check_precommit. Qed.
Lemma filed_check_prevote now h r bh : keeps filed (check_prevote_quorum now h r bh).
Proof. unfold check_prevote_quorum. filed_solver ltac:(idtac; match goal with |- keeps _ (send_precommit _ _) => apply filed_send_precommit end). Qed.
Lemma filed_send_prevote now bh : keeps filed (send_prevote now bh).
Proof. change (keeps filed (cast_vote now bh Prevote (fun h r => check_prevote_quorum now h r bh))). apply filed_cast. intros. apply filed_check_prevote. Qed.
Lemma filed_handle_vote now v : new v -> keeps filed (handle_vote now v).
Proof.
  intros Hv. unfold handle_vote.
  filed_solver ltac:(idtac; match goal with
    | |- keeps _ (check_prevote_quorum _ _ _ _) => apply filed_check_prevote
    | |- keeps _ (check_precommit_quorum _ _ _ _) => apply filed_check_precommit
    | |- keeps _ (engine_add_vote _) => by apply filed_add_vote end).
Qed.
Lemma filed_handle_proposal now p : keeps filed (handle_proposal now p).
Proof. unfold handle_proposal, validate_block. filed_solver ltac:(idtac; match goal with |- keeps _ (send_prevote _ _) => apply filed_send_prevote end). Qed.
End Filed.

Lemma filed_ignore_err {A} (R : Engine W -> Engine W -> Prop) (c : ST (Engine W) PacyteError A) : keeps R c -> keeps R (ignore_err c).
Proof. intros Hc e r e' H. apply ignore_err_state in H as [r' H]. by eapply Hc. Qed.
(** The votes a command can file: the received one, and this node's own. *)
Definition brings (c : ConsensusCommand) (me : option Z) (v : Vote) : Prop := c = CmdVoteReceived v \/ me = Some (voter v).
Lemma filed_handle_command now c e r e' : handle_command now c e = (r, e') ->
  forall h bh v, v ∈ votes_at (e_precommits e') h bh -> v ∈ votes_at (e_precommits e) h bh \/ brings c (my_validator_id e) v.
Proof.
  set (me := my_validator_id e). assert (Hown : forall v, me = Some (voter v) -> brings c me v) by (by right).
  assert (Hk : keeps (filed (brings c me) me) (handle_command now c)); [|intros H; exact (proj2 (Hk _ _ _ H eq_refl))].
  pose proof (filed_preorder (brings c me) me). destruct c as [h r0|p|v|h r0|b|h|]; cbn [handle_command];
    repeat match goal with
    | |- keeps _ (ignore_err _) => apply filed_ignore_err
    | |- keeps _ (start_new_round _ _ _) => apply filed_start_new_round
    | |- keeps _ (handle_proposal _ _) => by apply filed_handle_proposal
    | |- keeps _ (handle_vote _ _) => apply filed_handle_vote; [done|by left]
    | _ => first [ apply keeps_bind; [apply _| |intros ?] | keeps_leaf | case_match ] end.
Qed.

(** The loop of [run] on a sequence of commands that all return. *)
Inductive engine_run : list (Z * ConsensusCommand) -> Engine W -> Engine W -> Prop :=
| run_nil e : engine_run [] e e
| run_cons now c cs e e1 e2 r :
    handle_command now c e = (Ok (Some r), e1) -> engine_run cs e1 e2 -> engine_run ((now, c) :: cs) e e2.

(** ** Properties *)

(** C2. Whatever the command, the engine keeps its vote tables well formed (each list holds
    votes for its height and hash, one per voter) and either leaves the chain as it is or
    appends exactly one block, that of the proposal it holds, and moves one height up; the
    latter only when, for some hash, its own table of precommits holds at least [2n/3 + 1] entries at
    the height, [n] the number of active validators: precommits for that height and hash, of different
    voters, each of them filed before the command, brought by it or cast by this node. *)
Theorem engine_commit_needs_quorum (now : Z) (c : ConsensusCommand) (e e' : Engine W)
  (r : PacyteResult (option unit)) :
  0 <= e_height e < U64_MAX -> tables_ok e -> handle_command now c e = (r, e') ->
  tables_ok e'
  /\ (committed_blocks e' = committed_blocks e /\ e_height e' = e_height e
      \/ exists p bh q,
           let recorded := votes_at (e_precommits e') (e_height e) bh in
           (current_proposal e = Some p \/ c = CmdProposalReceived p)
           /\ committed_blocks e' = committed_blocks e ++ [block_hash (p_block p)]
           /\ e_height e' = e_height e + 1
           /\ two_thirds (E := PacyteError) (set_active_count (validator_set e)) = Ok q
           /\ q <= Z.of_nat (length recorded) /\ NoDup (map voter recorded)
           /\ Forall (fun v => v_height v = e_height e /\ v_block_hash v = bh /\ vote_type v = Precommit) recorded
           /\ Forall (fun v => v ∈ votes_at (e_precommits e) (e_height e) bh \/ c = CmdVoteReceived v
                               \/ my_validator_id e = Some (voter v)) recorded).
Proof.
  intros Hh Hok H. pose proof (filed_handle_command _ _ _ _ _ H) as Hfrom. apply handle_command_cases in H as (Ht & Hs & Hc); [|done|done].
  split; [done|]. destruct Hc as [[Hc1 Hc2]|(bh & p & Hp & p' & q & [= <-] & [Hb Hht] & Hq & Hle)]; [by left|right].
  destruct Ht as [_ Ht]. destruct (Ht (e_height e) bh) as [Hnd Hall].
  exists p, bh, q. cbn zeta. split_and!; try done. apply Forall_forall. intros v Hv. by apply Hfrom in Hv.
Qed.

(** Over any run of the command loop the chain only grows at its end, and the height is
    the starting height plus the number of blocks committed since. *)
Theorem engine_run_chain (cs : list (Z * ConsensusCommand)) (e e' : Engine W) :
  engine_run cs e e' -> tables_ok e -> 0 <= e_height e ->
  e_height e + Z.of_nat (length cs) <= U64_MAX ->
  exists new, committed_blocks e' = committed_blocks e ++ new
    /\ e_height e' = e_height e + Z.of_nat (length new) /\ (length new <= length cs)%nat /\ tables_ok e'.
Proof.
  induction 1 as [e|now c cs e e1 e2 r Hc Hrun IH]; intros Hok Hpos Hmax.
  { exists []. rewrite app_nil_r. cbn. by split_and!; [|lia|lia|]. }
  cbn [length] in *. apply handle_command_cases in Hc as (Ht & Hs & Hcase); [|lia|done].
  assert (Hstep : exists l, committed_blocks e1 = committed_blocks e ++ l
            /\ e_height e1 = e_height e + Z.of_nat (length l) /\ (length l <= 1)%nat).
  { destruct Hcase as [[]|(bh & p & _ & p' & q & _ & [] & _)]; [exists []|eexists [_]; split_and!; [done|done|done]].
    rewrite app_nil_r. cbn. by split_and!; [|lia|lia]. }
  destruct Hstep as (l & Hl & Hht & Hlen). destruct (IH Ht) as (new & Hn & Hh2 & Hlen2 & Ht2); [lia|lia|].
  exists (l ++ new). rewrite app_assoc, <- Hl, length_app. by split_and!; [|lia|lia|].
Qed.

(** The hash a quorum voted for and the membership of its voters are not checked: any
    precommit, of any voter, for any hash, that completes a count of [2n/3 + 1] at the current
    height and round makes the engine commit the proposal it happens to hold. *)
Theorem engine_commits_held_proposal (now : Z) (v : Vote) (p : Proposal) (q : Z) (e : Engine W) :
  vote_type v = Precommit -> v_height v = e_height e -> v_round v = e_round e ->
  0 <= e_height e < U64_MAX -> current_proposal e = Some p ->
  two_thirds (E := PacyteError) (set_active_count (validator_set e)) = Ok q ->
  q <= vote_count (record_vote v (e_precommits e)) (e_height e) (v_block_hash v) ->
  (forall w, (apply_block (p_block p) w).1 = Ok tt) -> (forall w, (save_block (p_block p) w).1 = Ok tt) ->
  (forall l w, (cleanup l w).1 = Ok tt) ->
  committed_blocks (handle_vote now v e).2 = committed_blocks e ++ [block_hash (p_block p)].
Proof.
  intros Ht Hh Hr Hmax Hp Hq Hle Happly Hsave Hclean.
  unfold handle_vote, sbind at 1, sget at 1. cbn beta iota. unfold sbind at 1, sget at 1. cbn beta iota.
  rewrite Hh, Hr, !Z.eqb_refl. cbn [negb orb]. unfold sbind at 1, engine_add_vote. rewrite Ht.
  unfold smod at 1. cbn beta iota. unfold check_precommit_quorum, sbind at 1, sget at 1. cbn beta iota.
  unfold sbind at 1. cbn [validator_set set_vote_maps e_precommits]. rewrite Hq.
  rewrite (proj2 (Z.leb_le _ _)) by done. unfold sbind at 1, smod at 1. cbn beta iota.
  unfold engine_commit_block, sbind at 1. cbn [current_proposal send_event set_vote_maps]. rewrite Hp.
  cbn [ok_or]. unfold sbind at 1, on_world at 1. cbn beta iota.
  match goal with |- context [apply_block ?b ?w] =>
    pose proof (Happly w) as Ha; destruct (apply_block b w) as [ra w1] end. cbn in Ha. subst ra. cbn beta iota.
  unfold sbind at 1, on_world at 1. cbn beta iota.
  match goal with |- context [save_block ?b ?w] =>
    pose proof (Hsave w) as Ha; destruct (save_block b w) as [ra w2] end. cbn in Ha. subst ra. cbn beta iota.
  unfold sbind at 1, on_world at 1. cbn beta iota.
  match goal with |- context [cleanup ?b ?w] =>
    pose proof (Hclean b w) as Ha; destruct (cleanup b w) as [ra w3] end. cbn in Ha. subst ra. cbn beta iota.
  unfold sbind, smod, slift, add_u64. rewrite arith_fits by (unfold fits, U64_MAX in *; lia). cbn beta iota.
  match goal with |- committed_blocks (start_new_round ?a ?b ?c ?s).2 = _ =>
    destruct (start_new_round a b c s) as [o e2] eqn:H end.
  apply start_new_round_frame in H as [_ []]. cbn in *. congruence.
Qed.
End Commits.

(** ** Concrete runs *)

Section Witnesses.
#[local] Existing Instance release_profile.
#[local] Existing Instance toy_sha3.
#[local] Instance no_bincode : Bincode := fun _ => None.
(** A node whose world is the list of saved blocks. *)
#[local] Instance chain_env : NodeEnv (list Block) := {|
  get_latest_block := sget last;
  save_block b := smod (fun w => w ++ [b]);
  apply_block b := sret tt;
  select_for_block _ _ := sret [];
  cleanup _ := sret tt;
  broadcast _ := sret tt
|}.

(** One active validator, this node; it holds a proposal for height 1. *)
Definition demo_engine : Engine (list Block) :=
  set_proposal (Some demo_proposal)
    (set_height_round 1 0
       (engine_update_validator_set (mkSet [mkInfo 1 zero_address [] 1 1 true] 1 0)
          (engine_new default_config []))).
(** A precommit of an unknown voter for a hash that is not the proposal's. *)
Definition stray_vote : Vote := vote_new 0 1 0 zero_hash 99 Precommit.

Lemma demo_tables_ok : tables_ok demo_engine.
Proof.
  split; intros h bh; unfold votes_at; cbn; rewrite lookup_empty; (split; [apply NoDup_nil_2|constructor]).
Qed.

Lemma engine_commits_held_proposal_witness :
  v_block_hash stray_vote <> block_hash demo_block
  /\ committed_blocks (handle_vote 0 stray_vote demo_engine).2 = [block_hash demo_block].
Proof.
  split; [by vm_compute|].
  apply (engine_commits_held_proposal 0 stray_vote demo_proposal 1 demo_engine); try reflexivity.
  by vm_compute.
Defined.

Definition after_vote : PacyteResult (option unit) * Engine (list Block) := handle_command 0 (CmdVoteReceived stray_vote) demo_engine.
Lemma after_vote_eq : handle_command 0 (CmdVoteReceived stray_vote) demo_engine = (after_vote.1, after_vote.2).
Proof. apply surjective_pairing. Qed.
Lemma after_vote_commits : committed_blocks after_vote.2 = [block_hash demo_block].
Proof. vm_compute. reflexivity. Qed.
Lemma demo_height_fits : 0 <= e_height demo_engine < U64_MAX.
Proof. by vm_compute. Qed.
Lemma demo_quorum : two_thirds (E := PacyteError) (set_active_count (validator_set demo_engine)) = Ok 1.
Proof. vm_compute. reflexivity. Qed.
Lemma engine_commit_needs_quorum_witness : committed_blocks after_vote.2 = [block_hash demo_block]
  /\ exists bh, 1 <= Z.of_nat (length (votes_at (e_precommits after_vote.2) (e_height demo_engine) bh)).
Proof.
  split; [exact after_vote_commits|].
  destruct (engine_commit_needs_quorum 0 (CmdVoteReceived stray_vote) demo_engine after_vote.2 after_vote.1
    demo_height_fits demo_tables_ok after_vote_eq) as [_ [[H _]|(p & bh & q & _ & _ & _ & Hq & Hle & _)]].
  - rewrite after_vote_commits in H. discriminate H.
  - rewrite demo_quorum in Hq. injection Hq as <-. exists bh. exact Hle.
Defined.

Lemma engine_run_chain_witness :
  exists e' new, engine_run [(0, CmdVoteReceived stray_vote)] demo_engine e'
    /\ committed_blocks e' = [] ++ new /\ e_height e' = 1 + Z.of_nat (length new).
Proof.
  set (e' := (handle_command 0 (CmdVoteReceived stray_vote) demo_engine).2).
  assert (Hrun : engine_run [(0, CmdVoteReceived stray_vote)] demo_engine e').
  { assert (H1 : (handle_command 0 (CmdVoteReceived stray_vote) demo_engine).1 = Ok (Some tt)) by (by vm_compute).
    eapply (run_cons _ _ _ _ e' _ tt); [|constructor]. rewrite <- H1. apply surjective_pairing. }
  destruct (engine_run_chain _ _ _ Hrun demo_tables_ok) as (new & H & Hh & _); [by vm_compute..|].
  exists e', new. split; [exact Hrun|]. split; [exact H|exact Hh].
Defined.
End Witnesses.
