(* ===== verification/EngineLoop.v ===== *)
(** * The loop of the engine (src/consensus/engine.rs: [run] and the [Consensus] trait)

    How the engine is started, which height it takes from the storage, which events its loop handles,
    and how it is stopped.  The two receivers can be taken once: a flag says whether each is still
    there.  [clone_engine] shares every lock, so the thread works on this state; what arrives in
    the [select!] is a list of events.  The answers of [get_block_height] are arguments. *)

From stdpp Require Import strings.
From S2P Require Import Prelude Hashing Errors Types Block Validators Votes Safety Engine EngineProps.
Abbreviation length := List.length.

Module Loop.

Record Runtime (W : Type) : Type := mkRuntime {
  rt_engine : Engine W;
  rt_cmd_rx : bool;
  rt_event_rx : bool;
  rt_shutdown : bool
}.
Arguments mkRuntime {W}.
Arguments rt_engine {W}.
Arguments rt_cmd_rx {W}.
Arguments rt_event_rx {W}.
Arguments rt_shutdown {W}.

(** What the [select!] of the loop receives; [M] is a message of a peer. *)
Inductive LoopEvent (M : Type) : Type :=
| Command (now : Z) (c : ConsensusCommand)
| PeerMessage (m : M)
| Shutdown.
Arguments Command {M}.
Arguments PeerMessage {M}.
Arguments Shutdown {M}.

Section Run.
Context {W Msg : Type} `{Env : !NodeEnv W} `{BP : BuildProfile} `{S : Sha3} `{Bin : Bincode}.
Abbreviation M := (ST (Runtime W) PacyteError).

Definition runtime_new (c : ConsensusConfig) (w : W) : Runtime W := mkRuntime (engine_new c w) true true false.
Definition on_engine {A} (c : ST (Engine W) PacyteError A) : M A :=
  fun r => let '(o, e) := c (rt_engine r) in (o, mkRuntime e (rt_cmd_rx r) (rt_event_rx r) (rt_shutdown r)).

(** [get_block_height().await.unwrap_or(0)] raises the height. *)
Definition saved_height (saved : PacyteResult Z) : Outcome PacyteError Z :=
  match saved with Ok h => Ok h | Err _ => Ok 0 | Panic => Panic | Deadlock => Deadlock end.
Definition take_saved (saved : PacyteResult Z) : M unit :=
  do! h := slift (saved_height saved) in
  on_engine (smod (fun e => if e_height e <? h then set_height_round h (e_round e) e else e)).

(** [run] up to its loop. *)
Definition run_prologue (now : Z) (saved saved' : PacyteResult Z) : M unit :=
  run! take_saved saved in
  do! there := sget rt_cmd_rx in
  run! smod (fun r => mkRuntime (rt_engine r) false (rt_event_rx r) (rt_shutdown r)) in
  if negb there then slift Panic
  else
    do! h := sget (fun r => e_height (rt_engine r)) in
    run! on_engine (start_new_round now h 0) in
    take_saved saved'.

(** The loop: [true] when it was left, [false] when it still waits after the events. *)
Fixpoint run_loop (evs : list (LoopEvent Msg)) : M bool :=
  match evs with
  | [] => sret false
  | Command now c :: evs =>
      do! more := on_engine (handle_command now c) in
      match more with Some _ => run_loop evs | None => sret true end
  | PeerMessage _ :: evs => run_loop evs
  | Shutdown :: _ => sret true
  end.
Definition engine_main (now : Z) (saved saved' : PacyteResult Z) (evs : list (LoopEvent Msg)) : M bool :=
  run! run_prologue now saved saved' in
  run_loop evs.

(** ** The trait *)

(** [start] sets the state and spawns the thread; an error of [run] is only logged. *)
Definition engine_start (now : Z) (saved saved' : PacyteResult Z) (evs : list (LoopEvent Msg)) : M unit :=
  run! on_engine (smod (set_cstate Idle)) in
  fun r => let '(o, r) := engine_main now saved saved' evs r in
           (match o with Ok _ | Err _ => Ok tt | Panic => Ok tt | Deadlock => Deadlock end, r).
Definition engine_stop : M unit :=
  run! smod (fun r => mkRuntime (rt_engine r) (rt_cmd_rx r) (rt_event_rx r) true) in
  on_engine (smod (set_cstate Idle)).
(** The receiver lives in the engine or in the running thread: sending succeeds. *)
Definition send_command (c : ConsensusCommand) : M unit := on_engine (smod (send_cmd c)).
Definition subscribe_events : M unit :=
  do! there := sget rt_event_rx in
  run! smod (fun r => mkRuntime (rt_engine r) (rt_cmd_rx r) false (rt_shutdown r)) in
  if negb there then slift Panic else sret tt.
Definition is_validator (e : Engine W) : bool := bool_decide (is_Some (my_validator_id e)).
Definition is_proposer (h r : Z) (e : Engine W) : PacyteResult bool := am_i_proposer h r e.

(** ** What the loop does with the network *)

Definition is_peer (ev : LoopEvent Msg) : bool := match ev with PeerMessage _ => true | _ => false end.

(** What the peers send has no effect on consensus: the loop behaves as if their messages had not
    arrived, whatever they are and wherever they come between the commands. *)
Theorem peers_have_no_say (evs : list (LoopEvent Msg)) (r : Runtime W) :
  run_loop evs r = run_loop (List.filter (fun ev => negb (is_peer ev)) evs) r.
Proof.
  revert r. induction evs as [|[now c|m|] evs IH]; intros r; [done| |exact (IH r)|done]. cbn [List.filter is_peer negb run_loop]. unfold sbind.
  destruct (on_engine (handle_command now c) r) as [[[[]|]|e| |] r1]; [apply IH|done..].
Qed.

(** ** The height after a restart *)

Definition waiting (now h r : Z) (e : Engine W) : Engine W :=
  set_cstate WaitingForBlock (send_event (EvNewRound h r) (set_cstate Proposing (set_start (Some now) (set_height_round (e_height e) r e)))).
Lemma start_waits now h r e : am_i_proposer h r e = Ok false -> start_new_round now h r e = (Ok tt, waiting now h r e).
Proof.
  intros Hp. unfold start_new_round, sbind, smod.
  match goal with |- context [am_i_proposer h r ?x] => change (am_i_proposer h r x) with (am_i_proposer h r e) end. by rewrite Hp.
Qed.
(** The engine at the height of the storage. *)
Definition raised (h : Z) (e : Engine W) : Engine W := if e_height e <? h then set_height_round h (e_round e) e else e.
Lemma raised_height h e : e_height (raised h e) = Z.max (e_height e) h.
Proof. unfold raised. destruct (Z.ltb_spec (e_height e) h); cbn; lia. Qed.
Lemma raised_proposer h k r e : am_i_proposer k r (raised h e) = am_i_proposer k r e.
Proof. unfold raised. by destruct (_ <? _). Qed.
Lemma raised_world h e : world (raised h e) = world e.
Proof. unfold raised. by destruct (_ <? _). Qed.
Lemma prologue_spec now h h' r : rt_cmd_rx r = true ->
  run_prologue now (Ok h) (Ok h') r =
  let e := raised h (rt_engine r) in
  match start_new_round now (e_height e) 0 e with
  | (Ok _, e') => (Ok tt, mkRuntime (raised h' e') false (rt_event_rx r) (rt_shutdown r))
  | (Err x, e') => (Err x, mkRuntime e' false (rt_event_rx r) (rt_shutdown r))
  | (Panic, e') => (Panic, mkRuntime e' false (rt_event_rx r) (rt_shutdown r))
  | (Deadlock, e') => (Deadlock, mkRuntime e' false (rt_event_rx r) (rt_shutdown r))
  end.
Proof.
  intros Hrx. unfold run_prologue, take_saved, sbind, slift, saved_height, on_engine, smod, sget. cbn [rt_engine rt_cmd_rx rt_event_rx rt_shutdown].
  fold (raised h (rt_engine r)). rewrite Hrx. cbn [negb]. by destruct (start_new_round _ _ _ _) as [[[]| | |] e'].
Qed.

(** A restarted engine repeats the height of the last block: with block [h] stored it starts its round at
    [h], not [h + 1] where it was after committing that block; a second [run] panics. *)
Theorem restart_repeats_height (now h : Z) (c : ConsensusConfig) (w : W) :
  0 <= h ->
  exists r, run_prologue now (Ok h) (Ok h) (runtime_new c w) = (Ok tt, r)
    /\ e_height (rt_engine r) = h /\ e_round (rt_engine r) = 0 /\ cstate (rt_engine r) = WaitingForBlock
    /\ (run_prologue now (Ok h) (Ok h) r).1 = Panic.
Proof.
  intros Hh. rewrite prologue_spec by done. cbn zeta. set (e := raised h (rt_engine (runtime_new c w))).
  assert (He : e_height e = h) by (subst e; rewrite raised_height; cbn; lia).
  rewrite start_waits by (subst e; by rewrite raised_proposer). set (r := mkRuntime _ _ _ _). exists r. split; [done|].
  assert (Hr : rt_engine r = waiting now (e_height e) 0 e) by (subst r; cbn [rt_engine]; unfold raised; cbn [waiting e_height set_cstate send_event set_start set_height_round]; by rewrite He, Z.ltb_irrefl).
  rewrite Hr. split_and!; [by cbn|done|done|].
  unfold run_prologue, take_saved, sbind, slift, saved_height, on_engine, smod, sget. done.
Qed.

(** The proposer of a restarted engine builds on the last block a block of the same height, which
    no header validation accepts. *)
Theorem restart_proposal_invalid (now now' h : Z) (e e' : Engine W) (b parent : Block) (w' : W) :
  get_latest_block (world e) = (Ok (Some parent), w') -> height (header parent) = h -> fits 64 (h + 1) ->
  create_block now h e = (Ok b, e') ->
  height (header b) = h /\ previous_hash (header b) = block_hash parent /\
  header_validate (E := PacyteError) now' (header b) (header parent) = Ok false.
Proof.
  intros Hl Hp Hf Hc. unfold create_block, sbind, on_world, sget, sret, slift in Hc. rewrite Hl in Hc. cbn in Hc.
  destruct (select_for_block _ _ w') as [[txs| | |] w2]; try done. cbn in Hc. destruct (my_validator_id e) as [me|]; try done. cbn in Hc. unfold block_new in Hc.
  destruct (transactions_root _) as [root| | |]; try done. cbn [obind] in Hc. injection Hc as <- <-. cbn [header height previous_hash].
  split_and!; [done|done|]. unfold header_validate, add_u64. rewrite Hp, arith_fits by done. cbn [obind height].
  by rewrite (proj2 (Z.eqb_neq _ _)) by lia.
Qed.

(** The first proposer of a new chain stops its own engine: at height zero without blocks the block to
    propose has no parent, so [run] ends before its loop, with an error for the block of height 2^64 - 1
    in a release build and with a panic of the subtraction in a checked one. *)
Theorem first_proposer_stops (now : Z) (evs : list (LoopEvent Msg)) (r : Runtime W) (w' : W) :
  rt_cmd_rx r = true -> e_height (rt_engine r) = 0 -> am_i_proposer 0 0 (rt_engine r) = Ok true ->
  get_latest_block (world (rt_engine r)) = (Ok None, w') ->
  (engine_main now (Ok 0) (Ok 0) evs r).1 = if overflow_checks then Panic else Err (PE.BlockNotFound (2 ^ 64 - 1)).
Proof.
  intros Hrx Hh Hp Hl. unfold engine_main. unfold sbind at 1. rewrite prologue_spec by done. cbn zeta.
  assert (He : raised 0 (rt_engine r) = rt_engine r) by (unfold raised; by rewrite Hh). rewrite He, Hh.
  unfold start_new_round, sbind, smod.
  match goal with |- context [am_i_proposer 0 0 ?x] => change (am_i_proposer 0 0 x) with (am_i_proposer 0 0 (rt_engine r)) end. rewrite Hp.
  unfold create_block, sbind, on_world. 
  match goal with |- context [get_latest_block (world ?x)] => change (world x) with (world (rt_engine r)) end. rewrite Hl.
  unfold slift, sub_u64, arith. rewrite decide_False by (unfold fits; lia). by destruct overflow_checks.
Qed.
End Run.

(** ** Witnesses *)

Section LoopWitnesses.
#[local] Existing Instance release_profile.
#[local] Existing Instance toy_sha3.
#[local] Existing Instance no_bincode.
#[local] Existing Instance chain_env.

Lemma restart_repeats_height_witness :
  exists r, run_prologue 5 (Ok 7) (Ok 7) (runtime_new default_config []) = (Ok tt, r) /\ e_height (rt_engine r) = 7.
Proof.
  destruct (restart_repeats_height 5 7 default_config [] ltac:(lia)) as (r & H1 & H2 & _). exists r. split; [exact H1|exact H2].
Defined.

(** The only validator of a chain without blocks. *)
Definition first_validator : Runtime (list Block) :=
  mkRuntime (set_validator 1 (fun _ => []) (engine_update_validator_set (mkSet [mkInfo 1 zero_address [] 1 1 true] 1 0) (engine_new default_config []))) true true false.
Lemma first_proposer_stops_witness :
  (engine_main (Msg := unit) 5 (Ok 0) (Ok 0) [] first_validator).1 = Err (PE.BlockNotFound (2 ^ 64 - 1)).
Proof. rewrite (first_proposer_stops (BP := release_profile) 5 [] first_validator []); reflexivity. Defined.
End LoopWitnesses.
End Loop.
