(* ===== verification/Burn.v ===== *)
(** * Burning (src/vault/burn.rs, the phases of src/vault/mod.rs)

    [BurnManager] with its three locks as fields (no method here asks twice for one), and the integer
    part of its reports; the percentages and estimates in [f64] are in [BurnReports]. *)

From stdpp Require Import strings.
From S2P Require Import Prelude Hashing Errors.
Abbreviation length := List.length.

Definition GENESIS_VAULT_ADDRESS : Address := replicate 32 0.
Definition TOTAL_SUPPLY : Z := 550000000000000.
Definition GENESIS_BALANCE : Z := 122500000000000.
Definition MIN_BALANCE : Z := 1000.
Definition DORMANCY_YEARS : Z := 6.
Definition DORMANCY_SECONDS : Z := DORMANCY_YEARS * 365 * 24 * 60 * 60.

Inductive SupplyPhase : Type := GreatBurn | Transition | GoldenEra.
#[export] Instance SupplyPhase_eq_dec : EqDecision SupplyPhase.
Proof. solve_decision. Defined.

Definition from_supply (supply : Z) : SupplyPhase :=
  if 400000000000000 <? supply then GreatBurn
  else if 250000000000000 <? supply then Transition
  else GoldenEra.

Inductive BurnReason : Type :=
  TransactionFee | DormantAccount | Slashing | SovereignDirective | BridgeTimeout | OtherReason (s : string).
#[export] Instance BurnReason_eq_dec : EqDecision BurnReason.
Proof. solve_decision. Defined.

Definition reason_to_string (r : BurnReason) : string :=
  match r with
  | TransactionFee => "transaction_fee"
  | DormantAccount => "dormant_account"
  | Slashing => "slashing"
  | SovereignDirective => "sovereign_directive"
  | BridgeTimeout => "bridge_timeout"
  | OtherReason s => s
  end.

Record BurnRecord : Type := mkBurn {
  burn_amount : Z;
  reason : BurnReason;
  burn_timestamp : Z;
  block_height : option Z;
  remaining_supply : Z;
  phase : SupplyPhase
}.

Record BurnManager : Type := mkBurnManager {
  total_burned : Z;
  burn_history : list BurnRecord;
  current_supply : Z
}.
Definition burn_manager_new (initial_supply : Z) : BurnManager := mkBurnManager 0 [] initial_supply.
Definition set_burned x m := mkBurnManager x (burn_history m) (current_supply m).
Definition set_history x m := mkBurnManager (total_burned m) x (current_supply m).
Definition set_supply x m := mkBurnManager (total_burned m) (burn_history m) x.

Section Burn.
Context `{BP : BuildProfile}.
Abbreviation M := (ST BurnManager PacyteError).

Definition burn (now amount : Z) (r : BurnReason) (bh : option Z) : M BurnRecord :=
  if amount =? 0 then sfail PE.InvalidAmount
  else
    do! supply := sget current_supply in
    if supply <? amount then sfail PE.InsufficientSupply
    else
      do! supply' := slift (sub_u128 supply amount) in
      run! smod (set_supply supply') in
      do! burned := sget total_burned in
      do! burned' := slift (add_u128 burned amount) in
      run! smod (set_burned burned') in
      let record := mkBurn amount r now bh supply' (from_supply supply') in
      run! smod (fun m => set_history (burn_history m ++ [record]) m) in
      sret record.

Definition get_history (limit : Z) (m : BurnManager) : list BurnRecord :=
  take (Z.to_nat limit) (reverse (burn_history m)).

Definition sum_u128 {E} (l : list Z) : Outcome E Z :=
  foldl (fun acc x => let? a := acc in add_u128 a x) (Ok 0) l.

Definition total_burned_by_reason (r : BurnReason) (m : BurnManager) : PacyteResult Z :=
  sum_u128 (map burn_amount (List.filter (fun x => bool_decide (reason x = r)) (burn_history m))).

(** One record added to the running totals, [break]ing at its phase. *)
Fixpoint add_to_phase (rec : BurnRecord) (totals : list (SupplyPhase * Z)) :
  PacyteResult (list (SupplyPhase * Z)) :=
  match totals with
  | [] => Ok []
  | (p, t) :: rest =>
      if bool_decide (p = phase rec) then let? t' := add_u128 t (burn_amount rec) in Ok ((p, t') :: rest)
      else let? rest' := add_to_phase rec rest in Ok ((p, t) :: rest')
  end.

Definition burned_by_phase (m : BurnManager) : PacyteResult (list (SupplyPhase * Z)) :=
  foldl (fun acc rec => let? totals := acc in add_to_phase rec totals)
    (Ok [(GreatBurn, 0); (Transition, 0); (GoldenEra, 0)]) (burn_history m).

(** [history.iter().map(|r| r.amount).max().unwrap_or(0)], as [stats] reports it. *)
Definition largest_burn (m : BurnManager) : Z := foldr Z.max 0 (map burn_amount (burn_history m)).

(** ** Properties *)

(** Calls of [burn] with [u128] amounts, whether they succeed or fail. *)
Inductive burn_reachable (initial : Z) : BurnManager -> Prop :=
| breach_new : burn_reachable initial (burn_manager_new initial)
| breach_burn now amount r bh m m' o :
    burn_reachable initial m -> fits 128 amount -> burn now amount r bh m = (o, m') ->
    burn_reachable initial m'.

(** The history explains the supply: each record holds what was left after it. *)
Fixpoint history_ok (supply : Z) (h : list BurnRecord) : Prop :=
  match h with
  | [] => True
  | r :: h' => 0 < burn_amount r <= supply /\ remaining_supply r = supply - burn_amount r
               /\ phase r = from_supply (remaining_supply r) /\ history_ok (remaining_supply r) h'
  end.

Definition burned_sum (h : list BurnRecord) : Z := list_sum (map burn_amount h).

Lemma burned_sum_app h r : burned_sum (h ++ [r]) = burned_sum h + burn_amount r.
Proof. unfold burned_sum. rewrite map_app, list_sum_app. cbn. lia. Qed.

Lemma history_ok_app supply h r :
  history_ok supply (h ++ [r])
  <-> history_ok supply h
      /\ 0 < burn_amount r <= supply - burned_sum h
      /\ remaining_supply r = supply - burned_sum h - burn_amount r
      /\ phase r = from_supply (remaining_supply r).
Proof.
  revert supply. induction h as [|x h IH]; intros supply; cbn.
  - unfold burned_sum. cbn. rewrite Z.sub_0_r. tauto.
  - rewrite IH. unfold burned_sum, list_sum. cbn.
    split; intros H; decompose [and] H; split_and!; try done; lia.
Qed.

(** What [burn] does to the manager. *)
Lemma burn_cases now amount r bh m o m' initial :
  fits 128 initial -> 0 <= current_supply m -> 0 <= total_burned m ->
  current_supply m + total_burned m = initial -> fits 128 amount -> burn now amount r bh m = (o, m') ->
  (m' = m /\ exists e, o = Err e)
  \/ (0 < amount <= current_supply m
      /\ exists rec, o = Ok rec /\ burn_amount rec = amount
           /\ rec = mkBurn amount r now bh (current_supply m - amount) (from_supply (current_supply m - amount))
           /\ m' = mkBurnManager (total_burned m + amount) (burn_history m ++ [rec]) (current_supply m - amount)).
Proof.
  intros Hi Hs Hb Hsum Ha. unfold burn, fits in *.
  destruct (amount =? 0) eqn:H0; [intros [= <- <-]; eauto|]. apply Z.eqb_neq in H0.
  unfold sbind at 1, sget at 1. cbn beta iota.
  destruct (_ <? amount) eqn:Hlt; [intros [= <- <-]; eauto|]. apply Z.ltb_ge in Hlt.
  unfold sbind, slift, smod, sget, sub_u128. rewrite arith_fits by (unfold fits; lia). cbn.
  unfold add_u128. rewrite arith_fits by (unfold fits; lia). cbn. intros [= <- <-]. right.
  split; [lia|]. eauto.
Qed.

Lemma burn_reachable_inv initial m :
  fits 128 initial -> burn_reachable initial m ->
  0 <= current_supply m /\ total_burned m = burned_sum (burn_history m)
  /\ current_supply m + total_burned m = initial /\ history_ok initial (burn_history m).
Proof.
  intros Hi. induction 1 as [|now amount r bh m m' o _ (Hs & Hb & Hsum & Hh) Ha Hburn].
  { unfold fits in Hi. cbn. by split_and!; [lia|..|lia|]. }
  assert (0 <= total_burned m).
  { rewrite Hb. unfold burned_sum. clear -Hh. revert initial Hh. unfold list_sum.
    induction (burn_history m) as [|x h IH]; intros i Hh; cbn in *; [done|].
    destruct Hh as (? & _ & _ & Hh). apply IH in Hh. lia. }
  destruct (burn_cases now amount r bh m o m' initial Hi Hs H Hsum Ha Hburn)
    as [[-> _]|(Hle & rec & _ & Hamt & Hrec & ->)]; [done|].
  cbn [current_supply total_burned burn_history]. rewrite burned_sum_app, history_ok_app. subst rec.
  cbn [burn_amount remaining_supply phase] in *.
  split_and!; try done; try lia.
Qed.

Lemma add_to_phase_sum rec totals totals' :
  phase rec ∈ totals.*1 -> 0 <= burn_amount rec -> Forall (fun t => 0 <= t) totals.*2 ->
  list_sum totals.*2 + burn_amount rec < 2 ^ 128 -> add_to_phase rec totals = Ok totals' ->
  totals'.*1 = totals.*1 /\ Forall (fun t => 0 <= t) totals'.*2
  /\ list_sum totals'.*2 = list_sum totals.*2 + burn_amount rec.
Proof.
  intros Hin Hpos Ht Hmax. revert totals' Hin Ht Hmax.
  induction totals as [|[p t] rest IH]; intros totals' Hin Ht Hmax; [by apply not_elem_of_nil in Hin|].
  cbn in *. apply Forall_cons in Ht as [Ht Hrest]. pose proof (list_sum_nonneg _ Hrest). fold (list_sum rest.*2) in *.
  case_bool_decide as Hp.
  - unfold add_u128. rewrite arith_fits by (unfold fits; lia). cbn. intros [= <-]. cbn.
    fold (list_sum rest.*2). split_and!; [done|constructor; [lia|done]|lia].
  - intros H1. inv_bind H1. injection H1 as <-. cbn. fold (list_sum a.*2).
    destruct (IH a) as (? & ? & ?); [set_solver|done|lia|done|].
    split_and!; [congruence|by constructor|lia].
Qed.

Lemma add_to_phase_total rec totals :
  0 <= burn_amount rec -> Forall (fun t => 0 <= t) totals.*2 ->
  list_sum totals.*2 + burn_amount rec < 2 ^ 128 -> exists totals', add_to_phase rec totals = Ok totals'.
Proof.
  intros Hpos. induction totals as [|[p t] rest IH]; intros Ht Hmax; cbn in *; [eauto|].
  apply Forall_cons in Ht as [Ht Hrest]. pose proof (list_sum_nonneg _ Hrest). fold (list_sum rest.*2) in *.
  case_bool_decide; [unfold add_u128; rewrite arith_fits by (unfold fits; lia); cbn; eauto|].
  destruct IH as [x ->]; [done|lia|]. cbn. eauto.
Qed.

Lemma phase_totals h initial :
  history_ok initial h -> burned_sum h < 2 ^ 128 ->
  exists totals, foldl (fun acc rec => let? totals := acc in add_to_phase rec totals)
      (Ok [(GreatBurn, 0); (Transition, 0); (GoldenEra, 0)]) h = Ok totals
    /\ totals.*1 = [GreatBurn; Transition; GoldenEra] /\ Forall (fun t => 0 <= t) totals.*2
    /\ list_sum totals.*2 = burned_sum h.
Proof.
  induction h as [|r h IH] using rev_ind; intros Hh Hmax.
  { eexists. cbn. split_and!; [done|done|by repeat constructor|done]. }
  rewrite history_ok_app in Hh. destruct Hh as (Hh & Hr & _). rewrite burned_sum_app in *.
  destruct IH as (totals & Hfold & Hfst & Hpos & Hsum); [done|lia|].
  rewrite foldl_app, Hfold. cbn [foldl obind].
  destruct (add_to_phase_total r totals) as [x Hx]; [lia|done|lia|].
  destruct (add_to_phase_sum r totals x) as (? & ? & ?); [|lia|done|lia|done|].
  { rewrite Hfst. destruct (phase r); set_solver. }
  exists x. split_and!; [done|congruence|done|lia].
Qed.

(** After any sequence of burns, failed ones included, the supply and what was burned add
    up to the initial supply, the history accounts for all of it record by record (each with
    the supply it left and that supply's phase), and the totals by phase add up to what was
    burned, without overflow. *)
Theorem burn_conservation (initial : Z) (m : BurnManager) :
  fits 128 initial -> burn_reachable initial m ->
  0 <= current_supply m /\ current_supply m + total_burned m = initial
  /\ history_ok initial (burn_history m) /\ total_burned m = list_sum (map burn_amount (burn_history m))
  /\ exists totals, burned_by_phase m = Ok totals /\ totals.*1 = [GreatBurn; Transition; GoldenEra]
       /\ list_sum totals.*2 = total_burned m.
Proof.
  intros Hi Hm. destruct (burn_reachable_inv initial m Hi Hm) as (Hs & Hb & Hsum & Hh).
  split_and!; [done..|]. unfold burned_by_phase. unfold fits in Hi.
  assert (Hmax : burned_sum (burn_history m) < 2 ^ 128) by lia. rewrite Hb. clear Hm Hb Hsum Hs.
  destruct (phase_totals (burn_history m) initial Hh Hmax) as (totals & -> & Hfst & _ & Hsum).
  by exists totals.
Qed.
End Burn.

Section Witnesses.
#[local] Existing Instance release_profile.

Lemma burn_conservation_witness :
  exists m, burn_reachable 1000 m /\ current_supply m = 600 /\ current_supply m + total_burned m = 1000.
Proof.
  set (m1 := (burn 1 400 Slashing None (burn_manager_new 1000)).2).
  assert (Hm : burn_reachable 1000 (burn 2 5000 Slashing None m1).2).
  { refine (breach_burn 1000 2 5000 Slashing None m1 _ _ _ _ (surjective_pairing _)); [|by vm_compute].
    refine (breach_burn 1000 1 400 Slashing None _ _ _ (breach_new _) _ (surjective_pairing _)). by vm_compute. }
  exists (burn 2 5000 Slashing None m1).2. split; [exact Hm|]. split; [by vm_compute|].
  apply (burn_conservation 1000); [by vm_compute|exact Hm].
Defined.
End Witnesses.
