(* ===== verification/Floats.v ===== *)
(** * Floating point (the [f64] of Rust)

    Fees per byte and priorities are [f64] values.  They are the binary64 numbers of IEEE 754,
    computed by the executable specification of the Standard Library, with the conversions of
    Rust's [as]. *)

From Stdlib Require Import SpecFloat.
From S2P Require Import Prelude.

Abbreviation f64 := spec_float.
#[export] Instance f64_eq_dec : EqDecision f64.
Proof. intros x y. unfold Decision. decide equality; (apply Bool.bool_dec || apply Pos.eq_dec || apply Z.eq_dec). Defined.

(** [z as f64] from an unsigned type: the nearest number, ties to even. *)
Definition f64_of (z : Z) : f64 := binary_normalize 53 1024 z 0 false.
Definition f64_add : f64 -> f64 -> f64 := SFadd 53 1024.
Definition f64_sub : f64 -> f64 -> f64 := SFsub 53 1024.
Definition f64_mul : f64 -> f64 -> f64 := SFmul 53 1024.
Definition f64_div : f64 -> f64 -> f64 := SFdiv 53 1024.
Definition f64_lt : f64 -> f64 -> bool := SFltb.

(** [x as uN]: truncates, saturates, and takes NaN to zero. *)
Definition f64_to_uint (w : Z) (x : f64) : Z :=
  match x with
  | S754_nan | S754_zero _ | S754_infinity true | S754_finite true _ _ => 0
  | S754_infinity false => 2 ^ w - 1
  | S754_finite false m e =>
      Z.min (2 ^ w - 1) (if 0 <=? e then Z.shiftl (Zpos m) e else Z.shiftr (Zpos m) (- e))
  end.

(** A decimal literal [n/d]: the quotient of its digits is correctly rounded. *)
Definition literal (n d : Z) : f64 := f64_div (f64_of n) (f64_of d).
Definition f64_1_1 : f64 := literal 11 10.
Definition f64_one : f64 := f64_of 1.

(** [x.powi(n)] as the compiler's runtime computes it: by repeated squaring, then the reciprocal
    for a negative exponent.  The exponent is below [2 ^ 32] in absolute value. *)
Fixpoint powi_loop (fuel : nat) (a r : f64) (b : Z) : f64 :=
  match fuel with
  | O => r
  | S fuel' =>
      let r' := if Z.odd b then f64_mul r a else r in
      let b' := Z.quot b 2 in
      if b' =? 0 then r' else powi_loop fuel' (f64_mul a a) r' b'
  end.
Definition f64_powi (x : f64) (n : Z) : f64 :=
  let r := powi_loop 32 x f64_one n in
  if n <? 0 then f64_div f64_one r else r.

Lemma f64_to_uint_fits w x : 0 <= w -> fits w (f64_to_uint w x).
Proof.
  intros Hw. assert (0 < 2 ^ w) by (by apply Z.pow_pos_nonneg). unfold fits, f64_to_uint.
  destruct x as [[]|[]| |[] m e]; try lia.
  destruct (0 <=? e); [assert (0 <= Z.shiftl (Zpos m) e) by (by apply Z.shiftl_nonneg)
                      |assert (0 <= Z.shiftr (Zpos m) (- e)) by (by apply Z.shiftr_nonneg)]; lia.
Qed.
