(* ===== verification/State.v ===== *)
(** * State (src/storage/state.rs, the storage interface and memory storage of src/storage/mod.rs)

    [StateManager] keeps accounts in three layers: a cache, the uncommitted (dirty) accounts,
    and a [Storage].  The storage is an interface: the class [Storage] gives the operations of
    the trait the manager uses, [StorageLaws] what a storage that does not fail promises;
    [MemoryStorage] implements both. *)

From stdpp Require Import strings pretty.
From S2P Require Import Prelude Hashing Errors Types Merkle Block.
Abbreviation length := List.length.

(** ** Write batches *)

Record WriteBatch : Type := mkBatch {
  wb_blocks : list (Z * Block);
  wb_transactions : list (Hash * Transaction);
  wb_accounts : list (Address * option Account);
  wb_state_roots : list (Z * Hash)
}.
Definition batch_new : WriteBatch := mkBatch [] [] [] [].
Definition batch_is_empty (b : WriteBatch) : bool :=
  bool_decide (wb_blocks b = []) && bool_decide (wb_transactions b = [])
  && bool_decide (wb_accounts b = []) && bool_decide (wb_state_roots b = []).
Definition batch_len (b : WriteBatch) : nat :=
  length (wb_blocks b) + length (wb_transactions b) + length (wb_accounts b) + length (wb_state_roots b).
Definition batch_clear (_ : WriteBatch) : WriteBatch := batch_new.
Definition add_block (x : Block) (b : WriteBatch) : WriteBatch :=
  mkBatch (wb_blocks b ++ [(height (header x), x)]) (wb_transactions b) (wb_accounts b) (wb_state_roots b).
Definition add_transaction `{Sha3} (t : Transaction) (b : WriteBatch) : WriteBatch :=
  mkBatch (wb_blocks b) (wb_transactions b ++ [(tx_hash t, t)]) (wb_accounts b) (wb_state_roots b).
Definition add_account (a : Address) (x : Account) (b : WriteBatch) : WriteBatch :=
  mkBatch (wb_blocks b) (wb_transactions b) (wb_accounts b ++ [(a, Some x)]) (wb_state_roots b).
Definition batch_delete_account (a : Address) (b : WriteBatch) : WriteBatch :=
  mkBatch (wb_blocks b) (wb_transactions b) (wb_accounts b ++ [(a, None)]) (wb_state_roots b).
Definition add_state_root (h : Z) (r : Hash) (b : WriteBatch) : WriteBatch :=
  mkBatch (wb_blocks b) (wb_transactions b) (wb_accounts b) (wb_state_roots b ++ [(h, r)]).
Definition batch_merge (b other : WriteBatch) : WriteBatch :=
  mkBatch (wb_blocks b ++ wb_blocks other) (wb_transactions b ++ wb_transactions other)
    (wb_accounts b ++ wb_accounts other) (wb_state_roots b ++ wb_state_roots other).

(** Saving or deleting the accounts of a batch, in order. *)
Definition write_account (p : Address * option Account) (m : gmap Address Account) : gmap Address Account :=
  match p.2 with Some x => <[p.1 := x]> m | None => delete p.1 m end.
Definition write_accounts (l : list (Address * option Account)) (m : gmap Address Account) :
  gmap Address Account := foldl (fun m p => write_account p m) m l.

(** ** The storage interface *)

Class Storage (W : Type) : Type := {
  st_get_account : Address -> W -> PacyteResult (option Account);
  st_write_batch : WriteBatch -> ST W PacyteError unit;
  st_save_state_root : Z -> Hash -> ST W PacyteError unit;
  st_get_state_root : Z -> W -> PacyteResult (option Hash)
}.

(** A storage without failures, seen as a map of accounts. *)
Class StorageLaws (W : Type) `{Storage W} : Type := {
  st_accounts : W -> gmap Address Account;
  st_get_account_law : forall a w, st_get_account a w = Ok (st_accounts w !! a);
  st_write_batch_law : forall b w, wb_blocks b = [] -> wb_transactions b = [] ->
    exists w', st_write_batch b w = (Ok tt, w')
      /\ st_accounts w' = write_accounts (wb_accounts b) (st_accounts w);
  st_save_state_root_law : forall h r w,
    exists w', st_save_state_root h r w = (Ok tt, w') /\ st_accounts w' = st_accounts w
}.

(** ** Memory storage *)

Record MemoryStorage : Type := mkMemory {
  ms_blocks : list Block;
  ms_transactions : gmap Hash Transaction;
  ms_accounts : gmap Address Account;
  ms_state_roots : gmap Z Hash
}.
Definition memory_storage_new : MemoryStorage := mkMemory [] ∅ ∅ ∅.
Definition set_ms_blocks x m := mkMemory x (ms_transactions m) (ms_accounts m) (ms_state_roots m).
Definition set_ms_transactions x m := mkMemory (ms_blocks m) x (ms_accounts m) (ms_state_roots m).
Definition set_ms_accounts x m := mkMemory (ms_blocks m) (ms_transactions m) x (ms_state_roots m).
Definition set_ms_roots x m := mkMemory (ms_blocks m) (ms_transactions m) (ms_accounts m) x.

Section Memory.
Context `{BP : BuildProfile} `{S : Sha3} `{Bin : Bincode}.
Abbreviation M := (ST MemoryStorage PacyteError).

(** [blocks.resize(h + 1, Block::genesis()); blocks[h] = block]. *)
Definition ms_save_block (now : Z) (b : Block) : M unit :=
  do! l := sget ms_blocks in
  let h := height (header b) in
  do! l' := slift
    (if Z.of_nat (length l) <=? h then
       let? n := add_u64 h 1 in
       let? g := block_genesis now in
       Ok (resize (Z.to_nat n) g l)
     else Ok l) in
  run! smod (set_ms_blocks l') in
  if h <? Z.of_nat (length l') then smod (set_ms_blocks (<[Z.to_nat h := b]> l')) else slift Panic.

Definition ms_get_block (h : Z) (m : MemoryStorage) : option Block := ms_blocks m !! Z.to_nat h.
Definition ms_get_block_by_hash (h : Hash) (m : MemoryStorage) : option Block :=
  List.find (fun b => bool_decide (block_hash b = h)) (ms_blocks m).
Definition ms_get_latest_block (m : MemoryStorage) : option Block := last (ms_blocks m).
Definition ms_get_block_height (m : MemoryStorage) : Z :=
  saturating_sub (Z.of_nat (length (ms_blocks m))) 1.
Definition ms_save_transaction (t : Transaction) : M unit :=
  smod (fun m => set_ms_transactions (<[tx_hash t := t]> (ms_transactions m)) m).
Definition ms_get_transaction (h : Hash) (m : MemoryStorage) : option Transaction := ms_transactions m !! h.
Definition ms_get_transactions_by_block (h : Z) (m : MemoryStorage) : list Transaction :=
  match ms_get_block h m with Some b => transactions b | None => [] end.
Definition ms_save_account (a : Address) (x : Account) : M unit :=
  smod (fun m => set_ms_accounts (<[a := x]> (ms_accounts m)) m).
Definition ms_get_account (a : Address) (m : MemoryStorage) : PacyteResult (option Account) :=
  Ok (ms_accounts m !! a).
Definition ms_delete_account (a : Address) : M unit :=
  smod (fun m => set_ms_accounts (delete a (ms_accounts m)) m).
Definition ms_account_exists (a : Address) (m : MemoryStorage) : bool := bool_decide (is_Some (ms_accounts m !! a)).
Definition ms_save_state_root (h : Z) (r : Hash) : M unit :=
  smod (fun m => set_ms_roots (<[h := r]> (ms_state_roots m)) m).
Definition ms_get_state_root (h : Z) (m : MemoryStorage) : PacyteResult (option Hash) :=
  Ok (ms_state_roots m !! h).

(** [for x in l { f(x)? }]. *)
Fixpoint for_each {A} (f : A -> M unit) (l : list A) : M unit :=
  match l with
  | [] => sret tt
  | x :: l => run! f x in for_each f l
  end.

Definition ms_write_batch (now : Z) (b : WriteBatch) : M unit :=
  run! for_each (fun p => ms_save_block now p.2) (wb_blocks b) in
  run! for_each (fun p => ms_save_transaction p.2) (wb_transactions b) in
  run! for_each (fun p => match p.2 with
                          | Some x => ms_save_account p.1 x
                          | None => ms_delete_account p.1
                          end) (wb_accounts b) in
  for_each (fun p => ms_save_state_root p.1 p.2) (wb_state_roots b).

Lemma for_each_ok {A} (f : A -> M unit) (g : A -> MemoryStorage -> MemoryStorage) l m :
  (forall x m, f x m = (Ok tt, g x m)) -> for_each f l m = (Ok tt, foldl (fun m x => g x m) m l).
Proof.
  intros Hf. revert m. induction l as [|x l IH]; intros m; cbn [for_each foldl]; [done|].
  unfold sbind. by rewrite Hf.
Qed.

Definition memory_storage (now : Z) : Storage MemoryStorage := {|
  st_get_account := ms_get_account;
  st_write_batch := ms_write_batch now;
  st_save_state_root := ms_save_state_root;
  st_get_state_root := ms_get_state_root
|}.

Definition memory_storage_laws (now : Z) : StorageLaws MemoryStorage (H := memory_storage now).
Proof.
  refine {| st_accounts := ms_accounts |}.
  - done.
  - intros [bs ts accs roots] w. cbn. intros -> ->. unfold ms_write_batch, sbind. cbn.
    set (g (p : Address * option Account) (m : MemoryStorage) := set_ms_accounts (write_account p (ms_accounts m)) m).
    rewrite (for_each_ok _ g) by (by intros [a [x|]] m).
    rewrite (for_each_ok _ (fun p m => set_ms_roots (<[p.1 := p.2]> (ms_state_roots m)) m)) by done.
    eexists. split; [reflexivity|].
    assert (Hroots : forall l m, ms_accounts (foldl (fun m (p : Z * Hash) => set_ms_roots (<[p.1 := p.2]> (ms_state_roots m)) m) m l)
      = ms_accounts m).
    { induction l as [|p l IH]; intros m; cbn; [done|]. by rewrite IH. }
    rewrite Hroots. unfold write_accounts. clear. revert w.
    induction accs as [|p accs IH]; intros w; cbn; [done|]. by rewrite IH.
  - intros h r w. by eexists.
Defined.
End Memory.

(** ** The state manager *)

(** [bincode::serialize(account)], [None] for its error. *)
Class BincodeAccount : Type := bincode_account : Account -> option (list Z).

Record StateVersion : Type := mkVersion {
  sv_height : Z;
  sv_root : Hash;
  sv_timestamp : Z;
  sv_block_hash : Hash;
  sv_parent_root : Hash
}.
Definition version_new (now h : Z) (root bh parent : Hash) : StateVersion := mkVersion h root now bh parent.

Record StateManager (W : Type) : Type := mkState {
  sm_storage : W;
  current_root : Hash;
  current_height : Z;
  account_cache : gmap Address Account;
  dirty_accounts : gmap Address Account;
  smt : SparseMerkleTree;
  versions : gmap Z StateVersion
}.
Arguments mkState {W}.
Arguments sm_storage {W}.
Arguments current_root {W}.
Arguments current_height {W}.
Arguments account_cache {W}.
Arguments dirty_accounts {W}.
Arguments smt {W}.
Arguments versions {W}.

(** [hex::encode]. *)
Definition hex_digit (d : Z) : string :=
  String (Ascii.ascii_of_nat (Z.to_nat (if d <? 10 then 48 + d else 87 + d))) EmptyString.
Definition hex_encode (l : list Z) : string :=
  String.concat "" (map (fun b => (hex_digit (b / 16) +:+ hex_digit (b mod 16))%string) l).
Definition address_short (a : Address) : string :=
  ("0x" +:+ hex_encode (take 4 a) +:+ "..." +:+ hex_encode (drop 28 a))%string.

Section State.
Context {W : Type} `{St : Storage W} `{BP : BuildProfile} `{S : Sha3} `{BA : BincodeAccount}
  `{Iter : !HashMapIter Address Account}.
Abbreviation M := (ST (StateManager W) PacyteError).

Definition set_sm_storage (x : W) (m : StateManager W) := mkState x (current_root m) (current_height m)
  (account_cache m) (dirty_accounts m) (smt m) (versions m).
Definition set_root_height (r : Hash) (h : Z) (m : StateManager W) := mkState (sm_storage m) r h
  (account_cache m) (dirty_accounts m) (smt m) (versions m).
Definition set_cache (x : gmap Address Account) (m : StateManager W) := mkState (sm_storage m) (current_root m)
  (current_height m) x (dirty_accounts m) (smt m) (versions m).
Definition set_dirty (x : gmap Address Account) (m : StateManager W) := mkState (sm_storage m) (current_root m)
  (current_height m) (account_cache m) x (smt m) (versions m).
Definition set_smt (x : SparseMerkleTree) (m : StateManager W) := mkState (sm_storage m) (current_root m)
  (current_height m) (account_cache m) (dirty_accounts m) x (versions m).
Definition set_versions (x : gmap Z StateVersion) (m : StateManager W) := mkState (sm_storage m)
  (current_root m) (current_height m) (account_cache m) (dirty_accounts m) (smt m) x.

Definition state_manager_new (w : W) : StateManager W := mkState w (smt_root smt_new) 0 ∅ ∅ smt_new ∅.

Definition on_storage {A} (c : ST W PacyteError A) : M A :=
  fun m => let '(r, w) := c (sm_storage m) in (r, set_sm_storage w m).

Definition get_account (a : Address) : M (option Account) :=
  fun m => match account_cache m !! a with
           | Some x => (Ok (Some x), m)
           | None =>
               match dirty_accounts m !! a with
               | Some x => (Ok (Some x), m)
               | None =>
                   match st_get_account a (sm_storage m) with
                   | Ok (Some x) => (Ok (Some x), set_cache (<[a := x]> (account_cache m)) m)
                   | Ok None => (Ok None, m)
                   | Err e => (Err e, m)
                   | Panic => (Panic, m)
                   | Deadlock => (Deadlock, m)
                   end
               end
           end.

Definition set_account (a : Address) (x : Account) : M unit :=
  run! smod (fun m => set_dirty (<[a := x]> (dirty_accounts m)) m) in
  smod (fun m => set_cache (<[a := x]> (account_cache m)) m).

Definition get_balance (a : Address) : M Z :=
  do! o := get_account a in sret (match o with Some x => balance x | None => 0 end).
Definition get_nonce (a : Address) : M Z :=
  do! o := get_account a in sret (match o with Some x => acc_nonce x | None => 0 end).
Definition account_exists (a : Address) : M bool :=
  do! o := get_account a in sret (bool_decide (is_Some o)).

(** The sum over the cache only, saturating. *)
Definition total_supply (m : StateManager W) : Z :=
  foldl (fun t x => saturating_add 128 t (balance x)) 0 (values (account_cache m)).

Definition apply_transfer (now : Z) (from to : Address) (amt fe : Z) : M unit :=
  let total_cost := saturating_add 128 amt fe in
  do! o := get_account from in
  do! from_account := slift (ok_or o (PE.AccountNotFound (address_short from))) in
  if balance from_account <? total_cost then
    sfail (PE.InsufficientBalance total_cost (balance from_account))
  else
    let from1 := with_nonce (saturating_add 64 (acc_nonce from_account) 1) from_account in
    do! b := slift (sub_u128 (balance from1) total_cost) in
    let from2 := record_activity now (with_balance b from1) in
    do! o := get_account to in
    let to1 := default (account_new now to 0) o in
    let to2 := record_activity now (with_balance (saturating_add 128 (balance to1) amt) to1) in
    run! set_account from from2 in
    set_account to to2.

Fixpoint apply_transfers (now : Z) (txs : list Transaction) : M unit :=
  match txs with
  | [] => sret tt
  | tx :: txs =>
      run! apply_transfer now (tx_from tx) (tx_to tx) (amount tx) (fee tx) in
      apply_transfers now txs
  end.

Definition compute_state_root (m : StateManager W) : Hash :=
  if bool_decide (dirty_accounts m = ∅) then current_root m
  else
    let all := dirty_accounts m ∪ account_cache m in
    root_from_updates (smt m)
      (map (fun p => (sha3_256 p.1, sha3_256 (default [] (bincode_account p.2)))) (entries all)).

Definition commit_dirty_accounts : M unit :=
  do! dirty := sget dirty_accounts in
  run! smod (set_dirty ∅) in
  if bool_decide (dirty = ∅) then sret tt
  else
    let batch := foldl (fun b p => add_account p.1 p.2 b) batch_new (entries dirty) in
    on_storage (st_write_batch batch).

Definition apply_block (now : Z) (b : Block) : M StateVersion :=
  do! parent_root := sget current_root in
  do! parent_height := sget current_height in
  do! expected := slift (add_u64 parent_height 1) in
  if negb (height (header b) =? expected) then
    sfail (PE.InvalidProposal ("Invalid height: " +:+ pretty (height (header b)) +:+ " != "
             +:+ pretty expected)%string)
  else
    run! apply_transfers now (transactions b) in
    do! new_root := sget compute_state_root in
    let version := version_new now (height (header b)) new_root (block_hash b) parent_root in
    run! smod (fun m => set_versions (<[height (header b) := version]> (versions m)) m) in
    run! on_storage (st_save_state_root (height (header b)) new_root) in
    run! smod (set_root_height new_root (height (header b))) in
    run! commit_dirty_accounts in
    sret version.

Definition get_version (h : Z) (m : StateManager W) : PacyteResult (option StateVersion) :=
  match versions m !! h with
  | Some v => Ok (Some v)
  | None =>
      let? o := st_get_state_root h (sm_storage m) in
      Ok (match o with Some root => Some (mkVersion h root 0 zero_hash zero_hash) | None => None end)
  end.

Definition revert_to_height (h : Z) : M unit :=
  do! o := fun m => (get_version h m, m) in
  do! version := slift (ok_or o (PE.StateRootMismatch (pretty h) "Version not found")) in
  run! smod (set_cache ∅) in
  run! smod (set_dirty ∅) in
  run! smod (set_root_height (sv_root version) h) in
  smod (set_smt smt_new).

(** The addresses of cached accounts already marked dormant. *)
Definition check_all_dormancy (m : StateManager W) : list Address :=
  (List.filter (fun p => is_dormant p.2) (entries (account_cache m))).*1.
End State.
