(* ===== verification/StateProps.v ===== *)
(** * The ledger behind the state manager

    The abstract specification of the accounts is one map from addresses to accounts, a
    [Ledger]; [ledger_transfers] says what the transactions of a block do to it.  Every operation
    of [StateManager] refines it through [view], over any storage that keeps [StorageLaws]. *)

From stdpp Require Import strings.
From S2P Require Import Prelude Hashing Errors Types Merkle Block State.
Abbreviation length := List.length.

(** ** Specification *)

Abbreviation Ledger := (gmap Address Account).

(** Both accounts after a transfer from [f]; the recipient is read before the sender is
    written back. *)
Definition debited (now total : Z) (f : Account) : Account :=
  record_activity now
    (with_balance (balance f - total) (with_nonce (saturating_add 64 (acc_nonce f) 1) f)).
Definition credited (now amt : Z) (t : Account) : Account :=
  record_activity now (with_balance (saturating_add 128 (balance t) amt) t).

Definition ledger_transfer (now : Z) (from to : Address) (amt fe : Z) (L : Ledger) : PacyteResult Ledger :=
  let total := saturating_add 128 amt fe in
  match L !! from with
  | None => Err (PE.AccountNotFound (address_short from))
  | Some f =>
      if balance f <? total then Err (PE.InsufficientBalance total (balance f))
      else Ok (<[to := credited now amt (default (account_new now to 0) (L !! to))]>
                 (<[from := debited now total f]> L))
  end.

(** The transactions of a block in order, up to the first that fails. *)
Fixpoint ledger_transfers (now : Z) (txs : list Transaction) (L : Ledger) : PacyteResult unit * Ledger :=
  match txs with
  | [] => (Ok tt, L)
  | tx :: txs =>
      match ledger_transfer now (tx_from tx) (tx_to tx) (amount tx) (fee tx) L with
      | Ok L' => ledger_transfers now txs L'
      | Err e => (Err e, L)
      | Panic => (Panic, L)
      | Deadlock => (Deadlock, L)
      end
  end.

Definition ledger_ok (L : Ledger) : Prop := forall a x, L !! a = Some x -> fits 128 (balance x).
Definition txs_ok (txs : list Transaction) : Prop :=
  Forall (fun tx => fits 128 (amount tx) /\ fits 128 (fee tx)) txs.
Definition money (L : Ledger) : Z := map_sum balance L.

(** ** Refinement *)

Section Refinement.
Context {W : Type} `{St : Storage W} `{Laws : !StorageLaws W} `{BP : BuildProfile} `{S : Sha3}
  `{BA : BincodeAccount} `{Iter : !HashMapIter Address Account}.
Implicit Types m : StateManager W.

Definition view m : Ledger := account_cache m ∪ st_accounts (sm_storage m).

(** Dirty accounts are cached, and a cached account that is not dirty is the stored one. *)
Record state_ok m : Prop := {
  so_dirty : dirty_accounts m ⊆ account_cache m;
  so_clean : forall a x, account_cache m !! a = Some x -> dirty_accounts m !! a = None ->
    st_accounts (sm_storage m) !! a = Some x
}.

(** What transfers leave alone. *)
Definition same_chain_state m m' : Prop :=
  sm_storage m' = sm_storage m /\ current_root m' = current_root m
  /\ current_height m' = current_height m /\ versions m' = versions m.

Lemma get_account_spec a m :
  state_ok m ->
  exists m', get_account a m = (Ok (view m !! a), m') /\ view m' = view m /\ state_ok m'
    /\ same_chain_state m m'.
Proof.
  intros [Hd Hc]. unfold get_account, view.
  destruct (account_cache m !! a) as [x|] eqn:Ha.
  { exists m. rewrite (lookup_union_Some_l _ _ _ _ Ha). by split_and!. }
  rewrite (lookup_union_r _ _ _ Ha).
  assert (Hda : dirty_accounts m !! a = None) by (by eapply lookup_weaken_None).
  rewrite Hda, st_get_account_law. destruct (st_accounts (sm_storage m) !! a) as [x|] eqn:Hs.
  - eexists. split; [done|]. split_and!; [| |done].
    + cbn. apply map_eq. intros b. destruct (decide (b = a)) as [->|Hne].
      * rewrite (lookup_union_Some_l _ _ _ x) by apply lookup_insert_eq.
        by rewrite lookup_union_r.
      * by rewrite !lookup_union, lookup_insert_ne by done.
    + split; cbn.
      * etransitivity; [exact Hd|]. by apply insert_subseteq.
      * intros b y. rewrite lookup_insert_Some. intros [[<- <-]|[_ Hb]]; [done|by apply Hc].
  - exists m. by split_and!.
Qed.

Lemma set_account_spec a x m :
  state_ok m ->
  exists m', set_account a x m = (Ok tt, m') /\ view m' = <[a := x]> (view m) /\ state_ok m'
    /\ same_chain_state m m'.
Proof.
  intros [Hd Hc]. eexists. split; [reflexivity|]. split_and!; [| |done].
  - unfold view. cbn. by rewrite insert_union_l.
  - split; cbn; [by apply insert_mono|].
    intros b y. rewrite !lookup_insert_Some, lookup_insert_None. intros [[<- <-]|[Hne Hb]] [Hn ?]; [done|by apply Hc].
Qed.

Lemma same_chain_state_trans m1 m2 m3 :
  same_chain_state m1 m2 -> same_chain_state m2 m3 -> same_chain_state m1 m3.
Proof. intros (? & ? & ? & ?) (? & ? & ? & ?). split_and!; congruence. Qed.

(** [apply_transfer] refines [ledger_transfer]. *)
Lemma apply_transfer_spec now from to amt fe m :
  state_ok m -> ledger_ok (view m) -> 0 <= amt -> 0 <= fe ->
  match ledger_transfer now from to amt fe (view m) with
  | Ok L => exists m', apply_transfer now from to amt fe m = (Ok tt, m') /\ view m' = L
              /\ state_ok m' /\ same_chain_state m m'
  | Err e => exists m', apply_transfer now from to amt fe m = (Err e, m') /\ view m' = view m
              /\ state_ok m' /\ same_chain_state m m'
  | _ => False
  end.
Proof.
  intros Hok HL Ha Hf. unfold ledger_transfer. set (total := saturating_add 128 amt fe).
  assert (Ht : 0 <= total) by (unfold total, saturating_add; lia).
  destruct (get_account_spec from m Hok) as (m1 & E1 & Hv1 & Hok1 & Hs1).
  destruct (view m !! from) as [f|] eqn:Hfrom.
  2:{ exists m1. unfold apply_transfer, sbind at 1. rewrite E1. by split_and!. }
  destruct (balance f <? total) eqn:Hlt.
  { exists m1. unfold apply_transfer, sbind. rewrite E1. cbn. fold total. rewrite Hlt. by split_and!. }
  unfold apply_transfer, sbind at 1. rewrite E1. unfold sbind at 1, slift at 1. cbn [ok_or].
  fold total. rewrite Hlt. apply Z.ltb_ge in Hlt.
  pose proof (HL _ _ Hfrom) as Hb. unfold fits in Hb.
  unfold sbind at 1, slift at 1, sub_u128. cbn [balance with_nonce].
  rewrite arith_fits by (unfold fits; lia). cbn beta iota.
  destruct (get_account_spec to m1 Hok1) as (m2 & E2 & Hv2 & Hok2 & Hs2).
  unfold sbind at 1. rewrite E2, Hv1. cbn beta iota zeta.
  match goal with |- context [set_account from ?x] => destruct (set_account_spec from x m2 Hok2) as (m3 & E3 & Hv3 & Hok3 & Hs3) end.
  unfold sbind. rewrite E3.
  match goal with |- context [set_account to ?x] => destruct (set_account_spec to x m3 Hok3) as (m4 & E4 & Hv4 & Hok4 & Hs4) end.
  exists m4. split; [exact E4|]. split_and!; [|done|].
  - rewrite Hv4, Hv3, Hv2, Hv1. reflexivity.
  - eapply same_chain_state_trans; [|exact Hs4]. eapply same_chain_state_trans; [|exact Hs3].
    by eapply same_chain_state_trans.
Qed.

Lemma saturating_add_fits w a b : 0 <= w -> 0 <= a -> 0 <= b -> fits w (saturating_add w a b).
Proof. intros Hw Ha Hb. unfold fits, saturating_add. pose proof (Z.pow_pos_nonneg 2 w). lia. Qed.

Lemma ledger_transfer_ok now from to amt fe L L' :
  ledger_ok L -> 0 <= amt -> 0 <= fe -> ledger_transfer now from to amt fe L = Ok L' -> ledger_ok L'.
Proof.
  intros HL Ha Hf. unfold ledger_transfer. destruct (L !! from) as [f|] eqn:Hfrom; [|done].
  destruct (_ <? _) eqn:Hlt; [done|]. apply Z.ltb_ge in Hlt. intros [= <-] a x.
  pose proof (HL _ _ Hfrom) as Hb.
  rewrite !lookup_insert_Some. intros [[<- <-]|[_ [[<- <-]|[_ Hx]]]]; [| |by eapply HL].
  - cbn. apply saturating_add_fits; [lia| |done].
    destruct (L !! to) as [t|] eqn:Hto; cbn; [by apply HL in Hto as []|done].
  - cbn. unfold fits, saturating_add in *. lia.
Qed.

(** [apply_transfers] refines [ledger_transfers], failures in the middle included. *)
Lemma apply_transfers_spec now txs m :
  state_ok m -> ledger_ok (view m) -> txs_ok txs ->
  let '(r, L) := ledger_transfers now txs (view m) in
  exists m', apply_transfers now txs m = (r, m') /\ view m' = L /\ state_ok m' /\ same_chain_state m m'
    /\ r <> Panic /\ r <> Deadlock.
Proof.
  revert m. induction txs as [|tx txs IH]; intros m Hok HL Htx; cbn [ledger_transfers apply_transfers].
  { exists m. by split_and!. }
  apply Forall_cons in Htx as [[[Ha _] [Hf _]] Htx].
  pose proof (apply_transfer_spec now (tx_from tx) (tx_to tx) (amount tx) (fee tx) m Hok HL Ha Hf) as Hstep.
  destruct (ledger_transfer _ _ _ _ _ _) as [L1|e| |] eqn:Hspec; [| |done|done].
  - destruct Hstep as (m1 & E1 & Hv1 & Hok1 & Hs1).
    assert (HL1 : ledger_ok (view m1)) by (rewrite Hv1; exact (ledger_transfer_ok _ _ _ _ _ _ _ HL Ha Hf Hspec)).
    specialize (IH m1 Hok1 HL1 Htx). rewrite Hv1 in IH.
    destruct (ledger_transfers now txs L1) as [r L]. destruct IH as (m' & E' & Hv & Hok' & Hs & Hr).
    exists m'. unfold sbind. rewrite E1. split_and!; [done|done|done|exact (same_chain_state_trans _ _ _ Hs1 Hs)|apply Hr|apply Hr].
  - destruct Hstep as (m1 & E1 & Hv1 & Hok1 & Hs1). exists m1. unfold sbind. rewrite E1. by split_and!.
Qed.

Lemma write_dirty (l : list (Address * Account)) (A : Ledger) :
  NoDup l.*1 ->
  write_accounts (map (fun p : Address * Account => (p.1, Some p.2)) l) A = list_to_map l ∪ A.
Proof.
  unfold write_accounts. revert A. induction l as [|[a x] l IH]; intros A Hnd; cbn; [by rewrite (left_id_L ∅ (∪))|].
  apply NoDup_cons in Hnd as [Hn Hnd]. rewrite IH by done. cbn.
  rewrite <- insert_union_r by (by apply not_elem_of_list_to_map_1). by rewrite insert_union_l.
Qed.

Lemma batch_of_entries (l : list (Address * Account)) b :
  foldl (fun b (p : Address * Account) => add_account p.1 p.2 b) b l
  = mkBatch (wb_blocks b) (wb_transactions b) (wb_accounts b ++ map (fun p => (p.1, Some p.2)) l) (wb_state_roots b).
Proof.
  revert b. induction l as [|p l IH]; intros b; cbn; [rewrite app_nil_r; by destruct b|].
  rewrite IH. cbn. by rewrite <- app_assoc.
Qed.

(** After the commit the storage alone holds the ledger. *)
Lemma commit_spec m :
  state_ok m ->
  exists m', commit_dirty_accounts m = (Ok tt, m') /\ view m' = view m /\ state_ok m'
    /\ dirty_accounts m' = ∅ /\ st_accounts (sm_storage m') = view m
    /\ current_height m' = current_height m.
Proof.
  intros [Hd Hc].
  assert (Hstored : dirty_accounts m ∪ st_accounts (sm_storage m) = view m).
  { unfold view. apply map_eq. intros a. rewrite !lookup_union.
    destruct (account_cache m !! a) as [x|] eqn:Ha, (dirty_accounts m !! a) as [y|] eqn:Hy; cbn.
    - by rewrite (lookup_weaken _ _ _ _ Hy Hd) in Ha; simplify_eq; destruct (st_accounts _ !! a).
    - by rewrite (Hc a x Ha Hy).
    - by rewrite (lookup_weaken _ _ _ _ Hy Hd) in Ha.
    - done. }
  assert (Hclean : forall w, st_accounts w = view m ->
    view (set_sm_storage w (set_dirty ∅ m)) = view m /\ state_ok (set_sm_storage w (set_dirty ∅ m))).
  { intros w Hw. assert (Hsub : account_cache m ⊆ view m) by apply map_union_subseteq_l. split.
    - unfold view at 1. cbn. rewrite Hw. by apply map_subseteq_union.
    - split; cbn; [apply map_empty_subseteq|]. intros a x Ha _. rewrite Hw. by eapply lookup_weaken. }
  unfold commit_dirty_accounts, sbind, sget, smod. cbn beta iota. case_bool_decide as He.
  - rewrite He, (left_id_L ∅ (∪)) in Hstored. destruct (Hclean (sm_storage m) Hstored) as [Hv Hok].
    exists (set_dirty ∅ m). by split_and!.
  - unfold on_storage. rewrite batch_of_entries. cbn [app wb_blocks wb_transactions wb_accounts wb_state_roots batch_new].
    destruct (st_write_batch_law (mkBatch [] [] (map (fun p => (p.1, Some p.2)) (entries (dirty_accounts m))) [])
      (sm_storage m) eq_refl eq_refl) as (w' & Hw & Hacc).
    change (sm_storage (set_dirty ∅ m)) with (sm_storage m). rewrite Hw. cbn [wb_accounts] in Hacc.
    assert (Hnd : NoDup (entries (dirty_accounts m)).*1).
    { rewrite entries_perm. apply NoDup_fst_map_to_list. }
    rewrite write_dirty in Hacc by done.
    rewrite (list_to_map_proper _ (map_to_list (dirty_accounts m)) Hnd (entries_perm _)) in Hacc.
    rewrite list_to_map_to_list, Hstored in Hacc. destruct (Hclean w' Hacc) as [Hv Hok].
    exists (set_sm_storage w' (set_dirty ∅ m)). by split_and!.
Qed.

(** A block of the expected height: transfers, root, commit. *)
Lemma apply_block_at (now : Z) (b : Block) (m : StateManager W) :
  state_ok m -> ledger_ok (view m) -> txs_ok (transactions b) ->
  add_u64 (E := PacyteError) (current_height m) 1 = Ok (height (header b)) ->
  let '(r, L) := ledger_transfers now (transactions b) (view m) in
  match r with
  | Ok _ => exists v m', apply_block now b m = (Ok v, m') /\ view m' = L
              /\ st_accounts (sm_storage m') = L /\ dirty_accounts m' = ∅
              /\ current_height m' = height (header b) /\ state_ok m'
  | Err e => exists m', apply_block now b m = (Err e, m') /\ view m' = L
               /\ current_height m' = current_height m /\ state_ok m' /\ sm_storage m' = sm_storage m
  | _ => False
  end.
Proof.
  intros Hok HL Htx Hpre.
  pose proof (apply_transfers_spec now (transactions b) m Hok HL Htx) as Hrun.
  destruct (ledger_transfers now (transactions b) (view m)) as [r L] eqn:HspecL.
  destruct Hrun as (m1 & E1 & Hv1 & Hok1 & (Hs1 & Hr1 & Hh1 & _) & Hp & Hd).
  destruct r as [[]|e| |]; [| |done|done].
  - destruct (st_save_state_root_law (height (header b)) (compute_state_root m1) (sm_storage m1)) as (w & Ew & Hw).
    set (v := version_new now (height (header b)) (compute_state_root m1) (block_hash b) (current_root m)).
    set (m2 := set_root_height (compute_state_root m1) (height (header b))
                 (set_sm_storage w (set_versions (<[height (header b) := v]> (versions m1)) m1))).
    assert (Hok2 : state_ok m2) by (destruct Hok1; split; cbn; [done|by rewrite Hw]).
    destruct (commit_spec m2 Hok2) as (m3 & E3 & Hv3 & Hok3 & Hdirty & Hst & Hh3).
    assert (Hv2 : view m2 = L) by (rewrite <- Hv1; unfold view; cbn; by rewrite Hw).
    exists v, m3. split_and!; [|congruence|congruence|done|done|done].
    unfold apply_block, sbind at 1, sget at 1. cbn beta iota. unfold sbind at 1, sget at 1. cbn beta iota.
    unfold sbind at 1, slift at 1. rewrite Hpre, Z.eqb_refl. cbn [negb]. unfold sbind at 1. rewrite E1. unfold sbind at 1, sget at 1.
    cbn beta iota. fold v. unfold sbind at 1, smod at 1. cbn beta iota. unfold sbind at 1, on_storage.
    change (sm_storage (set_versions _ m1)) with (sm_storage m1). rewrite Ew.
    unfold sbind, smod. cbn beta iota. fold m2. by rewrite E3.
  - exists m1. unfold apply_block, sbind at 1, sget at 1. cbn beta iota. unfold sbind at 1, sget at 1. cbn beta iota.
    unfold sbind at 1, slift at 1. rewrite Hpre, Z.eqb_refl. cbn [negb]. unfold sbind at 1. rewrite E1. by split_and!.
Qed.

(** Another height, or the end of the numbers: nothing changes. *)
Lemma apply_block_refused now b m r m' :
  add_u64 (E := PacyteError) (current_height m) 1 <> Ok (height (header b)) ->
  apply_block now b m = (r, m') -> m' = m /\ forall v, r <> Ok v.
Proof.
  intros Hne. unfold apply_block, sbind at 1, sget at 1. cbn beta iota. unfold sbind at 1, sget at 1. cbn beta iota.
  unfold sbind at 1, slift at 1. destruct (add_u64 _ _) as [x| | |]; [|by intros [= <- <-]..].
  destruct (Z.eqb_spec (height (header b)) x) as [Hx|]; [by rewrite Hx in Hne|]. by intros [= <- <-].
Qed.

(** The refinement, for both properties below. *)
Lemma apply_block_spec (now : Z) (b : Block) (m : StateManager W) :
  state_ok m -> ledger_ok (view m) -> txs_ok (transactions b) -> 0 <= current_height m < U64_MAX ->
  if height (header b) =? current_height m + 1 then
    let '(r, L) := ledger_transfers now (transactions b) (view m) in
    match r with
    | Ok _ => exists v m', apply_block now b m = (Ok v, m') /\ view m' = L
                /\ st_accounts (sm_storage m') = L /\ dirty_accounts m' = ∅
                /\ current_height m' = height (header b) /\ state_ok m'
    | Err e => exists m', apply_block now b m = (Err e, m') /\ view m' = L
                 /\ current_height m' = current_height m /\ state_ok m'
    | _ => False
    end
  else exists e, apply_block now b m = (Err e, m).
Proof.
  intros Hok HL Htx Hh.
  assert (Hpre : add_u64 (E := PacyteError) (current_height m) 1 = Ok (current_height m + 1)).
  { unfold add_u64. by rewrite arith_fits by (unfold fits, U64_MAX in *; lia). }
  destruct (Z.eqb_spec (height (header b)) (current_height m + 1)) as [He|He].
  - pose proof (apply_block_at now b m Hok HL Htx ltac:(by rewrite He)) as Hat.
    destruct (ledger_transfers now (transactions b) (view m)) as [[]]; [done| |done|done].
    destruct Hat as (m' & ? & ? & ? & ? & _). by exists m'.
  - eexists. unfold apply_block, sbind at 1, sget at 1. cbn beta iota. unfold sbind at 1, sget at 1. cbn beta iota.
    unfold sbind at 1, slift at 1. rewrite Hpre. by rewrite (proj2 (Z.eqb_neq _ _)).
Qed.

(** What holds of the storage and is kept by roots and by batches of accounts is kept by a block. *)
Section StorageFacts.
Context (P : W -> Prop) (P_root : forall h r w, P w -> P (st_save_state_root h r w).2)
  (P_batch : forall b w, wb_blocks b = [] -> wb_transactions b = [] -> P w -> P (st_write_batch b w).2).
Let R (m m' : StateManager W) : Prop := P (sm_storage m) -> P (sm_storage m').
#[local] Instance storage_fact_preorder : PreOrder R.
Proof. split; [intros m H; exact H|intros x y z Hxy Hyz H; exact (Hyz (Hxy H))]. Qed.

Ltac storage_leaf := first [keeps_leaf | apply keeps_smod; intros m' Hm'; exact Hm'].
Lemma apply_transfers_storage now txs : keeps R (apply_transfers now txs).
Proof.
  assert (Hget : forall a, keeps R (get_account a)).
  { intros a m r m'. unfold get_account, R. repeat case_match; intros [= <- <-]; done. }
  induction txs as [|tx txs IH]; cbn [apply_transfers]; [storage_leaf|].
  apply keeps_bind; [apply _| |done]. unfold apply_transfer, set_account.
  repeat first [apply keeps_bind; [apply _| |intros] | apply Hget | storage_leaf | case_match].
Qed.

Lemma apply_block_storage now b : keeps R (apply_block now b).
Proof.
  unfold apply_block. repeat first [apply keeps_bind; [apply _| |intros] | apply apply_transfers_storage | storage_leaf | case_match].
  - intros m r m'. unfold on_storage, R. destruct (st_save_state_root _ _ (sm_storage m)) as [o w] eqn:E. intros [= <- <-] Hp.
    cbn. specialize (P_root (height (header b)) a3 _ Hp). by rewrite E in P_root.
  - unfold commit_dirty_accounts. repeat first [apply keeps_bind; [apply _| |intros] | storage_leaf | case_match].
    intros m r m'. unfold on_storage, R. rewrite batch_of_entries. cbn [wb_blocks wb_transactions batch_new].
    match goal with |- context [st_write_batch ?x (sm_storage m)] => pose proof (P_batch x (sm_storage m) eq_refl eq_refl) as Hb;
      destruct (st_write_batch x (sm_storage m)) as [o w] end. by intros [= <- <-].
Qed.
End StorageFacts.
End Refinement.

(** ** Money *)

Lemma money_two (L : Ledger) a b x y :
  ledger_ok L -> a <> b -> L !! a = Some x -> L !! b = Some y -> balance x + balance y <= money L.
Proof.
  intros HL Hne Ha Hb. unfold money. rewrite (map_sum_delete balance L a x Ha).
  rewrite (map_sum_delete balance (delete a L) b y) by (by rewrite lookup_delete_ne).
  assert (0 <= map_sum balance (delete b (delete a L))); [|lia].
  apply map_sum_nonneg. intros k v Hk. rewrite !lookup_delete_Some in Hk.
  destruct Hk as (_ & _ & Hk). by destruct (HL k v Hk).
Qed.

Lemma money_one (L : Ledger) a x : ledger_ok L -> L !! a = Some x -> balance x <= money L.
Proof.
  intros HL Ha. unfold money. rewrite (map_sum_delete balance L a x Ha).
  assert (0 <= map_sum balance (delete a L)); [|lia].
  apply map_sum_nonneg. intros k v Hk. rewrite lookup_delete_Some in Hk.
  destruct Hk as [_ Hk]. by destruct (HL k v Hk).
Qed.

(** A transfer between two accounts takes exactly the fee out of the ledger. *)
Lemma ledger_transfer_money now from to amt fe L L' :
  ledger_ok L -> money L < 2 ^ 128 -> from <> to -> 0 <= amt -> 0 <= fe -> fits 128 (amt + fe) ->
  ledger_transfer now from to amt fe L = Ok L' -> money L' = money L - fe.
Proof.
  intros HL Hmax Hne Ha Hf Hfit. unfold ledger_transfer, fits in *.
  assert (Ht : saturating_add 128 amt fe = amt + fe) by (unfold saturating_add; lia). rewrite Ht.
  destruct (L !! from) as [f|] eqn:Hfrom; [|done]. destruct (_ <? _) eqn:Hlt; [done|].
  apply Z.ltb_ge in Hlt. intros [= <-]. pose proof (money_one L from f HL Hfrom).
  unfold money in *. destruct (L !! to) as [t|] eqn:Hto; cbn [default].
  - pose proof (money_two L from to f t HL Hne Hfrom Hto) as H2. unfold money in H2.
    pose proof (HL to t Hto) as [Hp _].
    rewrite (map_sum_update balance _ to t) by (by rewrite lookup_insert_ne).
    rewrite (map_sum_update balance _ from f) by done. cbn. unfold saturating_add. lia.
  - rewrite map_sum_insert_new by (by rewrite lookup_insert_ne).
    rewrite (map_sum_update balance _ from f) by done. cbn. unfold saturating_add. lia.
Qed.

(** Transfers between different accounts, with amounts that add up. *)
Definition proper_txs (txs : list Transaction) : Prop :=
  Forall (fun tx => tx_from tx <> tx_to tx /\ 0 <= amount tx /\ 0 <= fee tx
                    /\ fits 128 (amount tx + fee tx)) txs.

(** A transfer to oneself mints: the recipient is read before the debited sender is stored and
    overwrites it, so the account keeps its balance and gains the amount. *)
Lemma self_transfer_mints (now : Z) (a : Address) (x : Account) (amt fe : Z) (L : Ledger) :
  L !! a = Some x -> 0 <= amt -> saturating_add 128 amt fe <= balance x -> balance x + amt < 2 ^ 128 ->
  exists L', ledger_transfer now a a amt fe L = Ok L' /\ money L' = money L + amt.
Proof.
  intros Hx Ha Hb Hfit. unfold ledger_transfer. rewrite Hx, (proj2 (Z.ltb_ge _ _)) by done.
  eexists. split; [reflexivity|]. rewrite insert_insert_eq. unfold money.
  rewrite (map_sum_update balance L a x) by done. cbn. unfold saturating_add. lia.
Qed.

(** What a transfer that goes through does to the sum of all balances, and what of it is new money. *)
Definition tx_change (tx : Transaction) : Z := if bool_decide (tx_from tx = tx_to tx) then amount tx else - fee tx.
Definition minted (tx : Transaction) : Z := if bool_decide (tx_from tx = tx_to tx) then amount tx else 0.

Lemma ledger_transfer_change now tx L L' :
  ledger_ok L -> 0 <= amount tx -> 0 <= fee tx -> money L + minted tx < U128_MAX ->
  ledger_transfer now (tx_from tx) (tx_to tx) (amount tx) (fee tx) L = Ok L' -> money L' = money L + tx_change tx.
Proof.
  intros HL Ha Hf Hmax Ht.
  assert (Hfrom : exists f, L !! tx_from tx = Some f /\ saturating_add 128 (amount tx) (fee tx) <= balance f).
  { unfold ledger_transfer in Ht. destruct (L !! tx_from tx) as [f|]; [|done]. destruct (Z.ltb_spec (balance f) (saturating_add 128 (amount tx) (fee tx))); [done|by exists f]. }
  destruct Hfrom as (f & Hfrom & Hb). pose proof (money_one L (tx_from tx) f HL Hfrom) as H1. pose proof (HL _ _ Hfrom) as [Hp _].
  unfold minted, tx_change, U128_MAX in *. destruct (bool_decide (tx_from tx = tx_to tx)) eqn:Hd.
  - apply bool_decide_eq_true in Hd. rewrite <- Hd in Ht. destruct (self_transfer_mints now (tx_from tx) f (amount tx) (fee tx) L Hfrom Ha Hb ltac:(lia)) as (L1 & E & HL1). congruence.
  - apply bool_decide_eq_false in Hd. assert (Hfit : fits 128 (amount tx + fee tx)) by (unfold fits, saturating_add in *; lia).
    rewrite (ledger_transfer_money now (tx_from tx) (tx_to tx) (amount tx) (fee tx) L L' HL ltac:(lia) Hd Ha Hf Hfit Ht). lia.
Qed.
Lemma ledger_transfers_money now txs L L' :
  ledger_ok L -> txs_ok txs -> money L + list_sum (map minted txs) < U128_MAX -> ledger_transfers now txs L = (Ok tt, L') ->
  money L' = money L + list_sum (map tx_change txs).
Proof.
  intros HL Htx. revert L HL. induction Htx as [|tx txs Hx Hall IH]; intros L HL; cbn; [intros _ [= <-]; lia|].
  fold (list_sum (map minted txs)) (list_sum (map tx_change txs)). intros Hmax. cbn in Hx. unfold fits in Hx.
  assert (Hrest : 0 <= list_sum (map minted txs)).
  { clear -Hall. induction Hall as [|y ys Hy _ IHy]; cbn; [done|]. fold (list_sum (map minted ys)). cbn in Hy. unfold fits in Hy. unfold minted at 1. case_bool_decide; lia. }
  destruct (ledger_transfer _ _ _ _ _ L) as [L1| | |] eqn:H1; [|done..]. intros H2.
  assert (Hc : money L1 = money L + tx_change tx) by (apply (ledger_transfer_change now tx L L1); try done; lia).
  apply IH in H2; [lia|eapply ledger_transfer_ok; [exact HL| | |exact H1]; lia|].
  assert (tx_change tx <= minted tx) by (unfold tx_change, minted; case_bool_decide; lia). lia.
Qed.

Lemma proper_txs_ok txs : proper_txs txs -> txs_ok txs.
Proof. intros Htx. eapply Forall_impl; [exact Htx|]. cbn. intros tx (_ & Ha & Hf & Hfit). unfold fits in *. lia. Qed.

(** Also a block that fails in the middle mints nothing. *)
Lemma ledger_transfers_never_mint now txs L :
  ledger_ok L -> money L < 2 ^ 128 -> proper_txs txs ->
  ledger_ok (ledger_transfers now txs L).2 /\ money (ledger_transfers now txs L).2 <= money L.
Proof.
  intros HL Hmax Htx. revert L HL Hmax. induction Htx as [|tx txs (Hne & Ha & Hf & Hfit) _ IH]; intros L HL Hmax; cbn; [done|].
  destruct (ledger_transfer _ _ _ _ _ L) as [L1| | |] eqn:H1; [|done..].
  pose proof (ledger_transfer_money _ _ _ _ _ _ _ HL Hmax Hne Ha Hf Hfit H1).
  destruct (IH L1) as [? ?]; [exact (ledger_transfer_ok _ _ _ _ _ _ _ HL Ha Hf H1)|lia|]. split; [done|lia].
Qed.

Section Money.
Context {W : Type} `{St : Storage W} `{Laws : !StorageLaws W} `{BP : BuildProfile} `{S : Sha3}
  `{BA : BincodeAccount} `{Iter : !HashMapIter Address Account}.

(** C6. [apply_block] refines the ledger specification over every storage that keeps its laws.
    A block of the next height applies its transfers in order: if all succeed the storage
    alone holds the resulting ledger, nothing is left dirty and the height is the block's; if
    one fails, its error is returned, the height stays, and the transfers before it remain.  A
    block of another height is refused and nothing changes. *)
Theorem apply_block_refines_ledger (now : Z) (b : Block) (m : StateManager W) :
  state_ok m -> ledger_ok (view m) -> txs_ok (transactions b) -> 0 <= current_height m < U64_MAX ->
  if height (header b) =? current_height m + 1 then
    let '(r, L) := ledger_transfers now (transactions b) (view m) in
    match r with
    | Ok _ => exists v m', apply_block now b m = (Ok v, m') /\ view m' = L
                /\ st_accounts (sm_storage m') = L /\ dirty_accounts m' = ∅
                /\ current_height m' = height (header b) /\ state_ok m'
    | Err e => exists m', apply_block now b m = (Err e, m') /\ view m' = L
                 /\ current_height m' = current_height m /\ state_ok m'
    | _ => False
    end
  else exists e, apply_block now b m = (Err e, m).
Proof. apply apply_block_spec. Qed.

(** C23. What applying a block does to the money, exactly: when [apply_block] succeeds, the sum of all balances drops by
    the fees of its transfers between different accounts, which are credited to nobody, and rises by the amounts of
    its transfers from an account to itself, whose fees are not taken ([apply_block] does not refuse them:
    [self_transfer_mints]); a block without such transfers creates no money.  Storage and cache agree on the result.
    The money, with what the block mints, is below the greatest balance, so that no sum saturates. *)
Theorem apply_block_conserves (now : Z) (b : Block) (m m' : StateManager W) (v : StateVersion) :
  state_ok m -> ledger_ok (view m) -> txs_ok (transactions b) -> money (view m) + list_sum (map minted (transactions b)) < U128_MAX ->
  0 <= current_height m < U64_MAX -> apply_block now b m = (Ok v, m') ->
  money (view m') = money (view m) + list_sum (map tx_change (transactions b))
  /\ (Forall (fun tx => tx_from tx <> tx_to tx) (transactions b) -> money (view m') = money (view m) - list_sum (map fee (transactions b)))
  /\ st_accounts (sm_storage m') = view m'.
Proof.
  intros Hok HL Htxs Hmax Hh Happ. pose proof (apply_block_spec now b m Hok HL Htxs Hh) as Hspec.
  destruct (height (header b) =? current_height m + 1).
  2:{ destruct Hspec as [e He]. congruence. }
  destruct (ledger_transfers now (transactions b) (view m)) as [r L] eqn:HL'.
  destruct r as [[]|e| |]; [| |done|done].
  - destruct Hspec as (v' & m1 & E & Hv & Hs & _). rewrite Happ in E. injection E as <- <-.
    rewrite Hs, Hv. pose proof (ledger_transfers_money now _ _ _ HL Htxs Hmax HL') as Hm. split_and!; [done| |done]. intros Hne. rewrite Hm.
    clear -Hne. induction Hne as [|tx txs Hx _ IH]; cbn; [lia|]. fold (list_sum (map tx_change txs)) (list_sum (map fee txs)).
    unfold tx_change at 1. rewrite bool_decide_eq_false_2 by done. lia.
  - destruct Hspec as (m1 & E & _). congruence.
Qed.

(** Reverting to an earlier height moves the root and the height back but not the accounts:
    after a committed block the ledger stays as it is. *)
Lemma revert_keeps_accounts (h : Z) (v : StateVersion) (m : StateManager W) :
  state_ok m -> dirty_accounts m = ∅ -> versions m !! h = Some v ->
  exists m', revert_to_height h m = (Ok tt, m') /\ current_height m' = h /\ current_root m' = sv_root v
    /\ view m' = view m.
Proof.
  intros [Hd Hc] He Hv. eexists. unfold revert_to_height, sbind, get_version. rewrite Hv. cbn.
  split; [reflexivity|]. split_and!; [done|done|]. unfold view. cbn. rewrite (left_id_L ∅ (∪)).
  symmetry. apply map_subseteq_union. apply map_subseteq_spec. intros a x Ha. apply Hc; [done|].
  rewrite He. apply lookup_empty.
Qed.
End Money.

(** ** Concrete runs *)

Section StateWitnesses.
#[local] Existing Instance release_profile.
#[local] Existing Instance toy_sha3.
#[local] Existing Instance key_order.
#[local] Instance no_block_bincode : Bincode := fun _ => None.
#[local] Instance balance_bincode : BincodeAccount := fun x => Some (to_le_bytes 16 (balance x)).
#[local] Instance demo_storage : Storage MemoryStorage := memory_storage 100.
#[local] Instance demo_storage_laws : StorageLaws MemoryStorage := memory_storage_laws 100.

Definition alice : Address := replicate 32 1.
Definition bob : Address := replicate 32 2.
(** A manager over a storage in which Alice owns 100, and a block that moves 10 to Bob for a
    fee of 1. *)
Definition demo_state : StateManager MemoryStorage :=
  state_manager_new (set_ms_accounts {[ alice := account_new 0 alice 100 ]} memory_storage_new).
Definition demo_transfer_block : Block :=
  mkBlock (mkHeader 1 zero_hash zero_hash zero_hash 100 zero_address 1 0 [])
    [transaction_new 99 alice bob 10 1 0].

Lemma demo_view : view demo_state = {[ alice := account_new 0 alice 100 ]}.
Proof. unfold view. cbn. apply (left_id_L ∅ (∪)). Qed.

Lemma demo_state_ok : state_ok demo_state.
Proof. split; cbn; [done|]. intros a x Hx. by rewrite lookup_empty in Hx. Qed.

Lemma demo_ledger_ok : ledger_ok (view demo_state).
Proof. rewrite demo_view. intros a x [_ <-]%lookup_singleton_Some. by vm_compute. Qed.

Lemma demo_minted : money (view demo_state) + list_sum (map minted (transactions demo_transfer_block)) < U128_MAX.
Proof. rewrite demo_view. by vm_compute. Qed.

Lemma demo_height : 0 <= current_height demo_state < U64_MAX.
Proof. by vm_compute. Qed.

Lemma demo_txs_ok : txs_ok (transactions demo_transfer_block).
Proof. apply Forall_singleton. split; by vm_compute. Qed.

Lemma apply_block_refines_ledger_witness :
  exists v m', apply_block 100 demo_transfer_block demo_state = (Ok v, m')
    /\ balance <$> (st_accounts (sm_storage m') !! bob) = Some 10 /\ current_height m' = 1.
Proof.
  destruct (apply_block_refines_ledger 100 demo_transfer_block demo_state
    demo_state_ok demo_ledger_ok demo_txs_ok demo_height) as (v & m' & E & _ & Hs & _ & Hh & _).
  exists v, m'. split; [exact E|]. rewrite Hs, Hh. clear. split; vm_compute; reflexivity.
Defined.

Lemma apply_block_conserves_witness :
  exists v m', apply_block 100 demo_transfer_block demo_state = (Ok v, m')
    /\ money (view m') = money (view demo_state) - 1.
Proof.
  destruct (apply_block_spec 100 demo_transfer_block demo_state
    demo_state_ok demo_ledger_ok demo_txs_ok demo_height) as (v & m' & E & _).
  exists v, m'. split; [exact E|].
  exact (proj1 (apply_block_conserves 100 demo_transfer_block demo_state m' v
    demo_state_ok demo_ledger_ok demo_txs_ok demo_minted demo_height E)).
Defined.
End StateWitnesses.
