(* ===== verification/Mempool.v ===== *)
(** * Transaction pool (src/mempool/pool.rs, validator.rs, mod.rs, the pool data of types/transaction.rs)

    [MempoolImpl] keeps pending transactions by hash and three indexes over them: the nonces
    and the number of transactions of each sender, and the hashes by priority.  Balances and
    nonces are read through the shared [StateManager].  The [BTreeMap] of priorities is a list
    of buckets by increasing key. *)

From stdpp Require Import strings pretty.
From S2P Require Import Prelude Hashing Errors Types Merkle Block Floats State.
Abbreviation length := List.length.

(** ** Data *)

Record MempoolConfig : Type := mkPoolConfig {
  max_size : Z;
  max_tx_age_secs : Z;
  min_fee_per_byte : Z;
  max_tx_per_address : Z;
  enable_fee_priority : bool;
  enable_nonce_gap_filling : bool;
  max_nonce_gap : Z
}.
Definition default_pool_config : MempoolConfig := mkPoolConfig 10000 3600 1 100 true true 10.

Inductive AddTxResult : Type :=
| Added
| AlreadyExists
| Replaced (old_hash : Hash)
| Rejected (reason : string).
Definition is_added (r : AddTxResult) : bool :=
  match r with Added | Replaced _ => true | _ => false end.

Inductive TxValidationResult : Type :=
| Valid
| InsufficientBalance (required available : Z)
| InvalidNonce (expected got : Z)
| InvalidSignature
| Expired (age_secs max_age_secs : Z)
| TooLarge (size max_size : Z)
| FeeTooLow (fee min_fee : Z)
| AccountDormant (years : Z)
| OtherInvalid (msg : string).
Definition is_valid (r : TxValidationResult) : bool := match r with Valid => true | _ => false end.
Definition error_message (r : TxValidationResult) : string :=
  match r with
  | Valid => "Valid"
  | InsufficientBalance required available =>
      "Insufficient balance: required=" +:+ pretty required +:+ ", available=" +:+ pretty available
  | InvalidNonce expected got => "Invalid nonce: expected=" +:+ pretty expected +:+ ", got=" +:+ pretty got
  | InvalidSignature => "Invalid signature"
  | Expired age max_age => "Expired: age=" +:+ pretty age +:+ "s, max=" +:+ pretty max_age +:+ "s"
  | TooLarge size max_size => "Too large: size=" +:+ pretty size +:+ ", max=" +:+ pretty max_size
  | FeeTooLow fee min_fee => "Fee too low: fee=" +:+ pretty fee +:+ ", min=" +:+ pretty min_fee
  | AccountDormant years => "Account dormant for " +:+ pretty years +:+ " years"
  | OtherInvalid msg => msg
  end%string.

Record MempoolStats : Type := mkPoolStats {
  total_transactions : Z;
  total_size_bytes : Z;
  avg_fee_per_byte : f64;
  oldest_tx_age_secs : Z;
  stats_rejected : Z;
  stats_replaced : Z;
  pending_by_address : gmap Address Z
}.
Definition f64_zero : f64 := f64_of 0.
Definition default_pool_stats : MempoolStats := mkPoolStats 0 0 f64_zero 0 0 0 ∅.

(** [bincode::serialize(tx)], [None] for its error. *)
Class BincodeTx : Type := bincode_tx : Transaction -> option (list Z).
Definition tx_size `{BincodeTx} (tx : Transaction) : Z :=
  match bincode_tx tx with Some v => Z.of_nat (length v) | None => 0 end.
Definition fee_rate `{BincodeTx} (tx : Transaction) : f64 := f64_div (f64_of (fee tx)) (f64_of (tx_size tx)).

Record PooledTx : Type := mkPooled {
  p_tx : Transaction;
  p_added_at : Z;
  p_hash : Hash;
  p_size : Z;
  p_fee_per_byte : f64;
  p_priority : f64
}.
Definition pooled_new `{Sha3} `{BincodeTx} (now : Z) (tx : Transaction) : PooledTx :=
  mkPooled tx now (tx_hash tx) (tx_size tx) (fee_rate tx) (fee_rate tx).
Definition p_age_secs (now : Z) (p : PooledTx) : Z := saturating_sub now (p_added_at p).

Record MempoolImpl (W : Type) : Type := mkPool {
  mp_config : MempoolConfig;
  mp_state : StateManager W;
  mp_transactions : gmap Hash PooledTx;
  pending_nonces : gmap Address (gset Z);
  tx_count_by_address : gmap Address Z;
  priority_index : list (Z * list Hash);
  mp_stats : MempoolStats;
  rejected_count : Z;
  replaced_count : Z
}.
Arguments mkPool {W}.
Arguments mp_config {W}.
Arguments mp_state {W}.
Arguments mp_transactions {W}.
Arguments pending_nonces {W}.
Arguments tx_count_by_address {W}.
Arguments priority_index {W}.
Arguments mp_stats {W}.
Arguments rejected_count {W}.
Arguments replaced_count {W}.

(** ** The priority index *)

(** [index.entry(k).or_insert_with(Vec::new).push(h)]. *)
Fixpoint index_push (k : Z) (h : Hash) (ix : list (Z * list Hash)) : list (Z * list Hash) :=
  match ix with
  | [] => [(k, [h])]
  | (k', hs) :: ix' =>
      if k <? k' then (k, [h]) :: ix
      else if k =? k' then (k', hs ++ [h]) :: ix'
      else (k', hs) :: index_push k h ix'
  end.

(** [Vec::swap_remove]: the last element takes the place of the removed one. *)
Definition swap_remove (i : nat) (l : list Hash) : list Hash :=
  match last l with
  | Some x => take (length l - 1) (<[i := x]> l)
  | None => l
  end.

(** The first bucket that holds the hash loses it. *)
Fixpoint index_remove (h : Hash) (ix : list (Z * list Hash)) : list (Z * list Hash) :=
  match ix with
  | [] => []
  | (k, hs) :: ix' =>
      match list_find (fun x => x = h) hs with
      | Some (pos, _) => (k, swap_remove pos hs) :: ix'
      | None => (k, hs) :: index_remove h ix'
      end
  end.

(** [(priority * 1_000_000.0) as u64]. *)
Definition priority_key (p : f64) : Z := f64_to_uint 64 (f64_mul p (f64_of 1000000)).

(** [result.unwrap_or(d)] on what a call returned. *)
Definition unwrap_or {S A} (d : A) (c : ST S PacyteError A) : ST S PacyteError A :=
  fun s => match c s with
           | (Err _, s') => (Ok d, s')
           | r => r
           end.

(** [l.iter()] with a body that reads and accumulates into [keep]. *)
Fixpoint filter_m {S A} (f : A -> ST S PacyteError bool) (l : list A) : ST S PacyteError (list A) :=
  match l with
  | [] => sret []
  | x :: l =>
      do! b := f x in
      do! rest := filter_m f l in
      sret (if b : bool then x :: rest else rest)
  end.

(** ** The validator *)

Section Validator.
Context {W : Type} `{St : Storage W} `{BP : BuildProfile} `{S : Sha3} `{Sig : Signatures} `{BT : BincodeTx}.
Abbreviation M := (ST (StateManager W) PacyteError).

Definition verify_signature (tx : Transaction) : bool :=
  if bool_decide (signature tx = []) then false
  else
    let n := Z.of_nat (length (signature tx)) in
    if n =? 64 then ed25519_verify (sighash tx) (signature tx) (tx_from tx)
    else if n =? 4595 then dilithium5_verify (sighash tx) (signature tx) (tx_from tx)
    else false.

Definition check_balance (tx : Transaction) : M bool :=
  do! b := unwrap_or 0 (get_balance (tx_from tx)) in sret (total_cost tx <=? b).

Definition check_nonce (cfg : MempoolConfig) (tx : Transaction) : M TxValidationResult :=
  do! current_nonce := unwrap_or 0 (get_nonce (tx_from tx)) in
  if tx_nonce tx <? current_nonce then sret (InvalidNonce current_nonce (tx_nonce tx))
  else
    do! limit := slift (add_u64 current_nonce (max_nonce_gap cfg)) in
    if limit <? tx_nonce tx then sret (InvalidNonce current_nonce (tx_nonce tx))
    else sret Valid.

(** The division panics on an empty encoding. *)
Definition check_fee (cfg : MempoolConfig) (tx : Transaction) : PacyteResult bool :=
  if tx_size tx =? 0 then Panic else Ok (min_fee_per_byte cfg <=? fee tx / tx_size tx).

(** [MempoolValidator::validate]. *)
Definition validate (now : Z) (cfg : MempoolConfig) (tx : Transaction) : M TxValidationResult :=
  do! basic := slift (validate_basic now (max_tx_age_secs cfg) tx) in
  if negb basic then sret (OtherInvalid "Basic validation failed")
  else if negb (verify_signature tx) then sret InvalidSignature
  else
    do! enough := check_balance tx in
    if negb enough then
      do! b := unwrap_or 0 (get_balance (tx_from tx)) in
      sret (InsufficientBalance (total_cost tx) b)
    else
      do! nonce_result := check_nonce cfg tx in
      if negb (is_valid nonce_result) then sret nonce_result
      else
        do! fee_ok := slift (check_fee cfg tx) in
        if negb fee_ok then
          do! min_fee := slift (mul_u128 (min_fee_per_byte cfg) (tx_size tx)) in
          sret (FeeTooLow (fee tx) min_fee)
        else
          do! o := fun m => match get_account (tx_from tx) m with
                            | (Err _, m') => (Panic, m')
                            | r => r
                            end in
          match o with
          | Some account => if is_dormant account then sret (AccountDormant 6) else sret Valid
          | None => sret Valid
          end.

(** [MempoolImpl::validate_transaction]; [None] is [Ok(())]. *)
Definition validate_transaction (now : Z) (cfg : MempoolConfig) (tx : Transaction) : M (option string) :=
  do! basic := slift (validate_basic now (max_tx_age_secs cfg) tx) in
  if negb basic then sret (Some "Basic validation failed"%string)
  else if negb (verify_signature tx) then sret (Some "Invalid signature"%string)
  else
    do! enough := check_balance tx in
    if negb enough then sret (Some "Insufficient balance"%string)
    else
      do! nonce_result := check_nonce cfg tx in
      if negb (is_valid nonce_result) then sret (Some (error_message nonce_result))
      else
        do! fee_ok := slift (check_fee cfg tx) in
        if negb fee_ok then sret (Some "Fee too low"%string) else sret None.
End Validator.

(** ** The pool *)

Section Pool.
Context {W : Type} `{St : Storage W} `{BP : BuildProfile} `{S : Sha3} `{Sig : Signatures} `{BT : BincodeTx}
  `{Iter : !HashMapIter Hash PooledTx}.
Abbreviation M := (ST (MempoolImpl W) PacyteError).

Definition set_mp_state (x : StateManager W) (m : MempoolImpl W) := mkPool (mp_config m) x (mp_transactions m)
  (pending_nonces m) (tx_count_by_address m) (priority_index m) (mp_stats m) (rejected_count m) (replaced_count m).
Definition set_mp_transactions x (m : MempoolImpl W) := mkPool (mp_config m) (mp_state m) x
  (pending_nonces m) (tx_count_by_address m) (priority_index m) (mp_stats m) (rejected_count m) (replaced_count m).
Definition set_pending_nonces x (m : MempoolImpl W) := mkPool (mp_config m) (mp_state m) (mp_transactions m)
  x (tx_count_by_address m) (priority_index m) (mp_stats m) (rejected_count m) (replaced_count m).
Definition set_tx_count x (m : MempoolImpl W) := mkPool (mp_config m) (mp_state m) (mp_transactions m)
  (pending_nonces m) x (priority_index m) (mp_stats m) (rejected_count m) (replaced_count m).
Definition set_priority_index x (m : MempoolImpl W) := mkPool (mp_config m) (mp_state m) (mp_transactions m)
  (pending_nonces m) (tx_count_by_address m) x (mp_stats m) (rejected_count m) (replaced_count m).
Definition set_mp_stats x (m : MempoolImpl W) := mkPool (mp_config m) (mp_state m) (mp_transactions m)
  (pending_nonces m) (tx_count_by_address m) (priority_index m) x (rejected_count m) (replaced_count m).
Definition set_rejected x (m : MempoolImpl W) := mkPool (mp_config m) (mp_state m) (mp_transactions m)
  (pending_nonces m) (tx_count_by_address m) (priority_index m) (mp_stats m) x (replaced_count m).
Definition set_replaced x (m : MempoolImpl W) := mkPool (mp_config m) (mp_state m) (mp_transactions m)
  (pending_nonces m) (tx_count_by_address m) (priority_index m) (mp_stats m) (rejected_count m) x.

Definition mempool_new (cfg : MempoolConfig) (s : StateManager W) : MempoolImpl W :=
  mkPool cfg s ∅ ∅ ∅ [] default_pool_stats 0 0.

(** A call on the shared state manager. *)
Definition on_state {A} (c : ST (StateManager W) PacyteError A) : M A :=
  fun m => let '(r, s) := c (mp_state m) in (r, set_mp_state s m).

Definition should_replace (existing : PooledTx) (new : Transaction) : bool :=
  if tx_nonce (p_tx existing) =? tx_nonce new then
    f64_lt (f64_mul (p_fee_per_byte existing) f64_1_1) (fee_rate new)
  else false.

Definition add_to_priority_index (h : Hash) (priority : f64) : M unit :=
  smod (fun m => set_priority_index (index_push (priority_key priority) h (priority_index m)) m).
Definition remove_from_priority_index (h : Hash) : M unit :=
  smod (fun m => set_priority_index (index_remove h (priority_index m)) m).

(** The sizes, rates and greatest age summed by [update_stats]. *)
Fixpoint stats_loop (now : Z) (l : list PooledTx) (acc : Z * f64 * Z) : PacyteResult (Z * f64 * Z) :=
  match l with
  | [] => Ok acc
  | p :: l =>
      let '(total_size, rates, oldest) := acc in
      let? total_size' := add_u64 total_size (p_size p) in
      stats_loop now l (total_size', f64_add rates (p_fee_per_byte p), Z.max oldest (p_age_secs now p))
  end.

Definition update_stats (now : Z) : M unit :=
  run! smod (fun m => let s := mp_stats m in
    set_mp_stats (mkPoolStats (Z.of_nat (size (mp_transactions m))) (total_size_bytes s) (avg_fee_per_byte s)
      (oldest_tx_age_secs s) (stats_rejected s) (stats_replaced s) (pending_by_address s)) m) in
  do! sums := fun m => (stats_loop now (values (mp_transactions m)) (0, f64_zero, 0), m) in
  let '(total_size, rates, oldest) := sums in
  smod (fun m => let s := mp_stats m in
    set_mp_stats (mkPoolStats (total_transactions s) total_size
      (if 0 <? total_transactions s then f64_div rates (f64_of (total_transactions s)) else f64_zero)
      oldest (rejected_count m) (replaced_count m) (pending_by_address s)) m).

Definition remove_transaction (now : Z) (h : Hash) : M (option Transaction) :=
  do! o := sget (fun m => mp_transactions m !! h) in
  match o with
  | Some pooled =>
      let from := tx_from (p_tx pooled) in
      run! smod (fun m => set_mp_transactions (delete h (mp_transactions m)) m) in
      run! smod (fun m => set_pending_nonces
             (alter (fun s => s ∖ {[tx_nonce (p_tx pooled)]}) from (pending_nonces m)) m) in
      run! smod (fun m => set_tx_count
             (alter (fun c => saturating_sub c 1) from (tx_count_by_address m)) m) in
      run! remove_from_priority_index h in
      run! update_stats now in
      sret (Some (p_tx pooled))
  | None => sret None
  end.

(** What the scan for a pooled transaction of the same sender and nonce decides. *)
Inductive Replacement : Type := NoReplacement | ReplaceHash (h : Hash) | ReplaceTooLow.
Definition same_slot (tx : Transaction) (p : PooledTx) : bool :=
  bool_decide (tx_from (p_tx p) = tx_from tx) && (tx_nonce (p_tx p) =? tx_nonce tx).
Definition find_replacement (tx : Transaction) (m : MempoolImpl W) : Replacement :=
  match pending_nonces m !! tx_from tx with
  | Some pending =>
      if bool_decide (tx_nonce tx ∈ pending) then
        match List.find (same_slot tx) (values (mp_transactions m)) with
        | Some pooled => if should_replace pooled tx then ReplaceHash (p_hash pooled) else ReplaceTooLow
        | None => NoReplacement
        end
      else NoReplacement
  | None => NoReplacement
  end.

(** The end of [add_transaction]: the new entry and its indexes. *)
Definition insert_pooled (now : Z) (tx : Transaction) : M unit :=
  let pooled := pooled_new now tx in
  run! smod (fun m => set_pending_nonces
         (<[tx_from tx := default ∅ (pending_nonces m !! tx_from tx) ∪ {[tx_nonce tx]}]> (pending_nonces m)) m) in
  do! count := sget (fun m => default 0 (tx_count_by_address m !! tx_from tx)) in
  do! count' := slift (add_u64 count 1) in
  run! smod (fun m => set_tx_count (<[tx_from tx := count']> (tx_count_by_address m)) m) in
  run! add_to_priority_index (tx_hash tx) (p_priority pooled) in
  run! smod (fun m => set_mp_transactions (<[tx_hash tx := pooled]> (mp_transactions m)) m) in
  update_stats now.

Definition pool_add_transaction (now : Z) (tx : Transaction) : M AddTxResult :=
  do! txs := sget mp_transactions in
  do! cfg := sget mp_config in
  do! tx_count := sget (fun m => default 0 (tx_count_by_address m !! tx_from tx)) in
  if bool_decide (is_Some (txs !! tx_hash tx)) then sret AlreadyExists
  else if max_size cfg <=? Z.of_nat (size txs) then sret (Rejected "Mempool full")
  else if max_tx_per_address cfg <=? tx_count then
    sret (Rejected ("Too many pending txs from address (max: " +:+ pretty (max_tx_per_address cfg) +:+ ")")%string)
  else
    do! verdict := on_state (validate_transaction now cfg tx) in
    match verdict with
    | Some reason =>
        do! n := sget rejected_count in
        do! n' := slift (add_u64 n 1) in
        run! smod (set_rejected n') in
        sret (Rejected reason)
    | None =>
        do! replacement := sget (find_replacement tx) in
        match replacement with
        | ReplaceTooLow => sret (Rejected "Replacement fee too low")
        | ReplaceHash old_hash =>
            run! remove_transaction now old_hash in
            do! n := sget replaced_count in
            do! n' := slift (add_u64 n 1) in
            run! smod (set_replaced n') in
            run! insert_pooled now tx in
            sret (Replaced old_hash)
        | NoReplacement =>
            run! insert_pooled now tx in
            sret Added
        end
    end.

Definition pool_get_transaction (h : Hash) (m : MempoolImpl W) : option Transaction :=
  p_tx <$> mp_transactions m !! h.
Definition get_all_transactions (m : MempoolImpl W) : list Transaction :=
  map p_tx (values (mp_transactions m)).
Definition pool_size (m : MempoolImpl W) : Z := Z.of_nat (size (mp_transactions m)).
Definition get_transactions_by_address (a : Address) (m : MempoolImpl W) : list Transaction :=
  map p_tx (List.filter (fun p => bool_decide (tx_from (p_tx p) = a)) (values (mp_transactions m))).

(** [for hash in l { self.remove_transaction(hash) }]. *)
Fixpoint remove_all (now : Z) (l : list Hash) : M unit :=
  match l with
  | [] => sret tt
  | h :: l => run! remove_transaction now h in remove_all now l
  end.

Definition pool_cleanup (now : Z) (processed : list Hash) : M unit :=
  run! remove_all now processed in
  do! l := sget (fun m => entries (mp_transactions m)) in
  do! stale := filter_m (fun e : Hash * PooledTx =>
      do! state_nonce := on_state (unwrap_or 0 (get_nonce (tx_from (p_tx e.2)))) in
      sret (tx_nonce (p_tx e.2) <=? state_nonce)) l in
  remove_all now stale.*1.

Definition prune_expired (now current_time : Z) : M Z :=
  do! max_age := sget (fun m => max_tx_age_secs (mp_config m)) in
  do! l := sget (fun m => entries (mp_transactions m)) in
  let expired := List.filter (fun e : Hash * PooledTx =>
    max_age <? saturating_sub current_time (p_added_at e.2)) l in
  run! remove_all now expired.*1 in
  sret (Z.of_nat (length expired)).

(** ** Selecting the transactions of a block *)

Record Selection : Type := mkSelection {
  selected : list Transaction;
  selected_hashes : gset Hash;
  current_size : Z;
  nonce_tracker : gmap Address Z
}.

Definition select_one (m : MempoolImpl W) (max_bytes : Z) (h : Hash) (s : Selection) : PacyteResult Selection :=
  if bool_decide (h ∈ selected_hashes s) then Ok s
  else
    match mp_transactions m !! h with
    | None => Ok s
    | Some pooled =>
        let tx := p_tx pooled in
        let? expected := match nonce_tracker s !! tx_from tx with
                         | Some n => add_u64 n 1
                         | None => Ok 0
                         end in
        if tx_nonce tx <? expected then Ok s
        else
          let? limit := add_u64 expected (max_nonce_gap (mp_config m)) in
          if limit <? tx_nonce tx then Ok s
          else
            let? size' := add_u64 (current_size s) (p_size pooled) in
            if max_bytes <? size' then Ok s
            else Ok (mkSelection (selected s ++ [tx]) ({[h]} ∪ selected_hashes s) size'
                       (<[tx_from tx := tx_nonce tx]> (nonce_tracker s)))
    end.

Fixpoint select_bucket (m : MempoolImpl W) (max_count max_bytes : Z) (hs : list Hash) (s : Selection) :
  PacyteResult Selection :=
  match hs with
  | [] => Ok s
  | h :: hs =>
      if (max_count <=? Z.of_nat (length (selected s))) || (max_bytes <=? current_size s) then Ok s
      else let? s' := select_one m max_bytes h s in select_bucket m max_count max_bytes hs s'
  end.

Fixpoint select_buckets (m : MempoolImpl W) (max_count max_bytes : Z) (ix : list (Z * list Hash)) (s : Selection) :
  PacyteResult Selection :=
  match ix with
  | [] => Ok s
  | (_, hs) :: ix =>
      let? s' := select_bucket m max_count max_bytes hs s in select_buckets m max_count max_bytes ix s'
  end.

Definition pool_select_for_block (max_count max_bytes : Z) (m : MempoolImpl W) : PacyteResult (list Transaction) :=
  let? s := select_buckets m max_count max_bytes (rev (priority_index m)) (mkSelection [] ∅ 0 ∅) in
  Ok (selected s).
End Pool.
