(* ===== verification/MempoolProps.v ===== *)
(** * The transaction pool: its indexes, admission, selection and sweeping

    The three indexes always describe exactly the pooled transactions; admission, selection for
    a block, cleanup and pruning are characterised by the transactions they keep. *)

From stdpp Require Import strings.
From S2P Require Import Prelude Hashing Errors Types Merkle Block Floats State StateProps Mempool.
Abbreviation length := List.length.

(** ** The priority index *)

Definition index_hashes (ix : list (Z * list Hash)) : list Hash := concat ix.*2.
Definition in_bucket (ix : list (Z * list Hash)) (k : Z) (h : Hash) : Prop := exists hs, (k, hs) ∈ ix /\ h ∈ hs.

Lemma in_bucket_cons k' hs ix k h :
  in_bucket ((k', hs) :: ix) k h <-> (k = k' /\ h ∈ hs) \/ in_bucket ix k h.
Proof.
  unfold in_bucket. setoid_rewrite elem_of_cons. split.
  - intros (l & [[= -> ->]|Hl] & Hh); [by left|right; eauto].
  - intros [[-> Hh]|(l & Hl & Hh)]; eauto.
Qed.

Lemma in_bucket_hashes ix h : h ∈ index_hashes ix <-> exists k, in_bucket ix k h.
Proof.
  induction ix as [|[k hs] ix IH].
  - split; [intros H; by apply elem_of_nil in H|]. intros (k & hs & H & _). by apply elem_of_nil in H.
  - unfold index_hashes in *. cbn. rewrite elem_of_app, IH. setoid_rewrite in_bucket_cons. naive_solver.
Qed.

Lemma index_push_perm k h ix : index_hashes (index_push k h ix) ≡ₚ h :: index_hashes ix.
Proof.
  unfold index_hashes. induction ix as [|[k' hs] ix IH]; cbn; [done|].
  destruct (k <? k'); [done|]. destruct (k =? k'); cbn.
  - rewrite <- app_assoc. cbn. by rewrite <- Permutation_middle.
  - rewrite IH. by rewrite <- Permutation_middle.
Qed.

Lemma index_push_bucket k h ix k' x :
  in_bucket (index_push k h ix) k' x <-> (k' = k /\ x = h) \/ in_bucket ix k' x.
Proof.
  induction ix as [|[k0 hs] ix IH]; cbn.
  - rewrite in_bucket_cons, list_elem_of_singleton. done.
  - destruct (Z.ltb_spec k k0); [by rewrite in_bucket_cons, list_elem_of_singleton|].
    destruct (Z.eqb_spec k k0) as [->|]; rewrite !in_bucket_cons.
    + rewrite elem_of_app, list_elem_of_singleton. naive_solver.
    + rewrite IH. naive_solver.
Qed.

Lemma index_push_keys k h ix :
  Forall (fun k' => k' = k \/ k' ∈ ix.*1) (index_push k h ix).*1.
Proof.
  apply Forall_forall. intros x. induction ix as [|[k0 hs] ix IH]; cbn.
  - intros ->%list_elem_of_singleton. by left.
  - destruct (k <? k0); [|destruct (k =? k0)]; cbn; rewrite ?elem_of_cons; naive_solver.
Qed.

Lemma index_push_sorted k h ix :
  StronglySorted Z.lt ix.*1 -> StronglySorted Z.lt (index_push k h ix).*1.
Proof.
  induction ix as [|[k0 hs] ix IH]; cbn; [by repeat constructor|].
  intros [Hs Hall]%StronglySorted_inv. destruct (Z.ltb_spec k k0); cbn.
  - constructor; [by constructor|]. constructor; [done|]. eapply Forall_impl; [exact Hall|cbn; lia].
  - destruct (Z.eqb_spec k k0); cbn; [by constructor|]. constructor; [by apply IH|].
    eapply Forall_impl; [apply index_push_keys|]. cbn. intros x [->|Hx]; [lia|].
    by apply (proj1 (Forall_forall _ _) Hall).
Qed.

Lemma swap_remove_perm i l h : l !! i = Some h -> l ≡ₚ h :: swap_remove i l.
Proof.
  intros Hi. destruct l as [|y l'] using rev_ind; [done|]. clear IHl'. unfold swap_remove. rewrite last_snoc.
  rewrite length_app. cbn. replace (length l' + 1 - 1)%nat with (length l') by lia.
  destruct (decide (i < length l')%nat) as [Hlt|Hge].
  - rewrite insert_app_l by done. rewrite take_app_le by (by rewrite length_insert).
    rewrite firstn_all2 by (by rewrite length_insert). rewrite lookup_app_l in Hi by done.
    rewrite insert_take_drop by done. rewrite <- (take_drop_middle l' i h Hi) at 1. solve_Permutation.
  - apply lookup_lt_Some in Hi as Hl. rewrite length_app in Hl. cbn in Hl. assert (i = length l') as -> by lia.
    rewrite lookup_app_r in Hi by done. rewrite Nat.sub_diag in Hi. injection Hi as ->.
    rewrite insert_app_r_alt by done. rewrite Nat.sub_diag. cbn. rewrite take_app_length.
    by rewrite Permutation_app_comm.
Qed.

Lemma index_remove_perm h ix :
  h ∈ index_hashes ix -> index_hashes ix ≡ₚ h :: index_hashes (index_remove h ix).
Proof.
  unfold index_hashes. induction ix as [|[k hs] ix IH]; cbn; [by intros ?%elem_of_nil|].
  intros Hh. destruct (list_find _ hs) as [[i x]|] eqn:Hfind; cbn.
  - apply list_find_Some in Hfind as (Hi & -> & _). by rewrite (swap_remove_perm i hs h Hi) at 1.
  - rewrite elem_of_app in Hh. destruct Hh as [Hh|Hh].
    + apply list_find_None in Hfind. by eapply Forall_forall in Hfind.
    + rewrite (IH Hh) at 1. by rewrite <- Permutation_middle.
Qed.

Lemma index_remove_keys h ix : (index_remove h ix).*1 = ix.*1.
Proof.
  induction ix as [|[k hs] ix IH]; cbn; [done|]. destruct (list_find _ hs) as [[]|]; cbn; [done|]. by rewrite IH.
Qed.

Lemma index_remove_bucket h ix k x : in_bucket (index_remove h ix) k x -> in_bucket ix k x.
Proof.
  induction ix as [|[k' hs] ix IH]; cbn; [done|].
  destruct (list_find _ hs) as [[i y]|] eqn:Hfind; rewrite !in_bucket_cons; [|naive_solver].
  apply list_find_Some in Hfind as (Hi & -> & _). intros [[-> Hx]|Hx]; [left|by right].
  split; [done|]. rewrite (swap_remove_perm i hs h Hi). by apply elem_of_cons; right.
Qed.

(** ** The invariant *)

Definition sender_count (a : Address) (txs : gmap Hash PooledTx) : Z :=
  map_sum (fun p => if decide (tx_from (p_tx p) = a) then 1 else 0) txs.

Lemma sender_count_insert a h p txs :
  txs !! h = None ->
  sender_count a (<[h := p]> txs) = sender_count a txs + (if decide (tx_from (p_tx p) = a) then 1 else 0).
Proof. intros Hh. unfold sender_count. rewrite map_sum_insert_new by done. lia. Qed.

Lemma sender_count_delete a h p txs :
  txs !! h = Some p ->
  sender_count a (delete h txs) = sender_count a txs - (if decide (tx_from (p_tx p) = a) then 1 else 0).
Proof.
  intros Hh. unfold sender_count.
  rewrite (map_sum_delete (fun p => if decide (tx_from (p_tx p) = a) then 1 else 0) txs h p Hh). lia.
Qed.

Lemma sender_count_nonneg a txs : 0 <= sender_count a txs.
Proof. apply map_sum_nonneg. intros h p _. case_decide; lia. Qed.

Section Invariant.
Context {W : Type} `{St : Storage W} `{BP : BuildProfile} `{S : Sha3} `{Sig : Signatures} `{BT : BincodeTx}
  `{Iter : !HashMapIter Hash PooledTx}.
Implicit Types m : MempoolImpl W.

Definition pool_config_ok (c : MempoolConfig) : Prop :=
  fits 64 (max_size c) /\ fits 64 (max_tx_per_address c) /\ fits 64 (max_nonce_gap c).

(** The pooled transactions sit under their hashes with what [PooledTx::new] computed, one for
    each sender and nonce; the indexes describe exactly them; the limits hold. *)
Record pool_ok m : Prop := {
  po_config : pool_config_ok (mp_config m);
  po_entry : forall h p, mp_transactions m !! h = Some p ->
    h = tx_hash (p_tx p) /\ p = pooled_new (p_added_at p) (p_tx p);
  po_slot : forall h1 p1 h2 p2, mp_transactions m !! h1 = Some p1 -> mp_transactions m !! h2 = Some p2 ->
    tx_from (p_tx p1) = tx_from (p_tx p2) -> tx_nonce (p_tx p1) = tx_nonce (p_tx p2) -> h1 = h2;
  po_nonces : forall a n, n ∈ default ∅ (pending_nonces m !! a) <->
    exists h p, mp_transactions m !! h = Some p /\ tx_from (p_tx p) = a /\ tx_nonce (p_tx p) = n;
  po_count : forall a, default 0 (tx_count_by_address m !! a) = sender_count a (mp_transactions m);
  po_index : index_hashes (priority_index m) ≡ₚ (map_to_list (mp_transactions m)).*1;
  po_sorted : StronglySorted Z.lt (priority_index m).*1;
  po_bucket : forall k h p, in_bucket (priority_index m) k h -> mp_transactions m !! h = Some p ->
    k = priority_key (p_priority p);
  po_room : Z.of_nat (size (mp_transactions m)) <= max_size (mp_config m);
  po_sender : forall a, sender_count a (mp_transactions m) <= max_tx_per_address (mp_config m)
}.

Lemma pool_new_ok cfg s : pool_config_ok cfg -> pool_ok (mempool_new cfg s).
Proof.
  intros Hc. assert (He : forall a, sender_count a ∅ = 0) by (intros; apply map_sum_empty).
  destruct Hc as (H1 & H2 & H3) eqn:E. split; cbn.
  - by split_and!.
  - intros h p Hh. by rewrite lookup_empty in Hh.
  - intros h1 p1 h2 p2 Hh. by rewrite lookup_empty in Hh.
  - intros a n. rewrite lookup_empty. cbn. split; [set_solver|]. intros (h & p & Hh & _). by rewrite lookup_empty in Hh.
  - intros a. by rewrite lookup_empty, He.
  - by rewrite map_to_list_empty.
  - constructor.
  - intros k h p (hs & Hhs & _). by apply elem_of_nil in Hhs.
  - rewrite map_size_empty. unfold fits in H1. lia.
  - intros a. rewrite He. unfold fits in H2. lia.
Qed.

(** What statistics, counters and reads of the state leave alone. *)
Definition same_core m m' : Prop :=
  mp_config m' = mp_config m /\ mp_transactions m' = mp_transactions m
  /\ pending_nonces m' = pending_nonces m /\ tx_count_by_address m' = tx_count_by_address m
  /\ priority_index m' = priority_index m.
#[local] Instance same_core_preorder : PreOrder same_core.
Proof. split; [by repeat split|]. intros x y z (?&?&?&?&?) (?&?&?&?&?). repeat split; congruence. Qed.

Lemma same_core_ok m m' : same_core m m' -> pool_ok m -> pool_ok m'.
Proof.
  intros (Hc & Ht & Hp & Hn & Hi) [?????????]. split; rewrite ?Hc, ?Ht, ?Hp, ?Hn, ?Hi; done.
Qed.

(** The pool after an entry has been taken out, and after a transaction has been put in. *)
Definition removed (h : Hash) (p : PooledTx) m : MempoolImpl W :=
  set_priority_index (index_remove h (priority_index m))
    (set_tx_count (alter (fun c => saturating_sub c 1) (tx_from (p_tx p)) (tx_count_by_address m))
       (set_pending_nonces (alter (fun s => s ∖ {[tx_nonce (p_tx p)]}) (tx_from (p_tx p)) (pending_nonces m))
          (set_mp_transactions (delete h (mp_transactions m)) m))).

Definition inserted (now : Z) (tx : Transaction) m : MempoolImpl W :=
  let p := pooled_new now tx in
  set_mp_transactions (<[tx_hash tx := p]> (mp_transactions m))
    (set_priority_index (index_push (priority_key (p_priority p)) (tx_hash tx) (priority_index m))
       (set_tx_count (<[tx_from tx := default 0 (tx_count_by_address m !! tx_from tx) + 1]> (tx_count_by_address m))
          (set_pending_nonces
             (<[tx_from tx := default ∅ (pending_nonces m !! tx_from tx) ∪ {[tx_nonce tx]}]> (pending_nonces m)) m))).

Lemma removed_ok h p m : pool_ok m -> mp_transactions m !! h = Some p -> pool_ok (removed h p m).
Proof.
  intros Hok Hh. pose proof Hok as [Hcfg Hentry Hslot Hnon Hcnt Hidx Hsort Hbuck Hroom Hsend].
  assert (Hdel : forall x q, delete h (mp_transactions m) !! x = Some q <-> h <> x /\ mp_transactions m !! x = Some q)
    by (intros; apply lookup_delete_Some).
  split; cbn.
  - done.
  - intros x q [_ Hx]%Hdel. by apply Hentry.
  - intros h1 p1 h2 p2 [_ H1]%Hdel [_ H2]%Hdel. by eapply Hslot.
  - intros a n. setoid_rewrite Hdel. destruct (decide (tx_from (p_tx p) = a)) as [<-|Hne].
    + rewrite lookup_alter_eq.
      replace (default ∅ ((λ s : gset Z, s ∖ {[tx_nonce (p_tx p)]}) <$> pending_nonces m !! tx_from (p_tx p)))
        with (default ∅ (pending_nonces m !! tx_from (p_tx p)) ∖ {[tx_nonce (p_tx p)]})
        by (destruct (pending_nonces m !! _); cbn; [done|set_solver]).
      rewrite elem_of_difference, elem_of_singleton, Hnon. split.
      * intros [(x & q & Hx & Hf & <-) Hn]. exists x, q. split_and!; [|done..]. congruence.
      * intros (x & q & [Hne Hx] & Hf & <-). split; [by eauto|]. intros Hn. apply Hne.
        by apply (Hslot h p x q).
    + rewrite lookup_alter_ne by done. rewrite Hnon. split; [|naive_solver].
      intros (x & q & Hx & Hf & Hn). exists x, q. split_and!; [|done..]. congruence.
  - intros a. rewrite (sender_count_delete a h p) by done. rewrite <- Hcnt.
    pose proof (sender_count_delete (tx_from (p_tx p)) h p _ Hh) as Hd.
    pose proof (sender_count_nonneg (tx_from (p_tx p)) (delete h (mp_transactions m))) as Hpos.
    rewrite decide_True in Hd by done. rewrite <- Hcnt in Hd. case_decide as Hf.
    + subst a. rewrite lookup_alter_eq. destruct (tx_count_by_address m !! _); cbn in *; unfold saturating_sub; lia.
    + rewrite lookup_alter_ne by done. lia.
  - assert (Hin : h ∈ index_hashes (priority_index m)).
    { rewrite Hidx. apply list_elem_of_fmap. exists (h, p). split; [done|]. by apply elem_of_map_to_list. }
    apply (Permutation_cons_inv (a := h)). rewrite <- (index_remove_perm h _ Hin), Hidx.
    by rewrite <- (map_to_list_delete (mp_transactions m) h p Hh).
  - by rewrite index_remove_keys.
  - intros k x q Hb [_ Hx]%Hdel. apply (Hbuck k x q); [by eapply index_remove_bucket|done].
  - rewrite map_size_delete_Some by (by eexists). lia.
  - intros a. rewrite (sender_count_delete a h p) by done. pose proof (Hsend a). case_decide; lia.
Qed.

Lemma inserted_ok now tx m :
  pool_ok m -> mp_transactions m !! tx_hash tx = None ->
  Z.of_nat (size (mp_transactions m)) < max_size (mp_config m) ->
  sender_count (tx_from tx) (mp_transactions m) < max_tx_per_address (mp_config m) ->
  (forall h p, mp_transactions m !! h = Some p -> same_slot tx p = false) ->
  pool_ok (inserted now tx m).
Proof.
  intros Hok Hnew Hsize Hlim Hfree. pose proof Hok as [Hcfg Hentry Hslot Hnon Hcnt Hidx Hsort Hbuck Hroom Hsend].
  assert (Hins : forall x q, <[tx_hash tx := pooled_new now tx]> (mp_transactions m) !! x = Some q <->
    (x = tx_hash tx /\ q = pooled_new now tx) \/ mp_transactions m !! x = Some q).
  { intros x q. destruct (decide (tx_hash tx = x)) as [<-|Hne].
    - rewrite lookup_insert_eq. split; [intros [= <-]; by left|]. intros [[_ ->]|Hx]; [done|congruence].
    - rewrite lookup_insert_ne by done. naive_solver. }
  assert (Hslot' : forall h p, mp_transactions m !! h = Some p ->
    tx_from (p_tx p) = tx_from tx -> tx_nonce (p_tx p) = tx_nonce tx -> False).
  { intros h p Hp Hf Hn. pose proof (Hfree h p Hp) as Hs. unfold same_slot in Hs.
    rewrite Hf, Hn, bool_decide_eq_true_2, Z.eqb_refl in Hs by done. done. }
  split; cbn -[index_hashes index_push].
  - done.
  - intros x q [[-> ->]|Hx]%Hins; [done|by apply Hentry].
  - intros h1 p1 h2 p2 [[-> ->]|H1]%Hins [[-> ->]|H2]%Hins; cbn; try done.
    + intros. exfalso. by eapply Hslot'.
    + intros. exfalso. by eapply Hslot'.
    + by apply Hslot.
  - intros a n. setoid_rewrite Hins. destruct (decide (tx_from tx = a)) as [<-|Hne].
    + rewrite lookup_insert_eq. cbn. rewrite elem_of_union, elem_of_singleton, Hnon. split.
      * intros [(x & q & Hx & Hf & Hn)| ->]; eauto 10.
      * intros (x & q & [[-> ->]|Hx] & Hf & Hn); cbn in *; [by right|left; eauto].
    + rewrite lookup_insert_ne by done. rewrite Hnon. split.
      * intros (x & q & Hx & Hf & Hn). eauto 10.
      * intros (x & q & [[-> ->]|Hx] & Hf & Hn); cbn in *; [done|eauto].
  - intros a. rewrite sender_count_insert by done. cbn. case_decide as Hf.
    + subst a. by rewrite lookup_insert_eq, <- Hcnt.
    + rewrite lookup_insert_ne, Hcnt by done. lia.
  - rewrite index_push_perm, Hidx, map_to_list_insert by done. done.
  - by apply index_push_sorted.
  - intros k x q Hb [[-> ->]|Hx]%Hins; apply index_push_bucket in Hb as [[-> Hx']|Hb]; try done.
    + exfalso.
      assert (Hin : tx_hash tx ∈ index_hashes (priority_index m)) by (apply in_bucket_hashes; eauto).
      rewrite Hidx in Hin. apply list_elem_of_fmap in Hin as ([y q] & Heq & Hy%elem_of_map_to_list). cbn in Heq.
      subst y. congruence.
    + congruence.
    + by apply (Hbuck k x q).
  - rewrite map_size_insert_None by done. lia.
  - intros a. rewrite sender_count_insert by done. cbn. pose proof (Hsend a). case_decide; [subst a|]; lia.
Qed.
End Invariant.

(** ** Removal *)

Section Removal.
Context {W : Type} `{St : Storage W} `{BP : BuildProfile} `{S : Sha3} `{Sig : Signatures} `{BT : BincodeTx}
  `{Iter : !HashMapIter Hash PooledTx}.
Implicit Types m : MempoolImpl W.
#[local] Existing Instance same_core_preorder.

(** A panic that only a build with overflow checks can have. *)
Definition debug_panic {A} (r : PacyteResult A) : Prop := r = Panic /\ overflow_checks = true.

Lemma stats_loop_outcome now l acc :
  (exists r, stats_loop now l acc = Ok r) \/ debug_panic (stats_loop now l acc).
Proof.
  revert acc. induction l as [|p l IH]; intros [[n f] o]; cbn; [by left; eexists|].
  unfold add_u64, arith. case_decide; cbn; [apply IH|].
  destruct overflow_checks eqn:Ho; cbn; [by right|apply IH].
Qed.

(** Statistics: the core and the state stay, and only an overflowing total panics. *)
Lemma update_stats_cases now m r m' :
  update_stats now m = (r, m') -> same_core m m' /\ mp_state m' = mp_state m /\ (r = Ok tt \/ debug_panic r).
Proof.
  unfold update_stats, sbind, smod. cbn -[stats_loop f64_zero values].
  destruct (stats_loop_outcome now (values (mp_transactions m)) (0, f64_zero, 0)) as [[[[n f] o] ->]|[-> Ho]];
    intros [= <- <-]; split_and!; try done; [by left|by right].
Qed.

Lemma remove_eq now h p m :
  mp_transactions m !! h = Some p ->
  remove_transaction now h m = sbind (update_stats now) (fun _ => sret (Some (p_tx p))) (removed h p m).
Proof. intros Hh. unfold remove_transaction, sbind at 1, sget. by rewrite Hh. Qed.

Lemma remove_cases now h m r m' :
  remove_transaction now h m = (r, m') ->
  match mp_transactions m !! h with
  | Some p => same_core (removed h p m) m' /\ mp_state m' = mp_state m /\ (r = Ok (Some (p_tx p)) \/ debug_panic r)
  | None => m' = m /\ r = Ok None
  end.
Proof.
  destruct (mp_transactions m !! h) as [p|] eqn:Hh.
  2:{ unfold remove_transaction, sbind, sget. rewrite Hh. by intros [= <- <-]. }
  rewrite (remove_eq now h p m Hh).
  unfold sbind. destruct (update_stats now (removed h p m)) as [r1 m1] eqn:E1.
  apply update_stats_cases in E1 as (Hc & Hs & Hr). destruct Hr as [-> | [-> Ho]]; intros [= <- <-]; [auto|].
  split_and!; [done..|by right].
Qed.

Definition keep_outside (l : list Hash) (txs : gmap Hash PooledTx) : gmap Hash PooledTx :=
  filter (fun e => e.1 ∉ l) txs.

Lemma keep_outside_cons h l txs : keep_outside (h :: l) txs = keep_outside l (delete h txs).
Proof.
  apply map_eq. intros i. apply option_eq. intros x. unfold keep_outside.
  rewrite !map_lookup_filter_Some, lookup_delete_Some. cbn. rewrite not_elem_of_cons. naive_solver.
Qed.

Lemma keep_outside_nil txs : keep_outside [] txs = txs.
Proof. apply map_filter_id. intros. apply not_elem_of_nil. Qed.

Lemma remove_all_cases now l m r m' :
  pool_ok m -> remove_all now l m = (r, m') ->
  pool_ok m' /\ mp_config m' = mp_config m /\ mp_state m' = mp_state m
  /\ (debug_panic r \/ r = Ok tt /\ mp_transactions m' = keep_outside l (mp_transactions m)).
Proof.
  revert m. induction l as [|h l IH]; intros m Hok; cbn [remove_all].
  - intros [= <- <-]. rewrite keep_outside_nil. split_and!; auto.
  - unfold sbind. destruct (remove_transaction now h m) as [r1 m1] eqn:E1. apply remove_cases in E1.
    rewrite keep_outside_cons. destruct (mp_transactions m !! h) as [p|] eqn:Hh.
    + destruct E1 as (Hcore & Hs & Hr). pose proof (same_core_ok _ _ Hcore (removed_ok h p m Hok Hh)) as Hok1.
      destruct Hcore as (Hc1 & Ht1 & _). cbn in Hc1, Ht1. destruct Hr as [-> | [-> Ho]].
      * intros (H1 & H2 & H3 & H4)%IH; [|done]. rewrite H2, H3, Ht1 in *. split_and!; auto.
      * intros [= <- <-]. split_and!; [done..|by left].
    + destruct E1 as [-> ->]. intros (H1 & H2 & H3 & H4)%IH; [|done]. rewrite delete_id by done. split_and!; auto.
Qed.
End Removal.

(** ** Admission *)

Definition ledger_balance (a : Address) (L : Ledger) : Z := match L !! a with Some x => balance x | None => 0 end.
Definition ledger_nonce (a : Address) (L : Ledger) : Z := match L !! a with Some x => acc_nonce x | None => 0 end.

Lemma arith_outcome `{BP : BuildProfile} {E} w z :
  (exists n, arith (E := E) w z = Ok n) \/ arith (E := E) w z = Panic /\ overflow_checks = true.
Proof. unfold arith. case_decide; [by left; eexists|]. destruct overflow_checks; [by right|by left; eexists]. Qed.

Lemma validate_basic_outcome `{BP : BuildProfile} {E} now age tx :
  (exists b, validate_basic (E := E) now age tx = Ok b) 
  \/ validate_basic (E := E) now age tx = Panic /\ overflow_checks = true.
Proof.
  unfold validate_basic, add_u64, sub_u64. destruct (_ || _); [by left; eexists|].
  destruct (_ || _); [by left; eexists|].
  destruct (arith_outcome (E := E) 64 (now + 30)) as [[n ->]|[-> Ho]]; cbn; [|by right].
  destruct (n <? _); [by left; eexists|].
  destruct (arith_outcome (E := E) 64 (now - tx_timestamp tx)) as [[k ->]|[-> Ho]]; cbn; [|by right].
  destruct (age <? k); by left; eexists.
Qed.

Section Admission.
Context {W : Type} `{St : Storage W} `{Laws : !StorageLaws W} `{BP : BuildProfile} `{S : Sha3} `{Sig : Signatures}
  `{BT : BincodeTx} `{Iter : !HashMapIter Hash PooledTx}.
Implicit Types (s : StateManager W) (m : MempoolImpl W).

(** Reading balance and nonce may fill the cache of the state manager, nothing else. *)
Definition same_ledger s s' : Prop := view s' = view s /\ state_ok s'.

Lemma get_nonce_reads a s :
  state_ok s ->
  exists s', unwrap_or 0 (get_nonce a) s = (Ok (ledger_nonce a (view s)), s') /\ same_ledger s s'.
Proof.
  intros Hok. destruct (get_account_spec a s Hok) as (s' & E & Hv & Hok' & _).
  exists s'. split; [|done]. unfold unwrap_or, get_nonce, sbind, ledger_nonce. by rewrite E.
Qed.

Lemma get_balance_reads a s :
  state_ok s ->
  exists s', unwrap_or 0 (get_balance a) s = (Ok (ledger_balance a (view s)), s') /\ same_ledger s s'.
Proof.
  intros Hok. destruct (get_account_spec a s Hok) as (s' & E & Hv & Hok' & _).
  exists s'. split; [|done]. unfold unwrap_or, get_balance, sbind, ledger_balance. by rewrite E.
Qed.

(** What a transaction must satisfy to enter the pool. *)
Definition admissible (now : Z) (cfg : MempoolConfig) (L : Ledger) (tx : Transaction) : Prop :=
  validate_basic (E := PacyteError) now (max_tx_age_secs cfg) tx = Ok true
  /\ verify_signature tx = true
  /\ total_cost tx <= ledger_balance (tx_from tx) L
  /\ ledger_nonce (tx_from tx) L <= tx_nonce tx
  /\ (fits 64 (ledger_nonce (tx_from tx) L + max_nonce_gap cfg) ->
      tx_nonce tx <= ledger_nonce (tx_from tx) L + max_nonce_gap cfg)
  /\ tx_size tx <> 0 /\ min_fee_per_byte cfg <= fee tx / tx_size tx.

(** The panics of an addition: an overflow in a debug build, or a transaction that does not
    serialize, whose size the fee check divides by. *)
Definition add_panic {A} (tx : Transaction) (r : PacyteResult A) : Prop :=
  r = Panic /\ (overflow_checks = true \/ tx_size tx = 0).

Lemma check_nonce_cases cfg tx s r s' :
  state_ok s -> check_nonce cfg tx s = (r, s') ->
  same_ledger s s' /\
  (add_panic tx r \/ (exists v, r = Ok v /\ is_valid v = false) \/
   r = Ok Valid /\ ledger_nonce (tx_from tx) (view s) <= tx_nonce tx
   /\ (fits 64 (ledger_nonce (tx_from tx) (view s) + max_nonce_gap cfg) ->
       tx_nonce tx <= ledger_nonce (tx_from tx) (view s) + max_nonce_gap cfg)).
Proof.
  intros Hok. unfold check_nonce, sbind at 1.
  destruct (get_nonce_reads (tx_from tx) s Hok) as (s1 & -> & Hs1). set (n := ledger_nonce _ _).
  destruct (Z.ltb_spec (tx_nonce tx) n); [intros [= <- <-]; naive_solver|].
  unfold sbind, slift, add_u64.
  destruct (arith_outcome (E := PacyteError) 64 (n + max_nonce_gap cfg)) as [[lim E]|[E Ho]]; rewrite E.
  - destruct (Z.ltb_spec lim (tx_nonce tx)); intros [= <- <-]; [naive_solver|].
    split; [done|]. right; right. split_and!; [done|done|]. intros Hf. rewrite arith_fits in E by done. naive_solver.
  - intros [= <- <-]. split; [done|]. left. split; auto.
Qed.

Lemma validate_transaction_cases now cfg tx s r s' :
  state_ok s -> validate_transaction now cfg tx s = (r, s') ->
  same_ledger s s' /\
  (add_panic tx r \/ (exists reason, r = Ok (Some reason)) \/ r = Ok None /\ admissible now cfg (view s) tx).
Proof.
  intros Hok. assert (Hrefl : same_ledger s s) by done. unfold validate_transaction, sbind at 1, slift at 1.
  destruct (validate_basic_outcome (E := PacyteError) now (max_tx_age_secs cfg) tx) as [[b Hb]|[Hb Ho]]; rewrite Hb;
    [|intros [= <- <-]; split; [done|left; split; auto]].
  destruct b; cbn [negb]; [|intros [= <- <-]; eauto 6].
  destruct (verify_signature tx) eqn:Hsig; cbn [negb]; [|intros [= <- <-]; eauto 6].
  unfold sbind at 1, check_balance, sbind at 1.
  destruct (get_balance_reads (tx_from tx) s Hok) as (s1 & -> & [Hv1 Hok1]). unfold sret at 1.
  destruct (Z.leb_spec (total_cost tx) (ledger_balance (tx_from tx) (view s))); cbn [negb];
    [|intros [= <- <-]; split; [done|eauto]].
  unfold sbind at 1. destruct (check_nonce cfg tx s1) as [r2 s2] eqn:E2.
  apply check_nonce_cases in E2 as [[Hv2 Hok2] Hr2]; [|done]. rewrite Hv1 in *.
  assert (Hs2 : same_ledger s s2) by (split; congruence).
  destruct Hr2 as [[-> Hp] | [(v & -> & Hv) | (-> & Hn & Hgap)]]; [intros [= <- <-]; split; [done|by left]| |].
  - rewrite Hv. cbn. intros [= <- <-]. eauto.
  - cbn [negb is_valid]. unfold sbind, slift, check_fee.
    destruct (Z.eqb_spec (tx_size tx) 0); [intros [= <- <-]; split; [done|left; split; auto]|].
    destruct (Z.leb_spec (min_fee_per_byte cfg) (fee tx / tx_size tx)); cbn [negb]; intros [= <- <-]; [|eauto].
    split; [done|]. right; right. split; [done|]. by repeat split.
Qed.

Lemma insert_eq now tx m :
  fits 64 (default 0 (tx_count_by_address m !! tx_from tx) + 1) ->
  insert_pooled now tx m = update_stats now (inserted now tx m).
Proof.
  intros Hf. unfold insert_pooled, sbind, smod, sget, slift, add_to_priority_index, add_u64.
  cbn -[update_stats]. by rewrite arith_fits.
Qed.

(** The scan finds a pooled transaction of the same sender and nonce exactly when there is one. *)
Lemma find_replacement_spec tx m :
  pool_ok m ->
  match find_replacement tx m with
  | NoReplacement => forall h p, mp_transactions m !! h = Some p -> same_slot tx p = false
  | ReplaceHash h => exists p, mp_transactions m !! h = Some p /\ same_slot tx p = true /\ should_replace p tx = true
  | ReplaceTooLow => exists h p, mp_transactions m !! h = Some p /\ same_slot tx p = true /\ should_replace p tx = false
  end.
Proof.
  intros Hok. unfold find_replacement.
  assert (Hnone : tx_nonce tx ∉ default ∅ (pending_nonces m !! tx_from tx) ->
    forall h p, mp_transactions m !! h = Some p -> same_slot tx p = false).
  { intros Hn h p Hp. destruct (same_slot tx p) eqn:Hs; [|done]. exfalso. apply Hn. apply (po_nonces m Hok).
    unfold same_slot in Hs. apply andb_true_iff in Hs as [Hf%bool_decide_eq_true Hx%Z.eqb_eq]. eauto. }
  destruct (pending_nonces m !! tx_from tx) as [pending|]; [|apply Hnone; set_solver].
  case_bool_decide as Hin; [|by apply Hnone].
  destruct (List.find (same_slot tx) (values (mp_transactions m))) as [p|] eqn:Hfind.
  - apply List.find_some in Hfind as [Hp%list_elem_of_In Hs]. apply elem_of_values in Hp as [h Hp].
    destruct (po_entry m Hok h p Hp) as [Hh Hpe].
    assert (p_hash p = h) as -> by (rewrite Hpe; cbn; by rewrite Hh).
    destruct (should_replace p tx) eqn:Hr; eauto.
  - intros h p Hp. apply (List.find_none _ _ Hfind). apply list_elem_of_In, elem_of_values. eauto.
Qed.

(** The conditions and the effect of an insertion. *)
Definition takes_in (now : Z) (tx : Transaction) m m' : Prop :=
  mp_transactions m !! tx_hash tx = None
  /\ (forall h p, mp_transactions m !! h = Some p -> same_slot tx p = false)
  /\ same_core (inserted now tx m) m'.

Lemma insert_cases now tx m r m' :
  pool_ok m -> mp_transactions m !! tx_hash tx = None ->
  Z.of_nat (size (mp_transactions m)) < max_size (mp_config m) ->
  sender_count (tx_from tx) (mp_transactions m) < max_tx_per_address (mp_config m) ->
  (forall h p, mp_transactions m !! h = Some p -> same_slot tx p = false) ->
  insert_pooled now tx m = (r, m') ->
  pool_ok m' /\ takes_in now tx m m' /\ mp_state m' = mp_state m /\ (r = Ok tt \/ debug_panic r).
Proof.
  intros Hok Hnew Hsize Hlim Hfree.
  rewrite insert_eq.
  - intros (Hc & Hs & Hr)%update_stats_cases. split_and!; [|done..].
    apply (same_core_ok _ _ Hc). by apply inserted_ok.
  - rewrite (po_count m Hok). destruct (po_config m Hok) as (_ & Hmax & _).
    pose proof (sender_count_nonneg (tx_from tx) (mp_transactions m)). unfold fits in *. lia.
Qed.

(** Every way [add_transaction] can go. *)
Definition add_effect (now : Z) (tx : Transaction) m (r : PacyteResult AddTxResult) m' : Prop :=
  same_core m m' /\ (add_panic tx r \/ exists a, r = Ok a /\ is_added a = false)
  \/ admissible now (mp_config m) (view (mp_state m)) tx /\
     ((takes_in now tx m m' /\ (add_panic tx r \/ r = Ok Added))
      \/ exists old p, mp_transactions m !! old = Some p /\ same_slot tx p = true /\ should_replace p tx = true
           /\ (same_core (removed old p m) m' /\ add_panic tx r
               \/ takes_in now tx (removed old p m) m' /\ (add_panic tx r \/ r = Ok (Replaced old)))).

Lemma takes_in_core now tx m1 m2 m' : same_core m1 m2 -> takes_in now tx m2 m' -> takes_in now tx m1 m'.
Proof.
  intros (Hc & Ht & Hp & Hn & Hi) (H1 & H2 & Hcore). unfold takes_in. rewrite <- Ht. split_and!; [done|done|].
  destruct Hcore as (?&?&?&?&?). unfold same_core, inserted in *. cbn in *.
  rewrite <- Hc, <- Ht, <- Hp, <- Hn, <- Hi. by split_and!.
Qed.

Lemma slot_free_after_removal tx old p m :
  pool_ok m -> mp_transactions m !! old = Some p -> same_slot tx p = true ->
  forall h q, delete old (mp_transactions m) !! h = Some q -> same_slot tx q = false.
Proof.
  intros Hok Hold Hs h q [Hne Hq]%lookup_delete_Some. destruct (same_slot tx q) eqn:Hs'; [|done].
  unfold same_slot in *. apply andb_true_iff in Hs as [H1%bool_decide_eq_true H2%Z.eqb_eq].
  apply andb_true_iff in Hs' as [H3%bool_decide_eq_true H4%Z.eqb_eq].
  exfalso. apply Hne. apply (po_slot m Hok old p h q); congruence.
Qed.

(** The branch that replaces [old] by the new transaction. *)
Definition replace_with (now : Z) (tx : Transaction) (old : Hash) : ST (MempoolImpl W) PacyteError AddTxResult :=
  run! remove_transaction now old in
  do! n := sget replaced_count in
  do! n' := slift (add_u64 n 1) in
  run! smod (set_replaced n') in
  run! insert_pooled now tx in
  sret (Replaced old).

Lemma replace_cases now tx old p m r m' :
  pool_ok m -> mp_transactions m !! tx_hash tx = None -> mp_transactions m !! old = Some p -> same_slot tx p = true ->
  replace_with now tx old m = (r, m') ->
  pool_ok m' /\ mp_state m' = mp_state m
  /\ (same_core (removed old p m) m' /\ add_panic tx r
      \/ takes_in now tx (removed old p m) m' /\ (add_panic tx r \/ r = Ok (Replaced old))).
Proof.
  intros Hok Hnew Hp Hslot. unfold replace_with, sbind at 1.
  destruct (remove_transaction now old m) as [rr m2] eqn:Er. apply remove_cases in Er. rewrite Hp in Er.
  destruct Er as (Hc2 & Hs2 & Hr). pose proof (same_core_ok _ _ Hc2 (removed_ok old p m Hok Hp)) as Hok2.
  destruct Hr as [-> | [-> Ho]]; [|intros [= <- <-]; split_and!; [done..|]; left; split; [done|by split; auto]].
  unfold sbind at 1, sget at 1, sbind at 1, slift at 1, add_u64.
  destruct (arith_outcome (E := PacyteError) 64 (replaced_count m2 + 1)) as [[n ->]|[-> Ho]];
    [|intros [= <- <-]; split_and!; [done..|]; left; split; [done|by split; auto]].
  unfold sbind at 1, smod at 1. set (m3 := set_replaced n m2).
  assert (Hc3 : same_core (removed old p m) m3) by exact Hc2.
  pose proof (same_core_ok _ _ Hc3 (removed_ok old p m Hok Hp)) as Hok3.
  pose proof Hc3 as (Hcfg & Htx & _). cbn in Hcfg, Htx. unfold sbind.
  destruct (insert_pooled now tx m3) as [ri m4] eqn:Ei.
  apply insert_cases in Ei as (Hok4 & Hin & Hs4 & Hr);
    [|done|cbn; rewrite Htx; apply lookup_delete_None; by right| | |cbn; rewrite Htx; by eapply slot_free_after_removal].
  - assert (Hin' : takes_in now tx (removed old p m) m4) by (by eapply takes_in_core).
    assert (mp_state m4 = mp_state m) by (by rewrite Hs4).
    destruct Hr as [-> | [-> Ho]]; intros [= <- <-]; (split_and!; [done..|right]; split; [done|]); [by right|].
    left. split; auto.
  - cbn. rewrite Hcfg, Htx, map_size_delete_Some by (by eexists). pose proof (po_room m Hok).
    assert (size (mp_transactions m) <> 0%nat); [|lia].
    intros He%map_size_empty_inv. by rewrite He, lookup_empty in Hp.
  - cbn. rewrite Hcfg, Htx, (sender_count_delete _ old p) by done. pose proof (po_sender m Hok (tx_from tx)).
    unfold same_slot in Hslot. apply andb_true_iff in Hslot as [Hf%bool_decide_eq_true _].
    rewrite decide_True by done. lia.
Qed.

Lemma pool_add_cases now tx m r m' :
  state_ok (mp_state m) -> pool_ok m -> pool_add_transaction now tx m = (r, m') ->
  pool_ok m' /\ same_ledger (mp_state m) (mp_state m') /\ add_effect now tx m r m'.
Proof.
  intros Hst Hok. assert (Hrefl : same_core m m) by done. assert (Hl : same_ledger (mp_state m) (mp_state m)) by done.
  assert (Hout : forall r1 m1, same_core m m1 -> same_ledger (mp_state m) (mp_state m1) ->
    (add_panic tx r1 \/ exists a, r1 = Ok a /\ is_added a = false) ->
    pool_ok m1 /\ same_ledger (mp_state m) (mp_state m1) /\ add_effect now tx m r1 m1).
  { intros r1 m1 Hc Hs Ha. split_and!; [by eapply same_core_ok|done|]. by left. }
  unfold pool_add_transaction, sbind at 1, sget at 1, sbind at 1, sget at 1, sbind at 1, sget at 1.
  case_bool_decide as Hnew; [intros [= <- <-]; apply Hout; eauto|]. apply eq_None_not_Some in Hnew.
  destruct (Z.leb_spec (max_size (mp_config m)) (Z.of_nat (size (mp_transactions m))));
    [intros [= <- <-]; apply Hout; eauto|].
  destruct (Z.leb_spec (max_tx_per_address (mp_config m)) (default 0 (tx_count_by_address m !! tx_from tx)));
    [intros [= <- <-]; apply Hout; eauto|].
  unfold sbind at 1, on_state. destruct (validate_transaction now (mp_config m) tx (mp_state m)) as [rv s1] eqn:Ev.
  apply validate_transaction_cases in Ev as [Hs1 Hv]; [|done]. set (m1 := set_mp_state s1 m).
  assert (Hc1 : same_core m m1) by done.
  destruct Hv as [[-> Hp] | [[reason ->] | [-> Hadm]]]; [intros [= <- <-]; apply Hout; [done|done|by left]| |].
  { unfold sbind at 1, sget at 1, sbind at 1, slift at 1, add_u64.
    destruct (arith_outcome (E := PacyteError) 64 (rejected_count m1 + 1)) as [[n ->]|[-> Ho]]; intros [= <- <-];
      apply Hout; eauto. left. split; auto. }
  unfold sbind at 1, sget at 1. assert (Hok1 : pool_ok m1) by (by eapply same_core_ok).
  pose proof (find_replacement_spec tx m1 Hok1) as Hfind. rewrite (po_count m Hok) in *.
  destruct (find_replacement tx m1) as [|old|]; [| |intros [= <- <-]; apply Hout; eauto].
  - unfold sbind. destruct (insert_pooled now tx m1) as [ri m2] eqn:Ei.
    apply insert_cases in Ei as (Hok2 & Hin & Hs2 & Hr); [|done..].
    destruct Hr as [-> | [-> Ho]]; intros [= <- <-]; (split_and!; [done|by rewrite Hs2|right]; split; [done|left]; split; [done|]);
      [by right|]. left. split; auto.
  - destruct Hfind as (p & Hp & Hslot & Hrep). cbn in Hp.
    intros (Hok2 & Hs2 & Heff)%(replace_cases now tx old p); [|done..].
    split_and!; [done|by rewrite Hs2|]. right. split; [done|right]. exists old, p. by split_and!.
Qed.
End Admission.

(** ** Sweeping *)

Section Sweeping.
Context {W : Type} `{St : Storage W} `{Laws : !StorageLaws W} `{BP : BuildProfile} `{S : Sha3} `{Sig : Signatures}
  `{BT : BincodeTx} `{Iter : !HashMapIter Hash PooledTx}.
Implicit Types m : MempoolImpl W.

(** Entries whose nonce the ledger has already reached. *)
Definition stale (L : Ledger) (e : Hash * PooledTx) : bool :=
  tx_nonce (p_tx e.2) <=? ledger_nonce (tx_from (p_tx e.2)) L.

Lemma stale_scan l m :
  state_ok (mp_state m) ->
  exists s', filter_m (fun e : Hash * PooledTx =>
      do! state_nonce := on_state (unwrap_or 0 (get_nonce (tx_from (p_tx e.2)))) in
      sret (tx_nonce (p_tx e.2) <=? state_nonce)) l m
    = (Ok (List.filter (stale (view (mp_state m))) l), set_mp_state s' m)
    /\ same_ledger (mp_state m) s'.
Proof.
  revert m. induction l as [|e l IH]; intros m Hok; cbn [filter_m List.filter].
  - exists (mp_state m). split; [by destruct m|done].
  - destruct (get_nonce_reads (tx_from (p_tx e.2)) (mp_state m) Hok) as (s1 & E1 & [Hv1 Hok1]).
    unfold sbind at 1. unfold sbind at 1, on_state at 1. rewrite E1. unfold sret at 1.
    destruct (IH (set_mp_state s1 m) Hok1) as (s2 & E2 & [Hv2 Hok2]). cbn [mp_state set_mp_state] in *.
    unfold sbind at 1. rewrite E2, Hv1. exists s2. split; [|split; congruence].
    unfold sret. fold (stale (view (mp_state m)) e). by destruct (stale _ e).
Qed.

Lemma keep_outside_filter (f : Hash * PooledTx -> bool) (txs : gmap Hash PooledTx) :
  keep_outside (List.filter f (entries txs)).*1 txs = filter (fun e => f e = false) txs.
Proof.
  apply map_eq. intros h. apply option_eq. intros p. unfold keep_outside. rewrite !map_lookup_filter_Some. cbn.
  split; intros [Hp Hf]; (split; [done|]).
  - destruct (f (h, p)) eqn:E; [|done]. exfalso. apply Hf. apply list_elem_of_fmap. exists (h, p). split; [done|].
    apply list_elem_of_In, List.filter_In. split; [|done]. apply list_elem_of_In. by apply elem_of_entries.
  - intros ([h' q] & Heq & Hq)%list_elem_of_fmap. cbn in Heq. subst h'.
    apply list_elem_of_In, List.filter_In in Hq as [Hq Hff]. apply list_elem_of_In, elem_of_entries in Hq.
    congruence.
Qed.

Lemma cleanup_cases now processed m r m' :
  state_ok (mp_state m) -> pool_ok m -> pool_cleanup now processed m = (r, m') ->
  pool_ok m' /\ same_ledger (mp_state m) (mp_state m')
  /\ (debug_panic r \/ r = Ok tt /\ mp_transactions m' =
        filter (fun e => stale (view (mp_state m)) e = false) (keep_outside processed (mp_transactions m))).
Proof.
  intros Hst Hok. unfold pool_cleanup, sbind at 1. destruct (remove_all now processed m) as [r1 m1] eqn:E1.
  apply remove_all_cases in E1 as (Hok1 & Hc1 & Hs1 & Hr1); [|done].
  assert (Hst1 : state_ok (mp_state m1)) by (by rewrite Hs1).
  destruct Hr1 as [[-> Ho] | [-> Ht1]]; [intros [= <- <-]; split_and!; [done|by rewrite Hs1|by left]|].
  unfold sbind at 1, sget at 1, sbind at 1.
  destruct (stale_scan (entries (mp_transactions m1)) m1 Hst1) as (s2 & -> & [Hv2 Hok2]).
  intros E3. apply remove_all_cases in E3 as (Hok3 & _ & Hs3 & Hr3); [|by apply (same_core_ok m1)].
  cbn [mp_state set_mp_state mp_transactions] in *. rewrite Hs1 in *.
  split_and!; [done|split; rewrite Hs3; [congruence|done]|].
  destruct Hr3 as [Hp | [-> Ht3]]; [by left|right]. split; [done|]. by rewrite Ht3, keep_outside_filter, Ht1.
Qed.

Lemma filter_perm_length {A} (f : A -> bool) l1 l2 :
  l1 ≡ₚ l2 -> length (List.filter f l1) = length (List.filter f l2).
Proof.
  induction 1 as [|x l1 l2 _ IH|x y l|l1 l2 l3 _ IH1 _ IH2]; cbn; [done|..|congruence].
  - destruct (f x); cbn; by rewrite IH.
  - by destruct (f x), (f y).
Qed.

Lemma filter_sizes (f : Hash * PooledTx -> bool) (txs : gmap Hash PooledTx) :
  (length (List.filter f (entries txs)) + size (filter (fun e => f e = false) txs))%nat = size txs.
Proof.
  rewrite (filter_perm_length f _ _ (entries_perm txs)).
  induction txs as [|h p txs Hh IH] using map_ind.
  - by rewrite map_to_list_empty, map_filter_empty.
  - rewrite (filter_perm_length f _ _ (map_to_list_insert txs h p Hh)), map_size_insert_None by done. cbn.
    destruct (f (h, p)) eqn:Hf; cbn.
    + rewrite map_filter_insert_not' by (rewrite ?Hf; naive_solver). lia.
    + rewrite map_filter_insert_True by done. rewrite map_size_insert_None; [lia|].
      apply map_lookup_filter_None. by left.
Qed.

Definition overdue (max_age current_time : Z) (e : Hash * PooledTx) : bool :=
  max_age <? saturating_sub current_time (p_added_at e.2).

Lemma prune_cases now t m r m' :
  pool_ok m -> prune_expired now t m = (r, m') ->
  pool_ok m' /\ mp_state m' = mp_state m
  /\ (debug_panic r \/ mp_transactions m' =
        filter (fun e => overdue (max_tx_age_secs (mp_config m)) t e = false) (mp_transactions m)
      /\ r = Ok (Z.of_nat (size (mp_transactions m)) - Z.of_nat (size (mp_transactions m')))).
Proof.
  intros Hok. unfold prune_expired, sbind at 1, sget at 1, sbind at 1, sget at 1.
  fold (overdue (max_tx_age_secs (mp_config m)) t). set (f := overdue _ t).
  unfold sbind at 1. destruct (remove_all _ _ m) as [r1 m1] eqn:E1.
  apply remove_all_cases in E1 as (Hok1 & _ & Hs1 & Hr1); [|done].
  destruct Hr1 as [[-> Ho] | [-> Ht1]]; intros [= <- <-]; (split_and!; [done|done|]); [by left|right].
  rewrite keep_outside_filter in Ht1. split; [done|]. f_equal. rewrite Ht1.
  pose proof (filter_sizes f (mp_transactions m)). lia.
Qed.
End Sweeping.

(** ** Selection *)

Section Choosing.
Context {W : Type} `{St : Storage W} `{BP : BuildProfile} `{S : Sha3} `{BT : BincodeTx}.
Implicit Types (m : MempoolImpl W) (s : Selection).

Definition tx_key (tx : Transaction) : Z := priority_key (fee_rate tx).

(** No counter of the selection overflows: nonces leave room for the gap, sizes for the limit. *)
Definition select_bounds m (max_bytes : Z) : Prop :=
  0 <= max_bytes /\ 0 <= max_nonce_gap (mp_config m) /\
  forall h p, mp_transactions m !! h = Some p ->
    0 <= tx_nonce (p_tx p) /\ fits 64 (tx_nonce (p_tx p) + 1 + max_nonce_gap (mp_config m))
    /\ fits 64 (max_bytes + tx_size (p_tx p)).

(** A sensible list of transactions for a block. *)
Record choice_ok m (max_count max_bytes : Z) (l : list Transaction) : Prop := {
  co_pooled : forall tx, tx ∈ l -> exists p, mp_transactions m !! tx_hash tx = Some p /\ p_tx p = tx;
  co_distinct : NoDup (map tx_hash l);
  co_count : Z.of_nat (length l) <= max_count;
  co_bytes : list_sum (map tx_size l) <= max_bytes;
  co_nonces : StronglySorted (fun t u => tx_from t = tx_from u -> tx_nonce t < tx_nonce u) l;
  co_first : forall tx, tx ∈ l -> exists u, u ∈ l /\ tx_from u = tx_from tx /\ tx_nonce u <= max_nonce_gap (mp_config m);
  co_priority : StronglySorted (fun t u => tx_key u <= tx_key t) l
}.

(** The running state agrees with the list, all of whose keys are at least [k]. *)
Record selection_ok m (max_count max_bytes k : Z) s : Prop := {
  so_choice : choice_ok m max_count max_bytes (selected s);
  so_hashes : selected_hashes s = list_to_set (map tx_hash (selected s));
  so_size : current_size s = list_sum (map tx_size (selected s));
  so_known : forall tx, tx ∈ selected s -> exists n, nonce_tracker s !! tx_from tx = Some n /\ tx_nonce tx <= n;
  so_tracked : forall a n, nonce_tracker s !! a = Some n -> exists tx, tx ∈ selected s /\ tx_from tx = a /\ tx_nonce tx = n;
  so_keys : forall tx, tx ∈ selected s -> k <= tx_key tx
}.

Lemma StronglySorted_snoc {A} (R : A -> A -> Prop) l x :
  StronglySorted R l -> Forall (fun y => R y x) l -> StronglySorted R (l ++ [x]).
Proof.
  induction 1 as [|y l Hl IH Hy]; intros Hx; cbn; [by repeat constructor|].
  apply Forall_cons in Hx as [Hyx Hx]. constructor; [by apply IH|]. apply Forall_app. by repeat constructor.
Qed.

Lemma StronglySorted_rev {A} (R : A -> A -> Prop) l :
  StronglySorted R l -> StronglySorted (fun x y => R y x) (rev l).
Proof.
  induction 1 as [|x l Hl IH Hx]; cbn; [constructor|]. apply StronglySorted_snoc; [done|].
  by apply Forall_rev.
Qed.

Lemma upper_bound (l : list Z) : exists k, Forall (fun x => x <= k) l.
Proof.
  induction l as [|x l [k IH]]; [by exists 0|]. exists (Z.max x k). constructor; [lia|].
  eapply Forall_impl; [exact IH|cbn; lia].
Qed.

Lemma tx_size_nonneg tx : 0 <= tx_size tx.
Proof. unfold tx_size. destruct (bincode_tx tx); lia. Qed.

Definition chosen (tx : Transaction) (size' : Z) s : Selection :=
  mkSelection (selected s ++ [tx]) ({[tx_hash tx]} ∪ selected_hashes s) size'
    (<[tx_from tx := tx_nonce tx]> (nonce_tracker s)).

Lemma chosen_ok m max_count max_bytes p s :
  let tx := p_tx p in
  selection_ok m max_count max_bytes (tx_key tx) s ->
  mp_transactions m !! tx_hash tx = Some p -> tx_hash tx ∉ selected_hashes s ->
  Z.of_nat (length (selected s)) < max_count ->
  current_size s + tx_size tx <= max_bytes ->
  (forall n, nonce_tracker s !! tx_from tx = Some n -> n < tx_nonce tx) ->
  (nonce_tracker s !! tx_from tx = None -> tx_nonce tx <= max_nonce_gap (mp_config m)) ->
  selection_ok m max_count max_bytes (tx_key tx) (chosen tx (current_size s + tx_size tx) s).
Proof.
  intros tx [[Hpool Hdist Hcnt Hbytes Hnon Hfirst Hprio] Hh Hsz Hknown Htr Hkeys] Hp Hnew Hroom Hfit Hnext Hopen.
  assert (Hsnoc : forall t, t ∈ selected s ++ [tx] <-> t ∈ selected s \/ t = tx)
    by (intros; by rewrite elem_of_app, list_elem_of_singleton).
  assert (Hbelow : forall t, t ∈ selected s -> tx_from t = tx_from tx -> tx_nonce t < tx_nonce tx).
  { intros t Ht Hf. destruct (Hknown t Ht) as (n & Hn & Hle). rewrite Hf in Hn. specialize (Hnext n Hn). lia. }
  split; [split|..]; cbn.
  - intros t [Ht| ->]%Hsnoc; eauto.
  - rewrite map_app. apply NoDup_app. split_and!; [done| |apply NoDup_singleton].
    intros x Hx ->%list_elem_of_singleton. apply Hnew. rewrite Hh. by apply elem_of_list_to_set.
  - rewrite length_app. cbn. lia.
  - rewrite map_app, list_sum_app. cbn. lia.
  - apply StronglySorted_snoc; [done|]. apply Forall_forall. eauto.
  - intros t Ht. destruct (nonce_tracker s !! tx_from tx) as [n|] eqn:Hn.
    + assert (Hex : exists t', t' ∈ selected s /\ tx_from t' = tx_from t).
      { apply Hsnoc in Ht as [Ht| ->]; [by eauto|]. destruct (Htr _ _ Hn) as (t' & ? & ? & _). eauto. }
      destruct Hex as (t' & Ht' & Hf). destruct (Hfirst t' Ht') as (u & Hu & Hfu & Hle).
      exists u. rewrite Hsnoc. split_and!; [by left|congruence|done].
    + apply Hsnoc in Ht as [Ht| ->].
      * destruct (Hfirst t Ht) as (u & Hu & Hfu & Hle). exists u. rewrite Hsnoc. auto.
      * exists tx. rewrite Hsnoc. auto.
  - apply StronglySorted_snoc; [done|]. by apply Forall_forall.
  - rewrite map_app, list_to_set_app_L, Hh. cbn. set_solver.
  - rewrite map_app, list_sum_app. cbn. lia.
  - intros t Ht. destruct (decide (tx_from tx = tx_from t)) as [Hf|Hf].
    + rewrite Hf, lookup_insert_eq. exists (tx_nonce tx). split; [done|].
      apply Hsnoc in Ht as [Ht| ->]; [|done]. specialize (Hbelow t Ht (eq_sym Hf)). lia.
    + rewrite lookup_insert_ne by done. apply Hsnoc in Ht as [Ht| ->]; [by apply Hknown|done].
  - intros a n. destruct (decide (tx_from tx = a)) as [<-|Hf].
    + rewrite lookup_insert_eq. intros [= <-]. exists tx. rewrite Hsnoc. auto.
    + rewrite lookup_insert_ne by done. intros (t & Ht & Hx)%Htr. exists t. rewrite Hsnoc. auto.
  - intros t [Ht| ->]%Hsnoc; [by apply Hkeys|done].
Qed.

Lemma selection_ok_le m max_count max_bytes k k' s :
  k' <= k -> selection_ok m max_count max_bytes k s -> selection_ok m max_count max_bytes k' s.
Proof. intros Hk [? ? ? ? ? Hkeys]. split; try done. intros tx Ht. specialize (Hkeys tx Ht). lia. Qed.

Lemma select_one_ok m max_count max_bytes k h s :
  pool_ok m -> select_bounds m max_bytes -> in_bucket (priority_index m) k h ->
  selection_ok m max_count max_bytes k s -> Z.of_nat (length (selected s)) < max_count ->
  exists s', select_one m max_bytes h s = Ok s' /\ selection_ok m max_count max_bytes k s'.
Proof.
  intros Hok (Hmb & Hgap & Hb) Hbuck Hsel Hroom. unfold select_one. case_bool_decide as Hin; [by eauto|].
  destruct (mp_transactions m !! h) as [p|] eqn:Hp; [|by eauto].
  pose proof (po_bucket m Hok k h p Hbuck Hp) as Hk. destruct (po_entry m Hok h p Hp) as [Hh Hpe].
  assert (Hk' : k = tx_key (p_tx p)) by (rewrite Hk, Hpe; done).
  assert (Hsz : p_size p = tx_size (p_tx p)) by (rewrite Hpe; done). clear Hpe Hk. subst k h. rewrite Hsz.
  destruct (Hb _ p Hp) as (Hn0 & Hnfit & Hsfit). set (tx := p_tx p) in *.
  assert (Hexp : exists e, match nonce_tracker s !! tx_from tx with Some n => add_u64 (E := PacyteError) n 1 | None => Ok 0 end = Ok e
    /\ 0 <= e /\ fits 64 (e + max_nonce_gap (mp_config m))
    /\ (forall n, nonce_tracker s !! tx_from tx = Some n -> e = n + 1)
    /\ (nonce_tracker s !! tx_from tx = None -> e = 0)).
  { destruct (nonce_tracker s !! tx_from tx) as [n|] eqn:Hn.
    - destruct (so_tracked _ _ _ _ _ Hsel _ _ Hn) as (t & Ht & _ & <-).
      destruct (co_pooled _ _ _ _ (so_choice _ _ _ _ _ Hsel) t Ht) as (q & Hq & <-).
      destruct (Hb _ q Hq) as (H0 & H1 & _). exists (tx_nonce (p_tx q) + 1). unfold add_u64.
      rewrite arith_fits by (unfold fits in *; lia). split_and!; [done|lia|done|congruence|done].
    - exists 0. split_and!; [done|lia|unfold fits in *; lia|done|done]. }
  destruct Hexp as (e & -> & He0 & Hefit & Hsome & Hnone). cbn [obind].
  destruct (Z.ltb_spec (tx_nonce tx) e); [by eauto|]. unfold add_u64. rewrite (arith_fits 64 (e + _)) by done. cbn [obind].
  destruct (Z.ltb_spec (e + max_nonce_gap (mp_config m)) (tx_nonce tx)); [by eauto|].
  assert (Hcur : 0 <= current_size s <= max_bytes).
  { rewrite (so_size _ _ _ _ _ Hsel). split; [|apply (so_choice _ _ _ _ _ Hsel)]. apply list_sum_nonneg.
    apply Forall_forall. intros x (t & -> & _)%list_elem_of_fmap. apply tx_size_nonneg. }
  pose proof (tx_size_nonneg tx). rewrite arith_fits by (unfold fits in *; lia). cbn [obind].
  destruct (Z.ltb_spec max_bytes (current_size s + tx_size tx)); [by eauto|].
  eexists. split; [reflexivity|]. apply chosen_ok; try done.
  - intros n Hn. specialize (Hsome n Hn). fold tx. lia.
  - intros Hn. specialize (Hnone Hn). fold tx. lia.
Qed.

Lemma select_bucket_ok m max_count max_bytes k hs s :
  pool_ok m -> select_bounds m max_bytes -> (forall h, h ∈ hs -> in_bucket (priority_index m) k h) ->
  selection_ok m max_count max_bytes k s ->
  exists s', select_bucket m max_count max_bytes hs s = Ok s' /\ selection_ok m max_count max_bytes k s'.
Proof.
  intros Hok Hb. revert s. induction hs as [|h hs IH]; intros s Hin Hsel; cbn; [by eauto|].
  destruct (Z.leb_spec max_count (Z.of_nat (length (selected s)))); cbn; [by eauto|].
  destruct (max_bytes <=? current_size s); [by eauto|].
  destruct (select_one_ok m max_count max_bytes k h s) as (s1 & -> & Hs1); [done|done| |done|done|].
  - apply Hin. by left.
  - cbn. apply IH; [|done]. intros x Hx. apply Hin. by right.
Qed.

(** Buckets by decreasing key, all of them buckets of the pool. *)
Lemma select_buckets_ok m max_count max_bytes ix k s :
  pool_ok m -> select_bounds m max_bytes ->
  (forall k' h, in_bucket ix k' h -> in_bucket (priority_index m) k' h) ->
  StronglySorted (fun x y => y < x) ix.*1 -> Forall (fun k' => k' <= k) ix.*1 ->
  selection_ok m max_count max_bytes k s ->
  exists k' s', select_buckets m max_count max_bytes ix s = Ok s' /\ selection_ok m max_count max_bytes k' s'.
Proof.
  intros Hok Hb. revert k s. induction ix as [|[k1 hs] ix IH]; intros k s Hin Hsort Hle Hsel; cbn; [by eauto|].
  apply StronglySorted_inv in Hsort as [Hsort Hlt]. apply Forall_cons in Hle as [Hk1 _].
  destruct (select_bucket_ok m max_count max_bytes k1 hs s) as (s1 & -> & Hs1); [done|done| | |].
  - intros h Hh. apply Hin, in_bucket_cons. auto.
  - by eapply selection_ok_le.
  - cbn. apply (IH k1); [|done| |done].
    + intros k' h Hk. apply Hin, in_bucket_cons. auto.
    + eapply Forall_impl; [exact Hlt|]. cbn. lia.
Qed.
End Choosing.

(** ** What all pooled transactions have in common *)

Section Pooled.
Context {W : Type} `{St : Storage W} `{BP : BuildProfile} `{S : Sha3} `{Sig : Signatures}
  `{BT : BincodeTx} `{Iter : !HashMapIter Hash PooledTx}.
Implicit Types m : MempoolImpl W.
Context (Q : Transaction -> Prop).

Definition pooled m : Prop := forall h p, mp_transactions m !! h = Some p -> Q (p_tx p).
Definition keeps_pooled m m' : Prop := pooled m -> pooled m'.
#[local] Instance keeps_pooled_preorder : PreOrder keeps_pooled.
Proof. split; [intros m H; exact H|intros x y z Hxy Hyz H; exact (Hyz (Hxy H))]. Qed.

Lemma keeps_pooled_state {A} (c : ST (StateManager W) PacyteError A) : keeps keeps_pooled (on_state c).
Proof. intros m r m'. unfold on_state. destruct (c (mp_state m)). intros [= <- <-] H. exact H. Qed.
Lemma keeps_pooled_delete h : keeps keeps_pooled (smod (E := PacyteError) (fun m => set_mp_transactions (delete h (mp_transactions m)) m)).
Proof.
  apply keeps_smod. intros m Hm h' p. cbn. rewrite lookup_delete_Some. intros [_ Hp]. by eapply Hm.
Qed.
Lemma keeps_pooled_insert now tx : Q tx ->
  keeps keeps_pooled (smod (E := PacyteError) (fun m => set_mp_transactions (<[tx_hash tx := pooled_new now tx]> (mp_transactions m)) m)).
Proof.
  intros Htx. apply keeps_smod. intros m Hm h' p. cbn. rewrite lookup_insert_Some. intros [[_ <-]|[_ Hp]]; [done|by eapply Hm].
Qed.
Lemma keeps_pooled_stats now : keeps keeps_pooled (update_stats now).
Proof. intros m r m' (Hc & _)%update_stats_cases Hm h p. destruct Hc as (_ & -> & _). apply Hm. Qed.

Ltac pooled_solver :=
  repeat first [ apply keeps_bind; [apply _| |intros] | apply keeps_pooled_state | apply keeps_pooled_delete
               | apply keeps_pooled_insert; assumption | apply keeps_pooled_stats
               | keeps_leaf | apply keeps_smod; intros ? Hm; exact Hm | case_match ].

Lemma remove_pooled now h : keeps keeps_pooled (remove_transaction now h).
Proof. unfold remove_transaction, remove_from_priority_index. pooled_solver. Qed.
Lemma remove_all_pooled now l : keeps keeps_pooled (remove_all now l).
Proof.
  induction l as [|h l IH]; cbn [remove_all]; [keeps_leaf|]. apply keeps_bind; [apply _|apply remove_pooled|done].
Qed.
Lemma filter_m_pooled {A} (f : A -> ST (MempoolImpl W) PacyteError bool) l :
  (forall x, keeps keeps_pooled (f x)) -> keeps keeps_pooled (filter_m f l).
Proof.
  intros Hf. induction l as [|x l IH]; cbn [filter_m]; [keeps_leaf|]. pooled_solver; apply Hf || apply IH.
Qed.
Lemma cleanup_pooled now l : keeps keeps_pooled (pool_cleanup now l).
Proof.
  unfold pool_cleanup. repeat first [ apply keeps_bind; [apply _| |intros] | apply remove_all_pooled | keeps_leaf ].
  apply filter_m_pooled. intros e. pooled_solver.
Qed.
Lemma prune_pooled now t : keeps keeps_pooled (prune_expired now t).
Proof. unfold prune_expired. repeat first [ apply keeps_bind; [apply _| |intros] | apply remove_all_pooled | keeps_leaf ]. Qed.

(** Only what passed the validation is added. *)
Lemma validated_basic now cfg tx s s' :
  validate_transaction now cfg tx s = (Ok None, s') -> validate_basic (E := PacyteError) now (max_tx_age_secs cfg) tx = Ok true.
Proof.
  unfold validate_transaction, sbind at 1, slift at 1. by destruct (validate_basic _ _ _) as [[]| | |].
Qed.
Lemma add_pooled now tx m r m' :
  (forall age, validate_basic (E := PacyteError) now age tx = Ok true -> Q tx) ->
  pool_add_transaction now tx m = (r, m') -> pooled m -> pooled m'.
Proof.
  intros HQ. unfold pool_add_transaction, sbind at 1, sget at 1, sbind at 1, sget at 1, sbind at 1, sget at 1.
  case_bool_decide; [by intros [= <- <-]|]. do 2 (destruct (_ <=? _); [by intros [= <- <-]|]).
  unfold sbind at 1, on_state. destruct (validate_transaction now (mp_config m) tx (mp_state m)) as [[[reason|]| | |] s1] eqn:Ev.
  2:{ apply validated_basic, HQ in Ev. intros E Hm. revert E Hm. change (pooled m) with (pooled (set_mp_state s1 m)).
      generalize (set_mp_state s1 m) as m1. intros m1 E. revert m1 r m' E.
      match goal with |- forall m1 r m', ?c m1 = (r, m') -> _ => change (keeps keeps_pooled c) end.
      apply keeps_bind; [apply _|keeps_leaf|]. intros rep. unfold insert_pooled, add_to_priority_index.
      destruct rep; repeat first [apply remove_pooled | pooled_solver]. }
  all: try by intros [= <- <-].
  unfold sbind, sget, slift, smod, sret. destruct (add_u64 _ _); by intros [= <- <-].
Qed.

Lemma select_one_pooled m max_bytes h s s' :
  pooled m -> select_one m max_bytes h s = Ok s' -> Forall Q (selected s) -> Forall Q (selected s').
Proof.
  intros Hm. unfold select_one. case_bool_decide; [by intros [= <-]|]. destruct (mp_transactions m !! h) as [p|] eqn:Hp; [|by intros [= <-]].
  cbn zeta. destruct (match nonce_tracker s !! _ with Some n => _ | None => _ end) as [expected| | |]; try done. cbn [obind].
  destruct (_ <? expected); [by intros [= <-]|]. destruct (add_u64 expected _) as [limit| | |]; try done. cbn [obind].
  destruct (limit <? _); [by intros [= <-]|]. destruct (add_u64 (current_size s) _) as [size'| | |]; try done. cbn [obind].
  destruct (max_bytes <? size'); intros [= <-]; [done|]. intros Hs. cbn. apply Forall_app. split; [done|].
  constructor; [by eapply Hm|constructor].
Qed.
Lemma select_bucket_pooled m max_count max_bytes hs s s' :
  pooled m -> select_bucket m max_count max_bytes hs s = Ok s' -> Forall Q (selected s) -> Forall Q (selected s').
Proof.
  intros Hm. revert s. induction hs as [|h hs IH]; intros s; cbn; [by intros [= <-]|]. destruct (_ || _); [by intros [= <-]|].
  destruct (select_one m max_bytes h s) as [s1| | |] eqn:E; try done. cbn [obind]. intros E' Hs. eapply IH; [exact E'|].
  by eapply select_one_pooled.
Qed.
Lemma select_pooled m max_count max_bytes l :
  pooled m -> pool_select_for_block max_count max_bytes m = Ok l -> Forall Q l.
Proof.
  intros Hm. unfold pool_select_for_block.
  assert (Hgen : forall ix s s', select_buckets m max_count max_bytes ix s = Ok s' -> Forall Q (selected s) -> Forall Q (selected s')).
  { induction ix as [|[k hs] ix IH]; intros s s'; cbn; [by intros [= <-]|].
    destruct (select_bucket m max_count max_bytes hs s) as [s1| | |] eqn:E; try done. cbn [obind]. intros E' Hs. eapply IH; [exact E'|].
    by eapply select_bucket_pooled. }
  destruct (select_buckets _ _ _ _ _) as [s'| | |] eqn:E; try done. cbn [obind]. intros [= <-]. by eapply Hgen.
Qed.
End Pooled.

(** ** Properties *)

Section PoolProperties.
Context {W : Type} `{St : Storage W} `{Laws : !StorageLaws W} `{BP : BuildProfile} `{S : Sha3} `{Sig : Signatures}
  `{BT : BincodeTx} `{Iter : !HashMapIter Hash PooledTx}.
Implicit Types m : MempoolImpl W.

(** The operations of the trait that change the pool, and the state manager moving on under it. *)
Inductive pool_op : Type :=
| PoolAdd (now : Z) (tx : Transaction)
| PoolRemove (now : Z) (h : Hash)
| PoolCleanup (now : Z) (processed : list Hash)
| PoolPrune (now current_time : Z)
| PoolState (s : StateManager W).

Definition run_pool_op (op : pool_op) m : MempoolImpl W :=
  match op with
  | PoolAdd now tx => (pool_add_transaction now tx m).2
  | PoolRemove now h => (remove_transaction now h m).2
  | PoolCleanup now l => (pool_cleanup now l m).2
  | PoolPrune now t => (prune_expired now t m).2
  | PoolState s => set_mp_state s m
  end.

Inductive pool_reachable : MempoolImpl W -> Prop :=
| pool_start cfg s : pool_config_ok cfg -> state_ok s -> pool_reachable (mempool_new cfg s)
| pool_step op m : pool_reachable m -> (forall s, op = PoolState s -> state_ok s) ->
    pool_reachable (run_pool_op op m).

Lemma pool_step_ok op m :
  state_ok (mp_state m) -> pool_ok m -> (forall s, op = PoolState s -> state_ok s) ->
  state_ok (mp_state (run_pool_op op m)) /\ pool_ok (run_pool_op op m).
Proof.
  intros Hst Hok Hs. destruct op as [now tx|now h|now l|now t|s]; cbn [run_pool_op].
  - destruct (pool_add_transaction now tx m) as [r m'] eqn:E. apply pool_add_cases in E as (Hp & [_ Hs'] & _); [|done..].
    by split.
  - destruct (remove_transaction now h m) as [r m'] eqn:E. apply remove_cases in E.
    destruct (mp_transactions m !! h) as [p|] eqn:Hp; [|by destruct E as [-> _]].
    destruct E as (Hc & Hs' & _). cbn. rewrite Hs'. split; [done|]. by eapply same_core_ok, removed_ok.
  - destruct (pool_cleanup now l m) as [r m'] eqn:E. apply cleanup_cases in E as (Hp & [_ Hs'] & _); [|done..].
    by split.
  - destruct (prune_expired now t m) as [r m'] eqn:E. apply prune_cases in E as (? & Hs' & _); [|done].
    cbn. by rewrite Hs'.
  - split; [by apply Hs|]. by apply (same_core_ok m).
Qed.

(** C9. Whatever sequence of additions, removals, cleanups, prunings and state changes a pool
    has gone through, even when calls panicked, its indexes describe exactly the pooled
    transactions: each sits under its hash, alone for its sender and nonce; the nonce sets and
    counters of every sender are those of its transactions; the priority index holds every hash
    once, in the bucket of its fee rate, with increasing keys; both limits hold. *)
Theorem pool_invariant m : pool_reachable m -> pool_ok m.
Proof.
  intros Hr. enough (state_ok (mp_state m) /\ pool_ok m) as [_ H]; [exact H|].
  induction Hr as [cfg s Hc Hs|op m _ [IHs IHp] Hs]; [|by apply pool_step_ok].
  split; [done|]. by apply pool_new_ok.
Qed.


(** [cleanup] keeps exactly the pooled transactions that were not processed and whose nonce
    lies above the account's nonce in the ledger, and it always returns in a release build (in a
    debug build an overflow of the size statistics can panic).  So it drops the transaction with
    the account's own nonce, the next one the ledger would take and one [check_nonce] accepts. *)
Theorem pool_cleanup_exact (now : Z) (processed : list Hash) m m' (r : PacyteResult unit) :
  state_ok (mp_state m) -> pool_ok m -> pool_cleanup now processed m = (r, m') ->
  pool_ok m' /\ (debug_panic r \/ r = Ok tt /\
    forall h p, mp_transactions m' !! h = Some p <->
      mp_transactions m !! h = Some p /\ h ∉ processed
      /\ ledger_nonce (tx_from (p_tx p)) (view (mp_state m)) < tx_nonce (p_tx p)).
Proof.
  intros Hst Hok (Hok' & _ & Hr)%cleanup_cases; [|done..]. split; [done|].
  destruct Hr as [Hr | [-> Ht]]; [by left|right]. split; [done|]. intros h p.
  rewrite Ht, map_lookup_filter_Some. unfold keep_outside. rewrite map_lookup_filter_Some. unfold stale. cbn.
  rewrite Z.leb_gt. tauto.
Qed.

(** C29. Selecting for a block never fails on a well-formed pool whose nonces and sizes leave
    room for the limits, and returns a sensible list: distinct pooled transactions within both
    limits, by decreasing priority bucket, with strictly increasing nonces for each sender, and
    starting each sender at a nonce of at most the gap (so a sender whose pooled nonces have all
    passed the gap is never served). *)
Theorem pool_select_sound (max_count max_bytes : Z) m :
  pool_ok m -> select_bounds m max_bytes -> 0 <= max_count ->
  exists l, pool_select_for_block max_count max_bytes m = Ok l /\ choice_ok m max_count max_bytes l
    /\ forall a, (forall h p, mp_transactions m !! h = Some p -> tx_from (p_tx p) = a ->
                    max_nonce_gap (mp_config m) < tx_nonce (p_tx p)) ->
         Forall (fun tx => tx_from tx <> a) l.
Proof.
  intros Hok Hb Hcount. pose proof Hb as [Hmb _].
  destruct (upper_bound (rev (priority_index m)).*1) as [top Htop].
  destruct (select_buckets_ok m max_count max_bytes (rev (priority_index m)) top (mkSelection [] ∅ 0 ∅))
    as (k & s & E & Hs); [done|done| | | | |].
  - intros k h (hs & Hhs & Hh). exists hs. split; [|done]. by apply list_elem_of_In, in_rev, list_elem_of_In in Hhs.
  - change (StronglySorted (fun x y => y < x) (map fst (rev (priority_index m)))). rewrite map_rev.
    apply (StronglySorted_rev Z.lt), (po_sorted m Hok).
  - done.
  - split; [split|..]; cbn; try done; try constructor; try (by intros ? ?%elem_of_nil).
  - unfold pool_select_for_block. rewrite E. cbn. exists (selected s). pose proof (so_choice _ _ _ _ _ Hs) as Hc.
    split_and!; [done|done|]. intros a Ha. apply Forall_forall. intros tx Htx Hf.
    destruct (co_first _ _ _ _ Hc tx Htx) as (u & Hu & Hfu & Hle).
    destruct (co_pooled _ _ _ _ Hc u Hu) as (p & Hp & <-). specialize (Ha _ p Hp). naive_solver lia.
Qed.
End PoolProperties.

(** ** Concrete runs *)

Section PoolWitnesses.
#[local] Existing Instance release_profile.
#[local] Existing Instance toy_sha3.
#[local] Existing Instance key_order.
#[local] Instance pool_no_bincode : Bincode := fun _ => None.
#[local] Instance pool_bincode_tx : BincodeTx := fun _ => Some (replicate 10 0).
#[local] Instance pool_signatures : Signatures := {| ed25519_verify _ _ _ := true; dilithium5_verify _ _ _ := false |}.
#[local] Instance pool_storage : Storage MemoryStorage := memory_storage 100.
#[local] Instance pool_storage_laws : StorageLaws MemoryStorage := memory_storage_laws 100.

(** Alice owns 100; her transactions pay 20 for ten bytes. *)
Definition pool_state : StateManager MemoryStorage :=
  mkState (set_ms_accounts {[ alice := account_new 0 alice 100 ]} memory_storage_new) zero_hash 0 ∅ ∅
    (mkSparse zero_hash []) ∅.
Definition empty_pool : MempoolImpl MemoryStorage := mempool_new default_pool_config pool_state.
Definition pool_tx : Transaction := tx_sign (replicate 64 7) (transaction_new 99 alice bob 10 20 0).
Definition demo_pool : MempoolImpl MemoryStorage := run_pool_op (PoolAdd 100 pool_tx) empty_pool.

Lemma pool_state_ok : state_ok pool_state.
Proof. split; cbn; [done|]. intros a x Hx. by rewrite lookup_empty in Hx. Qed.

Lemma empty_pool_config : pool_config_ok default_pool_config.
Proof. by vm_compute. Qed.

Lemma demo_pool_reachable : pool_reachable demo_pool.
Proof. apply pool_step; [|done]. apply pool_start; [apply empty_pool_config|apply pool_state_ok]. Qed.

Lemma demo_pool_ok : pool_ok demo_pool.
Proof. by apply pool_step_ok; [apply pool_state_ok|apply pool_new_ok, empty_pool_config|]. Qed.

Lemma demo_pool_state_ok : state_ok (mp_state demo_pool).
Proof. by apply pool_step_ok; [apply pool_state_ok|apply pool_new_ok, empty_pool_config|]. Qed.

Lemma pool_invariant_witness : pool_size demo_pool = 1 /\ pool_ok demo_pool.
Proof. split; [by vm_compute|]. apply pool_invariant, demo_pool_reachable. Defined.


Lemma pool_select_sound_witness :
  exists l, pool_select_for_block 5 1000 demo_pool = Ok l /\ choice_ok demo_pool 5 1000 l.
Proof.
  destruct (pool_select_sound 5 1000 demo_pool) as (l & E & Hc & _).
  - exact demo_pool_ok.
  - split; [by vm_compute|]. split; [by vm_compute|].
    apply (bool_decide_unpack (map_Forall (fun _ p => 0 <= tx_nonce (p_tx p)
      /\ fits 64 (tx_nonce (p_tx p) + 1 + max_nonce_gap (mp_config demo_pool))
      /\ fits 64 (1000 + tx_size (p_tx p))) (mp_transactions demo_pool))). vm_compute. exact I.
  - lia.
  - exists l. split; [exact E|exact Hc].
Defined.

(** Alice's account still has nonce 0, so her only transaction, with nonce 0, is swept. *)
Lemma pool_cleanup_exact_witness :
  tx_nonce pool_tx = 0 /\ mp_transactions (pool_cleanup 100 [] demo_pool).2 !! tx_hash pool_tx = None.
Proof.
  split; [done|].
  destruct (pool_cleanup_exact 100 [] demo_pool (pool_cleanup 100 [] demo_pool).2 (pool_cleanup 100 [] demo_pool).1
    demo_pool_state_ok demo_pool_ok (surjective_pairing _)) as [_ [[_ Ho] | [_ H]]]; [discriminate Ho|].
  apply eq_None_not_Some. intros [p Hp]. apply H in Hp as (Hp & _ & Hn).
  assert (Ht : p_tx <$> mp_transactions demo_pool !! tx_hash pool_tx = Some pool_tx) by (clear; by vm_compute).
  rewrite Hp in Ht. injection Ht as Ht. rewrite Ht in Hn. revert Hn. clear. by vm_compute.
Defined.
End PoolWitnesses.
