(* ===== verification/FeeMarket.v ===== *)
(** * Fee market and pruning of the mempool (src/mempool/fee.rs, src/mempool/pruning.rs)

    Fee estimates with the percentiles of the pending rates, and the choice of the transactions to
    drop.  [sort_by] with [partial_cmp(..).unwrap()] is the stable sort of comparable numbers
    and panics when it meets a NaN. *)

From Stdlib Require Import SpecFloat Sorted.
From stdpp Require Import strings.
From S2P Require Import Prelude Hashing Errors Types Floats State Mempool.
Abbreviation length := List.length.

(** ** Sorting by floating-point keys *)

Definition is_nan (x : f64) : bool := match x with S754_nan => true | _ => false end.
Definition f64_le : f64 -> f64 -> bool := SFleb.

(** Comparable numbers in order: sign and size class, exponent, mantissa. *)
Definition f64_rank (x : f64) : Z * Z * Z :=
  match x with
  | S754_nan => (0, 0, 0)
  | S754_infinity s => (if s then -2 else 2, 0, 0)
  | S754_zero _ => (0, 0, 0)
  | S754_finite false m e => (1, e, Zpos m)
  | S754_finite true m e => (-1, - e, Zneg m)
  end.
Definition rank_le (p q : Z * Z * Z) : Prop :=
  let '(a, b, c) := p in let '(a', b', c') := q in a < a' \/ a = a' /\ (b < b' \/ b = b' /\ c <= c').

Lemma f64_le_rank x y : is_nan x = false -> is_nan y = false -> f64_le x y = true <-> rank_le (f64_rank x) (f64_rank y).
Proof.
  intros Hx Hy. unfold f64_le, SFleb, SFcompare.
  destruct x as [sx|sx| |sx mx ex], y as [sy|sy| |sy my ey]; try done; cbn; try (destruct sx); try (destruct sy); cbn; try (split; [lia|done]);
    try (split; [done|lia]).
  all: change (Pos.compare_cont Eq mx my) with (Pos.compare mx my).
  all: destruct (Z.compare_spec ex ey); try destruct (Pos.compare_spec mx my); cbn.
  all: first [split; [lia|done] | split; [done|lia]].
Qed.
Lemma rank_le_total p q : rank_le p q \/ rank_le q p.
Proof. destruct p as [[a b] c], q as [[a' b'] c']. cbn. lia. Qed.
Lemma rank_le_trans p q r : rank_le p q -> rank_le q r -> rank_le p r.
Proof. destruct p as [[a b] c], q as [[a' b'] c'], r as [[a'' b''] c'']. cbn. lia. Qed.

Section SortBy.
Context {A : Type} (key : A -> f64).

Fixpoint insert_rate (x : A) (l : list A) : list A :=
  match l with
  | [] => [x]
  | y :: l' => if f64_le (key x) (key y) then x :: l else y :: insert_rate x l'
  end.
(** [sort_by(|a, b| key(a).partial_cmp(&key(b)).unwrap())]. *)
Definition sort_by_rate {E} (l : list A) : Outcome E (list A) :=
  if bool_decide (1 < length l)%nat && existsb (fun x => is_nan (key x)) l then Panic else Ok (foldr insert_rate [] l).

Lemma insert_rate_perm x l : insert_rate x l ≡ₚ x :: l.
Proof. induction l as [|y l IH]; cbn; [done|]. destruct (f64_le _ _); [done|]. rewrite IH. apply Permutation_swap. Qed.
Lemma sort_rate_perm l : foldr insert_rate [] l ≡ₚ l.
Proof. induction l as [|x l IH]; cbn; [done|]. by rewrite insert_rate_perm, IH. Qed.

Definition rate_le (x y : A) : Prop := rank_le (f64_rank (key x)) (f64_rank (key y)).
Lemma sort_rate_sorted l : Forall (fun x => is_nan (key x) = false) l -> StronglySorted rate_le (foldr insert_rate [] l).
Proof.
  induction 1 as [|x l Hx Hl IH]; cbn [foldr]; [constructor|].
  assert (Hn : Forall (fun x => is_nan (key x) = false) (foldr insert_rate [] l)) by (by rewrite sort_rate_perm).
  revert Hn. induction IH as [|y l' Hl' IH' Hy]; intros Hn; cbn; [by repeat constructor|]. apply Forall_cons in Hn as [Hny Hn].
  destruct (f64_le (key x) (key y)) eqn:Hle.
  - apply f64_le_rank in Hle; [|done..]. constructor; [by constructor|]. constructor; [done|].
    eapply Forall_impl; [exact Hy|]. intros z Hz. by eapply rank_le_trans.
  - constructor; [by apply IH'|]. rewrite insert_rate_perm. constructor; [|done].
    destruct (rank_le_total (f64_rank (key y)) (f64_rank (key x))) as [|Hxy]; [done|].
    apply (f64_le_rank (key x) (key y)) in Hxy; [congruence|done..].
Qed.
Lemma sort_by_rate_ok {E} l :
  Forall (fun x => is_nan (key x) = false) l -> exists l', sort_by_rate (E:=E) l = Ok l' /\ l' ≡ₚ l /\ StronglySorted rate_le l'.
Proof.
  intros Hl. exists (foldr insert_rate [] l). split; [|split; [apply sort_rate_perm|by apply sort_rate_sorted]].
  unfold sort_by_rate. replace (existsb _ l) with false; [by rewrite andb_false_r|]. symmetry. clear -Hl. induction Hl; cbn; [done|]. by rewrite H.
Qed.
End SortBy.

(** ** Fee calculator *)

Module MempoolFee.
Record FeeCalculator : Type := mkCalculator {
  base_fee : Z; min_fee : Z; fee_per_byte : Z; congestion_multiplier : f64
}.
Definition calculator_new : FeeCalculator := mkCalculator 1000 100 1 f64_one.

Inductive FeePriority : Type := Low | Normal | High | Urgent.
Record FeeMarketStats : Type := mkMarket {
  median_fee_per_byte : f64;
  average_fee_per_byte : f64;
  lowest_fee_per_byte : f64;
  max_fee_per_byte : f64;
  p25_fee_per_byte : f64;
  p75_fee_per_byte : f64;
  p90_fee_per_byte : f64;
  total_pending : Z
}.
Definition default_market : FeeMarketStats := mkMarket f64_zero f64_zero f64_zero f64_zero f64_zero f64_zero f64_zero 0.
Definition recommended_fee_for_priority (p : FeePriority) (s : FeeMarketStats) : f64 :=
  match p with
  | Low => p25_fee_per_byte s
  | Normal => median_fee_per_byte s
  | High => p75_fee_per_byte s
  | Urgent => p90_fee_per_byte s
  end.

Section Calculator.
Context `{BP : BuildProfile} {E : Type}.

Definition calculate_min_fee (tx_size : Z) (c : FeeCalculator) : Outcome E Z :=
  let? byte_fee := mul_u128 tx_size (fee_per_byte c) in
  Ok (Z.max (Z.max (base_fee c) byte_fee) (min_fee c)).
Definition calculate_recommended_fee (tx_size mempool_size max_mempool : Z) (c : FeeCalculator) : Outcome E Z :=
  let congestion := f64_div (f64_of mempool_size) (f64_of max_mempool) in
  let multiplier := f64_add f64_one (f64_mul congestion (f64_of 2)) in
  let? fee := calculate_min_fee tx_size c in
  Ok (f64_to_uint 128 (f64_mul (f64_of fee) multiplier)).
Definition calculate_priority_fee (tx_size target_blocks : Z) (c : FeeCalculator) : Outcome E Z :=
  let multiplier := if target_blocks =? 1 then f64_of 5 else if target_blocks =? 2 then f64_of 3
                    else if target_blocks =? 3 then f64_of 2 else literal 15 10 in
  let? fee := calculate_min_fee tx_size c in
  Ok (f64_to_uint 128 (f64_mul (f64_of fee) multiplier)).

Definition analyze_fee_market `{BincodeTx} (pending : list Transaction) : Outcome E FeeMarketStats :=
  if bool_decide (length pending = 0%nat) then Ok default_market
  else
    let? fees := sort_by_rate (fun x => x) (map fee_rate pending) in
    let n := length fees in
    let? median := index fees (n / 2) in
    let avg := f64_div (foldl f64_add f64_zero fees) (f64_of (Z.of_nat n)) in
    let? lowest := index fees 0 in
    let? highest := index fees (n - 1) in
    let? p25 := index fees (n / 4) in
    let? p75 := index fees (n * 3 / 4) in
    let? p90 := index fees (n * 9 / 10) in
    Ok (mkMarket median avg lowest highest p25 p75 p90 (Z.of_nat (length pending))).

Definition update_congestion (mempool_size max_mempool : Z) (c : FeeCalculator) : FeeCalculator :=
  mkCalculator (base_fee c) (min_fee c) (fee_per_byte c)
    (f64_add f64_one (f64_mul (f64_div (f64_of mempool_size) (f64_of max_mempool)) (f64_of 3))).
Definition current_base_fee (c : FeeCalculator) : Z := f64_to_uint 128 (f64_mul (f64_of (base_fee c)) (congestion_multiplier c)).
End Calculator.
End MempoolFee.

(** ** Pruner *)

Section Pruner.
Context `{S3 : Sha3} `{BT : BincodeTx} `{HI : !HashMapIter Address Z} {E : Type}.

Definition expired (now : Z) (cfg : MempoolConfig) (l : list Transaction) : list Transaction :=
  List.filter (fun tx => max_tx_age_secs cfg <? saturating_sub now (tx_timestamp tx)) l.
Definition count_by_address (l : list Transaction) : gmap Address Z :=
  foldl (fun m tx => <[tx_from tx := default 0 (m !! tx_from tx) + 1]> m) ∅ l.
(** The cheapest transactions over the capacity. *)
Definition cheapest (cfg : MempoolConfig) (l : list Transaction) : Outcome E (list Transaction) :=
  if max_size cfg <? Z.of_nat (length l) then
    let? sorted := sort_by_rate fee_rate l in
    Ok (take (Z.to_nat (Z.of_nat (length l) - max_size cfg)) sorted)
  else Ok [].
(** The oldest transactions of an address over its limit. *)
Definition oldest (cfg : MempoolConfig) (l : list Transaction) (e : Address * Z) : list Transaction :=
  let '(address, count) := e in
  if max_tx_per_address cfg <? count then
    take (Z.to_nat (count - max_tx_per_address cfg))
      (sort_desc (fun tx => - tx_timestamp tx) (List.filter (fun tx => bool_decide (tx_from tx = address)) l))
  else [].
(** The hashes leave the [HashSet] in an order of their own. *)
Definition select_for_pruning (cfg : MempoolConfig) (l : list Transaction) (now : Z) : Outcome E (gset Hash) :=
  let? cheap := cheapest cfg l in
  Ok (list_to_set (map tx_hash (expired now cfg l ++ cheap ++ flat_map (oldest cfg l) (entries (count_by_address l))))).

Definition prune_old_nonces (l : list Transaction) (a : Address) (current_nonce : Z) : list Hash :=
  map tx_hash (List.filter (fun tx => bool_decide (tx_from tx = a) && (tx_nonce tx <=? current_nonce)) l).
Definition prune_capacity (cfg : MempoolConfig) (l : list Transaction) : Outcome E (list Hash) :=
  if Z.of_nat (length l) <=? max_size cfg then Ok []
  else
    let? sorted := sort_by_rate fee_rate l in
    Ok (map tx_hash (take (Z.to_nat (Z.of_nat (length l) - max_size cfg)) sorted)).
End Pruner.
