(* ===== verification/FeeMarketProps.v ===== *)
(** * Fee market and pruning: percentiles in order, limits enforced

    The percentiles of the pending rates are rates of pending transactions and in order; what pruning leaves respects
    age, capacity and the limit of each address; the capacity pruner drops the cheapest. *)

From Stdlib Require Import SpecFloat Sorted.
From stdpp Require Import strings.
From S2P Require Import Prelude Hashing Errors Types Floats State Mempool FeeMarket.
Abbreviation length := List.length.

(** ** Percentiles *)

Lemma sorted_index {A} (R : A -> A -> Prop) (l : list A) (i j : nat) x y :
  (forall x, R x x) -> StronglySorted R l -> (i <= j)%nat -> l !! i = Some x -> l !! j = Some y -> R x y.
Proof.
  intros Hr Hs. revert i j. induction Hs as [|z l Hs IH Hz]; intros i j Hij Hi Hj; [done|].
  destruct i as [|i], j as [|j]; cbn in *; simplify_eq; [by apply Hr| |lia|].
  - eapply Forall_lookup_1 in Hz; eauto.
  - apply (IH i j); [lia|done..].
Qed.
Lemma index_lt {E A} (l : list A) i : (i < length l)%nat -> exists x, index (E:=E) l i = Ok x /\ l !! i = Some x.
Proof. intros Hi. unfold index. apply lookup_lt_is_Some in Hi as [x Hx]. exists x. by rewrite Hx. Qed.

Lemma percentile_positions (n : nat) :
  (0 < n -> n / 4 <= n / 2 /\ n / 2 <= n * 3 / 4 /\ n * 3 / 4 <= n * 9 / 10 /\ n * 9 / 10 <= n - 1)%nat.
Proof.
  intros Hn. pose proof (Nat.div_mod_eq n 4). pose proof (Nat.mod_upper_bound n 4 ltac:(lia)).
  pose proof (Nat.div_mod_eq n 2). pose proof (Nat.mod_upper_bound n 2 ltac:(lia)).
  pose proof (Nat.div_mod_eq (n * 3) 4). pose proof (Nat.mod_upper_bound (n * 3) 4 ltac:(lia)).
  pose proof (Nat.div_mod_eq (n * 9) 10). pose proof (Nat.mod_upper_bound (n * 9) 10 ltac:(lia)). lia.
Qed.

Section Market.
Context `{BT : BincodeTx} {E : Type}.
Definition comparable (l : list Transaction) : Prop := Forall (fun tx => is_nan (fee_rate tx) = false) l.
Definition below (x y : f64) : Prop := rank_le (f64_rank x) (f64_rank y).

(** The statistics of a market of transactions with comparable rates exist: its percentiles are in order,
    lowest first, and each is the rate of a pending transaction. *)
Theorem fee_market_ordered (l : list Transaction) :
  l <> [] -> comparable l ->
  exists s, MempoolFee.analyze_fee_market (E:=E) l = Ok s
    /\ below (MempoolFee.lowest_fee_per_byte s) (MempoolFee.p25_fee_per_byte s)
    /\ below (MempoolFee.p25_fee_per_byte s) (MempoolFee.median_fee_per_byte s)
    /\ below (MempoolFee.median_fee_per_byte s) (MempoolFee.p75_fee_per_byte s)
    /\ below (MempoolFee.p75_fee_per_byte s) (MempoolFee.p90_fee_per_byte s)
    /\ below (MempoolFee.p90_fee_per_byte s) (MempoolFee.max_fee_per_byte s)
    /\ (forall p, MempoolFee.recommended_fee_for_priority p s ∈ map fee_rate l)
    /\ MempoolFee.total_pending s = Z.of_nat (length l).
Proof.
  intros Hne Hc. unfold MempoolFee.analyze_fee_market. rewrite bool_decide_eq_false_2 by (by destruct l).
  destruct (sort_by_rate_ok (E:=E) (fun x => x) (map fee_rate l)) as (s & -> & Hp & Hs); [by apply Forall_map|]. cbn [obind].
  assert (Hlen : length s = length l) by (by rewrite (Permutation_length Hp), length_map).
  assert (Hpos : (0 < length s)%nat) by (rewrite Hlen; destruct l; [done|cbn; lia]). cbn zeta. set (n := length s) in *.
  destruct (percentile_positions n Hpos) as (H42 & H23 & H34 & H9).
  destruct (index_lt (E:=E) s (n / 2) ltac:(lia)) as (x2 & -> & E2), (index_lt (E:=E) s 0 Hpos) as (x0 & -> & E0),
    (index_lt (E:=E) s (n - 1) ltac:(lia)) as (x1 & -> & E1), (index_lt (E:=E) s (n / 4) ltac:(lia)) as (x4 & -> & E4),
    (index_lt (E:=E) s (n * 3 / 4) ltac:(lia)) as (x3 & -> & E3), (index_lt (E:=E) s (n * 9 / 10) ltac:(lia)) as (x9 & -> & E9).
  cbn [obind]. eexists. split; [reflexivity|]. cbn.
  assert (Hord : forall i j x y, (i <= j)%nat -> s !! i = Some x -> s !! j = Some y -> below x y).
  { intros i j x y. apply (sorted_index below); [intros [| | |[]]; cbn; lia|done]. }
  assert (Hin : forall i x, s !! i = Some x -> x ∈ map fee_rate l).
  { intros i x Hx. apply list_elem_of_lookup_2 in Hx. by rewrite Hp in Hx. }
  split_and!; eauto using Nat.le_0_l. intros []; cbn; eauto.
Qed.
End Market.

(** ** Pruning *)

Section PrunerProps.
Context `{S3 : Sha3} `{BT : BincodeTx} `{HI : !HashMapIter Address Z} {E : Type}.

Definition keep (s : gset Hash) (l : list Transaction) : list Transaction := List.filter (fun tx => bool_decide (tx_hash tx ∉ s)) l.
Definition of_address (a : Address) (l : list Transaction) : list Transaction := List.filter (fun tx => bool_decide (tx_from tx = a)) l.

Lemma elem_of_filter_bool {A} (f : A -> bool) x l : x ∈ List.filter f l <-> x ∈ l /\ f x = true.
Proof. rewrite !list_elem_of_In. apply filter_In. Qed.

Lemma filter_perm {A} (f : A -> bool) (l l' : list A) : l ≡ₚ l' -> List.filter f l ≡ₚ List.filter f l'.
Proof.
  induction 1 as [|x l l' Hl IH|x y l|l l' l'' H1 IH1 H2 IH2]; cbn; [done| | |by etransitivity].
  - destruct (f x); [by constructor|done].
  - destruct (f x), (f y); done || constructor.
Qed.

(** Dropping [k] members of a list leaves at most the others. *)
Lemma keep_bound s (l l' : list Transaction) k :
  l' ≡ₚ l -> (forall tx, tx ∈ take k l' -> tx_hash tx ∈ s) -> (length (keep s l) <= length l - k)%nat.
Proof.
  intros Hp Hs. unfold keep. rewrite <- (Permutation_length (filter_perm _ _ _ Hp)), <- (Permutation_length Hp).
  rewrite <- (take_drop k l') at 1. rewrite List.filter_app, length_app.
  assert (List.filter (fun tx => bool_decide (tx_hash tx ∉ s)) (take k l') = []) as ->.
  { induction (take k l') as [|x t IH]; cbn; [done|]. rewrite bool_decide_eq_false_2; [apply IH; set_solver|]. specialize (Hs x). set_solver. }
  pose proof (List.filter_length_le (fun tx => bool_decide (tx_hash tx ∉ s)) (drop k l')) as H. rewrite length_drop in H. cbn. lia.
Qed.

Lemma of_address_keep a s l : of_address a (keep s l) = keep s (of_address a l).
Proof.
  unfold of_address, keep. induction l as [|tx l IH]; cbn; [done|].
  destruct (bool_decide (tx_hash tx ∉ s)) eqn:E1, (bool_decide (tx_from tx = a)) eqn:E2; cbn; rewrite ?E1, ?E2, ?IH; done.
Qed.

Lemma count_by_address_lookup l a :
  count_by_address l !! a = (if bool_decide (of_address a l = []) then None else Some (Z.of_nat (length (of_address a l)))).
Proof.
  unfold count_by_address. induction l as [|tx l IH] using rev_ind; [done|]. rewrite foldl_app. cbn.
  unfold of_address in *. rewrite List.filter_app. cbn [List.filter]. destruct (decide (tx_from tx = a)) as [<-|Hne].
  - rewrite (bool_decide_eq_true_2 (tx_from tx = tx_from tx)) by done. rewrite lookup_insert_eq, IH, length_app. cbn [length].
    rewrite (bool_decide_eq_false_2 (_ ++ [tx] = [])) by (intros H; by apply app_eq_nil in H as [_ H]).
    case_bool_decide as Hn; cbn; [rewrite Hn; done|]. f_equal. lia.
  - rewrite (bool_decide_eq_false_2 (tx_from tx = a)) by done. rewrite lookup_insert_ne, app_nil_r by done. exact IH.
Qed.

Lemma cheapest_ok cfg l :
  0 <= max_size cfg -> comparable l ->
  exists sorted, sort_by_rate (E:=E) fee_rate l = Ok sorted /\ sorted ≡ₚ l /\ StronglySorted (rate_le fee_rate) sorted
    /\ cheapest (E:=E) cfg l = Ok (take (Z.to_nat (Z.of_nat (length l) - max_size cfg)) sorted).
Proof.
  intros Hm Hc. destruct (sort_by_rate_ok (E:=E) fee_rate l Hc) as (s & Hs & Hp & Hss). exists s. split_and!; [done..|].
  unfold cheapest. destruct (_ <? _) eqn:Hlt; [by rewrite Hs|]. apply Z.ltb_ge in Hlt.
  by replace (Z.to_nat _) with 0%nat by lia.
Qed.

(** C39. Pruning enforces every limit: what is left of any list of transactions with comparable rates holds no
    expired transaction, no more than the capacity, and of no address more than its limit. *)
Theorem pruning_enforces_limits (cfg : MempoolConfig) (l : list Transaction) (now : Z) :
  0 <= max_size cfg -> 0 <= max_tx_per_address cfg -> comparable l ->
  exists s, select_for_pruning (E:=E) cfg l now = Ok s
    /\ Forall (fun tx => saturating_sub now (tx_timestamp tx) <= max_tx_age_secs cfg) (keep s l)
    /\ Z.of_nat (length (keep s l)) <= max_size cfg
    /\ forall a, Z.of_nat (length (of_address a (keep s l))) <= max_tx_per_address cfg.
Proof.
  intros Hm Ha Hc. destruct (cheapest_ok cfg l Hm Hc) as (sorted & _ & Hp & _ & Hcheap). unfold select_for_pruning. rewrite Hcheap. cbn [obind].
  set (chosen := expired now cfg l ++ _). eexists. split; [reflexivity|]. set (s := list_to_set (map tx_hash chosen) : gset Hash).
  assert (Hin : forall tx, tx ∈ chosen -> tx_hash tx ∈ s) by (intros tx Htx; apply elem_of_list_to_set, list_elem_of_fmap; by exists tx).
  split_and!.
  - apply Forall_forall. intros tx Htx. apply elem_of_filter_bool in Htx as [Htx Hk]. apply bool_decide_eq_true in Hk.
    destruct (decide (saturating_sub now (tx_timestamp tx) <= max_tx_age_secs cfg)) as [|Hold]; [done|]. destruct Hk. apply Hin.
    apply elem_of_app. left. apply elem_of_filter_bool. split; [done|]. apply Z.ltb_lt. lia.
  - pose proof (keep_bound s l sorted (Z.to_nat (Z.of_nat (length l) - max_size cfg)) Hp) as Hb.
    enough (length (keep s l) <= length l - Z.to_nat (Z.of_nat (length l) - max_size cfg))%nat by lia. apply Hb.
    intros tx Htx. apply Hin. apply elem_of_app. right. apply elem_of_app. by left.
  - intros a.
    rewrite of_address_keep. destruct (decide (of_address a l = [])) as [->|Hne]; [cbn; lia|].
    set (k := Z.to_nat (Z.of_nat (length (of_address a l)) - max_tx_per_address cfg)).
    pose proof (keep_bound s (of_address a l) (sort_desc (fun tx => - tx_timestamp tx) (of_address a l)) k (sort_desc_perm _ _)) as Hb.
    enough (length (keep s (of_address a l)) <= length (of_address a l) - k)%nat by lia. apply Hb. intros tx Htx. apply Hin.
    apply elem_of_app. right. apply elem_of_app. right. apply list_elem_of_In, in_flat_map.
    exists (a, Z.of_nat (length (of_address a l))). rewrite <- list_elem_of_In, elem_of_entries, count_by_address_lookup.
    rewrite bool_decide_eq_false_2 by done. split; [done|]. apply list_elem_of_In. cbn. destruct (_ <? _) eqn:Hlt; [done|].
    apply Z.ltb_ge in Hlt. by replace k with 0%nat in Htx by lia.
Qed.

(** The capacity pruner drops exactly the excess, and no transaction it keeps pays a lower rate than one it drops. *)
Theorem prune_capacity_cheapest (cfg : MempoolConfig) (l : list Transaction) :
  0 <= max_size cfg < Z.of_nat (length l) -> comparable l ->
  exists dropped kept, prune_capacity (E:=E) cfg l = Ok (map tx_hash dropped) /\ dropped ++ kept ≡ₚ l
    /\ Z.of_nat (length kept) = max_size cfg /\ forall x y, x ∈ dropped -> y ∈ kept -> below (fee_rate x) (fee_rate y).
Proof.
  intros Hm Hc. destruct (sort_by_rate_ok (E:=E) fee_rate l Hc) as (s & Hs & Hp & Hss).
  set (k := Z.to_nat (Z.of_nat (length l) - max_size cfg)). exists (take k s), (drop k s). split_and!.
  - unfold prune_capacity. rewrite (proj2 (Z.leb_gt _ _)) by lia. by rewrite Hs.
  - by rewrite take_drop.
  - rewrite length_drop, (Permutation_length Hp). lia.
  - intros x y Hx Hy. apply list_elem_of_lookup in Hx as [i Hx], Hy as [j Hy]. apply lookup_take_Some in Hx as [Hx Hi].
    rewrite lookup_drop in Hy. apply (sorted_index (rate_le fee_rate) s i (k + j) x y); [|done|lia|done..].
    intros z. unfold rate_le. destruct (fee_rate z) as [| | |[]]; cbn; lia.
Qed.
End PrunerProps.

Section FeeMarketWitnesses.
#[local] Existing Instance release_profile.
#[local] Existing Instance toy_sha3.
#[local] Existing Instance key_order.
#[local] Instance hundred_bytes : BincodeTx := fun _ => Some (replicate 100 0).

Definition offer (who fee time : Z) : Transaction := mkTx [who] [9] 5 fee 0 [] time.
Definition offers : list Transaction := [offer 1 300 10; offer 1 100 990; offer 2 200 995].
Lemma offers_comparable : comparable offers.
Proof. repeat constructor. Qed.

Lemma fee_market_ordered_witness :
  exists s, MempoolFee.analyze_fee_market (E:=unit) offers = Ok s /\ below (MempoolFee.p25_fee_per_byte s) (MempoolFee.median_fee_per_byte s).
Proof.
  destruct (fee_market_ordered (E:=unit) offers ltac:(done) offers_comparable) as (s & Hs & _ & H & _). by exists s.
Defined.

Lemma pruning_enforces_limits_witness :
  exists s, select_for_pruning (E:=unit) (mkPoolConfig 1 600 1 1 true true 10) offers 1000 = Ok s
    /\ Z.of_nat (length (keep s offers)) <= 1.
Proof.
  destruct (pruning_enforces_limits (E:=unit) (mkPoolConfig 1 600 1 1 true true 10) offers 1000 ltac:(cbn; lia) ltac:(cbn; lia) offers_comparable)
    as (s & Hs & _ & H & _). by exists s.
Defined.

Lemma prune_capacity_cheapest_witness :
  exists (dropped kept : list Transaction), prune_capacity (E:=unit) (mkPoolConfig 2 600 1 1 true true 10) offers = Ok (map tx_hash dropped)
    /\ Z.of_nat (length kept) = 2.
Proof.
  destruct (prune_capacity_cheapest (E:=unit) (mkPoolConfig 2 600 1 1 true true 10) offers ltac:(cbn; lia) offers_comparable)
    as (d & k & Hd & _ & Hk & _). by exists d, k.
Defined.
End FeeMarketWitnesses.
