(* ===== verification/Wal.v ===== *)
(** * The write-ahead log (src/storage/wal.rs)

    [WalManager] queues entries, writes them as length-prefixed records to the current log file,
    and reads all log files back as write batches.  The file system is an interface, the class
    [Disk]: every call of the standard library that can fail returns a message; [DiskLaws] says
    what a disk without failures promises, [MemDisk] keeps both.  [current_lsn] is the lock that
    the methods hold while calling each other, so it appears as a guard. *)

From stdpp Require Import strings pretty.
From S2P Require Import Prelude Hashing Errors Types Merkle Block State.
Abbreviation length := List.length.

Definition WAL_MAGIC : Z := 1346590529. (* 0x50435741 *)
Definition WAL_VERSION : Z := 1.
Definition WAL_MAX_FILE_SIZE : Z := 64 * 1024 * 1024.
Definition WAL_FLUSH_BATCH_SIZE : Z := 100.

(** ** Entries and records *)

Inductive WalEntry : Type :=
| SaveBlock (height : Z) (block : Block)
| SaveTransaction (hash : Hash) (transaction : Transaction)
| SaveAccount (address : Address) (account : Account)
| DeleteAccount (address : Address)
| SaveStateRoot (height : Z) (root : Hash)
| Batch (entries : list WalEntry)
| Checkpoint (lsn timestamp : Z).

Record WalRecord : Type := mkRecord {
  r_magic : Z;
  r_version : Z;
  r_lsn : Z;
  r_timestamp : Z;
  r_entry : WalEntry;
  r_checksum : Z
}.
Definition wal_record_new (now lsn : Z) (entry : WalEntry) : WalRecord :=
  mkRecord WAL_MAGIC WAL_VERSION lsn now entry 0.
Definition set_checksum (c : Z) (r : WalRecord) : WalRecord :=
  mkRecord (r_magic r) (r_version r) (r_lsn r) (r_timestamp r) (r_entry r) c.

(** [DefaultHasher] of the standard library, whose algorithm is left open: the [u64] for the
    integers hashed in order. *)
Class StdHasher : Type := default_hasher : list Z -> Z.

(** The entry is not hashed. *)
Definition compute_checksum `{StdHasher} (r : WalRecord) : Z :=
  cast 32 (default_hasher [r_magic r; r_version r; r_lsn r; r_timestamp r]).
Definition record_verify `{StdHasher} (r : WalRecord) : bool :=
  (r_magic r =? WAL_MAGIC) && (r_version r =? WAL_VERSION) && (compute_checksum r =? r_checksum r).

(** [bincode] on records: what is written can be read back. *)
Class BincodeWal : Type := {
  wal_serialize : WalRecord -> string + list Z;
  wal_deserialize : list Z -> string + WalRecord;
  wal_bincode_law : forall r b, wal_serialize r = inr b -> wal_deserialize b = inr r
}.

(** ** The disk *)

(** Names and contents of the files of the log directory. *)
Class Disk (D : Type) : Type := {
  disk_create_dir : ST D string unit;
  disk_list : D -> Outcome string (list string);
  disk_open_append : string -> ST D string unit;
  disk_append : string -> list Z -> ST D string unit;
  disk_len : string -> D -> option Z;
  disk_read : string -> D -> Outcome string (list Z)
}.

Class DiskLaws (D : Type) `{Disk D} : Type := {
  disk_files : D -> gmap string (list Z);
  disk_create_dir_law : forall d, exists d', disk_create_dir d = (Ok tt, d') /\ disk_files d' = disk_files d;
  disk_list_law : forall d, exists l, disk_list d = Ok l /\ l ≡ₚ (map_to_list (disk_files d)).*1;
  disk_open_law : forall n d, exists d', disk_open_append n d = (Ok tt, d')
    /\ disk_files d' = match disk_files d !! n with Some _ => disk_files d | None => <[n := []]> (disk_files d) end;
  disk_append_law : forall n b c d, disk_files d !! n = Some c ->
    exists d', disk_append n b d = (Ok tt, d') /\ disk_files d' = <[n := c ++ b]> (disk_files d);
  disk_len_law : forall n c d, disk_files d !! n = Some c -> disk_len n d = Some (Z.of_nat (length c));
  disk_read_law : forall n c d, disk_files d !! n = Some c -> disk_read n d = Ok c
}.

(** [.map_err(|e| PacyteError::DiskIoFailure(e.to_string()))]. *)
Definition io_err {A} (o : Outcome string A) : PacyteResult A :=
  match o with Ok a => Ok a | Err e => Err (PE.DiskIoFailure e) | Panic => Panic | Deadlock => Deadlock end.

(** ** File names *)

(** [format!("wal_{:016x}.log", lsn)]. *)
Definition hex16 (lsn : Z) : string :=
  String.concat "" (map (fun i => hex_digit (lsn / 16 ^ Z.of_nat i mod 16)) (rev (seq 0 16))).
Definition wal_name (lsn : Z) : string := ("wal_" +:+ hex16 lsn +:+ ".log")%string.

Definition ends_with (suffix s : string) : bool := String.prefix (String.rev suffix) (String.rev s).
Fixpoint drop_chars (n : nat) (s : string) : string :=
  match n, s with
  | S n', String _ s' => drop_chars n' s'
  | _, _ => s
  end.
(** [trim_start_matches] strips the pattern as often as it occurs. *)
Fixpoint trim_start (fuel : nat) (pat s : string) : string :=
  match fuel with
  | O => s
  | S fuel' => if String.prefix pat s then trim_start fuel' pat (drop_chars (String.length pat) s) else s
  end.
Definition trim_start_matches (pat s : string) : string := trim_start (String.length s) pat s.
Definition trim_end_matches (pat s : string) : string :=
  String.rev (trim_start_matches (String.rev pat) (String.rev s)).

(** [str::parse::<u64>]: an optional plus sign, decimal digits, no overflow. *)
Definition digit_of (c : Ascii.ascii) : option Z :=
  let n := Z.of_nat (Ascii.nat_of_ascii c) in
  if (48 <=? n) && (n <=? 57) then Some (n - 48) else None.
Fixpoint parse_digits (s : string) (acc : Z) : option Z :=
  match s with
  | EmptyString => Some acc
  | String c s' =>
      match digit_of c with
      | Some d => if acc * 10 + d <=? U64_MAX then parse_digits s' (acc * 10 + d) else None
      | None => None
      end
  end.
Definition parse_u64 (s : string) : option Z :=
  match s with
  | EmptyString => None
  | String c s' => if (Ascii.nat_of_ascii c =? 43)%nat then (if bool_decide (s' = "") then None else parse_digits s' 0)
                   else parse_digits s 0
  end.

(** The number [find_latest_lsn] reads in a file name. *)
Definition lsn_of_name (name : string) : option Z :=
  if String.prefix "wal_" name && ends_with ".log" name then
    parse_u64 (trim_end_matches ".log" (trim_start_matches "wal_" name))
  else None.

(** [path.extension() == Some("log")]: the text after the last dot, if the dot is not the first
    character. *)
Definition has_log_extension (name : string) : bool :=
  ends_with ".log" name && negb (bool_decide (name = ".log"%string)).

(** ** Manager *)

(** [BufWriter::with_capacity(64 * 1024, file)]: the bytes not yet handed to the file. *)
Definition BUF_CAPACITY : Z := 64 * 1024.
Record BufWriter : Type := mkWriter { w_name : string; w_buffer : list Z }.

Record WalConfig : Type := mkWalConfig {
  wal_enabled : bool;
  sync_interval_ms : Z;
  max_file_size : Z;
  max_pending_entries : Z
}.
Definition default_wal_config : WalConfig := mkWalConfig true 100 WAL_MAX_FILE_SIZE 1000.

Record WalManager (D : Type) : Type := mkWal {
  wal_disk : D;
  current_file : option BufWriter;
  current_lsn : Z;
  pending_entries : list WalEntry;
  wal_config : WalConfig
}.
Arguments mkWal {D}.
Arguments wal_disk {D}.
Arguments current_file {D}.
Arguments current_lsn {D}.
Arguments pending_entries {D}.
Arguments wal_config {D}.

Section Wal.
Context {D : Type} `{Dk : Disk D} `{BP : BuildProfile} `{Hs : StdHasher} `{BW : BincodeWal} `{S3 : Sha3}.
Abbreviation M := (ST (WalManager D) PacyteError).

Definition set_wal_disk (x : D) (m : WalManager D) := mkWal x (current_file m) (current_lsn m) (pending_entries m) (wal_config m).
Definition set_wal_file x (m : WalManager D) := mkWal (wal_disk m) x (current_lsn m) (pending_entries m) (wal_config m).
Definition set_wal_lsn x (m : WalManager D) := mkWal (wal_disk m) (current_file m) x (pending_entries m) (wal_config m).
Definition set_pending x (m : WalManager D) := mkWal (wal_disk m) (current_file m) (current_lsn m) x (wal_config m).

(** The greatest number in the names of the directory. *)
Definition find_latest_lsn (names : list string) : Z :=
  foldl (fun acc n => match lsn_of_name n with Some l => Z.max acc l | None => acc end) 0 names.

Definition on_disk {A} (c : ST D string A) : M A :=
  fun m => let '(r, d) := c (wal_disk m) in (io_err r, set_wal_disk d m).

Definition wal_new (d : D) (cfg : WalConfig) : PacyteResult (WalManager D) * D :=
  match disk_create_dir d with
  | (Ok _, d1) =>
      match disk_list d1 with
      | Ok names =>
          let lsn := find_latest_lsn names in
          match disk_open_append (wal_name lsn) d1 with
          | (Ok _, d2) => (Ok (mkWal d2 (Some (mkWriter (wal_name lsn) [])) lsn [] cfg), d2)
          | (Err e, d2) => (Err (PE.DiskIoFailure e), d2)
          | (Panic, d2) => (Panic, d2)
          | (Deadlock, d2) => (Deadlock, d2)
          end
      | Err e => (Err (PE.DiskIoFailure e), d1)
      | Panic => (Panic, d1)
      | Deadlock => (Deadlock, d1)
      end
  | (Err e, d1) => (Err (PE.DiskIoFailure e), d1)
  | (Panic, d1) => (Panic, d1)
  | (Deadlock, d1) => (Deadlock, d1)
  end.

Definition set_buffer (w : BufWriter) (b : list Z) : M unit := smod (set_wal_file (Some (mkWriter (w_name w) b))).

(** [BufWriter::flush]: the buffer goes to the file. *)
Definition flush_buffer (w : BufWriter) : M unit :=
  if bool_decide (w_buffer w = []) then sret tt
  else run! on_disk (disk_append (w_name w) (w_buffer w)) in set_buffer w [].

(** [BufWriter::write_all]: bytes that fit are buffered, others flush the buffer first, and
    bytes of the size of the buffer bypass it. *)
Definition write_all (w : BufWriter) (b : list Z) : M BufWriter :=
  let spare := BUF_CAPACITY - Z.of_nat (length (w_buffer w)) in
  let n := Z.of_nat (length b) in
  if n <? spare then
    run! set_buffer w (w_buffer w ++ b) in sret (mkWriter (w_name w) (w_buffer w ++ b))
  else
    do! buf := (if spare <? n then run! flush_buffer w in sret [] else sret (w_buffer w)) in
    if BUF_CAPACITY <=? n then
      run! on_disk (disk_append (w_name w) b) in sret (mkWriter (w_name w) buf)
    else
      run! set_buffer w (buf ++ b) in sret (mkWriter (w_name w) (buf ++ b)).

(** The record of an entry as it is written, checksum included. *)
Definition sealed (now lsn : Z) (entry : WalEntry) : WalRecord :=
  let r := wal_record_new now lsn entry in set_checksum (compute_checksum r) r.

Fixpoint write_records (now lsn : Z) (l : list WalEntry) (w : BufWriter) : M BufWriter :=
  match l with
  | [] => sret w
  | entry :: l =>
      do! bytes := slift (match wal_serialize (sealed now lsn entry) with
                          | inr b => Ok b
                          | inl e => Err (PE.DiskIoFailure e)
                          end) in
      do! w1 := write_all w (to_le_bytes 4 (cast 32 (Z.of_nat (length bytes)))) in
      do! w2 := write_all w1 bytes in
      write_records now lsn l w2
  end.

(** [g]: what the calling thread holds of [current_lsn]. *)
Definition flush (g : Guard) (now : Z) : M unit :=
  do! cfg := sget wal_config in
  if negb (wal_enabled cfg) then sret tt
  else
    do! pending := sget pending_entries in
    run! smod (set_pending []) in
    if bool_decide (length pending = 0%nat) then sret tt
    else
      do! o := sget current_file in
      do! file := slift (ok_or o (PE.DiskIoFailure "WAL file not open")) in
      run! slift (acquire_read g) in
      do! lsn := sget current_lsn in
      do! w := write_records now lsn pending file in
      run! flush_buffer w in
      do! file_size := sget (fun m => default 0 (disk_len (w_name w) (wal_disk m))) in
      if max_file_size cfg <=? file_size then
        run! slift (acquire_read g) in
        do! new_lsn := sget current_lsn in
        run! on_disk (disk_open_append (wal_name new_lsn)) in
        smod (set_wal_file (Some (mkWriter (wal_name new_lsn) [])))
      else sret tt.

(** The write guard of [current_lsn] lives until [append] returns. *)
Definition append (g : Guard) (now : Z) (entry : WalEntry) : M Z :=
  do! cfg := sget wal_config in
  if negb (wal_enabled cfg) then sret 0
  else
    do! held := slift (acquire_write g) in
    do! old := sget current_lsn in
    do! lsn := slift (add_u64 old 1) in
    run! smod (set_wal_lsn lsn) in
    run! smod (fun m => set_pending (pending_entries m ++ [entry]) m) in
    do! n := sget (fun m => Z.of_nat (length (pending_entries m))) in
    run! (if max_pending_entries cfg <=? n then flush held now else sret tt) in
    sret lsn.

(** The read guard in the argument of [append] lives until the end of the statement. *)
Definition checkpoint (now : Z) : M unit :=
  do! held := slift (acquire_read NoGuard) in
  do! lsn := sget current_lsn in
  run! append held now (Checkpoint lsn now) in
  flush NoGuard now.

(** Dropping the writer hands its buffer to the file, ignoring errors. *)
Definition drop_writer : M unit :=
  fun m => match current_file m with
           | Some w => let '(_, m') := flush_buffer w m in (Ok tt, set_wal_file None m')
           | None => (Ok tt, m)
           end.
Definition wal_close (now : Z) : M unit := run! flush NoGuard now in drop_writer.
(** [let _ = self.close()]. *)
Definition wal_drop (now : Z) : M unit := fun m =>
  match wal_close now m with
  | (Err _, m') => (Ok tt, m')
  | r => r
  end.
(** One tick of the task: errors are logged, the task goes on; [false] when the log is disabled
    and no task is started. *)
Definition flush_task_tick (now : Z) : M bool := fun m =>
  if negb (wal_enabled (wal_config m)) then (Ok false, m)
  else
    match flush NoGuard now m with
    | (Ok _, m') | (Err _, m') => (Ok true, m')
    | (Panic, m') => (Panic, m')
    | (Deadlock, m') => (Deadlock, m')
    end.

(** ** Recovery *)

Record Recovery : Type := mkRecovery {
  rc_batches : list WriteBatch;
  rc_current : WriteBatch;
  rc_open : bool
}.

Definition recover_entry (e : WalEntry) (s : Recovery) : Recovery :=
  let into f := mkRecovery (rc_batches s) (f (rc_current s)) (rc_open s) in
  match e with
  | SaveBlock _ b => into (add_block b)
  | SaveTransaction _ t => into (add_transaction t)
  | SaveAccount a x => into (add_account a x)
  | DeleteAccount a => into (batch_delete_account a)
  | SaveStateRoot h r => into (add_state_root h r)
  | Batch _ => mkRecovery (rc_batches s) (rc_current s) true
  | Checkpoint _ _ =>
      if rc_open s then mkRecovery (rc_batches s ++ [rc_current s]) (batch_clear (rc_current s)) false else s
  end.

(** [reader.read_exact(&mut [0u8; n])]. *)
Definition read_exact (n : nat) (bytes : list Z) : option (list Z * list Z) :=
  if (n <=? length bytes)%nat then Some (take n bytes, drop n bytes) else None.

(** [None]: the fuel did not suffice. *)
Fixpoint recover_loop (fuel : nat) (bytes : list Z) (s : Recovery) : option (PacyteResult Recovery) :=
  match fuel with
  | O => None
  | S fuel' =>
      match read_exact 4 bytes with
      | None => Some (Ok s)
      | Some (len_bytes, rest) =>
          match read_exact (Z.to_nat (from_be_bytes (rev len_bytes))) rest with
          | None => Some (Err (PE.DiskIoFailure "failed to fill whole buffer"))
          | Some (body, rest') =>
              match wal_deserialize body with
              | inl e => Some (Err (PE.DiskIoFailure ("Deserialize failed: " +:+ e)%string))
              | inr r => recover_loop fuel' rest' (if record_verify r then recover_entry (r_entry r) s else s)
              end
          end
      end
  end.

Definition recovered (s : Recovery) : list WriteBatch :=
  rc_batches s ++ (if batch_is_empty (rc_current s) then [] else [rc_current s]).

(** Every turn of the loop reads four bytes, so the length of the file is fuel enough. *)
Definition recover_from_bytes (bytes : list Z) : option (PacyteResult (list WriteBatch)) :=
  match recover_loop (S (length bytes)) bytes (mkRecovery [] batch_new false) with
  | Some (Ok s) => Some (Ok (recovered s))
  | Some (Err e) => Some (Err e)
  | Some Panic => Some Panic
  | Some Deadlock => Some Deadlock
  | None => None
  end.

Definition recover_from_file (name : string) (m : WalManager D) : option (PacyteResult (list WriteBatch)) :=
  match disk_read name (wal_disk m) with
  | Ok bytes => recover_from_bytes bytes
  | Err e => Some (Err (PE.DiskIoFailure e))
  | Panic => Some Panic
  | Deadlock => Some Deadlock
  end.

(** The log files in the order of the directory, up to the first failure. *)
Fixpoint recover_files (names : list string) (m : WalManager D) : option (PacyteResult (list WriteBatch)) :=
  match names with
  | [] => Some (Ok [])
  | n :: names =>
      if has_log_extension n then
        match recover_from_file n m with
        | Some (Ok bs) =>
            match recover_files names m with
            | Some (Ok rest) => Some (Ok (bs ++ rest))
            | r => r
            end
        | r => r
        end
      else recover_files names m
  end.

Definition recover (m : WalManager D) : option (PacyteResult (list WriteBatch)) :=
  if negb (wal_enabled (wal_config m)) then Some (Ok [])
  else
    match disk_list (wal_disk m) with
    | Ok names => recover_files names m
    | Err e => Some (Err (PE.DiskIoFailure e))
    | Panic => Some Panic
    | Deadlock => Some Deadlock
    end.
End Wal.
