(* ===== verification/WalProps.v ===== *)
(** * The write-ahead log: what is logged can be recovered

    The specification of the log is the list of its entries and [replay], the batches they
    stand for.  Closing a log and reopening it recovers exactly the replay of what was appended;
    a torn record makes recovery fail; the calls that ask twice for [current_lsn] never return;
    sequence numbers from ten on do not survive the file name. *)

From stdpp Require Import strings.
From S2P Require Import Prelude Hashing Errors Types Merkle Block State Wal.
Abbreviation length := List.length.

Lemma from_to_le_bytes n z : from_be_bytes (rev (to_le_bytes n z)) = z mod 256 ^ Z.of_nat n.
Proof.
  revert z. induction n as [|n IH]; intros z.
  - cbn. by rewrite Z.mod_1_r.
  - cbn [to_le_bytes rev]. rewrite from_be_bytes_app, IH. cbn [length].
    change (from_be_bytes [z mod 256]) with (0 * 256 + z mod 256).
    change (256 ^ Z.of_nat 1) with 256.
    rewrite Nat2Z.inj_succ, Z.pow_succ_r, Z.rem_mul_r by lia. lia.
Qed.

(** ** Frames *)

Definition frame (b : list Z) : list Z := to_le_bytes 4 (cast 32 (Z.of_nat (length b))) ++ b.

Lemma read_exact_app (b rest : list Z) : read_exact (length b) (b ++ rest) = Some (b, rest).
Proof.
  unfold read_exact. rewrite (proj2 (Nat.leb_le _ _)) by (rewrite length_app; lia).
  by rewrite take_app_length, drop_app_length.
Qed.

Lemma read_exact_short n (b : list Z) : (length b < n)%nat -> read_exact n b = None.
Proof. intros H. unfold read_exact. by rewrite (proj2 (Nat.leb_gt _ _)). Qed.

Lemma read_header (b rest : list Z) :
  read_exact 4 (frame b ++ rest) = Some (to_le_bytes 4 (cast 32 (Z.of_nat (length b))), b ++ rest).
Proof.
  unfold frame. rewrite <- app_assoc.
  pose proof (read_exact_app (to_le_bytes 4 (cast 32 (Z.of_nat (length b)))) (b ++ rest)) as H.
  by rewrite length_to_le_bytes in H.
Qed.

Lemma header_length (b : list Z) :
  Z.of_nat (length b) < 2 ^ 32 ->
  Z.to_nat (from_be_bytes (rev (to_le_bytes 4 (cast 32 (Z.of_nat (length b)))))) = length b.
Proof.
  intros Hb. rewrite from_to_le_bytes. unfold cast. change (256 ^ Z.of_nat 4) with (2 ^ 32).
  rewrite Z.mod_mod, Z.mod_small by lia. lia.
Qed.

Section Recovery.
Context `{Hs : StdHasher} `{BW : BincodeWal} `{S3 : Sha3}.

Lemma recover_frame fuel (b rest : list Z) s :
  Z.of_nat (length b) < 2 ^ 32 ->
  recover_loop (S fuel) (frame b ++ rest) s =
  match wal_deserialize b with
  | inl e => Some (Err (PE.DiskIoFailure ("Deserialize failed: " +:+ e)%string))
  | inr r => recover_loop fuel rest (if record_verify r then recover_entry (r_entry r) s else s)
  end.
Proof. intros Hb. cbn [recover_loop]. by rewrite read_header, header_length, read_exact_app. Qed.

Lemma sealed_verifies now lsn e : record_verify (sealed now lsn e) = true.
Proof. unfold record_verify, sealed. cbn. by rewrite Z.eqb_refl. Qed.

(** The bytes of a list of entries, when they can be serialized. *)
Fixpoint encode_entries (now lsn : Z) (l : list WalEntry) : string + list Z :=
  match l with
  | [] => inr []
  | e :: l =>
      match wal_serialize (sealed now lsn e), encode_entries now lsn l with
      | inr b, inr bs => inr (frame b ++ bs)
      | inl err, _ => inl err
      | _, inl err => inl err
      end
  end.

(** Every record is shorter than four gigabytes, the range of its length field. *)
Definition records_fit (now lsn : Z) (l : list WalEntry) : Prop :=
  Forall (fun e => forall b, wal_serialize (sealed now lsn e) = inr b -> Z.of_nat (length b) < 2 ^ 32) l.

Lemma encode_length now lsn l bytes : encode_entries now lsn l = inr bytes -> (length l <= length bytes)%nat.
Proof.
  revert bytes. induction l as [|e l IH]; intros bytes; cbn [encode_entries length]; [lia|].
  destruct (wal_serialize _) as [|b]; [done|]. destruct (encode_entries now lsn l) as [|bs]; [done|].
  intros Heq. assert (bytes = frame b ++ bs) as -> by congruence. specialize (IH bs eq_refl). unfold frame. rewrite !length_app, length_to_le_bytes. lia.
Qed.

Lemma recover_encoded now lsn l bytes rest fuel s :
  encode_entries now lsn l = inr bytes -> records_fit now lsn l ->
  recover_loop (length l + fuel) (bytes ++ rest) s = recover_loop fuel rest (foldl (fun s e => recover_entry e s) s l).
Proof.
  intros Henc Hfit. revert bytes s Henc. induction Hfit as [|e l He _ IH]; intros bytes s; cbn [encode_entries foldl].
  - by intros [= <-].
  - destruct (wal_serialize (sealed now lsn e)) as [|b] eqn:Hb; [done|].
    destruct (encode_entries now lsn l) as [|bs]; [done|]. intros Heq.
    assert (bytes = frame b ++ bs) as -> by congruence. rewrite <- app_assoc. cbn [length plus].
    rewrite recover_frame by auto. rewrite (wal_bincode_law _ _ Hb), sealed_verifies. by apply IH.
Qed.

(** What the entries of a log stand for. *)
Definition replay (l : list WalEntry) : list WriteBatch :=
  recovered (foldl (fun s e => recover_entry e s) (mkRecovery [] batch_new false) l).

(** The operations of one entry; those of a nested [Batch] are lost. *)
Definition entry_batch (e : WalEntry) : WriteBatch :=
  match e with
  | SaveBlock _ b => add_block b batch_new
  | SaveTransaction _ t => add_transaction t batch_new
  | SaveAccount a x => add_account a x batch_new
  | DeleteAccount a => batch_delete_account a batch_new
  | SaveStateRoot h r => add_state_root h r batch_new
  | Batch _ | Checkpoint _ _ => batch_new
  end.
Fixpoint merge_all (l : list WriteBatch) : WriteBatch :=
  match l with
  | [] => batch_new
  | b :: l => batch_merge b (merge_all l)
  end.

Lemma batch_merge_assoc a b c : batch_merge a (batch_merge b c) = batch_merge (batch_merge a b) c.
Proof. unfold batch_merge. cbn. by rewrite !app_assoc. Qed.
Lemma batch_merge_new_r a : batch_merge a batch_new = a.
Proof. unfold batch_merge. cbn. rewrite !app_nil_r. by destruct a. Qed.
Lemma batch_merge_new_l a : batch_merge batch_new a = a.
Proof. by destruct a. Qed.
Lemma merge_all_app l k : merge_all (l ++ k) = batch_merge (merge_all l) (merge_all k).
Proof. induction l as [|b l IH]; cbn [merge_all app]; [by rewrite batch_merge_new_l|]. by rewrite IH, batch_merge_assoc. Qed.

(** What a recovery has gathered so far. *)
Definition gathered (s : Recovery) : WriteBatch := batch_merge (merge_all (rc_batches s)) (rc_current s).

Lemma recover_entry_gathers e s : gathered (recover_entry e s) = batch_merge (gathered s) (entry_batch e).
Proof.
  unfold gathered. destruct e; cbn [recover_entry rc_batches rc_current entry_batch].
  1-5: rewrite <- batch_merge_assoc; f_equal; unfold batch_merge; cbn; by rewrite ?app_nil_r.
  - by rewrite batch_merge_new_r.
  - rewrite batch_merge_new_r. destruct (rc_open s); cbn [rc_batches rc_current]; [|done].
    rewrite merge_all_app. cbn [merge_all]. unfold batch_clear. by rewrite !batch_merge_new_r.
Qed.

Lemma recover_entries_gather l s :
  gathered (foldl (fun s e => recover_entry e s) s l) = batch_merge (gathered s) (merge_all (map entry_batch l)).
Proof.
  revert s. induction l as [|e l IH]; intros s; cbn [foldl map merge_all]; [by rewrite batch_merge_new_r|].
  by rewrite IH, recover_entry_gathers, batch_merge_assoc.
Qed.

Lemma batch_is_empty_new b : batch_is_empty b = true -> b = batch_new.
Proof.
  unfold batch_is_empty. intros H. apply andb_prop in H as [H H4]. apply andb_prop in H as [H H3].
  apply andb_prop in H as [H1 H2]. destruct b; cbn in *. apply bool_decide_eq_true in H1, H2, H3, H4. by subst.
Qed.

(** Replaying loses no operation outside nested batches and keeps their order. *)
Lemma replay_merges l : merge_all (replay l) = merge_all (map entry_batch l).
Proof.
  pose proof (recover_entries_gather l (mkRecovery [] batch_new false)) as H. change (gathered _) with batch_new in H at 2.
  rewrite batch_merge_new_l in H.
  rewrite <- H. unfold replay, recovered, gathered. set (s := foldl _ _ l). rewrite merge_all_app.
  destruct (batch_is_empty (rc_current s)) eqn:E; cbn [merge_all]; [by rewrite (batch_is_empty_new _ E)|by rewrite batch_merge_new_r].
Qed.

(** The loop makes progress, so its fuel suffices. *)
Lemma recover_loop_total fuel (bytes : list Z) s : (length bytes < fuel)%nat -> recover_loop fuel bytes s <> None.
Proof.
  revert bytes s. induction fuel as [|fuel IH]; intros bytes s Hlen; cbn; [lia|].
  unfold read_exact at 1. destruct (Nat.leb_spec 4 (length bytes)); [|done].
  unfold read_exact. destruct (_ <=? _)%nat; [|done]. destruct (wal_deserialize _); [done|].
  apply IH. rewrite !length_drop. lia.
Qed.

(** A log cut inside a record: whole records, then the beginning of one. *)
Lemma recover_cut now lsn l bytes (b : list Z) k :
  encode_entries now lsn l = inr bytes -> records_fit now lsn l -> Z.of_nat (length b) < 2 ^ 32 ->
  (k < length (frame b))%nat ->
  recover_from_bytes (bytes ++ take k (frame b)) =
  Some (if (k <? 4)%nat then Ok (replay l) else Err (PE.DiskIoFailure "failed to fill whole buffer")).
Proof.
  intros Henc Hfit Hb Hk. pose proof (encode_length _ _ _ _ Henc) as Hlen.
  unfold recover_from_bytes. rewrite length_app.
  replace (S (length bytes + length (take k (frame b))))
    with (length l + S (length bytes - length l + length (take k (frame b))))%nat by lia.
  rewrite (recover_encoded now lsn l bytes _ _ _ Henc Hfit). set (s := foldl _ _ l). cbn [recover_loop].
  unfold frame in *. rewrite length_app, length_to_le_bytes in Hk.
  destruct (Nat.ltb_spec k 4) as [Hk4|Hk4].
  - by rewrite read_exact_short by (rewrite length_take; lia).
  - rewrite take_app_ge by (rewrite length_to_le_bytes; lia). rewrite length_to_le_bytes.
    pose proof (read_exact_app (to_le_bytes 4 (cast 32 (Z.of_nat (length b)))) (take (k - 4) b)) as Hrd.
    rewrite length_to_le_bytes in Hrd. rewrite Hrd, header_length by done.
    by rewrite read_exact_short by (rewrite length_take; lia).
Qed.
End Recovery.

(** ** Writing *)

Section Writing.
Context {D : Type} `{Dk : Disk D} `{Laws : !DiskLaws D} `{BP : BuildProfile} `{Hs : StdHasher} `{BW : BincodeWal}
  `{S3 : Sha3}.
Implicit Types m : WalManager D.

Definition files m : gmap string (list Z) := disk_files (wal_disk m).

(** Only the disk and the current writer differ. *)
Definition same_queue m m' : Prop :=
  current_lsn m' = current_lsn m /\ pending_entries m' = pending_entries m /\ wal_config m' = wal_config m.

(** The writer is the manager's, and the file with the buffer behind it holds [c]. *)
Definition holds m (w : BufWriter) (c : list Z) : Prop :=
  current_file m = Some w /\ exists f, files m !! w_name w = Some f /\ f ++ w_buffer w = c.

Lemma on_disk_append m n b f :
  files m !! n = Some f ->
  exists m', on_disk (disk_append n b) m = (Ok tt, m') /\ files m' = <[n := f ++ b]> (files m)
    /\ same_queue m m' /\ current_file m' = current_file m.
Proof.
  intros Hf. destruct (disk_append_law n b f (wal_disk m) Hf) as (d & E & Hd).
  exists (set_wal_disk d m). unfold on_disk. by rewrite E.
Qed.

Lemma flush_buffer_ok m w c :
  holds m w c ->
  exists m', flush_buffer w m = (Ok tt, m') /\ holds m' (mkWriter (w_name w) []) c
    /\ files m' = <[w_name w := c]> (files m) /\ same_queue m m'.
Proof.
  intros (Hw & f & Hf & Hc). unfold flush_buffer. case_bool_decide as Hb.
  - exists m. rewrite Hb, app_nil_r in Hc. subst f. split_and!; try done.
    + split; [by destruct w; cbn in *; subst|]. exists c. by rewrite app_nil_r.
    + by rewrite insert_id.
  - unfold sbind. destruct (on_disk_append m (w_name w) (w_buffer w) f Hf) as (m1 & -> & Hf1 & Hq & Hcur).
    eexists. split; [reflexivity|]. rewrite Hc in Hf1. split_and!; [|done|done].
    split; [done|]. exists c. cbn. split; [|by rewrite app_nil_r]. unfold files in *. cbn. by rewrite Hf1, lookup_insert_eq.
Qed.

Lemma write_all_ok m w c b :
  holds m w c ->
  exists w' m', write_all w b m = (Ok w', m') /\ holds m' w' (c ++ b) /\ w_name w' = w_name w
    /\ (exists c', files m' = <[w_name w := c']> (files m)) /\ same_queue m m'.
Proof.
  intros Hh. pose proof Hh as (Hw & f & Hf & Hc).
  assert (Hkeep : exists c', files m = <[w_name w := c']> (files m)) by (exists f; by rewrite insert_id).
  assert (Hpush : forall m1 buf f1, current_file m1 = Some (mkWriter (w_name w) buf) -> files m1 !! w_name w = Some f1 ->
    f1 ++ buf = c -> holds (set_wal_file (Some (mkWriter (w_name w) (buf ++ b))) m1) (mkWriter (w_name w) (buf ++ b)) (c ++ b)).
  { intros m1 buf f1 H1 H2 H3. split; [done|]. exists f1. split; [done|]. cbn. by rewrite app_assoc, H3. }
  unfold write_all. destruct (_ <? _) eqn:Hspare.
  { eexists _, _. unfold sbind, set_buffer. split; [reflexivity|]. split_and!; [|done..].
    eapply Hpush; [|done|done]. by destruct w. }
  destruct (BUF_CAPACITY - Z.of_nat (length (w_buffer w)) <? Z.of_nat (length b)) eqn:Hlt.
  - unfold sbind at 1. unfold sbind at 1. destruct (flush_buffer_ok m w c Hh) as (m1 & -> & (Hw1 & f1 & Hf1 & Hc1) & Hfs & Hq1).
    cbn in Hf1, Hc1. rewrite app_nil_r in Hc1. subst f1. unfold sret at 1. destruct (BUF_CAPACITY <=? _).
    + unfold sbind. destruct (on_disk_append m1 (w_name w) b c Hf1) as (m2 & -> & Hf2 & Hq2 & Hcur2).
      eexists _, m2. split; [reflexivity|]. split_and!.
      * split; [by rewrite Hcur2|]. eexists. cbn. rewrite Hf2, lookup_insert_eq. split; [done|]. by rewrite app_nil_r.
      * done.
      * exists (c ++ b). by rewrite Hf2, Hfs, insert_insert_eq.
      * destruct Hq1 as (?&?&?), Hq2 as (?&?&?). repeat split; congruence.
    + eexists _, _. unfold sbind, set_buffer. split; [reflexivity|]. split_and!.
      * apply (Hpush m1 [] c); [done|done|by rewrite app_nil_r].
      * done.
      * exists c. exact Hfs.
      * exact Hq1.
  - unfold sbind at 1, sret at 1. destruct (BUF_CAPACITY <=? _) eqn:Hcap.
    + assert (Hempty : w_buffer w = []).
      { apply Z.ltb_ge in Hlt. apply Z.leb_le in Hcap. destruct (w_buffer w); [done|]. cbn in Hlt. lia. }
      rewrite Hempty, app_nil_r in Hc. subst f. unfold sbind.
      destruct (on_disk_append m (w_name w) b c Hf) as (m2 & -> & Hf2 & Hq2 & Hcur2).
      eexists _, m2. split; [reflexivity|]. rewrite Hempty. split_and!; [|done|by eauto|done].
      split; [rewrite Hcur2, Hw; by destruct w; cbn in *; subst|]. eexists. cbn.
      rewrite Hf2, lookup_insert_eq. split; [done|]. by rewrite app_nil_r.
    + eexists _, _. unfold sbind, set_buffer. split; [reflexivity|]. split_and!; [|done|done|done].
      eapply Hpush; [|done|done]. by destruct w.
Qed.

Lemma write_records_ok now lsn l m w c bytes :
  holds m w c -> encode_entries now lsn l = inr bytes ->
  exists w' m', write_records now lsn l w m = (Ok w', m') /\ holds m' w' (c ++ bytes) /\ w_name w' = w_name w
    /\ (exists c', files m' = <[w_name w := c']> (files m)) /\ same_queue m m'.
Proof.
  revert m w c bytes. induction l as [|e l IH]; intros m w c bytes Hh; cbn [encode_entries write_records].
  - intros [= <-]. exists w, m. rewrite app_nil_r. split_and!; try done.
    destruct Hh as (_ & f & Hf & _). exists f. by rewrite insert_id.
  - unfold sbind at 1, slift. destruct (wal_serialize (sealed now lsn e)) as [|b] eqn:Hb; [done|].
    destruct (encode_entries now lsn l) as [|bs]; [done|]. intros Heq.
    assert (bytes = frame b ++ bs) as -> by congruence.
    unfold sbind at 1. destruct (write_all_ok m w c (to_le_bytes 4 (cast 32 (Z.of_nat (length b)))) Hh)
      as (w1 & m1 & -> & Hh1 & Hn1 & [c1 Hf1] & Hq1).
    unfold sbind at 1. destruct (write_all_ok m1 w1 _ b Hh1) as (w2 & m2 & -> & Hh2 & Hn2 & [c2 Hf2] & Hq2).
    destruct (IH m2 w2 _ bs Hh2 eq_refl) as (w3 & m3 & -> & Hh3 & Hn3 & [c3 Hf3] & Hq3).
    exists w3, m3. split_and!; [done| |congruence| |].
    + unfold frame. by rewrite <- !app_assoc in *.
    + exists c3. rewrite Hf3, Hn2, Hn1, Hf2, Hn1, Hf1, !insert_insert_eq. done.
    + destruct Hq1 as (?&?&?), Hq2 as (?&?&?), Hq3 as (?&?&?). repeat split; congruence.
Qed.

(** A flush without rotation moves the whole queue behind what the file holds. *)
Lemma flush_ok now m w c bytes :
  wal_enabled (wal_config m) = true -> holds m w c -> w_buffer w = [] -> pending_entries m <> [] ->
  encode_entries now (current_lsn m) (pending_entries m) = inr bytes ->
  Z.of_nat (length (c ++ bytes)) < max_file_size (wal_config m) ->
  exists m', flush NoGuard now m = (Ok tt, m') /\ holds m' (mkWriter (w_name w) []) (c ++ bytes)
    /\ files m' = <[w_name w := c ++ bytes]> (files m) /\ pending_entries m' = []
    /\ current_lsn m' = current_lsn m /\ wal_config m' = wal_config m.
Proof.
  intros Hen Hh Hbuf Hpend Henc Hroom. unfold flush, sbind at 1, sget at 1. rewrite Hen. cbn [negb].
  unfold sbind at 1, sget at 1. unfold sbind at 1, smod at 1. rewrite bool_decide_eq_false_2 by (by destruct (pending_entries m)).
  set (m0 := set_pending [] m). assert (Hh0 : holds m0 w c) by exact Hh. pose proof Hh0 as [Hw0 _].
  unfold sbind at 1, sget at 1. rewrite Hw0. unfold sbind at 1, slift at 1. cbn [ok_or].
  unfold sbind at 1, slift at 1. cbn [acquire_read]. unfold sbind at 1, sget at 1.
  unfold sbind at 1. destruct (write_records_ok now (current_lsn m) (pending_entries m) m0 w c bytes Hh0 Henc)
    as (w1 & m1 & E1 & Hh1 & Hn1 & [c1 Hf1] & (Hl1 & Hp1 & Hc1)).
  change (current_lsn m0) with (current_lsn m). rewrite E1.
  unfold sbind at 1. destruct (flush_buffer_ok m1 w1 _ Hh1) as (m2 & -> & Hh2 & Hf2 & (Hl2 & Hp2 & Hc2)).
  unfold sbind at 1, sget at 1. pose proof Hh2 as (_ & f2 & Hlook & Happ). cbn [w_name w_buffer] in Hlook, Happ.
  rewrite app_nil_r in Happ. subst f2. unfold files in Hlook. rewrite (disk_len_law _ _ _ Hlook). cbn [default].
  rewrite (proj2 (Z.leb_gt _ _)) by done.
  exists m2. rewrite Hn1 in *. split_and!; [done|done| |by rewrite Hp2, Hp1|by rewrite Hl2, Hl1|by rewrite Hc2, Hc1].
  rewrite Hf2, Hf1, insert_insert_eq. done.
Qed.

(** Appending below the limit only queues. *)
Lemma append_ok now e m :
  wal_enabled (wal_config m) = true -> fits 64 (current_lsn m + 1) ->
  Z.of_nat (length (pending_entries m)) + 1 < max_pending_entries (wal_config m) ->
  append NoGuard now e m =
  (Ok (current_lsn m + 1), set_pending (pending_entries m ++ [e]) (set_wal_lsn (current_lsn m + 1) m)).
Proof.
  intros Hen Hfit Hroom. unfold append, sbind, sget, slift, smod. rewrite Hen. cbn [negb acquire_write].
  unfold add_u64. rewrite arith_fits by done. cbn [pending_entries set_pending set_wal_lsn].
  rewrite length_app. cbn [length]. rewrite (proj2 (Z.leb_gt _ _)) by lia. done.
Qed.

Fixpoint append_all (now : Z) (l : list WalEntry) : ST (WalManager D) PacyteError unit :=
  match l with
  | [] => sret tt
  | e :: l => run! append NoGuard now e in append_all now l
  end.

Lemma append_all_ok now l m :
  wal_enabled (wal_config m) = true -> 0 <= current_lsn m -> current_lsn m + Z.of_nat (length l) < 2 ^ 64 ->
  Z.of_nat (length (pending_entries m ++ l)) < max_pending_entries (wal_config m) ->
  append_all now l m =
  (Ok tt, set_pending (pending_entries m ++ l) (set_wal_lsn (current_lsn m + Z.of_nat (length l)) m)).
Proof.
  revert m. induction l as [|e l IH]; intros m Hen H0 Hfit Hroom; cbn [append_all].
  - rewrite app_nil_r, Z.add_0_r. by destruct m.
  - unfold sbind. rewrite length_app in Hroom. cbn [length] in *.
    rewrite append_ok by (unfold fits in *; (done || lia)).
    rewrite IH; cbn [pending_entries set_pending current_lsn set_wal_lsn wal_config]; [|done|lia|lia|].
    + rewrite <- app_assoc. cbn [app]. f_equal. unfold set_pending, set_wal_lsn. cbn. f_equal. lia.
    + rewrite !length_app. cbn [length]. lia.
Qed.

(** ** Opening *)

Lemma wal_name_0 : wal_name 0 = "wal_0000000000000000.log"%string.
Proof. reflexivity. Qed.

Lemma find_only_first names : names = [] \/ names = [wal_name 0] -> find_latest_lsn names = 0.
Proof. intros [-> | ->]; reflexivity. Qed.

Lemma wal_new_ok cfg d :
  (disk_files d = ∅ \/ exists c, disk_files d = {[ wal_name 0 := c ]}) ->
  exists m, wal_new d cfg = (Ok m, wal_disk m) /\ wal_config m = cfg /\ current_lsn m = 0 /\ pending_entries m = []
    /\ holds m (mkWriter (wal_name 0) []) (default [] (disk_files d !! wal_name 0))
    /\ files m = {[ wal_name 0 := default [] (disk_files d !! wal_name 0) ]}.
Proof.
  intros Hd. unfold wal_new. destruct (disk_create_dir_law d) as (d1 & -> & Hd1).
  destruct (disk_list_law d1) as (names & -> & Hperm). rewrite Hd1 in Hperm.
  rewrite find_only_first.
  2:{ destruct Hd as [He|[c Hc]]; rewrite ?He, ?Hc in Hperm.
      - left. rewrite map_to_list_empty in Hperm. by apply Permutation_nil_r in Hperm.
      - right. rewrite map_to_list_singleton in Hperm. cbn in Hperm. by apply Permutation_singleton_r in Hperm. }
  destruct (disk_open_law (wal_name 0) d1) as (d2 & -> & Hd2). rewrite Hd1 in Hd2.
  assert (Hfs : disk_files d2 = {[ wal_name 0 := default [] (disk_files d !! wal_name 0) ]}).
  { destruct Hd as [He|[c Hc]]; rewrite Hd2.
    - by rewrite He, lookup_empty.
    - by rewrite Hc, lookup_singleton_eq. }
  exists (mkWal d2 (Some (mkWriter (wal_name 0) [])) 0 [] cfg). split; [reflexivity|].
  split_and!; [done..| |exact Hfs]. split; [done|].
  eexists. unfold files. cbn [wal_disk w_name w_buffer]. rewrite Hfs, lookup_singleton_eq. split; [done|]. by rewrite app_nil_r.
Qed.

Lemma recover_single m bytes :
  wal_enabled (wal_config m) = true -> files m = {[ wal_name 0 := bytes ]} ->
  recover m = recover_from_bytes bytes.
Proof.
  intros Hen Hf. unfold recover. rewrite Hen. cbn [negb].
  destruct (disk_list_law (wal_disk m)) as (names & -> & Hperm). fold (files m) in Hperm. rewrite Hf in Hperm.
  rewrite map_to_list_singleton in Hperm. apply Permutation_singleton_r in Hperm as ->. cbn [fmap list_fmap fst recover_files].
  change (has_log_extension (wal_name 0)) with true. cbn iota. unfold recover_from_file.
  rewrite (disk_read_law _ bytes) by (fold (files m); by rewrite Hf, lookup_singleton_eq).
  destruct (recover_from_bytes bytes) as [[]|]; try done. by rewrite app_nil_r.
Qed.

(** A flush with or without entries in the queue. *)
Lemma flush_any now m w c bytes :
  wal_enabled (wal_config m) = true -> holds m w c -> w_buffer w = [] ->
  encode_entries now (current_lsn m) (pending_entries m) = inr bytes ->
  Z.of_nat (length (c ++ bytes)) < max_file_size (wal_config m) ->
  exists m', flush NoGuard now m = (Ok tt, m') /\ holds m' (mkWriter (w_name w) []) (c ++ bytes)
    /\ files m' = <[w_name w := c ++ bytes]> (files m) /\ pending_entries m' = []
    /\ current_lsn m' = current_lsn m /\ wal_config m' = wal_config m.
Proof.
  intros Hen Hh Hbuf Henc Hroom. destruct (pending_entries m) as [|e l] eqn:Hp.
  - injection Henc as <-. rewrite app_nil_r. exists (set_pending [] m).
    pose proof Hh as (Hw & f & Hf & Hc). rewrite Hbuf, app_nil_r in Hc. subst f. split_and!; try done.
    + unfold flush, sbind, sget, smod. rewrite Hen. cbn [negb]. by rewrite Hp.
    + split; [cbn; rewrite Hw; by destruct w; cbn in *; subst|]. exists c. by rewrite app_nil_r.
    + by rewrite insert_id.
  - apply flush_ok; try done; by rewrite Hp.
Qed.
Lemma close_ok now m w c bytes :
  wal_enabled (wal_config m) = true -> holds m w c -> w_buffer w = [] ->
  encode_entries now (current_lsn m) (pending_entries m) = inr bytes ->
  Z.of_nat (length (c ++ bytes)) < max_file_size (wal_config m) ->
  exists m', wal_close now m = (Ok tt, m') /\ files m' = <[w_name w := c ++ bytes]> (files m).
Proof.
  intros Hen Hh Hbuf Henc Hroom. unfold wal_close, sbind at 1.
  destruct (flush_any now m w c bytes Hen Hh Hbuf Henc Hroom) as (m1 & -> & (Hw1 & _) & Hf1 & _). unfold drop_writer. rewrite Hw1.
  exists (set_wal_file None m1). done.
Qed.

(** *** Rounds: entries appended at one time, flushed at another *)

Abbreviation Round := (Z * Z * list WalEntry)%type.
Fixpoint log_rounds (rounds : list Round) : ST (WalManager D) PacyteError unit :=
  match rounds with
  | [] => sret tt
  | (t, t', l) :: rounds => run! append_all t l in run! flush NoGuard t' in log_rounds rounds
  end.
(** All records of a flush carry the number of the last entry. *)
Fixpoint encode_rounds (lsn : Z) (rounds : list Round) : string + list Z :=
  match rounds with
  | [] => inr []
  | (_, t', l) :: rounds =>
      match encode_entries t' (lsn + Z.of_nat (length l)) l, encode_rounds (lsn + Z.of_nat (length l)) rounds with
      | inr b, inr bs => inr (b ++ bs)
      | inl err, _ => inl err
      | _, inl err => inl err
      end
  end.
Fixpoint rounds_fit (lsn : Z) (rounds : list Round) : Prop :=
  match rounds with
  | [] => True
  | (_, t', l) :: rounds => records_fit t' (lsn + Z.of_nat (length l)) l /\ rounds_fit (lsn + Z.of_nat (length l)) rounds
  end.
Definition entries_of (rounds : list Round) : list WalEntry := concat (map snd rounds).

Lemma encode_rounds_length lsn rounds bytes : encode_rounds lsn rounds = inr bytes -> (length (entries_of rounds) <= length bytes)%nat.
Proof.
  revert lsn bytes. induction rounds as [|[[t t'] l] rounds IH]; intros lsn bytes; cbn [encode_rounds]; [cbn; lia|].
  destruct (encode_entries _ _ l) as [|b] eqn:Hb; [done|]. destruct (encode_rounds _ rounds) as [|bs] eqn:Hbs; [done|]. intros Heq.
  assert (bytes = b ++ bs) as -> by congruence. change (entries_of ((t, t', l) :: rounds)) with (l ++ entries_of rounds).
  rewrite !length_app. pose proof (encode_length _ _ _ _ Hb). pose proof (IH _ _ Hbs). lia.
Qed.
Lemma recover_rounds lsn rounds bytes fuel s : encode_rounds lsn rounds = inr bytes -> rounds_fit lsn rounds ->
  recover_loop (length (entries_of rounds) + S fuel) bytes s = Some (Ok (foldl (fun s e => recover_entry e s) s (entries_of rounds))).
Proof.
  revert lsn bytes s. induction rounds as [|[[t t'] l] rounds IH]; intros lsn bytes s; cbn [encode_rounds rounds_fit].
  - by intros [= <-] _.
  - destruct (encode_entries _ _ l) as [|b] eqn:Hb; [done|]. destruct (encode_rounds _ rounds) as [|bs] eqn:Hbs; [done|]. intros Heq [Hl Hr].
    assert (bytes = b ++ bs) as -> by congruence. change (entries_of ((t, t', l) :: rounds)) with (l ++ entries_of rounds).
    rewrite length_app, foldl_app, <- Nat.add_assoc, (recover_encoded _ _ _ _ _ _ _ Hb Hl). by eapply IH.
Qed.
Lemma recover_rounds_bytes rounds bytes : encode_rounds 0 rounds = inr bytes -> rounds_fit 0 rounds ->
  recover_from_bytes bytes = Some (Ok (replay (entries_of rounds))).
Proof.
  intros Henc Hfit. pose proof (encode_rounds_length _ _ _ Henc). unfold recover_from_bytes.
  replace (S (length bytes)) with (length (entries_of rounds) + S (length bytes - length (entries_of rounds)))%nat by lia.
  by rewrite (recover_rounds _ _ _ _ _ Henc Hfit).
Qed.

Lemma encode_rounds_app lsn r1 r2 bytes : encode_rounds lsn (r1 ++ r2) = inr bytes ->
  exists b1 b2, encode_rounds lsn r1 = inr b1 /\ encode_rounds (lsn + Z.of_nat (length (entries_of r1))) r2 = inr b2 /\ bytes = b1 ++ b2.
Proof.
  revert lsn bytes. induction r1 as [|[[t t'] l] r1 IH]; intros lsn bytes; cbn [encode_rounds app].
  - intros H. exists [], bytes. by rewrite Z.add_0_r.
  - destruct (encode_entries _ _ l) as [|b]; [done|]. destruct (encode_rounds _ (r1 ++ r2)) as [|bs] eqn:Hbs; [done|]. intros Heq.
    assert (bytes = b ++ bs) as -> by congruence. destruct (IH _ _ Hbs) as (b1 & b2 & -> & H2 & ->).
    exists (b ++ b1), b2. change (entries_of ((t, t', l) :: r1)) with (l ++ entries_of r1). rewrite app_assoc, length_app, Nat2Z.inj_add, Z.add_assoc. done.
Qed.
Lemma log_rounds_ok rounds m w c bytes :
  wal_enabled (wal_config m) = true -> holds m w c -> w_buffer w = [] -> pending_entries m = [] -> 0 <= current_lsn m ->
  current_lsn m + Z.of_nat (length (entries_of rounds)) < 2 ^ 64 ->
  Forall (fun r => Z.of_nat (length r.2) < max_pending_entries (wal_config m)) rounds ->
  encode_rounds (current_lsn m) rounds = inr bytes -> Z.of_nat (length (c ++ bytes)) < max_file_size (wal_config m) ->
  exists m', log_rounds rounds m = (Ok tt, m') /\ holds m' (mkWriter (w_name w) []) (c ++ bytes) /\ pending_entries m' = []
    /\ current_lsn m' = current_lsn m + Z.of_nat (length (entries_of rounds)) /\ wal_config m' = wal_config m
    /\ files m' = <[w_name w := c ++ bytes]> (files m).
Proof.
  revert m w c bytes. induction rounds as [|[[t t'] l] rounds IH]; intros m w c bytes Hen Hh Hbuf Hp H0 Hlsn Hroom Henc Hsize; cbn [log_rounds encode_rounds] in *.
  - injection Henc as <-. exists m. pose proof Hh as (Hw & f & Hf & Hc). rewrite Hbuf, app_nil_r in Hc. subst f. rewrite app_nil_r.
    split_and!; try done; [|cbn; lia|by rewrite insert_id]. split; [rewrite Hw; by destruct w; cbn in *; subst|]. exists c. by rewrite app_nil_r.
  - change (entries_of ((t, t', l) :: rounds)) with (l ++ entries_of rounds) in *. rewrite (length_app l (entries_of rounds)) in *.
    apply Forall_cons in Hroom as [Hl Hroom]. cbn [snd] in Hl.
    destruct (encode_entries _ _ l) as [|b] eqn:Hb; [done|]. destruct (encode_rounds _ rounds) as [|bs] eqn:Hbs; [done|].
    assert (bytes = b ++ bs) as -> by congruence. rewrite app_assoc in Hsize.
    unfold sbind at 1. rewrite append_all_ok by (rewrite ?Hp; cbn [app]; (done || lia)). rewrite Hp. cbn [app].
    set (mq := set_pending l _). unfold sbind at 1.
    destruct (flush_any t' mq w c b) as (m1 & -> & Hh1 & Hf1 & Hp1 & Hl1 & Hc1); [done|done|done|done|cbn; rewrite length_app in Hsize; lia|].
    destruct (IH m1 (mkWriter (w_name w) []) (c ++ b) bs) as (m2 & E2 & Hh2 & Hp2 & Hl2 & Hc2 & Hf2);
      rewrite ?Hc1, ?Hl1; cbn [current_lsn mq set_pending set_wal_lsn wal_config]; try done; try lia.
    exists m2. split_and!; [done|by rewrite app_assoc|done| |by rewrite Hc2, Hc1|].
    + rewrite Hl2, Hl1. cbn. lia.
    + rewrite Hf2, Hf1, app_assoc. cbn [w_name]. by rewrite insert_insert_eq.
Qed.

(** ** Properties *)

(** C13. The log round-trips within one file.  On an empty directory, let entries be appended to a new log in rounds with a
    flush after each, then some more and the log closed.  When all can be serialized, no round reaches the limit of the
    queue (at which [append] blocks for ever) and the file stays below the size at which it is rotated, reopening the
    log finds the file, and recovery returns the batches of the entries' replay, which merged together are
    the operations of the entries, all of them and in order (those inside a [Batch] entry
    excepted, which recovery drops). *)
Theorem wal_roundtrip (now now' : Z) (cfg : WalConfig) (d : D) (rounds : list Round) (l : list WalEntry) (bytes : list Z) :
  let log := rounds ++ [(now, now', l)] in
  disk_files d = ∅ -> wal_enabled cfg = true -> Forall (fun r => Z.of_nat (length r.2) < max_pending_entries cfg) log ->
  Z.of_nat (length (entries_of log)) < 2 ^ 64 ->
  encode_rounds 0 log = inr bytes -> rounds_fit 0 log -> Z.of_nat (length bytes) < max_file_size cfg ->
  exists m m1 m2, wal_new d cfg = (Ok m, wal_disk m)
    /\ (run! log_rounds rounds in run! append_all now l in wal_close now') m = (Ok tt, m1)
    /\ wal_new (wal_disk m1) cfg = (Ok m2, wal_disk m2)
    /\ exists batches, recover m2 = Some (Ok batches) /\ merge_all batches = merge_all (map entry_batch (entries_of log)).
Proof.
  intros log Hd Hen Hpend Hlsn Henc Hfit Hroom.
  destruct (wal_new_ok cfg d (or_introl Hd)) as (m & Enew & Hcfg & Hl0 & Hp0 & Hh & Hf). rewrite Hd, lookup_empty in Hh, Hf.
  cbn [default] in Hh, Hf. apply Forall_app in Hpend as [Hpr Hpl]. apply Forall_cons in Hpl as [Hpl _]. cbn [snd] in Hpl.
  destruct (encode_rounds_app 0 rounds [(now, now', l)] bytes Henc) as (b1 & b2 & Hb1 & Hb2 & ->). rewrite length_app in Hroom.
  assert (Hall : entries_of log = entries_of rounds ++ l) by (unfold entries_of, log; rewrite map_app, concat_app; cbn; by rewrite app_nil_r).
  pose proof Hlsn as Hlsn'. rewrite Hall, length_app in Hlsn'.
  destruct (log_rounds_ok rounds m (mkWriter (wal_name 0) []) [] b1) as (mr & Er & Hhr & Hpr' & Hlr & Hcr & Hfr);
    rewrite ?Hcfg, ?Hl0; cbn [app]; try done; try lia.
  assert (Eall : append_all now l mr = (Ok tt, set_pending l (set_wal_lsn (current_lsn mr + Z.of_nat (length l)) mr))).
  { rewrite append_all_ok; rewrite ?Hpr', ?Hcr, ?Hcfg, ?Hlr, ?Hl0; try done; cbn [app]; lia. }
  set (mq := set_pending l _) in Eall. cbn [encode_rounds] in Hb2. destruct (encode_entries now' _ l) as [|b3] eqn:Hb3; [done|].
  assert (b2 = b3) as -> by (rewrite app_nil_r in Hb2; congruence).
  destruct (close_ok now' mq (mkWriter (wal_name 0) []) b1 b3) as (m1 & Eclose & Hf1);
    [by cbn; rewrite Hcr, Hcfg|exact Hhr|done|cbn; by rewrite Hlr, Hl0|change (wal_config mq) with (wal_config mr); rewrite Hcr, Hcfg, length_app; lia|].
  cbn [w_name app] in Hf1, Hfr. change (files mq) with (files mr) in Hf1. rewrite Hfr, Hf, !insert_singleton_eq in Hf1.
  destruct (wal_new_ok cfg (wal_disk m1)) as (m2 & Enew2 & Hcfg2 & _ & _ & _ & Hf2); [right; by exists (b1 ++ b3)|].
  fold (files m1) in Hf2. rewrite Hf1, lookup_singleton_eq in Hf2. cbn [default] in Hf2.
  exists m, m1, m2. split_and!; [done|unfold sbind; by rewrite Er, Eall|done|].
  exists (replay (entries_of log)). split; [|apply replay_merges].
  rewrite (recover_single m2 (b1 ++ b3)) by (by rewrite ?Hcfg2). by apply recover_rounds_bytes.
Qed.

(** A torn log is not recovered.  Behind whole records, fewer than four bytes of a
    further record are ignored, but from the fourth byte on an incomplete record makes the
    recovery of the file, and with it all intact records before it, fail; on any bytes at all the
    recovery loop ends. *)
Theorem wal_torn_record (now lsn : Z) (l : list WalEntry) (bytes b : list Z) (k : nat) :
  encode_entries now lsn l = inr bytes -> records_fit now lsn l -> Z.of_nat (length b) < 2 ^ 32 ->
  (k < length (frame b))%nat ->
  recover_from_bytes (bytes ++ take k (frame b)) =
    Some (if (k <? 4)%nat then Ok (replay l) else Err (PE.DiskIoFailure "failed to fill whole buffer"))
  /\ forall any, recover_from_bytes any <> None.
Proof.
  intros Henc Hfit Hb Hk. split; [by eapply recover_cut|]. intros any. unfold recover_from_bytes.
  destruct (recover_loop _ any _) as [[]|] eqn:E; try done. by apply recover_loop_total in E; [|lia].
Qed.

(** The log blocks itself: the append that fills the queue calls [flush], which asks for the
    sequence number the append still holds, and [checkpoint] calls [append] while reading it.
    Neither call returns, whatever the disk. *)
Theorem wal_append_blocks (now : Z) (e : WalEntry) m :
  wal_enabled (wal_config m) = true -> current_file m <> None -> fits 64 (current_lsn m + 1) ->
  (Z.of_nat (length (pending_entries m)) + 1 >= max_pending_entries (wal_config m) ->
     (append NoGuard now e m).1 = Deadlock)
  /\ (checkpoint now m).1 = Deadlock.
Proof.
  intros Hen Hfile Hfit. split.
  - intros Hfull. unfold append, sbind, sget, slift, smod. rewrite Hen. cbn [negb acquire_write].
    unfold add_u64. rewrite arith_fits by done. cbn [pending_entries set_pending set_wal_lsn].
    rewrite length_app. cbn [length]. rewrite (proj2 (Z.leb_le _ _)) by lia.
    unfold flush, sbind, sget, slift, smod. cbn [wal_config set_pending set_wal_lsn]. rewrite Hen. cbn [negb].
    cbn [pending_entries set_pending]. rewrite bool_decide_eq_false_2 by (rewrite length_app; cbn; lia).
    cbn [current_file set_pending set_wal_lsn]. by destruct (current_file m).
  - unfold checkpoint, append, sbind, sget, slift. cbn [acquire_read]. by rewrite Hen.
Qed.
End Writing.

(** ** File names *)

Definition nibbles (n : nat) (z : Z) : list Z := map (fun i => z / 16 ^ Z.of_nat i mod 16) (rev (seq 0 n)).
Definition digits_value (base : Z) (ds : list Z) (acc : Z) : Z := foldl (fun a d => a * base + d) acc ds.
Definition digits_string (ds : list Z) : string := String.concat "" (map hex_digit ds).

Lemma nibbles_ok n z : Forall (fun d => 0 <= d < 16) (nibbles n z).
Proof. apply Forall_map, Forall_forall. intros i _. cbn. by apply Z.mod_pos_bound. Qed.

Lemma nibbles_value n z acc : digits_value 16 (nibbles n z) acc = acc * 16 ^ Z.of_nat n + z mod 16 ^ Z.of_nat n.
Proof.
  revert acc. induction n as [|n IH]; intros acc.
  - cbn. rewrite Z.mod_1_r. lia.
  - unfold nibbles. rewrite seq_S, rev_app_distr. cbn [rev app map Nat.add].
    change (digits_value 16 (nibbles n z) (acc * 16 + z / 16 ^ Z.of_nat n mod 16) = acc * 16 ^ Z.of_nat (S n) + z mod 16 ^ Z.of_nat (S n)).
    rewrite IH.
    rewrite Nat2Z.inj_succ, Z.pow_succ_r by lia. rewrite (Z.mul_comm 16), Z.rem_mul_r by lia. lia.
Qed.

(** A property of finitely many numbers, checked one by one. *)
Lemma check_below (P : Z -> Prop) (n : nat) d : Forall P (map Z.of_nat (seq 0 n)) -> 0 <= d < Z.of_nat n -> P d.
Proof.
  intros H Hd. rewrite Forall_forall in H. apply H. replace d with (Z.of_nat (Z.to_nat d)) by lia.
  apply list_elem_of_In, in_map, in_seq. lia.
Qed.

Lemma hex_digit_char d : 0 <= d < 16 -> exists c, hex_digit d = String c "" /\ digit_of c = (if d <? 10 then Some d else None)
  /\ (Ascii.nat_of_ascii c <> 43)%nat /\ (Ascii.nat_of_ascii c <> 119)%nat /\ (Ascii.nat_of_ascii c <> 103)%nat.
Proof.
  intros Hd. pattern d. apply (check_below _ 16); [|exact Hd].
  repeat constructor; eexists; (split; [reflexivity|]); split_and!; (reflexivity || (vm_compute; congruence)).
Qed.

Lemma digits_string_cons d ds c :
  hex_digit d = String c "" -> digits_string (d :: ds) = String c (digits_string ds).
Proof. intros Hd. unfold digits_string. destruct ds; cbn [map String.concat]; by rewrite Hd. Qed.

Lemma parse_digits_spec ds acc :
  Forall (fun d => 0 <= d < 16) ds -> 0 <= acc -> (acc + 1) * 10 ^ Z.of_nat (length ds) <= U64_MAX ->
  parse_digits (digits_string ds) acc = if forallb (fun d => d <? 10) ds then Some (digits_value 10 ds acc) else None.
Proof.
  intros Hds. revert acc. induction Hds as [|d ds Hd _ IH]; intros acc Hacc Hmax; [done|].
  destruct (hex_digit_char d Hd) as (c & Hchar & Hc & _). rewrite (digits_string_cons _ _ c Hchar). cbn [parse_digits].
  rewrite Hc. cbn [forallb]. destruct (Z.ltb_spec d 10) as [Hlt|]; [|done]. cbn [andb length] in *.
  rewrite Nat2Z.inj_succ, Z.pow_succ_r in Hmax by lia.
  assert (0 < 10 ^ Z.of_nat (length ds)) by (apply Z.pow_pos_nonneg; lia).
  rewrite (proj2 (Z.leb_le _ _)) by nia. apply IH; nia.
Qed.

(** Read in base ten, hexadecimal digits give a smaller number from ten on. *)
Lemma decimal_reading ds a b :
  Forall (fun d => 0 <= d < 10) ds -> 0 <= a <= b -> (a = b <-> b < 10) ->
  let v := digits_value 10 ds a in let w := digits_value 16 ds b in 0 <= v <= w /\ (v = w <-> w < 10).
Proof.
  intros Hds. revert a b. induction Hds as [|d ds Hd _ IH]; intros a b Hab Heq; cbn; [done|].
  apply (IH (a * 10 + d) (b * 16 + d)); lia.
Qed.

Lemma decimal_digits ds lsn :
  Forall (fun d => 0 <= d < 16) ds -> digits_value 16 ds 0 = lsn -> (lsn < 10 -> forallb (fun d => d <? 10) ds = true) ->
  let r := if forallb (fun d => d <? 10) ds then Some (digits_value 10 ds 0) else None in
  (r = Some lsn <-> lsn < 10) /\ forall v, r = Some v -> v <= lsn.
Proof.
  intros Hok Hv Hsmall. cbn zeta. destruct (forallb _ _) eqn:Hall.
  - assert (Hds : Forall (fun d => 0 <= d < 10) ds).
    { apply Forall_forall. intros d Hd. rewrite Forall_forall in Hok. specialize (Hok d Hd).
      rewrite forallb_forall in Hall. specialize (Hall d (proj1 (list_elem_of_In _ _) Hd)). apply Z.ltb_lt in Hall. lia. }
    destruct (decimal_reading ds 0 0 Hds) as [Hle Heq]; [lia|lia|]. rewrite Hv in Hle, Heq. split.
    + rewrite <- Heq. split; [by intros [= ->]|by intros ->].
    + intros v Hsome. assert (digits_value 10 ds 0 = v) by congruence. lia.
  - split; [|done]. split; [done|]. intros Hlt. by specialize (Hsmall Hlt).
Qed.

Lemma parse_nibbles lsn :
  fits 64 lsn ->
  (parse_digits (hex16 lsn) 0 = Some lsn <-> lsn < 10) /\ forall v, parse_digits (hex16 lsn) 0 = Some v -> v <= lsn.
Proof.
  intros Hl. change (hex16 lsn) with (digits_string (nibbles 16 lsn)).
  rewrite parse_digits_spec; [|apply nibbles_ok|lia|vm_compute; congruence].
  apply decimal_digits; [apply nibbles_ok| |].
  - rewrite nibbles_value. change (16 ^ Z.of_nat 16) with (2 ^ 64). by rewrite Z.mod_small.
  - intros Hlt. apply (check_below (fun lsn => forallb (fun d => d <? 10) (nibbles 16 lsn) = true) 10).
    + repeat constructor.
    + unfold fits in Hl. split; [apply Hl|exact Hlt].
Qed.

(** The name of a log is read back as the digits between prefix and extension. *)
Lemma lsn_of_wal_name lsn : lsn_of_name (wal_name lsn) = parse_digits (hex16 lsn) 0.
Proof.
  unfold wal_name. change (hex16 lsn) with (digits_string (nibbles 16 lsn)).
  pose proof (nibbles_ok 16 lsn) as Hok. unfold nibbles in *. cbn [seq rev app map] in *.
  repeat match goal with
         | H : Forall _ (_ :: _) |- _ => apply Forall_cons_1 in H as [?%hex_digit_char H]
         end.
  repeat match goal with
         | H : exists c, hex_digit ?d = _ /\ _ |- _ =>
             let E := fresh in destruct H as (? & E & _ & ? & ? & ?); rewrite (digits_string_cons d _ _ E); clear E
         end.
  cbv [digits_string map String.concat String.append].
  unfold lsn_of_name, ends_with, trim_end_matches, trim_start_matches.
  repeat (cbn -[Ascii.nat_of_ascii Ascii.ascii_dec parse_u64 parse_digits];
          match goal with
          | |- context [Ascii.ascii_dec ?a ?a] => destruct (Ascii.ascii_dec a a); [|done]
          | |- context [Ascii.ascii_dec ?a ?b] => destruct (Ascii.ascii_dec a b); [subst; exfalso; eauto; done|]
          end).
  cbn -[Ascii.nat_of_ascii Ascii.ascii_dec parse_u64 parse_digits].
  unfold parse_u64. by rewrite (proj2 (Nat.eqb_neq _ _)) by done.
Qed.

(** Sequence numbers do not survive a restart.  The name of a log file holds its number in
    hexadecimal and is read back as decimal: the number is recovered exactly below ten, and
    whatever is read from a name is at most the number it was made from. *)
Theorem wal_lsn_name (lsn : Z) :
  fits 64 lsn ->
  (lsn_of_name (wal_name lsn) = Some lsn <-> lsn < 10)
  /\ forall v, lsn_of_name (wal_name lsn) = Some v -> v <= lsn.
Proof. rewrite lsn_of_wal_name. apply parse_nibbles. Qed.

(** ** A disk in memory *)

Definition MemDisk : Type := gmap string (list Z).

#[export] Instance mem_disk : Disk MemDisk := {|
  disk_create_dir d := (Ok tt, d);
  disk_list d := Ok (map_to_list d).*1;
  disk_open_append n d := (Ok tt, match d !! n with Some _ => d | None => <[n := []]> d end);
  disk_append n b d := match d !! n with
                       | Some c => (Ok tt, <[n := c ++ b]> d)
                       | None => (Err "No such file or directory"%string, d)
                       end;
  disk_len n d := Z.of_nat ∘ length <$> (d : gmap string (list Z)) !! n;
  disk_read n d := match d !! n with Some c => Ok c | None => Err "No such file or directory"%string end
|}.

#[export] Program Instance mem_disk_laws : DiskLaws MemDisk := {| disk_files d := d |}.
Next Obligation. by eexists. Qed.
Next Obligation. by eexists. Qed.
Next Obligation. by eexists. Qed.
Next Obligation. intros n b c d Hc. cbn in *. rewrite Hc. by eexists. Qed.
Next Obligation. intros n c d Hc. cbn in *. by rewrite Hc. Qed.
Next Obligation. intros n c d Hc. cbn in *. by rewrite Hc. Qed.

(** ** Witnesses *)

#[local] Existing Instance release_profile.
#[local] Existing Instance toy_sha3.
#[local] Instance demo_hasher : StdHasher := list_sum.

(** A format for records of state roots: the fields in order. *)
Definition root_serialize (r : WalRecord) : string + list Z :=
  match r_entry r with
  | SaveStateRoot h root => inr ([r_magic r; r_version r; r_lsn r; r_timestamp r; r_checksum r; h] ++ root)
  | _ => inl "unsupported"%string
  end.
Definition root_deserialize (b : list Z) : string + WalRecord :=
  match b with
  | magic :: version :: lsn :: timestamp :: checksum :: h :: root =>
      inr (mkRecord magic version lsn timestamp (SaveStateRoot h root) checksum)
  | _ => inl "unexpected end of file"%string
  end.
Lemma root_format_law r b : root_serialize r = inr b -> root_deserialize b = inr r.
Proof. unfold root_serialize. destruct r as [??? ? [] ?]; cbn; try done. by intros [= <-]. Qed.
#[local] Instance root_format : BincodeWal :=
  {| wal_serialize := root_serialize; wal_deserialize := root_deserialize; wal_bincode_law := root_format_law |}.

Definition demo_log : list WalEntry := [SaveStateRoot 1 [7]; SaveStateRoot 2 [8; 9]].
Definition demo_bytes : list Z := match encode_entries 50 2 demo_log with inr b => b | inl _ => [] end.

Lemma demo_fits : records_fit 50 2 demo_log.
Proof. repeat constructor; intros b [= <-]; reflexivity. Qed.

Definition demo_rounds : list (Z * Z * list WalEntry) := [(30, 35, [SaveStateRoot 0 [1]]); (36, 37, [])].
Definition rounds_bytes : list Z := match encode_rounds 0 (demo_rounds ++ [(40, 50, demo_log)]) with inr b => b | inl _ => [] end.
Lemma wal_roundtrip_witness :
  exists m m1 m2, wal_new (∅ : MemDisk) default_wal_config = (Ok m, wal_disk m)
    /\ (run! log_rounds demo_rounds in run! append_all 40 demo_log in wal_close 50) m = (Ok tt, m1)
    /\ wal_new (wal_disk m1) default_wal_config = (Ok m2, wal_disk m2)
    /\ exists batches, recover m2 = Some (Ok batches)
         /\ merge_all batches = merge_all (map entry_batch (SaveStateRoot 0 [1] :: demo_log)).
Proof.
  apply (wal_roundtrip 40 50 default_wal_config (∅ : MemDisk) demo_rounds demo_log rounds_bytes); try reflexivity.
  - repeat constructor.
  - repeat split; repeat constructor; intros b [= <-]; reflexivity.
Defined.

Lemma wal_torn_record_witness :
  recover_from_bytes (demo_bytes ++ take 5 (frame [1; 2; 3])) = Some (Err (PE.DiskIoFailure "failed to fill whole buffer")).
Proof.
  exact (proj1 (wal_torn_record 50 2 demo_log demo_bytes [1; 2; 3] 5 eq_refl demo_fits eq_refl
                  ltac:(unfold frame; cbn; lia))).
Defined.

Definition full_log : WalManager MemDisk :=
  mkWal ∅ (Some (mkWriter "wal_0000000000000000.log" [])) 0 [] (mkWalConfig true 100 WAL_MAX_FILE_SIZE 1).

Lemma wal_append_blocks_witness :
  (append NoGuard 5 (DeleteAccount []) full_log).1 = Deadlock /\ (checkpoint 5 full_log).1 = Deadlock.
Proof.
  destruct (wal_append_blocks 5 (DeleteAccount []) full_log eq_refl) as [H1 H2]; [done|vm_compute; done|].
  split; [apply H1; cbn; lia|exact H2].
Defined.

Lemma wal_lsn_name_witness : lsn_of_name (wal_name 16) <> Some 16.
Proof.
  assert (Hf : fits 64 16) by (vm_compute; split; congruence).
  destruct (wal_lsn_name 16 Hf) as [H _]. intros Heq. apply H in Heq. lia.
Defined.
