(* ===== verification/HashHelpers.v ===== *)
(** * Hash helpers and hybrid keys (src/crypto/hash.rs, src/crypto/mod.rs)

    Text form, comparison and difficulty of hashes, the hashes of transactions and headers from their
    fields, and signatures that combine both schemes.  The wrappers of the other digests and of the key
    derivations are in [Derivation], the signers of the two schemes in [Keys]. *)

From stdpp Require Import strings.
From S2P Require Import Prelude Hashing Errors Types Merkle Block State Wal WalProps.
Abbreviation length := List.length.

(** ** Hashes *)

Definition hash_sha3_256 `{Sha3} (data : list Z) : Hash := sha3_256 data.
Definition hash_transaction `{Sha3} (from to : list Z) (amount fee nonce timestamp : Z) : Hash :=
  sha3_256 (from ++ to ++ to_le_bytes 16 amount ++ to_le_bytes 16 fee ++ to_le_bytes 8 nonce ++ to_le_bytes 8 timestamp).
Definition hash_block_header `{Sha3} (height : Z) (prev_hash tx_root state_root : Hash) (timestamp : Z) (proposer : list Z) : Hash :=
  sha3_256 (to_le_bytes 8 height ++ prev_hash ++ tx_root ++ state_root ++ to_le_bytes 8 timestamp ++ proposer).

(** [hex::decode]: pairs of digits of either case. *)
Definition hex_value (c : Ascii.ascii) : option Z :=
  let n := Z.of_nat (Ascii.nat_of_ascii c) in
  if (48 <=? n) && (n <=? 57) then Some (n - 48)
  else if (97 <=? n) && (n <=? 102) then Some (n - 87)
  else if (65 <=? n) && (n <=? 70) then Some (n - 55)
  else None.
Fixpoint hex_decode (s : string) : option (list Z) :=
  match s with
  | EmptyString => Some []
  | String a (String b s') => x ← hex_value a; y ← hex_value b; l ← hex_decode s'; Some (16 * x + y :: l)
  | String _ EmptyString => None
  end.

Definition hash_to_hex (h : Hash) : string := ("0x" +:+ hex_encode h)%string.
Definition hash_from_hex (hex : string) : option Hash :=
  bytes ← hex_decode (trim_start_matches "0x" hex);
  if bool_decide (length bytes = 32%nat) then Some bytes else None.

Definition constant_time_compare (a b : Hash) : bool :=
  bool_decide (length a = length b) && (foldl (fun acc p => Z.lor acc (Z.lxor p.1 p.2)) 0 (zip a b) =? 0).
Fixpoint hash_has_prefix (h : Hash) (prefix : list Z) : bool :=
  match prefix, h with
  | [], _ => true
  | x :: prefix, y :: h => (x =? y) && hash_has_prefix h prefix
  | _ :: _, [] => false
  end.

(** [u8::leading_zeros]. *)
Definition leading_zeros (b : Z) : Z := if b =? 0 then 8 else 7 - Z.log2 b.
Fixpoint count_zero_bits (h : Hash) (count : Z) : Z :=
  match h with
  | [] => count
  | b :: h => if b =? 0 then count_zero_bits h (count + 8) else count + leading_zeros b
  end.
Definition count_leading_zero_bits (h : Hash) : Z := count_zero_bits h 0.

(** ** Hybrid keys *)

Inductive KeyType : Type := KeyEd25519 | KeyDilithium5.
Definition from_signature_len (len : Z) : option KeyType :=
  if len =? 64 then Some KeyEd25519 else if len =? 4595 then Some KeyDilithium5 else None.
Definition from_public_key_len (len : Z) : option KeyType :=
  if len =? 32 then Some KeyEd25519 else if len =? 2592 then Some KeyDilithium5 else None.

(** The three shapes of [HybridSigner], [HybridSignature] and [HybridPublicKey]. *)
Inductive Hybrid (A B : Type) : Type :=
| HybEd25519 (x : A)
| HybDilithium5 (y : B)
| HybBoth (x : A) (y : B).
Arguments HybEd25519 {A B}.
Arguments HybDilithium5 {A B}.
Arguments HybBoth {A B}.
Abbreviation HybridSignature := (Hybrid (list Z) (list Z)).
Abbreviation HybridPublicKey := (Hybrid (list Z) (list Z)).

(** The signers of both schemes: what they sign verifies under their key. *)
Class Signer (S : Type) (verify : list Z -> list Z -> list Z -> bool) : Type := {
  signer_sign : S -> list Z -> list Z;
  signer_key : S -> list Z;
  signer_address : S -> Address;
  signer_law : forall s m, verify m (signer_sign s m) (signer_key s) = true
}.

Section Hybrid.
Context `{Sig : Signatures} `{S3 : Sha3} {SA SB : Type} `{EdS : !Signer SA ed25519_verify} `{DiS : !Signer SB dilithium5_verify}
  (bincode_key : HybridPublicKey -> option (list Z)).

Definition hybrid_sign (s : Hybrid SA SB) (m : list Z) : HybridSignature :=
  match s with
  | HybEd25519 s => HybEd25519 (signer_sign s m)
  | HybDilithium5 s => HybDilithium5 (signer_sign s m)
  | HybBoth a b => HybBoth (signer_sign a m) (signer_sign b m)
  end.
Definition public_keys (s : Hybrid SA SB) : HybridPublicKey :=
  match s with
  | HybEd25519 s => HybEd25519 (signer_key s)
  | HybDilithium5 s => HybDilithium5 (signer_key s)
  | HybBoth a b => HybBoth (signer_key a) (signer_key b)
  end.
Definition hybrid_address (s : Hybrid SA SB) : Address :=
  match s with HybEd25519 s => signer_address s | HybDilithium5 s => signer_address s | HybBoth a _ => signer_address a end.
Definition hybrid_verify (sig : HybridSignature) (m : list Z) (pk : HybridPublicKey) : bool :=
  match sig, pk with
  | HybEd25519 s, HybEd25519 k => ed25519_verify m s k
  | HybDilithium5 s, HybDilithium5 k => dilithium5_verify m s k
  | HybBoth s1 s2, HybBoth k1 k2 => ed25519_verify m s1 k1 && dilithium5_verify m s2 k2
  | _, _ => false
  end.
Definition key_type (pk : HybridPublicKey) : KeyType :=
  match pk with HybEd25519 _ => KeyEd25519 | HybDilithium5 _ => KeyDilithium5 | HybBoth _ _ => KeyDilithium5 end.
Definition to_address (pk : HybridPublicKey) : Address := hash_sha3_256 (default [] (bincode_key pk)).
End Hybrid.

(** ** Text form *)

Lemma hex_digit_value d : 0 <= d < 16 -> exists c, hex_digit d = String c "" /\ hex_value c = Some d /\ (Ascii.nat_of_ascii c <> 120)%nat.
Proof.
  apply (check_below (fun d => exists c, hex_digit d = String c "" /\ hex_value c = Some d /\ (Ascii.nat_of_ascii c <> 120)%nat) 16).
  repeat constructor; eexists; (split; [reflexivity|split; [reflexivity|by vm_compute]]).
Qed.
Lemma hex_encode_cons b l : hex_encode (b :: l) = (hex_digit (b / 16) +:+ hex_digit (b mod 16) +:+ hex_encode l)%string.
Proof.
  unfold hex_encode, hex_digit. cbn [map String.concat]. by destruct (map _ l).
Qed.
Lemma byte_digits b : byte_ok b -> 0 <= b / 16 < 16 /\ 0 <= b mod 16 < 16 /\ 16 * (b / 16) + b mod 16 = b.
Proof. unfold byte_ok. intros Hb. pose proof (Z.div_mod b 16 ltac:(lia)). pose proof (Z.mod_pos_bound b 16 ltac:(lia)). lia. Qed.

Lemma hex_decode_encode l : Forall byte_ok l -> hex_decode (hex_encode l) = Some l.
Proof.
  induction 1 as [|b l Hb Hl IH]; [done|]. rewrite hex_encode_cons. destruct (byte_digits b Hb) as (H1 & H2 & H3).
  destruct (hex_digit_value _ H1) as (c1 & -> & E1 & _), (hex_digit_value _ H2) as (c2 & -> & E2 & _). change (hex_decode (String c1 (String c2 (hex_encode l))) = Some (b :: l)).
  cbn [hex_decode]. rewrite E1, E2. cbn [mbind option_bind]. rewrite IH. cbn [mbind option_bind]. by rewrite H3.
Qed.

Lemma trim_0x_digit n c1 c2 s : (Ascii.nat_of_ascii c2 <> 120)%nat -> trim_start n "0x" (String c1 (String c2 s)) = String c1 (String c2 s).
Proof.
  intros H2. destruct n as [|n]; [done|]. cbn [trim_start]. replace (String.prefix "0x" (String c1 (String c2 s))) with false; [done|].
  unfold String.prefix. repeat case_match; try done. subst c2. by destruct H2.
Qed.

Lemma trim_hex_encode l : Forall byte_ok l -> trim_start_matches "0x" ("0x" +:+ hex_encode l) = hex_encode l.
Proof.
  intros Hok. destruct l as [|b l]; [done|]. apply Forall_cons in Hok as [Hb Hl]. rewrite hex_encode_cons. destruct (byte_digits b Hb) as (H1 & H2 & _).
  destruct (hex_digit_value _ H1) as (c1 & -> & _ & _), (hex_digit_value _ H2) as (c2 & -> & _ & Hx).
  exact (trim_0x_digit (S (String.length (String c1 (String c2 (hex_encode l))))) c1 c2 (hex_encode l) Hx).
Qed.

(** Printing and parsing a hash are inverse. *)
Theorem hash_hex_roundtrip (h : Hash) : hash_ok h -> hash_from_hex (hash_to_hex h) = Some h.
Proof.
  intros [Hlen Hok]. unfold hash_from_hex, hash_to_hex. rewrite trim_hex_encode, hex_decode_encode by done. cbn. by rewrite bool_decide_eq_true_2.
Qed.

(** ** Comparison and difficulty *)

Lemma lor_fold_zero (l : list (Z * Z)) : forall acc, 0 <= acc -> Forall (fun p => 0 <= p.1 /\ 0 <= p.2) l ->
  foldl (fun acc p => Z.lor acc (Z.lxor p.1 p.2)) acc l = 0 <-> acc = 0 /\ Forall (fun p => p.1 = p.2) l.
Proof.
  induction l as [|[x y] l IH]; intros acc Ha Hl; cbn; [naive_solver|]. apply Forall_cons in Hl as [[Hx Hy] Hl]. cbn in *.
  rewrite IH; [|apply Z.lor_nonneg; split; [done|apply Z.lxor_nonneg; lia]|done]. rewrite Z.lor_eq_0_iff, Z.lxor_eq_0_iff, Forall_cons. cbn. naive_solver.
Qed.
Lemma zip_equal (a : list Z) : forall b, length a = length b -> Forall (fun p => p.1 = p.2) (zip a b) -> a = b.
Proof.
  induction a as [|x a IH]; intros [|y b] Hl H; try done. cbn in H. apply Forall_cons in H as [H1 H]. cbn in *. f_equal; [done|]. by apply IH; [lia|].
Qed.

(** The comparison without early exit is equality. *)
Theorem constant_time_compare_exact (a b : Hash) :
  Forall byte_ok a -> Forall byte_ok b -> constant_time_compare a b = bool_decide (a = b).
Proof.
  intros Ha Hb. unfold constant_time_compare. case_bool_decide as Hl; [|by rewrite bool_decide_eq_false_2 by congruence]. cbn [andb].
  assert (Hz : Forall (fun p : Z * Z => 0 <= p.1 /\ 0 <= p.2) (zip a b)).
  { apply Forall_forall. intros [x y] Hin. apply elem_of_zip_l in Hin as Hx. apply elem_of_zip_r in Hin as Hy.
    rewrite Forall_forall in Ha, Hb. apply Ha in Hx. apply Hb in Hy. unfold byte_ok in *. cbn. lia. }
  apply Bool.eq_iff_eq_true. rewrite Z.eqb_eq, bool_decide_eq_true, lor_fold_zero by done. split.
  - intros [_ H]. by apply zip_equal.
  - intros ->. split; [done|]. clear. induction b as [|x b IH]; cbn; constructor; [done|done].
Qed.

Lemma leading_zeros_bounds b : 0 < b < 256 -> 2 ^ (7 - leading_zeros b) <= b < 2 ^ (8 - leading_zeros b) /\ 0 <= leading_zeros b <= 7.
Proof.
  intros Hb. unfold leading_zeros. rewrite (proj2 (Z.eqb_neq _ _)) by lia. pose proof (Z.log2_spec b ltac:(lia)) as Hs.
  pose proof (Z.log2_nonneg b). assert (Z.log2 b < 8) by (apply Z.log2_lt_pow2; lia).
  replace (7 - (7 - Z.log2 b)) with (Z.log2 b) by lia. replace (8 - (7 - Z.log2 b)) with (Z.succ (Z.log2 b)) by lia. lia.
Qed.
Lemma count_zero_bits_acc h c : count_zero_bits h c = c + count_zero_bits h 0.
Proof.
  revert c. induction h as [|b h IH]; intros c; cbn; [lia|]. destruct (b =? 0); [rewrite (IH (c + 8)), (IH (0 + 8)); lia|lia].
Qed.

(** The number of leading zero bits is the difficulty the hash meets: as a big-endian number it lies
    below the power of two with that many bits less, and not below the next one. *)
Theorem leading_zero_bits_exact (h : Hash) :
  Forall byte_ok h ->
  let n := 8 * Z.of_nat (length h) in
  let z := count_leading_zero_bits h in
  0 <= z <= n /\ from_be_bytes h < 2 ^ (n - z) /\ (z < n -> 2 ^ (n - z - 1) <= from_be_bytes h).
Proof.
  unfold count_leading_zero_bits. induction 1 as [|b h Hb Hh IH]; [done|]. cbn [count_zero_bits length] in *. cbn zeta in *.
  set (m := Z.of_nat (length h)) in *. pose proof (from_be_bytes_bound h Hh) as Hv. fold m in Hv.
  assert (Hpow : 256 ^ m = 2 ^ (8 * m)) by (rewrite Z.pow_mul_r by lia; done). rewrite Hpow in Hv.
  assert (Hcons : from_be_bytes (b :: h) = b * 2 ^ (8 * m) + from_be_bytes h).
  { change (b :: h) with ([b] ++ h). rewrite from_be_bytes_app. fold m. rewrite Hpow. done. }
  rewrite Hcons. replace (8 * Z.of_nat (S (length h))) with (8 * m + 8) by lia.
  destruct (Z.eqb_spec b 0) as [->|Hb0].
  - rewrite count_zero_bits_acc. set (z := count_zero_bits h 0) in *. replace (8 * m + 8 - (0 + 8 + z)) with (8 * m - z) by lia.
    destruct IH as (H1 & H2 & H3). split; [lia|]. split; [lia|]. intros Hz. specialize (H3 ltac:(lia)). lia.
  - destruct (leading_zeros_bounds b ltac:(unfold byte_ok in Hb; lia)) as [[Hl Hu] Hz]. set (z := leading_zeros b) in *. rewrite Z.add_0_l.
    split; [lia|].
    replace (8 * m + 8 - z) with ((8 - z) + 8 * m) by lia. replace (8 - z + 8 * m - 1) with ((7 - z) + 8 * m) by lia.
    rewrite !Z.pow_add_r by lia. assert (0 < 2 ^ (8 * m)) by (apply Z.pow_pos_nonneg; lia). split; [nia|intros _; nia].
Qed.

(** The hash of the fields of a transaction is the hash that is signed. *)
Lemma hash_transaction_sighash `{Sha3} (tx : Transaction) :
  hash_transaction (tx_from tx) (tx_to tx) (amount tx) (fee tx) (tx_nonce tx) (tx_timestamp tx) = sighash tx.
Proof. done. Qed.

(** ** Hybrid signatures *)

(** A hybrid signature verifies under the keys of its signer, and never under keys of another shape. *)
Theorem hybrid_sign_verifies `{Sig : Signatures} {SA SB : Type} `{EdS : !Signer SA ed25519_verify} `{DiS : !Signer SB dilithium5_verify}
  (s : Hybrid SA SB) (m : list Z) (pk : HybridPublicKey) :
  hybrid_verify (hybrid_sign s m) m (public_keys s) = true
  /\ (hybrid_verify (hybrid_sign s m) m pk = true ->
      match s, pk with HybEd25519 _, HybEd25519 _ | HybDilithium5 _, HybDilithium5 _ | HybBoth _ _, HybBoth _ _ => True | _, _ => False end).
Proof.
  split; [|by destruct s, pk]. destruct s as [s|s|a b]; cbn; rewrite ?signer_law; done.
Qed.
