(* ===== verification/Vault.v ===== *)
(** * The vault (src/vault/manager.rs, the rates of src/vault/mod.rs)

    [VaultManager] moves balances through the state manager and keeps its own counters, each
    behind its own lock.  The rates of a phase are [f64] numbers.  The storage handle of the
    structure is the state manager's and no method uses it. *)

From stdpp Require Import strings pretty.
From S2P Require Import Prelude Floats Hashing Errors Types Merkle Block State Burn.
Abbreviation length := List.length.

Definition FOUNDER_VESTING_ADDRESS : Address := replicate 32 1.
Definition FOUNDER_ALLOCATION : Z := 55000000000000.

(** ** Rates *)

Definition f64_0_60 : f64 := literal 60 100.
Definition f64_0_30 : f64 := literal 30 100.
Definition f64_0_90 : f64 := literal 90 100.
Definition f64_0_36 : f64 := literal 36 100.
Definition f64_0_10 : f64 := literal 10 100.
Definition f64_0_01 : f64 := literal 1 100.
Definition f64_0_09 : f64 := literal 9 100.
Definition PHASE_WIDTH : f64 := f64_of 150000000000000.

Section Rates.
Context `{BP : BuildProfile} {E : Type}.

(** [(a - b) as f64 / 150_000_000_000_000.0] *)
Definition progress (a b : Z) : Outcome E f64 :=
  let? d := sub_u128 a b in Ok (f64_div (f64_of d) PHASE_WIDTH).

Definition burn_rate (p : SupplyPhase) (supply : Z) : Outcome E f64 :=
  match p with
  | GreatBurn => let? x := progress TOTAL_SUPPLY supply in Ok (f64_add f64_0_60 (f64_mul x f64_0_30))
  | Transition => let? x := progress supply 250000000000000 in Ok (f64_mul f64_0_90 x)
  | GoldenEra => Ok (f64_of 0)
  end.

Definition genesis_rate (p : SupplyPhase) (supply : Z) : Outcome E f64 :=
  match p with
  | GreatBurn => let? burn := burn_rate p supply in Ok (f64_sub (f64_sub f64_one burn) f64_0_36)
  | Transition => let? x := progress 400000000000000 supply in Ok (f64_add f64_0_01 (f64_mul x f64_0_09))
  | GoldenEra => Ok f64_0_10
  end.

Definition node_rate (p : SupplyPhase) (supply : Z) : Outcome E f64 :=
  match p with
  | GreatBurn => Ok f64_0_36
  | Transition =>
      let? burn := burn_rate p supply in
      let? genesis := genesis_rate p supply in
      Ok (f64_sub (f64_sub f64_one burn) genesis)
  | GoldenEra => Ok f64_0_90
  end.
End Rates.

(** [(fee as f64 * rate) as u128] *)
Definition share (fee : Z) (rate : f64) : Z := f64_to_uint 128 (f64_mul (f64_of fee) rate).

(** ** Results *)

Record TransferResult : Type := mkTransfer {
  success : bool;
  from_balance_after : Z;
  to_balance_after : Z;
  fee_burned : Z;
  fee_to_validator : Z;
  fee_to_genesis : Z
}.
Record FeeDistribution : Type := mkDistribution {
  fd_total_fee : Z;
  fd_burned : Z;
  fd_to_validators : Z;
  fd_to_genesis : Z;
  fd_phase : SupplyPhase
}.

(** ** Manager *)

Record VaultManager (W : Type) : Type := mkVault {
  v_state : StateManager W;
  v_total_supply : Z;
  v_genesis_balance : Z;
  v_total_burned : Z;
  v_total_fees_collected : Z;
  v_total_transfers : Z
}.
Arguments mkVault {W}.
Arguments v_state {W}.
Arguments v_total_supply {W}.
Arguments v_genesis_balance {W}.
Arguments v_total_burned {W}.
Arguments v_total_fees_collected {W}.
Arguments v_total_transfers {W}.

Section Vault.
Context {W : Type} `{St : Storage W} `{BP : BuildProfile} `{S3 : Sha3} `{BA : BincodeAccount}
  `{Iter : !HashMapIter Address Account}.
Abbreviation M := (ST (VaultManager W) PacyteError).

Definition set_v_state (x : StateManager W) (v : VaultManager W) : VaultManager W := mkVault x (v_total_supply v) (v_genesis_balance v)
  (v_total_burned v) (v_total_fees_collected v) (v_total_transfers v).
Definition set_v_supply (x : Z) (v : VaultManager W) : VaultManager W := mkVault (v_state v) x (v_genesis_balance v)
  (v_total_burned v) (v_total_fees_collected v) (v_total_transfers v).
Definition set_v_burned (x : Z) (v : VaultManager W) : VaultManager W := mkVault (v_state v) (v_total_supply v) (v_genesis_balance v)
  x (v_total_fees_collected v) (v_total_transfers v).
Definition set_v_fees (x : Z) (v : VaultManager W) : VaultManager W := mkVault (v_state v) (v_total_supply v) (v_genesis_balance v)
  (v_total_burned v) x (v_total_transfers v).
Definition set_v_transfers (x : Z) (v : VaultManager W) : VaultManager W := mkVault (v_state v) (v_total_supply v) (v_genesis_balance v)
  (v_total_burned v) (v_total_fees_collected v) x.

Definition vault_new (m : StateManager W) : VaultManager W := mkVault m TOTAL_SUPPLY GENESIS_BALANCE 0 0 0.

Definition on_state {A} (c : ST (StateManager W) PacyteError A) : M A :=
  fun v => let '(r, m) := c (v_state v) in (r, set_v_state m v).
(** A method of a local copy of an account; only the copy changes. *)
Definition on_local {A} (c : ST Account PacyteError A) (x : Account) : M Account :=
  fun v => match c x with
           | (Ok _, x') => (Ok x', v)
           | (Err e, _) => (Err e, v)
           | (Panic, _) => (Panic, v)
           | (Deadlock, _) => (Deadlock, v)
           end.

Definition initialize_genesis (now : Z) : M unit :=
  run! on_state (set_account GENESIS_VAULT_ADDRESS (genesis_sovereign now GENESIS_BALANCE)) in
  on_state (set_account FOUNDER_VESTING_ADDRESS
    (with_type System (account_new now FOUNDER_VESTING_ADDRESS FOUNDER_ALLOCATION))).

Definition current_phase (v : VaultManager W) : SupplyPhase := from_supply (v_total_supply v).

(** [*self.total_supply.write() = self.total_supply.read().saturating_sub(burned)]: the assigned
    value is computed first and its read guard lives until the end of the statement. *)
Definition lower_supply (burned : Z) : M unit :=
  do! held := slift (acquire_read NoGuard) in
  do! s := sget v_total_supply in
  run! slift (acquire_write held) in
  smod (set_v_supply (saturating_sub s burned)).

Definition add_burned (amount : Z) : M unit :=
  do! t := sget v_total_burned in
  do! t' := slift (add_u128 t amount) in
  smod (set_v_burned t').

(** The credit of a share to the genesis account. *)
Definition credit_genesis (now to_genesis : Z) : M unit :=
  if 0 <? to_genesis then
    do! o := on_state (get_account GENESIS_VAULT_ADDRESS) in
    let genesis := default (genesis_sovereign now 0) o in
    on_state (set_account GENESIS_VAULT_ADDRESS
      (with_balance (saturating_add 128 (balance genesis) to_genesis) genesis))
  else sret tt.

Definition execute_transfer (now : Z) (from to : Address) (amount fee : Z) : M TransferResult :=
  let total_deduct := saturating_add 128 amount fee in
  do! o := on_state (get_account from) in
  do! from_account := slift (ok_or o (PE.AccountNotFound (debug_bytes from))) in
  if is_dormant from_account then sfail (PE.DormantAccount 6)
  else if balance from_account <? total_deduct then
    sfail (PE.InsufficientBalance total_deduct (balance from_account))
  else
    do! from1 := on_local (increment_nonce now) from_account in
    do! b := slift (sub_u128 (balance from1) total_deduct) in
    let from2 := record_activity now (with_balance b from1) in
    do! o := on_state (get_account to) in
    let to1 := default (account_new now to 0) o in
    let to2 := record_activity now (with_balance (saturating_add 128 (balance to1) amount) to1) in
    do! phase := sget current_phase in
    do! supply := sget v_total_supply in
    do! brate := slift (burn_rate phase supply) in
    do! grate := slift (genesis_rate phase supply) in
    let burned := share fee brate in
    let to_genesis := share fee grate in
    let to_validators := saturating_sub (saturating_sub fee burned) to_genesis in
    run! (if 0 <? burned then run! lower_supply burned in add_burned burned else sret tt) in
    run! credit_genesis now to_genesis in
    run! on_state (set_account from from2) in
    run! on_state (set_account to to2) in
    do! f := sget v_total_fees_collected in
    do! f' := slift (add_u128 f fee) in
    run! smod (set_v_fees f') in
    do! n := sget v_total_transfers in
    do! n' := slift (add_u64 n 1) in
    run! smod (set_v_transfers n') in
    do! from_after := on_state (get_balance from) in
    do! to_after := on_state (get_balance to) in
    sret (mkTransfer true from_after to_after burned to_validators to_genesis).

Definition transfer (now : Z) (from to : Address) (amount fee : Z) : M TransferResult :=
  if amount <? MIN_BALANCE then sfail (PE.AmountTooSmall amount MIN_BALANCE)
  else if bool_decide (from = to) then sfail PE.SelfTransfer
  else execute_transfer now from to amount fee.

Definition vault_get_balance (a : Address) : M Z := on_state (get_balance a).
Definition vault_get_account (a : Address) : M (option Account) := on_state (get_account a).
Definition vault_total_supply : M Z := sget v_total_supply.

(** The write guard of the supply is held to the end; no other lock is asked twice. *)
Definition vault_burn (amount : Z) (reason : BurnReason) : M unit :=
  if amount =? 0 then sret tt
  else
    do! supply := sget v_total_supply in
    if supply <? amount then sfail PE.InsufficientSupply
    else
      do! s := slift (sub_u128 supply amount) in
      run! smod (set_v_supply s) in
      add_burned amount.

Definition distribute_fees (now total_fee block_height : Z) : M FeeDistribution :=
  do! phase := sget current_phase in
  do! supply := sget v_total_supply in
  do! brate := slift (burn_rate phase supply) in
  do! nrate := slift (node_rate phase supply) in
  run! slift (genesis_rate phase supply) in
  let burned := share total_fee brate in
  let to_validators := share total_fee nrate in
  let to_genesis := saturating_sub (saturating_sub total_fee burned) to_validators in
  run! (if 0 <? burned then vault_burn burned TransactionFee else sret tt) in
  run! credit_genesis now to_genesis in
  sret (mkDistribution total_fee burned to_validators to_genesis phase).

(** The list of dormant accounts is always empty. *)
Fixpoint burn_dormant_list (dormant : list Address) : M (list Address) :=
  match dormant with
  | [] => sret []
  | a :: rest =>
      do! b := on_state (get_balance a) in
      if 0 <? b then
        run! vault_burn b DormantAccount in
        do! processed := burn_dormant_list rest in sret (a :: processed)
      else burn_dormant_list rest
  end.
Definition process_dormant_accounts (current_time : Z) : M (list Address) := burn_dormant_list [].

Definition vault_initiate_bridge : M Z := sret 0.
Definition vault_finalize_bridge (bridge_id : Z) : M unit := sret tt.
Definition vault_revert_bridge (bridge_id : Z) : M unit := sret tt.

Definition sync_token_balance (a : Address) (new_balance : Z) : M unit := sret tt.
(** Only the log entry depends on the reserve. *)
Definition check_reserve_and_topup (titan : Address) (amount : Z) : M unit := run! sget v_total_supply in sret tt.
End Vault.
