(* ===== verification/VaultProps.v ===== *)
(** * The vault against its specification

    [AVault] is what a vault means: one ledger and the counters.  [spec_transfer] says what a
    transfer does to it, its refusals and the call that never returns included; the manager refines it
    over any storage.  The supply and what was burned always make up the initial supply. *)

From stdpp Require Import strings.
From S2P Require Import Prelude Floats Hashing Errors Types Merkle Block State StateProps Burn Vault.
Abbreviation length := List.length.

(** ** Specification *)

Record AVault : Type := mkAVault {
  a_ledger : Ledger;
  a_supply : Z;
  a_burned : Z;
  a_fees : Z;
  a_transfers : Z
}.

(** The rates as functions of the supply, which never exceeds [TOTAL_SUPPLY]. *)
Definition burn_rate_at (supply : Z) : f64 :=
  match from_supply supply with
  | GreatBurn => f64_add f64_0_60 (f64_mul (f64_div (f64_of (TOTAL_SUPPLY - supply)) PHASE_WIDTH) f64_0_30)
  | Transition => f64_mul f64_0_90 (f64_div (f64_of (supply - 250000000000000)) PHASE_WIDTH)
  | GoldenEra => f64_of 0
  end.
Definition genesis_rate_at (supply : Z) : f64 :=
  match from_supply supply with
  | GreatBurn => f64_sub (f64_sub f64_one (burn_rate_at supply)) f64_0_36
  | Transition => f64_add f64_0_01 (f64_mul (f64_div (f64_of (400000000000000 - supply)) PHASE_WIDTH) f64_0_09)
  | GoldenEra => f64_0_10
  end.
Definition node_rate_at (supply : Z) : f64 :=
  match from_supply supply with
  | GreatBurn => f64_0_36
  | Transition => f64_sub (f64_sub f64_one (burn_rate_at supply)) (genesis_rate_at supply)
  | GoldenEra => f64_0_90
  end.

Definition genesis_credited (now g : Z) (L : Ledger) : Ledger :=
  if 0 <? g then
    let x := default (genesis_sovereign now 0) (L !! GENESIS_VAULT_ADDRESS) in
    <[GENESIS_VAULT_ADDRESS := with_balance (saturating_add 128 (balance x) g) x]> L
  else L.

(** Both accounts are computed from the ledger before the share of the genesis account is
    credited, and written after it. *)
Definition spec_transfer (now : Z) (from to : Address) (amount fee : Z) (A : AVault) :
  PacyteResult TransferResult * AVault :=
  let total := saturating_add 128 amount fee in
  let L := a_ledger A in
  if amount <? MIN_BALANCE then (Err (PE.AmountTooSmall amount MIN_BALANCE), A)
  else if bool_decide (from = to) then (Err PE.SelfTransfer, A)
  else
    match L !! from with
    | None => (Err (PE.AccountNotFound (debug_bytes from)), A)
    | Some f =>
        if is_dormant f then (Err (PE.DormantAccount 6), A)
        else if balance f <? total then (Err (PE.InsufficientBalance total (balance f)), A)
        else
          let burned := share fee (burn_rate_at (a_supply A)) in
          let g := share fee (genesis_rate_at (a_supply A)) in
          if 0 <? burned then (Deadlock, A)
          else
            let f' := debited now total f in
            let t' := credited now amount (default (account_new now to 0) (L !! to)) in
            (Ok (mkTransfer true (balance f') (balance t') burned
                   (saturating_sub (saturating_sub fee burned) g) g),
             mkAVault (<[to := t']> (<[from := f']> (genesis_credited now g L))) (a_supply A) (a_burned A)
               (a_fees A + fee) (a_transfers A + 1))
    end.

Section Rates.
Context `{BP : BuildProfile} {E : Type}.

Lemma progress_ok a b : fits 128 (a - b) -> progress (E:=E) a b = Ok (f64_div (f64_of (a - b)) PHASE_WIDTH).
Proof. intros H. unfold progress, sub_u128. by rewrite arith_fits. Qed.

Lemma burn_rate_ok s :
  0 <= s <= TOTAL_SUPPLY -> burn_rate (E:=E) (from_supply s) s = Ok (burn_rate_at s).
Proof.
  intros Hs. unfold burn_rate, burn_rate_at, from_supply, TOTAL_SUPPLY in *.
  destruct (Z.ltb_spec 400000000000000 s); [|destruct (Z.ltb_spec 250000000000000 s); [|done]];
    by rewrite progress_ok by (unfold fits; lia).
Qed.

Lemma genesis_rate_ok s :
  0 <= s <= TOTAL_SUPPLY -> genesis_rate (E:=E) (from_supply s) s = Ok (genesis_rate_at s).
Proof.
  intros Hs. pose proof (burn_rate_ok s Hs) as Hb. unfold genesis_rate, genesis_rate_at.
  destruct (from_supply s) eqn:Hp; [by rewrite Hb| |done].
  unfold from_supply in Hp. destruct (Z.ltb_spec 400000000000000 s); [done|].
  by rewrite progress_ok by (unfold fits; lia).
Qed.

Lemma node_rate_ok s :
  0 <= s <= TOTAL_SUPPLY -> node_rate (E:=E) (from_supply s) s = Ok (node_rate_at s).
Proof.
  intros Hs. pose proof (burn_rate_ok s Hs) as Hb. pose proof (genesis_rate_ok s Hs) as Hg. unfold node_rate, node_rate_at.
  destruct (from_supply s); try done. by rewrite Hb, Hg.
Qed.
End Rates.

Section Refinement.
Context {W : Type} `{St : Storage W} `{Laws : !StorageLaws W} `{BP : BuildProfile} `{S3 : Sha3}
  `{BA : BincodeAccount} `{Iter : !HashMapIter Address Account}.
Implicit Types v : VaultManager W.

Definition vault_view v : AVault :=
  mkAVault (view (v_state v)) (v_total_supply v) (v_total_burned v) (v_total_fees_collected v) (v_total_transfers v).

(** The ledger is [L], the counters are [v]'s. *)
Definition at_ledger v (L : Ledger) v' : Prop :=
  state_ok (v_state v') /\ vault_view v' = mkAVault L (v_total_supply v) (v_total_burned v)
    (v_total_fees_collected v) (v_total_transfers v).

Lemma on_state_get v a L v1 :
  at_ledger v L v1 -> exists v2, on_state (get_account a) v1 = (Ok (L !! a), v2) /\ at_ledger v L v2.
Proof.
  intros (Hok & Hv). destruct (get_account_spec a _ Hok) as (m & E & Hm & Hokm & _).
  exists (set_v_state m v1). unfold on_state. rewrite E. unfold at_ledger, vault_view in *. injection Hv as HL ? ? ? ?. split.
  - f_equal. by rewrite HL.
  - split; [done|]. cbn. congruence.
Qed.

Lemma on_state_balance v a L v1 :
  at_ledger v L v1 ->
  exists v2, on_state (get_balance a) v1 = (Ok (match L !! a with Some x => balance x | None => 0 end), v2) /\ at_ledger v L v2.
Proof.
  intros (Hok & Hv). destruct (get_account_spec a _ Hok) as (m & E & Hm & Hokm & _).
  exists (set_v_state m v1). unfold on_state, get_balance, sbind. rewrite E. unfold at_ledger, vault_view in *. injection Hv as HL ? ? ? ?.
  split; [by rewrite HL|]. split; [done|]. cbn. congruence.
Qed.

Lemma on_state_set v a x L v1 :
  at_ledger v L v1 -> exists v2, on_state (set_account a x) v1 = (Ok tt, v2) /\ at_ledger v (<[a := x]> L) v2.
Proof.
  intros (Hok & Hv). destruct (set_account_spec a x _ Hok) as (m & E & Hm & Hokm & _).
  exists (set_v_state m v1). unfold on_state. rewrite E. unfold at_ledger, vault_view in *. injection Hv as HL ? ? ? ?.
  split; [done|]. split; [done|]. cbn. congruence.
Qed.

Lemma credit_genesis_ok v now g L v1 :
  at_ledger v L v1 -> exists v2, credit_genesis now g v1 = (Ok tt, v2) /\ at_ledger v (genesis_credited now g L) v2.
Proof.
  intros H. unfold credit_genesis, genesis_credited. destruct (0 <? g); [|by exists v1].
  destruct (on_state_get _ GENESIS_VAULT_ADDRESS _ _ H) as (v2 & E & H2). unfold sbind. rewrite E.
  by apply on_state_set.
Qed.

Lemma at_ledger_refl v : state_ok (v_state v) -> at_ledger v (view (v_state v)) v.
Proof. done. Qed.

Lemma lower_supply_blocks b v : lower_supply b v = (Deadlock, v).
Proof. done. Qed.

(** The widths hold and no counter is about to overflow. *)
Record vault_ok v : Prop := {
  vo_state : state_ok (v_state v);
  vo_ledger : ledger_ok (view (v_state v));
  vo_nonces : forall a x, view (v_state v) !! a = Some x -> 0 <= acc_nonce x < U64_MAX;
  vo_supply : 0 <= v_total_supply v <= TOTAL_SUPPLY;
  vo_transfers : 0 <= v_total_transfers v < U64_MAX
}.

Lemma increment_nonce_ok now x v :
  0 <= acc_nonce x < U64_MAX ->
  on_local (W:=W) (increment_nonce now) x v = (Ok (record_activity now (with_nonce (acc_nonce x + 1) x)), v).
Proof.
  intros Hn. unfold U64_MAX in Hn. unfold on_local, increment_nonce, sbind, sget, slift, smod, add_u64.
  by rewrite arith_fits by (unfold fits; lia).
Qed.

(** The sender as the code computes it and as the specification does. *)
Lemma debited_as_coded now total x :
  0 <= acc_nonce x < U64_MAX ->
  record_activity now (with_balance (balance x - total) (record_activity now (with_nonce (acc_nonce x + 1) x)))
  = debited now total x.
Proof.
  intros Hn. unfold debited, saturating_add, U64_MAX in *. rewrite Z.min_r by lia. reflexivity.
Qed.

(** The part of a transfer behind its checks, when nothing is burned. *)
Lemma transfer_tail now from to amount fee f' t' g val v1 L v :
  at_ledger v L v1 -> from <> to -> fits 128 (v_total_fees_collected v + fee) -> 0 <= v_total_transfers v < U64_MAX ->
  exists v',
    (run! credit_genesis now g in
     run! on_state (set_account from f') in
     run! on_state (set_account to t') in
     do! f := sget v_total_fees_collected in
     do! f1 := slift (add_u128 f fee) in
     run! smod (set_v_fees f1) in
     do! n := sget v_total_transfers in
     do! n1 := slift (add_u64 n 1) in
     run! smod (set_v_transfers n1) in
     do! from_after := on_state (get_balance from) in
     do! to_after := on_state (get_balance to) in
     sret (mkTransfer true from_after to_after amount val g)) v1
    = (Ok (mkTransfer true (balance f') (balance t') amount val g), v')
    /\ state_ok (v_state v')
    /\ vault_view v' = mkAVault (<[to := t']> (<[from := f']> (genesis_credited now g L))) (v_total_supply v)
         (v_total_burned v) (v_total_fees_collected v + fee) (v_total_transfers v + 1).
Proof.
  intros H1 Hne Hfees Hn.
  destruct (credit_genesis_ok _ now g _ _ H1) as (v2 & E2 & H2). unfold sbind at 1. rewrite E2.
  destruct (on_state_set _ from f' _ _ H2) as (v3 & E3 & H3). unfold sbind at 1. rewrite E3.
  destruct (on_state_set _ to t' _ _ H3) as (v4 & E4 & H4). unfold sbind at 1. rewrite E4.
  assert (Hc : v_total_fees_collected v4 = v_total_fees_collected v /\ v_total_transfers v4 = v_total_transfers v
    /\ v_total_supply v4 = v_total_supply v /\ v_total_burned v4 = v_total_burned v).
  { destruct H4 as (_ & Hv). unfold vault_view in Hv. by injection Hv as ?????. }
  destruct Hc as (Hcf & Hcn & Hcs & Hcb).
  unfold sbind at 1, sget at 1. unfold sbind at 1, slift at 1, add_u128. rewrite Hcf, arith_fits by done.
  unfold sbind at 1, smod at 1. unfold sbind at 1, sget at 1. cbn [v_total_transfers set_v_fees].
  unfold sbind at 1, slift at 1, add_u64. rewrite Hcn, arith_fits by (unfold fits, U64_MAX in *; lia).
  unfold sbind at 1, smod at 1.
  set (v5 := set_v_transfers _ _). set (L' := <[to := t']> _) in *.
  assert (H5 : at_ledger v5 L' v5).
  { destruct H4 as (Hok & Hv). split; [done|]. unfold vault_view in *. injection Hv as HL ????. cbn. by rewrite <- HL. }
  destruct (on_state_balance _ from _ _ H5) as (v6 & E6 & H6). unfold sbind at 1. rewrite E6.
  destruct (on_state_balance _ to _ _ H6) as (v7 & E7 & H7). unfold sbind at 1. rewrite E7.
  exists v7. unfold L' at 1 2. rewrite lookup_insert_eq, lookup_insert_ne, lookup_insert_eq by done.
  split; [done|]. destruct H7 as (Hok7 & Hv7). split; [done|]. rewrite Hv7. cbn. by rewrite Hcs, Hcb.
Qed.

Lemma transfer_spec now from to amount fee v :
  vault_ok v -> 0 <= amount -> 0 <= fee -> fits 128 (v_total_fees_collected v + fee) ->
  exists v', transfer now from to amount fee v = ((spec_transfer now from to amount fee (vault_view v)).1, v')
    /\ vault_view v' = (spec_transfer now from to amount fee (vault_view v)).2 /\ state_ok (v_state v').
Proof.
  intros [Hok HL Hn Hs Ht] Ha Hf Hfees. unfold transfer, spec_transfer. cbn [a_ledger a_supply a_burned a_fees a_transfers vault_view].
  destruct (amount <? MIN_BALANCE); [by exists v|]. case_bool_decide as Hft; [by exists v|].
  set (total := saturating_add 128 amount fee). assert (Htot : 0 <= total) by (unfold total, saturating_add; lia).
  destruct (on_state_get v from _ _ (at_ledger_refl v Hok)) as (v1 & E1 & H1).
  assert (Hv1 : vault_view v1 = vault_view v) by apply H1. assert (Hok1 : state_ok (v_state v1)) by apply H1.
  unfold execute_transfer. fold total. unfold sbind at 1. rewrite E1.
  destruct (view (v_state v) !! from) as [f|] eqn:Hfrom; [|by exists v1].
  unfold sbind at 1, slift at 1. cbn [ok_or]. destruct (is_dormant f); [by exists v1|].
  destruct (balance f <? total) eqn:Hlt; [by exists v1|]. apply Z.ltb_ge in Hlt.
  specialize (Hn _ _ Hfrom). pose proof (HL _ _ Hfrom) as Hb.
  unfold sbind at 1. rewrite increment_nonce_ok by done.
  unfold sbind at 1, slift at 1, sub_u128. cbn [balance record_activity with_activity with_nonce].
  rewrite arith_fits by (unfold fits in *; lia). cbn zeta.
  destruct (on_state_get v to _ _ H1) as (v2 & E2 & H2). unfold sbind at 1. rewrite E2.
  assert (Hv2 : vault_view v2 = vault_view v) by apply H2.
  assert (Hsup : v_total_supply v2 = v_total_supply v) by (unfold vault_view in Hv2; by injection Hv2).
  unfold sbind at 1, sget at 1. unfold sbind at 1, sget at 1. unfold current_phase. rewrite Hsup.
  unfold sbind at 1, slift at 1. rewrite burn_rate_ok by done.
  unfold sbind at 1, slift at 1. rewrite genesis_rate_ok by done.
  destruct (0 <? share fee (burn_rate_at (v_total_supply v))) eqn:Hburn.
  { exists v2. unfold sbind at 1. unfold sbind at 1. rewrite lower_supply_blocks. split; [done|]. split; [done|apply H2]. }
  unfold sbind at 1, sret at 1.
  edestruct (transfer_tail now from to) as (v' & E' & Hok' & Hv'); [exact H2|done|exact Hfees|exact Ht|].
  exists v'. split; [etransitivity; [exact E'|]|split; [rewrite Hv'|done]]; cbn [fst snd]; rewrite ?debited_as_coded by done; reflexivity.
Qed.
End Refinement.

(** ** Money *)

Lemma genesis_credited_ok now g L : ledger_ok L -> 0 <= g -> ledger_ok (genesis_credited now g L).
Proof.
  intros HL Hg. unfold genesis_credited. destruct (0 <? g); [|done]. intros a x.
  rewrite lookup_insert_Some. intros [[<- <-]|[_ Hx]]; [|by eapply HL]. cbn [balance with_balance]. apply saturating_add_fits; [lia| |done].
  destruct (L !! GENESIS_VAULT_ADDRESS) as [y|] eqn:Hy; cbn [default]; [exact (proj1 (HL _ _ Hy))|done].
Qed.

Lemma genesis_credited_money now g L :
  ledger_ok L -> 0 <= g -> money L + g < 2 ^ 128 -> money (genesis_credited now g L) = money L + g.
Proof.
  intros HL Hg Hmax. unfold genesis_credited. destruct (Z.ltb_spec 0 g); [|lia].
  destruct (L !! GENESIS_VAULT_ADDRESS) as [y|] eqn:Hy; cbn [default].
  - pose proof (money_one L _ y HL Hy). pose proof (HL _ _ Hy) as [Hp _]. unfold money in *.
    rewrite (map_sum_update balance _ _ y _ Hy). cbn [balance with_balance genesis_sovereign]. unfold saturating_add, id. lia.
  - unfold money in *. rewrite map_sum_insert_new by done. cbn [balance with_balance genesis_sovereign]. unfold saturating_add.
    assert (0 <= map_sum balance L); [|lia]. apply map_sum_nonneg. intros k x Hk. by destruct (HL k x Hk).
Qed.

Lemma genesis_credited_other (now g : Z) (L : Ledger) a : a <> GENESIS_VAULT_ADDRESS -> genesis_credited now g L !! a = L !! a.
Proof. intros Hne. unfold genesis_credited. destruct (0 <? g); [|done]. by rewrite lookup_insert_ne. Qed.

Lemma share_fits fee r : fits 128 (share fee r).
Proof. by apply f64_to_uint_fits. Qed.

(** A successful transfer of the specification between ordinary accounts. *)
Lemma spec_transfer_money now from to amount fee A r A' :
  ledger_ok (a_ledger A) -> from <> GENESIS_VAULT_ADDRESS -> to <> GENESIS_VAULT_ADDRESS -> 0 <= fee ->
  fits 128 (amount + fee) ->
  spec_transfer now from to amount fee A = (Ok r, A') -> money (a_ledger A) + fee_to_genesis r < 2 ^ 128 ->
  fee_burned r = 0 /\ money (a_ledger A') = money (a_ledger A) - fee + fee_to_genesis r.
Proof.
  intros HL Hfg Htg Hf Hfit. unfold spec_transfer. set (L := a_ledger A) in *.
  destruct (Z.ltb_spec amount MIN_BALANCE) as [|Hmin]; [done|]. case_bool_decide as Hne; [done|].
  destruct (L !! from) as [f|] eqn:Hfrom; [|done]. destruct (is_dormant f); [done|].
  destruct (balance f <? saturating_add 128 amount fee) eqn:Hlt; [done|].
  destruct (Z.ltb_spec 0 (share fee (burn_rate_at (a_supply A)))) as [|Hb]; [done|].
  pose proof (share_fits fee (burn_rate_at (a_supply A))) as Hfb.
  pose proof (share_fits fee (genesis_rate_at (a_supply A))) as Hfg'. unfold fits in Hfb, Hfg'.
  set (g := share fee (genesis_rate_at (a_supply A))) in *. intros Heq Hmax.
  assert (Hr : fee_to_genesis r = g /\ fee_burned r = share fee (burn_rate_at (a_supply A))) by (split; by injection Heq as <- _).
  destruct Hr as [Hg Hbr]. rewrite Hg in *. split; [lia|].
  assert (HL' : a_ledger A' = <[to := credited now amount (default (account_new now to 0) (L !! to))]>
                  (<[from := debited now (saturating_add 128 amount fee) f]> (genesis_credited now g L)))
    by (by injection Heq as _ <-).
  pose proof (genesis_credited_money now g L HL ltac:(lia) ltac:(lia)) as Hgm.
  unfold MIN_BALANCE in Hmin.
  rewrite (ledger_transfer_money now from to amount fee (genesis_credited now g L) (a_ledger A'));
    [lia|apply genesis_credited_ok; [done|lia]|lia|done|lia|done|done|].
  unfold ledger_transfer. rewrite !genesis_credited_other, Hfrom, Hlt by done. by rewrite HL'.
Qed.

Section Properties.
Context {W : Type} `{St : Storage W} `{Laws : !StorageLaws W} `{BP : BuildProfile} `{S3 : Sha3}
  `{BA : BincodeAccount} `{Iter : !HashMapIter Address Account}.
Implicit Types v : VaultManager W.

(** C7. [transfer] refines its specification over every storage: whatever the outcome (each
    refusal, the call that never returns, success), the result and the ledger and counters
    afterwards are those of [spec_transfer]; and a success between ordinary accounts takes the
    whole fee from the ledger except the share of the genesis account, so the share reported for
    the validators is credited to nobody. *)
Theorem vault_transfer_refines (now : Z) (from to : Address) (amount fee : Z) (v : VaultManager W) :
  vault_ok v -> 0 <= fee -> fits 128 (amount + fee) -> 0 <= amount -> fits 128 (v_total_fees_collected v + fee) ->
  exists v', transfer now from to amount fee v = ((spec_transfer now from to amount fee (vault_view v)).1, v')
    /\ vault_view v' = (spec_transfer now from to amount fee (vault_view v)).2
    /\ forall r, (transfer now from to amount fee v).1 = Ok r ->
         from <> GENESIS_VAULT_ADDRESS -> to <> GENESIS_VAULT_ADDRESS ->
         money (view (v_state v)) + fee_to_genesis r < 2 ^ 128 ->
         money (view (v_state v')) = money (view (v_state v)) - fee + fee_to_genesis r.
Proof.
  intros Hok Hf Hfit Ha Hfees. destruct (transfer_spec now from to amount fee v Hok Ha Hf Hfees) as (v' & E & Hv & _).
  exists v'. split_and!; [done|done|]. intros r Hr Hfg Htg Hmax. rewrite E in Hr. cbn [fst] in Hr.
  destruct (spec_transfer now from to amount fee (vault_view v)) as [o A'] eqn:Hs. cbn [fst snd] in *. subst o.
  destruct (spec_transfer_money now from to amount fee (vault_view v) r A') as [_ Hm]; try done.
  - apply vo_ledger, Hok.
  - rewrite <- Hv in Hm. exact Hm.
Qed.

(** At the initial supply every fee from two up to a thousand units has a positive share to burn. *)
Lemma initial_burn_share fee : 2 <= fee < 1001 -> 0 < share fee (burn_rate_at TOTAL_SUPPLY).
Proof.
  intros Hf. assert (H : forallb (fun n => 0 <? share (Z.of_nat n + 2) (burn_rate_at TOTAL_SUPPLY)) (seq 0 999) = true)
    by (vm_compute; reflexivity).
  rewrite forallb_forall in H. specialize (H (Z.to_nat (fee - 2))). rewrite Z2Nat.id in H by lia.
  replace (fee - 2 + 2) with fee in H by lia. apply Z.ltb_lt, H, in_seq. lia.
Qed.

(** The vault blocks itself: a transfer that passes its checks never returns when any part
    of its fee is to be burned, because the statement that lowers the supply asks for the write
    lock while it holds the read lock.  In a new vault that is every fee from two to a thousand
    units. *)
Theorem vault_transfer_blocks (now : Z) (from to : Address) (amount fee : Z) (v : VaultManager W) (f : Account) :
  vault_ok v -> 0 <= fee -> fits 128 (amount + fee) -> fits 128 (v_total_fees_collected v + fee) ->
  view (v_state v) !! from = Some f -> is_dormant f = false -> amount + fee <= balance f ->
  MIN_BALANCE <= amount -> from <> to ->
  0 < share fee (burn_rate_at (v_total_supply v)) \/ (v_total_supply v = TOTAL_SUPPLY /\ 2 <= fee <= 1000) ->
  (transfer now from to amount fee v).1 = Deadlock.
Proof.
  intros Hok Hf Hfit Hfees Hfrom Hd Hb Hmin Hne Hburn.
  assert (Hshare : 0 < share fee (burn_rate_at (v_total_supply v))).
  { destruct Hburn as [?|[-> ?]]; [done|apply initial_burn_share; lia]. }
  destruct (transfer_spec now from to amount fee v Hok) as (v' & E & _); [unfold MIN_BALANCE in Hmin; lia|done|done|].
  rewrite E. cbn [fst]. unfold spec_transfer. cbn [a_ledger a_supply vault_view].
  rewrite (proj2 (Z.ltb_ge _ _)) by lia. rewrite bool_decide_eq_false_2 by done. rewrite Hfrom, Hd.
  assert (Ht : saturating_add 128 amount fee = amount + fee) by (unfold saturating_add, fits in *; lia).
  rewrite Ht, (proj2 (Z.ltb_ge _ _)) by lia. by rewrite (proj2 (Z.ltb_lt _ _)).
Qed.

(** ** Supply *)

Definition supply_ok v : Prop :=
  0 <= v_total_supply v /\ 0 <= v_total_burned v /\ v_total_supply v + v_total_burned v = TOTAL_SUPPLY.
Definition supply_kept v v' : Prop := supply_ok v -> supply_ok v'.

#[local] Instance supply_kept_preorder : PreOrder supply_kept.
Proof. split; unfold supply_kept; [by intros ? ?|intros ? ? ? H1 H2 H; auto]. Qed.

Lemma on_state_keeps_supply {A} (c : ST (StateManager W) PacyteError A) : keeps supply_kept (on_state c).
Proof. intros v r v'. unfold on_state. destruct (c (v_state v)) as [o m]. intros Heq. assert (v' = set_v_state m v) as -> by congruence. exact (fun H => H). Qed.

Lemma on_local_keeps_supply {A} (c : ST Account PacyteError A) x : keeps supply_kept (on_local (W:=W) c x).
Proof. intros v r v'. unfold on_local. destruct (c x) as [[] ?]; intros [= <- <-]; reflexivity. Qed.

Lemma lower_supply_keeps_supply {A} b (k : ST (VaultManager W) PacyteError A) : keeps supply_kept (run! lower_supply b in k).
Proof. intros v r v'. unfold sbind. rewrite lower_supply_blocks. intros [= <- <-]. reflexivity. Qed.

Lemma vault_burn_keeps_supply n r : 0 <= n -> keeps supply_kept (vault_burn n r).
Proof.
  intros Hn v o v'. unfold vault_burn. destruct (n =? 0); [intros [= <- <-]; reflexivity|].
  unfold sbind at 1, sget at 1. destruct (Z.ltb_spec (v_total_supply v) n) as [|Hle]; [intros [= <- <-]; reflexivity|].
  intros Heq (Hs & Hb & Hsum). revert Heq.
  unfold sbind at 1, slift at 1, sub_u128. rewrite arith_fits by (unfold fits, TOTAL_SUPPLY in *; lia).
  unfold sbind at 1, smod at 1, add_burned, sbind, sget, slift, add_u128. cbn [v_total_burned set_v_supply].
  rewrite arith_fits by (unfold fits, TOTAL_SUPPLY in *; lia). intros Heq.
  assert (v' = set_v_burned (v_total_burned v + n) (set_v_supply (v_total_supply v - n) v)) as -> by (unfold smod in Heq; congruence).
  unfold supply_ok. cbn. lia.
Qed.

Ltac keeps_supply :=
  repeat first [ progress cbn zeta | apply lower_supply_keeps_supply | apply on_state_keeps_supply | apply on_local_keeps_supply
               | apply vault_burn_keeps_supply; first [apply share_fits | lia]
               | apply keeps_bind; [apply _| |intros ?] | keeps_leaf | apply keeps_smod; intros ?; exact (fun H => H)
               | match goal with |- keeps _ (if ?b then _ else _) => destruct b end ].

Inductive VaultOp : Type :=
| VTransfer (from to : Address) (amount fee : Z)
| VBurn (amount : Z) (r : BurnReason)
| VDistribute (total_fee height : Z)
| VDormant (time : Z)
| VGenesis.

Definition vault_step (now : Z) (op : VaultOp) : ST (VaultManager W) PacyteError unit :=
  match op with
  | VTransfer from to amount fee => run! transfer now from to amount fee in sret tt
  | VBurn n r => vault_burn n r
  | VDistribute f h => run! distribute_fees now f h in sret tt
  | VDormant t => run! process_dormant_accounts t in sret tt
  | VGenesis => initialize_genesis now
  end.
(** Calls one after the other, each at its time, whatever their outcomes. *)
Definition vault_run (l : list (Z * VaultOp)) v : VaultManager W := foldl (fun v p => (vault_step p.1 p.2 v).2) v l.

(** Amounts are unsigned. *)
Definition op_ok (op : VaultOp) : Prop := match op with VBurn n _ => 0 <= n | _ => True end.

Lemma vault_step_keeps_supply now op : op_ok op -> keeps supply_kept (vault_step now op).
Proof.
  intros Hop. destruct op; cbn [vault_step op_ok] in *;
    unfold transfer, execute_transfer, distribute_fees, credit_genesis, process_dormant_accounts, burn_dormant_list,
      initialize_genesis; keeps_supply.
Qed.

(** C25. The supply of a vault and what it has burned always add up to the initial supply,
    neither is negative, and nothing but a burn moves them: through any sequence of transfers, burns, fee
    distributions, dormancy sweeps and initialisations, whatever each of them returns, on any storage. *)
Theorem vault_supply_invariant (l : list (Z * VaultOp)) (m : StateManager W) :
  Forall (fun p => op_ok p.2) l -> supply_ok (vault_run l (vault_new m)).
Proof.
  intros Hl. assert (H0 : supply_ok (vault_new m)) by (unfold supply_ok; cbn; unfold TOTAL_SUPPLY; lia).
  revert H0. unfold vault_run. generalize (vault_new m) as v. induction Hl as [|[now op] l Hop _ IH]; intros v Hv; [done|].
  cbn [foldl]. apply IH. cbn in *. destruct (vault_step now op v) as [r v'] eqn:E.
  exact (vault_step_keeps_supply now op Hop v r v' E Hv).
Qed.

(** [distribute_fees] to the letter: it burns the burn share of the fees (or fails and
    changes nothing when that exceeds the supply), credits what burn and validator shares leave to
    the genesis account, and reports both shares with the phase; the validator share is only reported. *)
Theorem distribute_fees_effect (now total_fee h : Z) (v : VaultManager W) :
  state_ok (v_state v) -> supply_ok v -> 0 <= total_fee ->
  let s := v_total_supply v in
  let burned := share total_fee (burn_rate_at s) in
  let nodes := share total_fee (node_rate_at s) in
  let g := saturating_sub (saturating_sub total_fee burned) nodes in
  exists v', state_ok (v_state v') /\
    if s <? burned then distribute_fees now total_fee h v = (Err PE.InsufficientSupply, v') /\ v' = v
    else distribute_fees now total_fee h v = (Ok (mkDistribution total_fee burned nodes g (from_supply s)), v')
      /\ vault_view v' = mkAVault (genesis_credited now g (view (v_state v))) (s - burned) (v_total_burned v + burned)
           (v_total_fees_collected v) (v_total_transfers v).
Proof.
  intros Hok (Hs & Hb & Hsum) Hf s burned nodes g.
  assert (Hrange : 0 <= v_total_supply v <= TOTAL_SUPPLY) by lia.
  pose proof (share_fits total_fee (burn_rate_at s)) as [Hb0 _]. fold burned in Hb0.
  assert (Hburn : (if 0 <? burned then vault_burn burned TransactionFee else sret tt) v
    = if s <? burned then (Err PE.InsufficientSupply, v)
      else (Ok tt, set_v_burned (v_total_burned v + burned) (set_v_supply (s - burned) v))).
  { destruct (Z.ltb_spec 0 burned) as [Hpos|Hz].
    - unfold vault_burn. rewrite (proj2 (Z.eqb_neq _ _)) by lia. unfold sbind at 1, sget at 1. fold s.
      destruct (Z.ltb_spec s burned) as [|Hle]; [done|].
      unfold sbind at 1, slift at 1, sub_u128. rewrite arith_fits by (unfold fits, TOTAL_SUPPLY in *; lia).
      unfold sbind at 1, smod at 1, add_burned, sbind, sget, slift, add_u128. cbn [v_total_burned set_v_supply].
      by rewrite arith_fits by (unfold fits, TOTAL_SUPPLY in *; lia).
    - assert (burned = 0) as -> by lia. rewrite (proj2 (Z.ltb_ge _ _)) by lia. rewrite Z.add_0_r, Z.sub_0_r. unfold s. by destruct v. }
  assert (Erun : distribute_fees now total_fee h v =
    (run! (if 0 <? burned then vault_burn burned TransactionFee else sret tt) in
     run! credit_genesis now g in sret (mkDistribution total_fee burned nodes g (from_supply s))) v).
  { unfold distribute_fees, current_phase. unfold sbind at 1, sget at 1. unfold sbind at 1, sget at 1.
    unfold sbind at 1, slift at 1. rewrite burn_rate_ok by done. unfold sbind at 1, slift at 1. rewrite node_rate_ok by done.
    unfold sbind at 1, slift at 1. by rewrite genesis_rate_ok. }
  rewrite Erun. clear Erun. unfold sbind at 1 3. rewrite Hburn. destruct (s <? burned); [by exists v|].
  set (v1 := set_v_burned (v_total_burned v + burned) (set_v_supply (s - burned) v)).
  destruct (credit_genesis_ok v1 now g (view (v_state v)) v1) as (v2 & E2 & Hok2 & Hv2); [done|].
  exists v2. split; [done|]. unfold sbind. rewrite E2. done.
Qed.
End Properties.

(** The shares of a distribution can exceed the fees: 840 and 360 of 1000 at a supply of 430 million. *)
Lemma distribution_exceeds_fees :
  let s := 430000000000000 in
  1000 < share 1000 (burn_rate_at s) + share 1000 (node_rate_at s).
Proof. vm_compute. reflexivity. Qed.

(** ** Concrete runs *)

(** A manager over a storage that holds the ledger [L]. *)
Definition fresh_state (L : Ledger) : StateManager MemoryStorage :=
  mkState (set_ms_accounts L memory_storage_new) zero_hash 0 ∅ ∅ (mkSparse zero_hash []) ∅.

Section VaultWitnesses.
#[local] Existing Instance release_profile.
#[local] Existing Instance toy_sha3.
#[local] Existing Instance key_order.
#[local] Instance vault_block_bincode : Bincode := fun _ => None.
#[local] Instance vault_account_bincode : BincodeAccount := fun x => Some (to_le_bytes 16 (balance x)).
#[local] Instance vault_storage : Storage MemoryStorage := memory_storage 100.
#[local] Instance vault_storage_laws : StorageLaws MemoryStorage := memory_storage_laws 100.

Lemma fresh_view L : view (fresh_state L) = L.
Proof. unfold view. cbn. apply (left_id_L ∅ (∪)). Qed.
Lemma fresh_ok L : state_ok (fresh_state L).
Proof. split; cbn; [done|]. intros a x Hx. by rewrite lookup_empty in Hx. Qed.

Definition rich_ledger : Ledger := {[ alice := account_new 0 alice 50000 ]}.
Definition rich_vault (supply : Z) : VaultManager MemoryStorage :=
  mkVault (fresh_state rich_ledger) supply GENESIS_BALANCE (TOTAL_SUPPLY - supply) 0 0.

Lemma rich_vault_ok s : 0 <= s <= TOTAL_SUPPLY -> vault_ok (rich_vault s).
Proof.
  intros Hs. split; cbn [rich_vault v_state v_total_supply v_total_transfers]; [apply fresh_ok| | |done|by vm_compute].
  - rewrite fresh_view. unfold rich_ledger. intros a x [_ <-]%lookup_singleton_Some. by vm_compute.
  - rewrite fresh_view. unfold rich_ledger. intros a x [_ <-]%lookup_singleton_Some. by vm_compute.
Qed.

Lemma vault_transfer_refines_witness :
  exists v', transfer 7 alice bob 2000 100 (rich_vault 200000000000000) = (Ok (mkTransfer true 47900 2000 0 90 10), v')
    /\ money (view (v_state v')) = 50000 - 100 + 10.
Proof.
  assert (Hok : vault_ok (rich_vault 200000000000000)) by (apply rich_vault_ok; by vm_compute).
  destruct (vault_transfer_refines 7 alice bob 2000 100 (rich_vault 200000000000000) Hok) as (v' & E & _ & Hm);
    [by vm_compute|split; by vm_compute|by vm_compute|split; by vm_compute|].
  assert (Hview : (vault_view (rich_vault 200000000000000)) = mkAVault rich_ledger 200000000000000 (TOTAL_SUPPLY - 200000000000000) 0 0).
  { unfold vault_view. cbn [rich_vault v_state]. by rewrite fresh_view. }
  rewrite Hview in E.
  assert (Hres : (spec_transfer 7 alice bob 2000 100 (mkAVault rich_ledger 200000000000000 (TOTAL_SUPPLY - 200000000000000) 0 0)).1
                 = Ok (mkTransfer true 47900 2000 0 90 10)) by (vm_compute; reflexivity).
  rewrite Hres in E. exists v'. split; [exact E|]. rewrite E in Hm. specialize (Hm _ eq_refl).
  cbn [rich_vault v_state] in Hm. rewrite fresh_view in Hm. apply Hm; [done|done|by vm_compute].
Defined.

Lemma vault_transfer_blocks_witness : (transfer 7 alice bob 2000 100 (rich_vault TOTAL_SUPPLY)).1 = Deadlock.
Proof.
  apply (vault_transfer_blocks 7 alice bob 2000 100 (rich_vault TOTAL_SUPPLY) (account_new 0 alice 50000));
    [apply rich_vault_ok; by vm_compute|by vm_compute|split; by vm_compute|split; by vm_compute| |done|by vm_compute|by vm_compute|done|].
  - cbn [rich_vault v_state]. rewrite fresh_view. apply lookup_singleton_eq.
  - right. split; [done|lia].
Defined.

Lemma vault_supply_invariant_witness :
  supply_ok (vault_run [(5, VGenesis); (6, VBurn 1000 Slashing); (7, VBurn TOTAL_SUPPLY Slashing); (8, VDistribute 1000 1)]
    (vault_new (fresh_state ∅))).
Proof. apply vault_supply_invariant. repeat constructor; cbn; (done || (vm_compute; congruence)). Defined.

Lemma distribute_fees_effect_witness :
  exists v', (distribute_fees 7 1000 5 (rich_vault TOTAL_SUPPLY)).1
               = Ok (mkDistribution 1000 600 360 40 GreatBurn) /\ v_total_supply v' = TOTAL_SUPPLY - 600
    /\ (distribute_fees 7 1000 5 (rich_vault TOTAL_SUPPLY)).2 = v'.
Proof.
  assert (Hs : supply_ok (rich_vault TOTAL_SUPPLY)) by (unfold supply_ok; cbn; unfold TOTAL_SUPPLY; lia).
  destruct (distribute_fees_effect 7 1000 5 (rich_vault TOTAL_SUPPLY) (fresh_ok _) Hs ltac:(lia)) as (v' & _ & H).
  cbn [rich_vault v_total_supply v_total_burned v_total_fees_collected v_total_transfers v_state] in H.
  assert (Hif : (TOTAL_SUPPLY <? share 1000 (burn_rate_at TOTAL_SUPPLY)) = false) by (vm_compute; reflexivity).
  rewrite Hif in H. destruct H as [E Hv]. exists v'.
  assert (Hb : share 1000 (burn_rate_at TOTAL_SUPPLY) = 600) by (vm_compute; reflexivity).
  assert (Hn : share 1000 (node_rate_at TOTAL_SUPPLY) = 360) by (vm_compute; reflexivity).
  rewrite Hb, Hn in *. split_and!; [by rewrite E|unfold vault_view in Hv; by injection Hv|by rewrite E].
Defined.
End VaultWitnesses.
