(* ===== verification/Snapshot.v ===== *)
(** * Snapshots and migrations (src/storage/snapshot.rs, src/storage/migration.rs)

    A snapshot is a directory with the blocks up to a height, a manifest with a checksum, and a state
    file that holds two zeros.  Storage, file system, JSON and bincode are interfaces; the buffered
    writes of one file are one write. *)

From stdpp Require Import strings pretty.
From S2P Require Import Prelude Hashing Errors Types Block State Wal Vault.
Abbreviation length := List.length.

(** ** Interfaces *)

(** The operations of the storage that snapshots and migrations call. *)
Class BlockStorage (W : Type) : Type := {
  bs_get_block : Z -> W -> PacyteResult (option Block);
  bs_get_state_root : Z -> W -> PacyteResult (option Hash);
  bs_write_batch : WriteBatch -> ST W PacyteError unit;
  bs_account_exists : Address -> W -> PacyteResult bool;
  bs_save_account : Address -> Account -> ST W PacyteError unit
}.
(** A storage without failures, seen as its blocks and accounts. *)
Class BlockStorageLaws (W : Type) `{BlockStorage W} : Type := {
  bs_blocks : W -> gmap Z Block;
  bs_accounts : W -> gmap Address Account;
  bs_get_block_law : forall h w, bs_get_block h w = Ok (bs_blocks w !! h);
  bs_write_law : forall l w, exists w', bs_write_batch (mkBatch l [] [] []) w = (Ok tt, w')
    /\ bs_blocks w' = foldl (fun m p => <[p.1 := p.2]> m) (bs_blocks w) l /\ bs_accounts w' = bs_accounts w;
  bs_exists_law : forall a w, bs_account_exists a w = Ok (bool_decide (is_Some (bs_accounts w !! a)));
  bs_save_law : forall a x w, exists w', bs_save_account a x w = (Ok tt, w')
    /\ bs_accounts w' = <[a := x]> (bs_accounts w) /\ bs_blocks w' = bs_blocks w
}.

Record SnapshotManifest : Type := mkManifest {
  mf_version : Z;
  mf_height : Z;
  mf_block_hash : Hash;
  mf_state_root : Hash;
  mf_timestamp : Z;
  mf_total_accounts : Z;
  mf_total_supply : Z;
  mf_checksum : Hash
}.
#[export] Instance SnapshotManifest_eq_dec : EqDecision SnapshotManifest.
Proof. solve_decision. Defined.

(** [serde_json] on manifests and [bincode] on blocks: what is written can be read back. *)
Class SnapshotFormat : Type := {
  manifest_to_json : SnapshotManifest -> string + list Z;
  manifest_of_json : list Z -> string + SnapshotManifest;
  manifest_law : forall m b, manifest_to_json m = inr b -> manifest_of_json b = inr m;
  block_to_bytes : Block -> string + list Z;
  block_of_bytes : list Z -> string + Block;
  block_law : forall x b, block_to_bytes x = inr b -> block_of_bytes b = inr x
}.

(** The files of the snapshot directory, by directory and name. *)
Class SnapshotFiles (F : Type) : Type := {
  sf_mkdir : string -> ST F string unit;
  sf_write : string -> string -> list Z -> ST F string unit;
  sf_read : string -> string -> F -> Outcome string (list Z);
  sf_is_dir : string -> F -> bool;
  sf_list : F -> Outcome string (list string);
  sf_remove_dir : string -> ST F string unit
}.
Class SnapshotFilesLaws (F : Type) `{SnapshotFiles F} : Type := {
  sf_view : F -> gmap string (gmap string (list Z));
  sf_mkdir_law : forall d f, exists f', sf_mkdir d f = (Ok tt, f')
    /\ sf_view f' = <[d := default ∅ (sf_view f !! d)]> (sf_view f);
  sf_write_law : forall d n b f c, sf_view f !! d = Some c -> exists f', sf_write d n b f = (Ok tt, f')
    /\ sf_view f' = <[d := <[n := b]> c]> (sf_view f);
  sf_read_law : forall d n f c b, sf_view f !! d = Some c -> c !! n = Some b -> sf_read d n f = Ok b;
  sf_dir_law : forall d f, sf_is_dir d f = bool_decide (is_Some (sf_view f !! d))
}.

(** ** Manifest *)

Section Manifest.
Context `{S3 : Sha3}.
Definition manifest_new (now height : Z) (block_hash state_root : Hash) : SnapshotManifest :=
  mkManifest 1 height block_hash state_root now 0 0 zero_hash.
Definition manifest_preimage (m : SnapshotManifest) : list Z :=
  to_le_bytes 4 (mf_version m) ++ to_le_bytes 8 (mf_height m) ++ mf_block_hash m ++ mf_state_root m
  ++ to_le_bytes 8 (mf_timestamp m) ++ to_le_bytes 8 (mf_total_accounts m) ++ to_le_bytes 16 (mf_total_supply m).
Definition set_mf_checksum (c : Hash) (m : SnapshotManifest) : SnapshotManifest :=
  mkManifest (mf_version m) (mf_height m) (mf_block_hash m) (mf_state_root m) (mf_timestamp m) (mf_total_accounts m) (mf_total_supply m) c.
Definition manifest_seal (m : SnapshotManifest) : SnapshotManifest := set_mf_checksum (sha3_256 (manifest_preimage m)) m.
Definition manifest_verify (m : SnapshotManifest) : bool :=
  bool_decide (mf_checksum (manifest_seal (set_mf_checksum zero_hash m)) = mf_checksum m).
End Manifest.

(** ** Manager *)

Section Snapshots.
Context {W F : Type} `{BS : BlockStorage W} `{SFs : SnapshotFiles F} `{Fmt : SnapshotFormat} `{S3 : Sha3}.
Abbreviation M := (ST (W * F) PacyteError).

Definition on_files {A} (c : ST F string A) : M A :=
  fun '(w, f) => let '(r, f') := c f in
  (match r with Ok a => Ok a | Err e => Err (PE.DiskIoFailure e) | Panic => Panic | Deadlock => Deadlock end, (w, f')).
Definition on_storage {A} (c : ST W PacyteError A) : M A := fun '(w, f) => let '(r, w') := c w in (r, (w', f)).
Definition disk {A} (o : Outcome string A) : PacyteResult A :=
  match o with Ok a => Ok a | Err e => Err (PE.DiskIoFailure e) | Panic => Panic | Deadlock => Deadlock end.
Definition encoded {A} (r : string + A) : PacyteResult A := match r with inr a => Ok a | inl e => Err (PE.DiskIoFailure e) end.

Definition snapshot_dir (height : Z) : string := ("snapshot_" +:+ pretty height)%string.

(** The blocks of the given heights that exist, each with its length before it. *)
Fixpoint block_records (heights : list Z) (w : W) : PacyteResult (list Z) :=
  match heights with
  | [] => Ok []
  | h :: heights =>
      let? o := bs_get_block h w in
      match o with
      | Some b =>
          let? bytes := encoded (block_to_bytes b) in
          let? rest := block_records heights w in
          Ok (to_le_bytes 4 (cast 32 (Z.of_nat (length bytes))) ++ bytes ++ rest)
      | None => block_records heights w
      end
  end.
Definition heights_upto (max_height : Z) : list Z := map Z.of_nat (seq 0 (Z.to_nat (max_height + 1))).
Definition save_blocks (dir : string) (max_height : Z) : M unit :=
  do! bytes := sget (fun s => block_records (heights_upto max_height) s.1) in
  do! bytes := slift bytes in
  on_files (sf_write dir "blocks.bin" bytes).
(** The state is not walked: the file and the totals are zeros. *)
Definition save_snapshot_state (dir : string) : M (Z * Z) :=
  run! on_files (sf_write dir "state.bin" (to_le_bytes 8 0 ++ to_le_bytes 16 0)) in sret (0, 0).

Definition create_snapshot (now height : Z) : M SnapshotManifest :=
  do! o := sget (fun s => bs_get_block height s.1) in
  do! o := slift o in
  match o with
  | None => sfail (PE.BlockNotFound height)
  | Some block =>
      do! r := sget (fun s => bs_get_state_root height s.1) in
      do! r := slift r in
      match r with
      | None => sfail (PE.StateRootMismatch (pretty height) "Not found")
      | Some state_root =>
          let dir := snapshot_dir height in
          run! on_files (sf_mkdir dir) in
          run! save_blocks dir height in
          do! totals := save_snapshot_state dir in
          let m := manifest_new now height (block_hash block) state_root in
          let m := manifest_seal (mkManifest (mf_version m) (mf_height m) (mf_block_hash m) (mf_state_root m) (mf_timestamp m)
                                    totals.1 totals.2 (mf_checksum m)) in
          do! json := slift (encoded (manifest_to_json m)) in
          run! on_files (sf_write dir "manifest.json" json) in
          sret m
      end
  end.

(** The loop of [restore_blocks]; [None] when the fuel does not suffice.  A batch of a thousand is written at once. *)
Fixpoint restore_loop (fuel : nat) (bytes : list Z) (batch : WriteBatch) (w : W) : option (PacyteResult WriteBatch * W) :=
  match fuel with
  | O => None
  | S fuel' =>
      match read_exact 4 bytes with
      | None => Some (Ok batch, w)
      | Some (len_bytes, rest) =>
          match read_exact (Z.to_nat (from_be_bytes (rev len_bytes))) rest with
          | None => Some (Err (PE.DiskIoFailure "failed to fill whole buffer"), w)
          | Some (body, rest') =>
              match block_of_bytes body with
              | inl e => Some (Err (PE.DiskIoFailure e), w)
              | inr b =>
                  let batch := add_block b batch in
                  if (1000 <=? batch_len batch)%nat then
                    match bs_write_batch batch w with
                    | (Ok _, w') => restore_loop fuel' rest' (batch_clear batch) w'
                    | (Err e, w') => Some (Err e, w')
                    | (Panic, w') => Some (Panic, w')
                    | (Deadlock, w') => Some (Deadlock, w')
                    end
                  else restore_loop fuel' rest' batch w
              end
          end
      end
  end.
(** Each turn reads four bytes. *)
Definition restore_bytes (bytes : list Z) : ST W PacyteError unit := fun w =>
  match restore_loop (S (length bytes)) bytes batch_new w with
  | Some (Ok batch, w') => if batch_is_empty batch then (Ok tt, w') else bs_write_batch batch w'
  | Some (Err e, w') => (Err e, w')
  | Some (Panic, w') => (Panic, w')
  | Some (Deadlock, w') => (Deadlock, w')
  | None => (Panic, w)
  end.
Definition restore_blocks (dir : string) : M unit :=
  do! bytes := sget (fun s => disk (sf_read dir "blocks.bin" s.2)) in
  do! bytes := slift bytes in
  on_storage (restore_bytes bytes).
Definition restore_state (dir : string) : M unit :=
  do! bytes := sget (fun s => disk (sf_read dir "state.bin" s.2)) in
  do! bytes := slift bytes in
  if (length bytes <? 24)%nat then sfail (PE.DiskIoFailure "failed to fill whole buffer") else sret tt.

Definition restore_from_snapshot (height : Z) : M unit :=
  let dir := snapshot_dir height in
  do! there := sget (fun s => sf_is_dir dir s.2) in
  if negb there then sfail (PE.DiskIoFailure ("Snapshot not found: " +:+ dir)%string)
  else
    do! json := sget (fun s => disk (sf_read dir "manifest.json" s.2)) in
    do! json := slift json in
    do! m := slift (encoded (manifest_of_json json)) in
    if negb (manifest_verify m) then sfail (PE.DiskIoFailure "Manifest checksum mismatch")
    else
      run! restore_blocks dir in
      restore_state dir.

Record SnapshotInfo : Type := mkSnapshotInfo { si_height : Z; si_block_hash : Hash; si_timestamp : Z; si_total_accounts : Z; si_path : string }.
(** The directories whose manifest can be read, by height. *)
Definition snapshot_info (f : F) (dir : string) : option SnapshotInfo :=
  if sf_is_dir dir f then
    match sf_read dir "manifest.json" f with
    | Ok json =>
        match manifest_of_json json with
        | inr m => Some (mkSnapshotInfo (mf_height m) (mf_block_hash m) (mf_timestamp m) (mf_total_accounts m) dir)
        | inl _ => None
        end
    | _ => None
    end
  else None.
Definition list_snapshots (f : F) : PacyteResult (list SnapshotInfo) :=
  let? dirs := disk (sf_list f) in
  Ok (sort_desc (fun i => - si_height i) (omap (snapshot_info f) dirs)).
Fixpoint remove_dirs (l : list SnapshotInfo) : M unit :=
  match l with
  | [] => sret tt
  | i :: l => run! on_files (sf_remove_dir (si_path i)) in remove_dirs l
  end.
Definition prune_old_snapshots (keep_last : Z) : M unit :=
  do! l := sget (fun s => list_snapshots s.2) in
  do! l := slift l in
  if Z.of_nat (length l) <=? keep_last then sret tt
  else remove_dirs (take (Z.to_nat (Z.of_nat (length l) - keep_last)) (sort_desc (fun i => - si_height i) l)).
End Snapshots.

(** ** Migrations *)

Section Migrations.
Context {W : Type} `{BS : BlockStorage W}.
Definition MIGRATION_VERSION : Z := 1.
Definition needs_migration (storage_version : Z) : bool := storage_version <? MIGRATION_VERSION.
Definition migrate_v0_to_v1 (now : Z) : ST W PacyteError unit :=
  do! there := sget (bs_account_exists FOUNDER_VESTING_ADDRESS) in
  do! there := slift there in
  if there : bool then sret tt
  else bs_save_account FOUNDER_VESTING_ADDRESS (with_type System (account_new now FOUNDER_VESTING_ADDRESS FOUNDER_ALLOCATION)).
(** [while current < current_version], [n] turns. *)
Fixpoint migrate_loop (n : nat) (now current : Z) : ST W PacyteError unit :=
  match n with
  | O => sret tt
  | S n' => run! (if current =? 0 then migrate_v0_to_v1 now else sret tt) in migrate_loop n' now (current + 1)
  end.
Definition migrate (now from_version : Z) : ST W PacyteError unit :=
  if MIGRATION_VERSION <=? from_version then sret tt
  else migrate_loop (Z.to_nat (MIGRATION_VERSION - from_version)) now from_version.
End Migrations.
