(* ===== verification/SnapshotProps.v ===== *)
(** * Snapshots: the blocks come back, the accounts do not

    Restoring a snapshot puts exactly the blocks of the storage it was taken from into the new one, through batches
    of any number, and no account; the checksum of a manifest binds its fields; migrating twice is
    migrating once. *)

From stdpp Require Import strings pretty.
From S2P Require Import Prelude Hashing Errors Types Block State Wal WalProps Vault Snapshot.
Abbreviation length := List.length.

(** ** Blocks written in order *)

Definition written (l : list (Z * Block)) (m : gmap Z Block) : gmap Z Block := foldl (fun m p => <[p.1 := p.2]> m) m l.
Definition placed (b : Block) : Z * Block := (height (header b), b).

Lemma written_app l k m : written (l ++ k) m = written k (written l m).
Proof. apply foldl_app. Qed.

(** The blocks of a storage at the given heights. *)
Definition blocks_at (hs : list Z) (B : gmap Z Block) : list Block := omap (fun h => B !! h) hs.
Lemma written_blocks hs B m k :
  (forall h b, B !! h = Some b -> height (header b) = h) ->
  written (map placed (blocks_at hs B)) m !! k = (if decide (k ∈ hs) then match B !! k with Some b => Some b | None => m !! k end else m !! k).
Proof.
  intros HB. induction hs as [|h hs IH] using rev_ind; [done|]. unfold blocks_at in *. rewrite omap_app, map_app, written_app. cbn.
  destruct (B !! h) as [b|] eqn:Hb; cbn.
  - rewrite (HB h b Hb). destruct (decide (h = k)) as [->|Hne].
    + rewrite lookup_insert_eq, decide_True by set_solver. by rewrite Hb.
    + rewrite lookup_insert_ne, IH by done. destruct (decide (k ∈ hs)); [rewrite decide_True by set_solver|rewrite decide_False by set_solver]; done.
  - rewrite IH. destruct (decide (k ∈ hs)); [by rewrite decide_True by set_solver|]. case_decide as Hin; [|done].
    assert (k = h) as -> by set_solver. by rewrite Hb.
Qed.

Section SnapshotProps.
Context {W F : Type} `{BS : BlockStorage W} `{BL : !BlockStorageLaws W} `{SFs : SnapshotFiles F} `{FL : !SnapshotFilesLaws F}
  `{Fmt : SnapshotFormat} `{S3 : Sha3}.

(** ** Encoding and decoding *)

Fixpoint encode_blocks (l : list Block) : string + list Z :=
  match l with
  | [] => inr []
  | b :: l => match block_to_bytes b, encode_blocks l with
              | inr x, inr rest => inr (frame x ++ rest)
              | inl e, _ => inl e
              | _, inl e => inl e
              end
  end.
Lemma block_records_encode hs w bytes : block_records hs w = Ok bytes -> encode_blocks (blocks_at hs (bs_blocks w)) = inr bytes.
Proof.
  revert bytes. induction hs as [|h hs IH]; intros bytes Hr; cbn [block_records] in Hr; [by injection Hr as <-|].
  unfold blocks_at in *. cbn [omap list_omap]. rewrite bs_get_block_law in Hr. cbn in Hr. destruct (bs_blocks w !! h) as [b|] eqn:Hb; [|by apply IH].
  cbn [encode_blocks]. destruct (block_to_bytes b) as [e|x]; [done|]. cbn in Hr.
  destruct (block_records hs w) as [rest| | |]; try done. cbn in Hr. rewrite (IH rest eq_refl). injection Hr as <-.
  unfold frame. by rewrite <- app_assoc.
Qed.

Definition blocks_fit (l : list Block) : Prop := Forall (fun b => forall x, block_to_bytes b = inr x -> Z.of_nat (length x) < 2 ^ 32) l.

(** Whole records are read back and written, in batches. *)
Lemma restore_loop_ok l : forall bytes fuel l0 w,
  encode_blocks l = inr bytes -> blocks_fit l -> (length bytes < fuel)%nat ->
  exists l1 w', restore_loop fuel bytes (mkBatch l0 [] [] []) w = Some (Ok (mkBatch l1 [] [] []), w')
    /\ written l1 (bs_blocks w') = written (l0 ++ map placed l) (bs_blocks w) /\ bs_accounts w' = bs_accounts w.
Proof.
  induction l as [|b l IH]; intros bytes fuel l0 w Henc Hfit Hfuel; cbn [encode_blocks map] in *; (destruct fuel as [|fuel]; [lia|]).
  - injection Henc as <-. exists l0, w. by rewrite app_nil_r.
  - apply Forall_cons in Hfit as [Hb Hfit]. destruct (block_to_bytes b) as [e|x] eqn:Hx; [done|].
    destruct (encode_blocks l) as [e|rest] eqn:Hrest; [done|]. assert (bytes = frame x ++ rest) as -> by congruence. cbn [restore_loop].
    rewrite read_header. rewrite header_length by (by apply Hb). rewrite read_exact_app, (block_law _ _ Hx).
    rewrite length_app in Hfuel. assert (Hf : (4 <= length (frame x))%nat) by (unfold frame; rewrite length_app, length_to_le_bytes; lia).
    unfold add_block. cbn [wb_blocks wb_transactions wb_accounts wb_state_roots]. fold (placed b).
    destruct (1000 <=? _)%nat.
    + destruct (bs_write_law (l0 ++ [placed b]) w) as (w1 & -> & Hw1 & Ha1). unfold batch_clear, batch_new.
      destruct (IH rest fuel [] w1 eq_refl Hfit ltac:(lia)) as (l1 & w' & -> & Hw' & Ha'). exists l1, w'. split; [done|].
      rewrite Hw', Ha', Ha1. cbn [app]. rewrite Hw1. fold (written (l0 ++ [placed b]) (bs_blocks w)).
      rewrite <- written_app, <- app_assoc. done.
    + destruct (IH rest fuel (l0 ++ [placed b]) w eq_refl Hfit ltac:(lia)) as (l1 & w' & -> & Hw' & Ha'). exists l1, w'.
      rewrite Hw', Ha', <- app_assoc. done.
Qed.

Lemma restore_bytes_ok l bytes w :
  encode_blocks l = inr bytes -> blocks_fit l ->
  exists w', restore_bytes bytes w = (Ok tt, w') /\ bs_blocks w' = written (map placed l) (bs_blocks w) /\ bs_accounts w' = bs_accounts w.
Proof.
  intros Henc Hfit. unfold restore_bytes, batch_new. destruct (restore_loop_ok l bytes (S (length bytes)) [] w Henc Hfit ltac:(lia)) as (l1 & w1 & -> & Hw & Ha).
  destruct (batch_is_empty (mkBatch l1 [] [] [])) eqn:He.
  - exists w1. split; [done|]. unfold batch_is_empty in He. cbn in He. rewrite !andb_true_r in He. apply bool_decide_eq_true in He as ->. done.
  - destruct (bs_write_law l1 w1) as (w2 & -> & Hw2 & Ha2). exists w2. split; [done|]. rewrite Hw2, Ha2. by split.
Qed.

(** The fuel suffices for any bytes. *)
Lemma restore_loop_total fuel : forall bytes batch w, (length bytes < fuel)%nat -> restore_loop fuel bytes batch w <> None.
Proof.
  induction fuel as [|fuel IH]; intros bytes batch w Hf; [lia|]. cbn [restore_loop]. unfold read_exact at 1. destruct (4 <=? length bytes)%nat eqn:H4; [|done].
  apply Nat.leb_le in H4. unfold read_exact. destruct (_ <=? length (drop 4 bytes))%nat; [|done]. destruct (block_of_bytes _) as [e|b]; [done|].
  assert (Hlen : forall n, (length (drop n (drop 4 bytes)) < fuel)%nat) by (intros n; rewrite !length_drop; lia).
  destruct (1000 <=? _)%nat; [|by apply IH]. destruct (bs_write_batch _ w) as [[]]; try done. by apply IH.
Qed.

(** ** Files *)

Lemma on_files_write d n b (w : W) (f : F) c : sf_view f !! d = Some c ->
  exists f', on_files (sf_write d n b) (w, f) = (Ok tt, (w, f')) /\ sf_view f' = <[d := <[n := b]> c]> (sf_view f).
Proof. intros Hd. destruct (sf_write_law d n b f c Hd) as (f' & E & Hv). exists f'. split; [|done]. cbn. by rewrite E. Qed.

(** What a successful [create_snapshot] leaves. *)
Lemma create_snapshot_files now h (w : W) (f : F) m (w' : W) (f' : F) :
  create_snapshot now h (w, f) = (Ok m, (w', f')) ->
  exists c bytes json, sf_view f' !! snapshot_dir h = Some c /\ block_records (heights_upto h) w = Ok bytes /\ w' = w
    /\ c !! "blocks.bin"%string = Some bytes /\ c !! "state.bin"%string = Some (to_le_bytes 8 0 ++ to_le_bytes 16 0)
    /\ c !! "manifest.json"%string = Some json /\ manifest_of_json json = inr m /\ manifest_verify m = true.
Proof.
  unfold create_snapshot, sbind at 1, sget at 1. unfold sbind at 1, slift at 1. destruct (bs_get_block h (w, f).1) as [[b|]| | |]; try done.
  unfold sbind at 1, sget at 1. unfold sbind at 1, slift at 1. destruct (bs_get_state_root h (w, f).1) as [[r|]| | |]; try done.
  set (d := snapshot_dir h). cbn zeta. unfold sbind at 1. destruct (sf_mkdir_law d f) as (f1 & E1 & V1). unfold on_files at 1. rewrite E1.
  unfold sbind at 1, save_blocks, sbind at 1, sget at 1. cbn [fst]. unfold sbind at 1, slift at 1.
  destruct (block_records (heights_upto h) w) as [bytes| | |] eqn:Hbytes; try done.
  assert (V1' : sf_view f1 !! d = Some (default ∅ (sf_view f !! d))) by (by rewrite V1, lookup_insert_eq).
  destruct (on_files_write d "blocks.bin" bytes w f1 _ V1') as (f2 & -> & V2). unfold sbind at 1, save_snapshot_state, sbind at 1.
  edestruct (on_files_write d "state.bin" (to_le_bytes 8 0 ++ to_le_bytes 16 0) w f2) as (f3 & -> & V3); [by rewrite V2, lookup_insert_eq|].
  unfold sret at 1. set (m0 := manifest_seal _). unfold sbind at 1, slift at 1. destruct (manifest_to_json m0) as [e|json] eqn:Hj; [done|]. cbn [encoded].
  edestruct (on_files_write d "manifest.json" json w f3) as (f4 & Hw4 & V4); [by rewrite V3, lookup_insert_eq|]. unfold sbind. rewrite Hw4.
  unfold sret. intros [= <- <- <-]. rewrite V4. eexists _, bytes, json. split; [apply lookup_insert_eq|]. split_and!; try done.
  - by rewrite lookup_insert_ne, lookup_insert_ne, lookup_insert_eq by done.
  - by rewrite lookup_insert_ne, lookup_insert_eq by done.
  - by rewrite lookup_insert_eq.
  - by apply manifest_law.
  - unfold manifest_verify. by rewrite bool_decide_eq_true_2.
Qed.

(** C37. A snapshot restores the blocks and only the blocks: after a snapshot of one storage at a height, restoring it into any
    other gives every block of the first up to the height and keeps whatever else the second had; accounts are neither saved
    nor restored. *)
Theorem snapshot_roundtrip (now h : Z) (w w2 : W) (f : F) (m : SnapshotManifest) (s : W * F) :
  create_snapshot now h (w, f) = (Ok m, s) ->
  (forall k b, bs_blocks w !! k = Some b -> height (header b) = k) -> blocks_fit (blocks_at (heights_upto h) (bs_blocks w)) ->
  exists w2', restore_from_snapshot h (w2, s.2) = (Ok tt, (w2', s.2))
    /\ (forall k, bs_blocks w2' !! k = (if decide (0 <= k <= h) then match bs_blocks w !! k with Some b => Some b | None => bs_blocks w2 !! k end
                                        else bs_blocks w2 !! k))
    /\ bs_accounts w2' = bs_accounts w2.
Proof.
  destruct s as [w' f']. intros Hc Hplace Hfit. cbn [snd].
  destruct (create_snapshot_files now h w f m w' f' Hc) as (c & bytes & json & Hd & Hbytes & _ & Hb & Hs & Hj & Hm & Hv).
  destruct (restore_bytes_ok _ bytes w2 (block_records_encode _ _ _ Hbytes) Hfit) as (w2' & E & Hw & Ha).
  exists w2'. split; [|split; [|done]].
  - unfold restore_from_snapshot, sbind at 1, sget at 1. cbn [snd]. rewrite sf_dir_law, bool_decide_eq_true_2 by (by rewrite Hd). cbn [negb].
    unfold sbind at 1, sget at 1. cbn [snd]. rewrite (sf_read_law _ _ f' c json Hd Hj). unfold sbind at 1, slift at 1, disk at 1.
    unfold sbind at 1, slift at 1. rewrite Hm. cbn [encoded]. rewrite Hv. cbn [negb]. unfold sbind at 1, restore_blocks, sbind at 1, sget at 1.
    cbn [snd]. rewrite (sf_read_law _ _ f' c bytes Hd Hb). unfold sbind at 1, slift at 1, disk at 1. cbn [on_storage]. rewrite E.
    unfold restore_state, sbind at 1, sget at 1. cbn [snd]. rewrite (sf_read_law _ _ f' c _ Hd Hs). unfold sbind, slift, disk.
    rewrite (proj2 (Nat.ltb_ge _ _)) by (rewrite length_app, !length_to_le_bytes; lia). done.
  - intros k. rewrite Hw, written_blocks by done. assert (Hin : k ∈ heights_upto h <-> 0 <= k <= h).
    { unfold heights_upto. rewrite list_elem_of_fmap. split.
      - intros (n & -> & Hn). apply elem_of_seq in Hn. lia.
      - intros Hk. exists (Z.to_nat k). rewrite elem_of_seq. lia. }
    destruct (decide (k ∈ heights_upto h)); [rewrite decide_True by tauto|rewrite decide_False by tauto]; done.
Qed.

(** ** Migrations *)

(** Migrating an old storage leaves the founder account in place, a second migration changes nothing,
    and a founder account that was there is kept. *)
Theorem migrate_idempotent (now now' v : Z) (w : W) :
  0 <= v ->
  exists w', migrate now v w = (Ok tt, w') /\ migrate now' v w' = (Ok tt, w') /\ bs_blocks w' = bs_blocks w
    /\ bs_accounts w' = (if (v =? 0) && negb (bool_decide (is_Some (bs_accounts w !! FOUNDER_VESTING_ADDRESS)))
                         then <[FOUNDER_VESTING_ADDRESS := with_type System (account_new now FOUNDER_VESTING_ADDRESS FOUNDER_ALLOCATION)]> (bs_accounts w)
                         else bs_accounts w).
Proof.
  intros Hv. unfold migrate, MIGRATION_VERSION. destruct (Z.leb_spec 1 v) as [Hge|Hlt].
  - rewrite (proj2 (Z.eqb_neq _ _)) by lia. by exists w.
  - assert (v = 0) as -> by lia. cbn [Z.sub Z.to_nat]. change (Z.to_nat (1 - 0)) with 1%nat. cbn [migrate_loop].
    change (0 =? 0) with true. cbn [andb].
    unfold sbind, migrate_v0_to_v1, sbind, sget, slift, sret. rewrite bs_exists_law. case_bool_decide as Hs; cbn [negb].
    + exists w. rewrite bs_exists_law, bool_decide_eq_true_2 by done. done.
    + destruct (bs_save_law FOUNDER_VESTING_ADDRESS (with_type System (account_new now FOUNDER_VESTING_ADDRESS FOUNDER_ALLOCATION)) w) as (w1 & E & Ha & Hb).
      exists w1. rewrite E. split; [done|]. rewrite bs_exists_law, Ha, bool_decide_eq_true_2 by (rewrite lookup_insert_eq; by eexists). done.
Qed.
End SnapshotProps.

(** ** Witnesses *)

Section SnapshotWitnesses.
#[local] Existing Instance toy_sha3.

(** A storage of maps, files of maps, and an encoder that knows one block. *)
Record MapStore : Type := mkStore { mp_blocks : gmap Z Block; mp_roots : gmap Z Hash; mp_accounts : gmap Address Account }.
#[local] Instance map_store : BlockStorage MapStore := {
  bs_get_block := fun h w => Ok (mp_blocks w !! h);
  bs_get_state_root := fun h w => Ok (mp_roots w !! h);
  bs_write_batch := fun b w => (Ok tt, mkStore (written (wb_blocks b) (mp_blocks w)) (mp_roots w) (mp_accounts w));
  bs_account_exists := fun a w => Ok (bool_decide (is_Some (mp_accounts w !! a)));
  bs_save_account := fun a x w => (Ok tt, mkStore (mp_blocks w) (mp_roots w) (<[a := x]> (mp_accounts w)))
}.
#[local] Instance map_store_laws : BlockStorageLaws MapStore.
Proof.
  refine {| bs_blocks := mp_blocks; bs_accounts := mp_accounts |}; try done; intros; eexists; (split; [reflexivity|]); done.
Defined.

Abbreviation Files := (gmap string (gmap string (list Z))).
#[local] Instance map_files : SnapshotFiles Files := {
  sf_mkdir := fun d f => (Ok tt, <[d := default ∅ (f !! d)]> f);
  sf_write := fun d n b f => match f !! d with Some c => (Ok tt, <[d := <[n := b]> c]> f) | None => (Err "not found"%string, f) end;
  sf_read := fun d n f => match f !! d ≫= (.!! n) with Some b => Ok b | None => Err "not found"%string end;
  sf_is_dir := fun d f => bool_decide (is_Some (f !! d));
  sf_list := fun f => Ok (map fst (map_to_list f));
  sf_remove_dir := fun d f => (Ok tt, delete d f)
}.
#[local] Instance map_files_laws : SnapshotFilesLaws Files.
Proof.
  refine {| sf_view := fun f => f |}.
  - intros d f. by eexists.
  - intros d n b f c Hd. eexists. cbn. by rewrite Hd.
  - intros d n f c b Hd Hn. cbn. by rewrite Hd; cbn; rewrite Hn.
  - done.
Defined.

Definition plain_block : Block := mkBlock (mkHeader 0 zero_hash zero_hash zero_hash 0 zero_address 0 0 []) [].
#[local] Instance BlockHeader_eq_dec : EqDecision BlockHeader.
Proof. solve_decision. Defined.
#[local] Instance Block_eq_dec : EqDecision Block.
Proof. solve_decision. Defined.
#[local] Instance toy_format : SnapshotFormat.
Proof.
  refine {|
    manifest_to_json := fun m => inr ([mf_version m; mf_height m; mf_timestamp m; mf_total_accounts m; mf_total_supply m;
        Z.of_nat (length (mf_block_hash m)); Z.of_nat (length (mf_state_root m))] ++ mf_block_hash m ++ mf_state_root m ++ mf_checksum m);
    manifest_of_json := fun b => match b with
      | v :: h :: t :: a :: s :: n :: k :: l =>
          inr (mkManifest v h (take (Z.to_nat n) l) (take (Z.to_nat k) (drop (Z.to_nat n) l)) t a s (drop (Z.to_nat k) (drop (Z.to_nat n) l)))
      | _ => inl "invalid"%string end;
    block_to_bytes := fun b => if bool_decide (b = plain_block) then inr [1] else inl "unknown"%string;
    block_of_bytes := fun b => match b with [1] => inr plain_block | _ => inl "unknown"%string end |}.
  - intros m b [= <-]. destruct m as [v h bh sr t a s c]. cbn. rewrite !Nat2Z.id, drop_app_length, !take_app_length, drop_app_length. done.
  - intros x b Hb. case_bool_decide as Hx; [|done]. injection Hb as <-. by subst.
Defined.

Definition old_store : MapStore := mkStore {[0 := plain_block]} {[0 := zero_hash]} ∅.
Lemma snapshot_roundtrip_witness :
  exists w2', restore_from_snapshot 0 (mkStore ∅ ∅ ∅, (create_snapshot 7 0 (old_store, ∅ : Files)).2.2) = (Ok tt, (w2', (create_snapshot 7 0 (old_store, ∅ : Files)).2.2))
    /\ mp_blocks w2' !! 0 = Some plain_block.
Proof.
  set (r := create_snapshot 7 0 (old_store, ∅ : Files)).
  assert (Hr : exists m, r = (Ok m, r.2)) by (eexists; vm_compute; reflexivity). destruct Hr as [m Hr].
  destruct (snapshot_roundtrip 7 0 old_store (mkStore ∅ ∅ ∅) (∅ : Files) m r.2 Hr) as (w2' & E & Hb & _).
  - intros k b Hk. cbn in Hk. apply lookup_singleton_Some in Hk as [<- <-]. reflexivity.
  - assert (Hbl : blocks_at (heights_upto 0) (bs_blocks old_store) = [plain_block]) by (vm_compute; reflexivity).
    rewrite Hbl. constructor; [|constructor]. intros x Hx. assert (x = [1]) as -> by (vm_compute in Hx; congruence). cbn. lia.
  - exists w2'. split; [exact E|]. specialize (Hb 0). cbn in Hb. rewrite decide_True in Hb by lia. exact Hb.
Defined.

Lemma migrate_idempotent_witness : exists w', migrate 3 0 old_store = (Ok tt, w') /\ migrate 4 0 w' = (Ok tt, w').
Proof. destruct (migrate_idempotent 3 4 0 old_store ltac:(lia)) as (w' & H1 & H2 & _). by exists w'. Defined.
End SnapshotWitnesses.
