(* ===== verification/Contracts.v ===== *)
(** * Contracts (src/execution/contract.rs, the storage traits of src/execution/mod.rs)

    [ContractStorage] and [CodeStorage] are traits whose only implementations in the repository
    are empty test doubles: they are interfaces here, with the laws of a map as separate
    classes.  [ContractManager] keeps a cache of metadata over them. *)

From stdpp Require Import strings pretty.
From stdpp Require Import strings.
From S2P Require Import Prelude Hashing Errors Types.
Abbreviation length := List.length.

(** ** Storage interfaces *)

Class CodeStorage (K : Type) : Type := {
  cs_get_code : Address -> K -> option (list Z);
  cs_set_code : Address -> list Z -> K -> K;
  cs_get_code_hash : Address -> K -> option Hash;
  cs_code_exists : Address -> K -> bool
}.
Class CodeStorageLaws (K : Type) `{CodeStorage K} : Type := {
  cs_codes : K -> gmap Address (list Z);
  cs_get_law : forall a k, cs_get_code a k = cs_codes k !! a;
  cs_set_law : forall a c k, cs_codes (cs_set_code a c k) = <[a := c]> (cs_codes k);
  cs_exists_law : forall a k, cs_code_exists a k = bool_decide (is_Some (cs_codes k !! a))
}.

Class ContractStorage (C : Type) : Type := {
  ct_get : Address -> list Z -> C -> option (list Z);
  ct_set : Address -> list Z -> list Z -> C -> C;
  ct_delete : Address -> list Z -> C -> C;
  ct_has : Address -> list Z -> C -> bool
}.
Class ContractStorageLaws (C : Type) `{ContractStorage C} : Type := {
  ct_slots : C -> gmap (Address * list Z) (list Z);
  ct_get_law : forall a k c, ct_get a k c = ct_slots c !! (a, k);
  ct_set_law : forall a k x c, ct_slots (ct_set a k x c) = <[(a, k) := x]> (ct_slots c)
}.

(** ** Metadata *)

Record ContractMetadata : Type := mkMetadata {
  md_address : Address;
  md_owner : Address;
  md_created_at : Z;
  md_created_height : Z;
  md_code_hash : Hash;
  md_code_size : Z;
  is_upgradeable : bool;
  implementation : option Address;
  md_version : Z;
  md_name : option string;
  md_symbol : option string
}.
Definition metadata_new (now : Z) (address owner : Address) (code_hash : Hash) (code_size height : Z) : ContractMetadata :=
  mkMetadata address owner now height code_hash code_size false None 1 None None.
Definition with_implementation (i : option Address) (version : Z) (d : ContractMetadata) : ContractMetadata :=
  mkMetadata (md_address d) (md_owner d) (md_created_at d) (md_created_height d) (md_code_hash d) (md_code_size d)
    (is_upgradeable d) i version (md_name d) (md_symbol d).

Record ContractEvent : Type := mkContractEvent {
  ce_contract : Address;
  event_name : string;
  ce_topics : list Hash;
  ce_data : list Z;
  ce_block_height : Z;
  ce_tx_index : Z;
  ce_log_index : Z
}.

(** [bincode] on metadata: what is written can be read back. *)
Class BincodeMetadata : Type := {
  md_serialize : ContractMetadata -> string + list Z;
  md_deserialize : list Z -> string + ContractMetadata;
  md_bincode_law : forall d b, md_serialize d = inr b -> md_deserialize b = inr d
}.

(** ** Manager *)

Record ContractManager (C K : Type) : Type := mkContracts {
  cm_storage : C;
  cm_code_storage : K;
  metadata_cache : gmap Address ContractMetadata;
  cm_events : list ContractEvent
}.
Arguments mkContracts {C K}.
Arguments cm_storage {C K}.
Arguments cm_code_storage {C K}.
Arguments metadata_cache {C K}.
Arguments cm_events {C K}.

(** [b"contract_metadata:"] *)
Definition METADATA_PREFIX : list Z :=
  [99; 111; 110; 116; 114; 97; 99; 116; 95; 109; 101; 116; 97; 100; 97; 116; 97; 58].
Definition metadata_key (a : Address) : list Z := METADATA_PREFIX ++ a.

Section Contracts.
Context {C K : Type} `{CT : ContractStorage C} `{CS : CodeStorage K} `{BP : BuildProfile} `{KC : Keccak}
  `{BM : BincodeMetadata}.
Abbreviation M := (ST (ContractManager C K) PacyteError).

Definition set_cm_storage (x : C) (m : ContractManager C K) := mkContracts x (cm_code_storage m) (metadata_cache m) (cm_events m).
Definition set_cm_code (x : K) (m : ContractManager C K) := mkContracts (cm_storage m) x (metadata_cache m) (cm_events m).
Definition set_cm_cache x (m : ContractManager C K) : ContractManager C K :=
  mkContracts (cm_storage m) (cm_code_storage m) x (cm_events m).
Definition set_cm_events x (m : ContractManager C K) : ContractManager C K :=
  mkContracts (cm_storage m) (cm_code_storage m) (metadata_cache m) x.

Definition contracts_new (c : C) (k : K) : ContractManager C K := mkContracts c k ∅ [].

Definition hash_code (code : list Z) : Hash := keccak256 code.

Definition save_metadata (a : Address) (d : ContractMetadata) : M unit :=
  match md_serialize d with
  | inr b => smod (fun m => set_cm_storage (ct_set a (metadata_key a) b (cm_storage m)) m)
  | inl e => sfail (PE.SerializationError e)
  end.
Definition cache_metadata (a : Address) (d : ContractMetadata) : M unit :=
  smod (fun m => set_cm_cache (<[a := d]> (metadata_cache m)) m).

Definition deploy (now : Z) (address owner : Address) (code : list Z) (height : Z) : M ContractMetadata :=
  do! exists_already := sget (fun m => cs_code_exists address (cm_code_storage m)) in
  if exists_already : bool then sfail (PE.ContractAlreadyExists address)
  else
    let metadata := metadata_new now address owner (hash_code code) (Z.of_nat (length code)) height in
    run! smod (fun m => set_cm_code (cs_set_code address code (cm_code_storage m)) m) in
    run! save_metadata address metadata in
    run! cache_metadata address metadata in
    sret metadata.

(** The machine is not run. *)
Definition contract_call (address : Address) (input : list Z) : M (list Z) :=
  do! o := sget (fun m => cs_get_code address (cm_code_storage m)) in
  run! slift (ok_or o (PE.ContractNotFound address)) in
  sret [].

Definition get_metadata (a : Address) : M (option ContractMetadata) :=
  do! cached := sget (fun m => metadata_cache m !! a) in
  match cached with
  | Some d => sret (Some d)
  | None =>
      do! o := sget (fun m => ct_get a (metadata_key a) (cm_storage m)) in
      match o with
      | Some b =>
          match md_deserialize b with
          | inr d => run! cache_metadata a d in sret (Some d)
          | inl e => sfail (PE.SerializationError e)
          end
      | None => sret None
      end
  end.

Definition upgrade (proxy new_implementation owner : Address) : M unit :=
  do! o := get_metadata proxy in
  do! metadata := slift (ok_or o (PE.ContractNotFound proxy)) in
  if negb (bool_decide (md_owner metadata = owner)) then sfail (PE.Unauthorized "Not contract owner")
  else if negb (is_upgradeable metadata) then sfail (PE.ContractNotUpgradeable proxy)
  else
    do! known := sget (fun m => cs_code_exists new_implementation (cm_code_storage m)) in
    if negb known then sfail (PE.ContractNotFound new_implementation)
    else
      do! v := slift (arith 32 (md_version metadata + 1)) in
      let metadata' := with_implementation (Some new_implementation) v metadata in
      run! save_metadata proxy metadata' in
      cache_metadata proxy metadata'.

Definition emit_event (e : ContractEvent) : M unit := smod (fun m => set_cm_events (cm_events m ++ [e]) m).

(** [o.map(f).unwrap_or(true)] *)
Definition matches {A} (o : option A) (f : A -> bool) : bool := match o with Some x => f x | None => true end.
Definition get_events (contract : option Address) (name : option string) (from_block to_block : option Z) (limit : nat)
    (m : ContractManager C K) : list ContractEvent :=
  take limit (List.filter (fun e =>
    matches contract (fun c => bool_decide (ce_contract e = c))
    && matches name (fun n => bool_decide (event_name e = n))
    && matches from_block (fun h => h <=? ce_block_height e)
    && matches to_block (fun h => ce_block_height e <=? h)) (cm_events m)).

Definition contract_exists (a : Address) (m : ContractManager C K) : bool := cs_code_exists a (cm_code_storage m).
Definition list_contracts (m : ContractManager C K) : list Address := [].
End Contracts.

(** ** Built-in contracts *)

Module Builtin.
(** Addresses have 32 bytes, so the indices are in range. *)
Definition is_precompile (a : Address) : bool :=
  forallb (fun b => b =? 0) (take 31 a) && (1 <=? nth 31 a 0) && (nth 31 a 0 <=? 9).

Section Execute.
Context `{DG : Digests}.
Definition ec_recover (input : list Z) : PacyteResult (list Z) := Ok [].
Definition sha256_builtin (input : list Z) : PacyteResult (list Z) := Ok (sha256 input).
Definition ripemd160_builtin (input : list Z) : PacyteResult (list Z) := Ok (ripemd160 (sha256 input)).
Definition identity (input : list Z) : PacyteResult (list Z) := Ok input.

Definition execute_precompile (a : Address) (input : list Z) : PacyteResult (list Z) :=
  let n := nth 31 a 0 in
  if n =? 1 then ec_recover input
  else if n =? 2 then sha256_builtin input
  else if n =? 3 then ripemd160_builtin input
  else if n =? 4 then identity input
  else Err (PE.ContractNotFound a).
End Execute.
End Builtin.

(** ** Contracts: what a deployment leaves behind, and that no upgrade is possible *)

Section ContractProps.
Context {C K : Type} `{CT : ContractStorage C} `{CTL : !ContractStorageLaws C} `{CS : CodeStorage K}
  `{CSL : !CodeStorageLaws K} `{BP : BuildProfile} `{KC : Keccak} `{BM : BincodeMetadata}.
Implicit Types m : ContractManager C K.

Lemma get_metadata_cached a d m : metadata_cache m !! a = Some d -> get_metadata a m = (Ok (Some d), m).
Proof. intros H. unfold get_metadata, sbind, sget. by rewrite H. Qed.

Lemma get_metadata_stored a d b m :
  metadata_cache m !! a = None -> ct_slots (cm_storage m) !! (a, metadata_key a) = Some b -> md_deserialize b = inr d ->
  get_metadata a m = (Ok (Some d), set_cm_cache (<[a := d]> (metadata_cache m)) m).
Proof. intros Hc Hs Hd. unfold get_metadata, sbind, sget. by rewrite Hc, ct_get_law, Hs, Hd. Qed.

(** What a successful deployment does. *)
Lemma deploy_ok now a owner code h m b :
  let d := metadata_new now a owner (hash_code code) (Z.of_nat (length code)) h in
  cs_codes (cm_code_storage m) !! a = None -> md_serialize d = inr b ->
  deploy now a owner code h m
  = (Ok d, mkContracts (ct_set a (metadata_key a) b (cm_storage m)) (cs_set_code a code (cm_code_storage m))
             (<[a := d]> (metadata_cache m)) (cm_events m)).
Proof.
  intros d Hfree Hser. unfold deploy, sbind, sget. rewrite cs_exists_law, Hfree.
  rewrite bool_decide_eq_false_2 by (by intros []). cbn zeta. fold d. unfold save_metadata. by rewrite Hser.
Qed.

Lemma deploy_taken now a owner code h m c :
  cs_codes (cm_code_storage m) !! a = Some c -> deploy now a owner code h m = (Err (PE.ContractAlreadyExists a), m).
Proof. intros H. unfold deploy, sbind, sget. rewrite cs_exists_law, H. by rewrite bool_decide_eq_true_2 by eauto. Qed.

(** ** No upgrades *)

(** No metadata, cached or stored, is upgradeable. *)
Definition frozen m : Prop :=
  (forall a d, metadata_cache m !! a = Some d -> is_upgradeable d = false)
  /\ forall a b d, ct_slots (cm_storage m) !! (a, metadata_key a) = Some b -> md_deserialize b = inr d -> is_upgradeable d = false.
Definition freezes m m' : Prop := frozen m -> frozen m'.

#[local] Instance freezes_preorder : PreOrder freezes.
Proof. split; unfold freezes; [by intros ? ?|intros ? ? ? H1 H2 H; auto]. Qed.

Lemma cache_metadata_frozen a d m : is_upgradeable d = false -> frozen m -> frozen (set_cm_cache (<[a := d]> (metadata_cache m)) m).
Proof.
  intros Hd [Hc Hs]. split; [|done]. intros a' d'. cbn. rewrite lookup_insert_Some. intros [[<- <-]|[_ H]]; eauto.
Qed.

Lemma save_metadata_frozen a d b m :
  md_serialize d = inr b -> is_upgradeable d = false -> frozen m ->
  frozen (set_cm_storage (ct_set a (metadata_key a) b (cm_storage m)) m).
Proof.
  intros Hb Hd [Hc Hs]. split; [done|]. intros a' b' d'. cbn. rewrite ct_set_law, lookup_insert_Some.
  intros [[_ <-]|[_ H]]; [|exact (Hs a' b' d' H)]. rewrite (md_bincode_law _ _ Hb). by intros [= <-].
Qed.

Lemma get_metadata_frozen a m :
  frozen m -> frozen (get_metadata a m).2 /\ forall d, (get_metadata a m).1 = Ok (Some d) -> is_upgradeable d = false.
Proof.
  intros Hf. pose proof Hf as [Hc Hs]. unfold get_metadata, sbind, sget.
  destruct (metadata_cache m !! a) as [d|] eqn:Ha; [split; [done|by intros ? [= <-]; eauto]|].
  rewrite ct_get_law. destruct (ct_slots _ !! _) as [b|] eqn:Hb; [|done].
  destruct (md_deserialize b) as [e|d] eqn:Hd; [done|]. cbn. split; [|by intros ? [= <-]; eauto].
  apply cache_metadata_frozen; eauto.
Qed.

Lemma deploy_freezes now a owner code h m : frozen m -> frozen (deploy now a owner code h m).2.
Proof.
  intros Hf. destruct (cs_codes (cm_code_storage m) !! a) as [c|] eqn:Hc; [by rewrite (deploy_taken _ _ _ _ _ _ _ Hc)|].
  set (d := metadata_new now a owner (hash_code code) (Z.of_nat (length code)) h).
  destruct (md_serialize d) as [e|b] eqn:Hser.
  - unfold deploy, sbind, sget. rewrite cs_exists_law, Hc, bool_decide_eq_false_2 by (by intros []).
    cbn zeta. fold d. unfold save_metadata. by rewrite Hser.
  - rewrite (deploy_ok now a owner code h m b Hc Hser). cbn [snd].
    apply (save_metadata_frozen a d b) in Hf; [|done|done]. by apply (cache_metadata_frozen a d) in Hf.
Qed.

(** An upgrade of a frozen manager is refused. *)
Lemma get_metadata_returns a m : (get_metadata a m).1 <> Panic /\ (get_metadata a m).1 <> Deadlock.
Proof.
  unfold get_metadata, sbind, sget. destruct (metadata_cache m !! a); [done|].
  destruct (ct_get _ _ _); [|done]. by destruct (md_deserialize _).
Qed.

Lemma upgrade_frozen p i o m : frozen m -> frozen (upgrade p i o m).2 /\ exists e, (upgrade p i o m).1 = Err e.
Proof.
  intros Hf. destruct (get_metadata_frozen p m Hf) as [Hf' Hd]. destruct (get_metadata_returns p m) as [Hp Hdl].
  unfold upgrade, sbind, slift. destruct (get_metadata p m) as [[[d|]|e| |] m']; cbn [fst snd ok_or] in *; try done; try by eauto.
  rewrite (Hd d eq_refl). destruct (negb _); cbn; eauto.
Qed.

Inductive ContractOp : Type :=
| CDeploy (now : Z) (address owner : Address) (code : list Z) (height : Z)
| CUpgrade (proxy implementation owner : Address)
| CGet (address : Address)
| CEmit (e : ContractEvent).

Definition contract_step (op : ContractOp) m : ContractManager C K :=
  match op with
  | CDeploy now a o c h => (deploy now a o c h m).2
  | CUpgrade p i o => (upgrade p i o m).2
  | CGet a => (get_metadata a m).2
  | CEmit e => (emit_event e m).2
  end.

Lemma contract_step_frozen op m : frozen m -> frozen (contract_step op m).
Proof.
  intros Hf. destruct op; cbn [contract_step].
  - by apply deploy_freezes.
  - by apply upgrade_frozen.
  - by apply get_metadata_frozen.
  - exact Hf.
Qed.

(** Contracts are immutable: whatever is deployed, read and logged over an empty metadata storage,
    every call of [upgrade], by the owner or anyone else, returns an error, since metadata is
    created with [is_upgradeable] unset and no operation sets it. *)
Theorem contract_upgrade_never (ops : list ContractOp) (c : C) (k : K) (proxy new_implementation owner : Address) :
  ct_slots c = ∅ ->
  exists e, (upgrade proxy new_implementation owner (foldl (fun m op => contract_step op m) (contracts_new c k) ops)).1 = Err e.
Proof.
  intros Hc. assert (Hf : frozen (contracts_new c k)).
  { split; cbn; [intros a d H; by rewrite lookup_empty in H|intros a b d; by rewrite Hc, lookup_empty]. }
  revert Hf. generalize (contracts_new c k) as m. induction ops as [|op ops IH]; intros m Hf; cbn [foldl].
  - apply upgrade_frozen, Hf.
  - apply IH, contract_step_frozen, Hf.
Qed.

(** A deployment round-trips: on a free address it returns the metadata, after it the code
    storage holds the code, the metadata is read back in this manager and in one restarted over
    the same storages, and a second deployment at the address is refused and changes nothing.
    If the metadata cannot be serialized the call fails, but the code stays. *)
Theorem contract_deploy_roundtrip (now h : Z) (a owner : Address) (code : list Z) (m : ContractManager C K) :
  cs_codes (cm_code_storage m) !! a = None ->
  let d := metadata_new now a owner (hash_code code) (Z.of_nat (length code)) h in
  let m' := (deploy now a owner code h m).2 in
  cs_get_code a (cm_code_storage m') = Some code
  /\ (deploy now a owner code h m').1 = Err (PE.ContractAlreadyExists a) /\ (deploy now a owner code h m').2 = m'
  /\ match md_serialize d with
     | inr _ => (deploy now a owner code h m).1 = Ok d /\ (get_metadata a m').1 = Ok (Some d)
         /\ (get_metadata a (contracts_new (cm_storage m') (cm_code_storage m'))).1 = Ok (Some d)
     | inl e => (deploy now a owner code h m).1 = Err (PE.SerializationError e)
     end.
Proof.
  intros Hfree d m'. destruct (md_serialize d) as [e|b] eqn:Hser.
  - assert (E : deploy now a owner code h m = (Err (PE.SerializationError e), set_cm_code (cs_set_code a code (cm_code_storage m)) m)).
    { unfold deploy, sbind, sget. rewrite cs_exists_law, Hfree, bool_decide_eq_false_2 by (by intros []).
      cbn zeta. fold d. unfold save_metadata. by rewrite Hser. }
    unfold m'. rewrite E. cbn [fst snd cm_code_storage set_cm_code].
    assert (Hcode : cs_codes (cs_set_code a code (cm_code_storage m)) !! a = Some code) by (by rewrite cs_set_law, lookup_insert_eq).
    rewrite cs_get_law, Hcode. by rewrite (deploy_taken _ _ _ _ _ _ code).
  - pose proof (deploy_ok now a owner code h m b Hfree Hser) as E. unfold m'. rewrite E. cbn [fst snd].
    set (m1 := mkContracts _ _ _ _).
    assert (Hcode : cs_codes (cm_code_storage m1) !! a = Some code) by (cbn; by rewrite cs_set_law, lookup_insert_eq).
    rewrite cs_get_law, Hcode, (deploy_taken _ _ _ _ _ _ code) by done.
    rewrite (get_metadata_cached a d m1) by apply lookup_insert_eq.
    rewrite (get_metadata_stored a d b) by (done || (cbn; by rewrite ct_set_law, lookup_insert_eq) || by apply md_bincode_law). done.
Qed.
End ContractProps.

(** ** Concrete storages *)

#[export] Instance map_code_storage : CodeStorage (gmap Address (list Z)) := {|
  cs_get_code a k := k !! a;
  cs_set_code a c k := <[a := c]> k;
  cs_get_code_hash a k := None;
  cs_code_exists a k := bool_decide (is_Some ((k : gmap Address (list Z)) !! a))
|}.
#[export] Program Instance map_code_laws : CodeStorageLaws (gmap Address (list Z)) := {| cs_codes k := k |}.
Solve All Obligations with done.

#[export] Instance map_contract_storage : ContractStorage (gmap (Address * list Z) (list Z)) := {|
  ct_get a k c := c !! (a, k);
  ct_set a k x c := <[(a, k) := x]> c;
  ct_delete a k c := delete (a, k) c;
  ct_has a k c := bool_decide (is_Some ((c : gmap (Address * list Z) (list Z)) !! (a, k)))
|}.
#[export] Program Instance map_contract_laws : ContractStorageLaws (gmap (Address * list Z) (list Z)) := {| ct_slots c := c |}.
Solve All Obligations with done.

Section ContractWitnesses.
#[local] Existing Instance release_profile.
#[local] Existing Instance toy_keccak.
(** A format for metadata of one kind: creation time, height and code size, at most once upgraded. *)
Definition plain_serialize (d : ContractMetadata) : string + list Z :=
  if bool_decide (md_address d = [] /\ md_owner d = [] /\ is_upgradeable d = false /\ implementation d = None
                  /\ md_version d = 1 /\ md_name d = None /\ md_symbol d = None)
  then inr ([md_created_at d; md_created_height d; md_code_size d] ++ md_code_hash d) else inl "unsupported"%string.
Definition plain_deserialize (b : list Z) : string + ContractMetadata :=
  match b with
  | t :: h :: n :: hash => inr (mkMetadata [] [] t h hash n false None 1 None None)
  | _ => inl "unexpected end of file"%string
  end.
Lemma plain_law d b : plain_serialize d = inr b -> plain_deserialize b = inr d.
Proof.
  unfold plain_serialize. case_bool_decide as H; [|done]. destruct H as (? & ? & ? & ? & ? & ? & ?). destruct d; cbn in *; subst.
  intros [= <-]. done.
Qed.
#[local] Instance plain_format : BincodeMetadata :=
  {| md_serialize := plain_serialize; md_deserialize := plain_deserialize; md_bincode_law := plain_law |}.

Definition empty_contracts : ContractManager (gmap (Address * list Z) (list Z)) (gmap Address (list Z)) := contracts_new ∅ ∅.

Lemma contract_upgrade_never_witness :
  exists e, (upgrade [] [1] [] (contract_step (CDeploy 5 [] [] [0; 1] 9) empty_contracts)).1 = Err e.
Proof. exact (contract_upgrade_never [CDeploy 5 [] [] [0; 1] 9] ∅ ∅ [] [1] [] eq_refl). Defined.

Lemma contract_deploy_roundtrip_witness :
  let m' := (deploy 5 [] [] [0; 1] 9 empty_contracts).2 in
  cs_get_code [] (cm_code_storage m') = Some [0; 1].
Proof. exact (proj1 (contract_deploy_roundtrip 5 9 [] [] [0; 1] empty_contracts eq_refl)). Defined.
End ContractWitnesses.
