(* ===== verification/Executor.v ===== *)
(** * The transaction executor (src/execution/executor.rs, the contexts of src/execution/mod.rs)

    [TransactionExecutor] validates a transaction, then moves money through the vault or runs the
    virtual machine.  As in [main], the vault and the executor hold one state manager, the
    vault's; on top of it the executor keeps a cache of accounts of its own.  The context is
    mutated through [&mut], so it is part of the state of a call. *)

From stdpp Require Import strings pretty.
From S2P Require Import Prelude Hashing Errors Types Merkle Block Gas VM State Burn Vault Contracts.
Abbreviation length := List.length.

(** ** Contexts and results *)

Record Log : Type := mkLog {
  log_address : Address; log_topics : list Hash; log_data : list Z; log_height : Z; log_tx_index : Z; log_index : Z
}.
Record StateChange : Type := mkChange {
  ch_address : Address; ch_key : list Z; old_value : list Z; new_value : list Z
}.
Record Event : Type := mkEvent {
  ev_contract : Address; ev_name : string; ev_data : list Z; ev_topics : list Hash
}.

Record ExecutionContext : Type := mkContext {
  cx_block_height : Z;
  cx_block_timestamp : Z;
  cx_block_hash : Hash;
  cx_tx_index : Z;
  cx_origin : Address;
  cx_gas_limit : Z;
  cx_gas_used : Z;
  cx_logs : list Log;
  cx_state_changes : list StateChange;
  cx_events : list Event
}.
Definition context_new (block_height block_timestamp : Z) (origin : Address) (gas_limit : Z) : ExecutionContext :=
  mkContext block_height block_timestamp zero_hash 0 origin gas_limit 0 [] [] [].
Definition set_gas (limit used : Z) (c : ExecutionContext) : ExecutionContext :=
  mkContext (cx_block_height c) (cx_block_timestamp c) (cx_block_hash c) (cx_tx_index c) (cx_origin c) limit used
    (cx_logs c) (cx_state_changes c) (cx_events c).
Definition set_position (h : Hash) (i : Z) (c : ExecutionContext) : ExecutionContext :=
  mkContext (cx_block_height c) (cx_block_timestamp c) h i (cx_origin c) (cx_gas_limit c) (cx_gas_used c)
    (cx_logs c) (cx_state_changes c) (cx_events c).
Definition add_log (l : Log) (c : ExecutionContext) : ExecutionContext :=
  mkContext (cx_block_height c) (cx_block_timestamp c) (cx_block_hash c) (cx_tx_index c) (cx_origin c) (cx_gas_limit c)
    (cx_gas_used c) (cx_logs c ++ [l]) (cx_state_changes c) (cx_events c).
Definition add_state_change (x : StateChange) (c : ExecutionContext) : ExecutionContext :=
  mkContext (cx_block_height c) (cx_block_timestamp c) (cx_block_hash c) (cx_tx_index c) (cx_origin c) (cx_gas_limit c)
    (cx_gas_used c) (cx_logs c) (cx_state_changes c ++ [x]) (cx_events c).
Definition cx_emit_event (e : Event) (c : ExecutionContext) : ExecutionContext :=
  mkContext (cx_block_height c) (cx_block_timestamp c) (cx_block_hash c) (cx_tx_index c) (cx_origin c) (cx_gas_limit c)
    (cx_gas_used c) (cx_logs c) (cx_state_changes c) (cx_events c ++ [e]).
Definition remaining_gas (c : ExecutionContext) : Z := saturating_sub (cx_gas_limit c) (cx_gas_used c).

Record ExecutionResult : Type := mkResult {
  er_success : bool;
  er_gas_used : Z;
  er_gas_refund : Z;
  er_return_data : list Z;
  er_logs : list Log;
  er_state_changes : list StateChange;
  er_events : list Event;
  er_error : option ExecutionError
}.
Definition result_success (gas : Z) (data : list Z) : ExecutionResult := mkResult true gas 0 data [] [] [] None.
Definition result_failure (e : ExecutionError) (gas : Z) : ExecutionResult := mkResult false gas 0 [] [] [] [] (Some e).
Definition with_logs (l : list Log) (r : ExecutionResult) : ExecutionResult :=
  mkResult (er_success r) (er_gas_used r) (er_gas_refund r) (er_return_data r) l (er_state_changes r) (er_events r) (er_error r).
Definition with_events (l : list Event) (r : ExecutionResult) : ExecutionResult :=
  mkResult (er_success r) (er_gas_used r) (er_gas_refund r) (er_return_data r) (er_logs r) (er_state_changes r) l (er_error r).
Definition with_state_changes (l : list StateChange) (r : ExecutionResult) : ExecutionResult :=
  mkResult (er_success r) (er_gas_used r) (er_gas_refund r) (er_return_data r) (er_logs r) l (er_events r) (er_error r).

(** [e.to_string()]; the reason of a revert is UTF-8. *)
Definition bytes_string (l : list Z) : string :=
  fold_right (fun b s => String (Ascii.ascii_of_nat (Z.to_nat b)) s) EmptyString l.
Definition error_to_string (e : ExecutionError) : string :=
  match e with
  | OutOfGas u l => "Out of gas: used " +:+ pretty u +:+ ", limit " +:+ pretty l
  | Revert r => "Contract reverted: " +:+ bytes_string r
  | InvalidOpcode b => "Invalid opcode: " +:+ pretty b
  | StackOverflow => "Stack overflow"
  | StackUnderflow => "Stack underflow"
  | InvalidJump => "Invalid jump destination"
  | CallDepthExceeded => "Contract call depth exceeded"
  | ContractNotFound a => "Contract not found: " +:+ debug_bytes a
  | InvalidSignature => "Invalid signature"
  | NonceTooLow x y => "Nonce too low: expected " +:+ pretty x +:+ ", got " +:+ pretty y
  | InsufficientBalance x y => "Insufficient balance: required " +:+ pretty x +:+ ", available " +:+ pretty y
  | Other s => "Execution error: " +:+ s
  end%string.
(** [From<ExecutionError> for PacyteError]. *)
Definition from_execution (e : ExecutionError) : PacyteError := PE.ExecutionError (error_to_string e).

(** ** Executor *)

Record TransactionExecutor (W K : Type) : Type := mkExecutor {
  x_vault : VaultManager W;
  x_code : K;
  x_cache : gmap Address Account
}.
Arguments mkExecutor {W K}.
Arguments x_vault {W K}.
Arguments x_code {W K}.
Arguments x_cache {W K}.

Section Addresses.
Context `{KC : Keccak}.
(** The first twelve bytes stay zero. *)
Definition last_twenty (h : Hash) : Address := replicate 12 0 ++ drop 12 h.
Definition generate_contract_address (sender : Address) (nonce : Z) : Address :=
  last_twenty (keccak256 (sender ++ to_be_bytes 8 nonce)).
Definition generate_contract_address2 (sender salt : list Z) (init_code_hash : Hash) : Address :=
  last_twenty (keccak256 ([255] ++ sender ++ salt ++ init_code_hash)).
End Addresses.

Section Executor.
Context {W K : Type} `{St : Storage W} `{CS : CodeStorage K} `{BP : BuildProfile} `{S3 : Sha3} `{KC : Keccak}
  `{BA : BincodeAccount} `{Iter : !HashMapIter Address Account}.
Abbreviation X := (TransactionExecutor W K).
Abbreviation M := (ST (X * ExecutionContext) PacyteError).

Definition set_x_vault (v : VaultManager W) (x : X) : X := mkExecutor v (x_code x) (x_cache x).
Definition set_x_code (k : K) (x : X) : X := mkExecutor (x_vault x) k (x_cache x).
Definition set_x_cache (c : gmap Address Account) (x : X) : X := mkExecutor (x_vault x) (x_code x) c.

Definition executor_new (v : VaultManager W) (k : K) : X := mkExecutor v k ∅.

Definition on_vault {A} (c : ST (VaultManager W) PacyteError A) : ST X PacyteError A :=
  fun x => let '(r, v) := c (x_vault x) in (r, set_x_vault v x).
Definition on_executor {A} (c : ST X PacyteError A) : M A :=
  fun p => let '(r, x) := c p.1 in (r, (x, p.2)).

(** The executor's own cache comes first. *)
Definition x_get_account (a : Address) : ST X PacyteError (option Account) :=
  do! cached := sget (fun x => x_cache x !! a) in
  match cached with
  | Some y => sret (Some y)
  | None =>
      do! o := on_vault (on_state (get_account a)) in
      run! (match o with
            | Some y => smod (fun x => set_x_cache (<[a := y]> (x_cache x)) x)
            | None => sret tt
            end) in
      sret o
  end.
Definition x_set_account (a : Address) (y : Account) : ST X PacyteError unit :=
  run! smod (fun x => set_x_cache (<[a := y]> (x_cache x)) x) in
  on_vault (on_state (set_account a y)).

(** [context.use_gas(amount)] *)
Definition cx_use_gas (n : Z) : M bool :=
  do! c := sget snd in
  do! total := slift (add_u64 (cx_gas_used c) n) in
  if cx_gas_limit c <? total then sret false
  else
    do! total := slift (add_u64 (cx_gas_used c) n) in
    run! smod (fun p => (p.1, set_gas (cx_gas_limit p.2) total p.2)) in
    sret true.

(** [vm.run()] for a new machine, with its gas afterwards.  The fuel suffices for every limit
    the machine can meet; a loop that did not end would not return either. *)
Definition vm_execute (code : list Z) (gas : Z) : Outcome ExecutionError (list Z) * Z :=
  match run (S (S (Z.to_nat gas))) (vm_new code gas) with
  | Some (r, v) => (r, vm_gas_used v)
  | None => (Deadlock, 0)
  end.

Definition x_code_exists (a : Address) : M bool := sget (fun p => cs_code_exists a (x_code p.1)).

Definition validate_transaction (tx : Transaction) : M unit :=
  do! o := on_executor (x_get_account (tx_from tx)) in
  do! from_account := slift (ok_or o (from_execution (ContractNotFound (tx_from tx)))) in
  if tx_nonce tx <? acc_nonce from_account then
    sfail (from_execution (NonceTooLow (acc_nonce from_account) (tx_nonce tx)))
  else
    let total_cost := saturating_add 128 (amount tx) (fee tx) in
    if balance from_account <? total_cost then
      sfail (from_execution (InsufficientBalance total_cost (balance from_account)))
    else
      do! is_code := x_code_exists (tx_to tx) in
      do! intrinsic := slift (intrinsic_gas default_calculator tx is_code) in
      do! limit := sget (fun p => cx_gas_limit p.2) in
      (* [tx.fee as u64 / context.gas_limit], whose value is not used *)
      run! slift (if limit =? 0 then Panic else Ok (cast 64 (fee tx) / limit)) in
      smod (fun p => (p.1, set_gas (Z.max limit intrinsic) (cx_gas_used p.2) p.2)).

Definition out_of_gas : M ExecutionResult :=
  do! c := sget snd in sret (result_failure (OutOfGas (cx_gas_used c) (cx_gas_limit c)) (cx_gas_used c)).

(** The nonce of the sender as the executor sees it, and what else changes in its account. *)
Definition bump_nonce (from : Address) (change : Account -> Account) : M unit :=
  do! o := on_executor (x_get_account from) in
  match o with
  | None => slift Panic
  | Some y =>
      do! n := slift (add_u64 (acc_nonce y) 1) in
      on_executor (x_set_account from (change (with_nonce n y)))
  end.

Definition x_execute_transfer (now : Z) (tx : Transaction) : M ExecutionResult :=
  do! intrinsic := slift (intrinsic_gas default_calculator tx false) in
  do! granted := cx_use_gas intrinsic in
  if negb granted then out_of_gas
  else
    run! on_executor (on_vault (transfer now (tx_from tx) (tx_to tx) (amount tx) (fee tx))) in
    run! bump_nonce (tx_from tx) id in
    do! c := sget snd in
    sret (result_success (cx_gas_used c) []).

(** The machine runs with the gas left; what it used is charged to the context.  A panic of the
    machine unwinds through the executor. *)
Definition run_vm {A} (code : list Z) (ok : list Z -> M A) (err : ExecutionError -> M A) : M A :=
  do! c := sget snd in
  let '(r, gas) := vm_execute code (remaining_gas c) in
  match r with
  | Ok data => run! cx_use_gas gas in ok data
  | Err e => run! cx_use_gas gas in err e
  | Panic => slift Panic
  | Deadlock => slift Deadlock
  end.

Definition failed (e : ExecutionError) : M ExecutionResult :=
  do! c := sget snd in sret (result_failure e (cx_gas_used c)).

Definition execute_contract_call (now : Z) (tx : Transaction) : M ExecutionResult :=
  do! o := sget (fun p => cs_get_code (tx_to tx) (x_code p.1)) in
  do! code := slift (ok_or o (from_execution (ContractNotFound (tx_to tx)))) in
  do! intrinsic := slift (intrinsic_gas default_calculator tx false) in
  do! granted := cx_use_gas intrinsic in
  if negb granted then out_of_gas
  else
    run! (if 0 <? amount tx
          then run! on_executor (on_vault (transfer now (tx_from tx) (tx_to tx) (amount tx) 0)) in sret tt
          else sret tt) in
    run_vm code
      (fun data =>
         run! bump_nonce (tx_from tx) id in
         do! c := sget snd in
         sret (result_success (cx_gas_used c) data))
      failed.

Definition contract_account (a : Address) (b t : Z) : Account := mkAccount a b 1 0 t t false false None User.

(** The signature is run as the init code. *)
Definition execute_contract_creation (tx : Transaction) : M ExecutionResult :=
  do! intrinsic := slift (intrinsic_gas default_calculator tx true) in
  do! granted := cx_use_gas intrinsic in
  if negb granted then out_of_gas
  else
    let address := generate_contract_address (tx_from tx) (tx_nonce tx) in
    run_vm (signature tx)
      (fun runtime_code =>
         run! smod (fun p => (set_x_code (cs_set_code address runtime_code (x_code p.1)) p.1, p.2)) in
         run! bump_nonce (tx_from tx) (fun y =>
           with_balance (saturating_sub (saturating_sub (balance y) (amount tx)) (fee tx)) y) in
         do! c := sget snd in
         run! on_executor (x_set_account address (contract_account address (amount tx) (cx_block_timestamp c))) in
         sret (result_success (cx_gas_used c) address))
      failed.

Definition execute_transaction (now : Z) (tx : Transaction) : M ExecutionResult :=
  run! validate_transaction tx in
  do! is_code := x_code_exists (tx_to tx) in
  if is_code : bool then execute_contract_call now tx
  else if bool_decide (tx_to tx = zero_address) then execute_contract_creation tx
  else x_execute_transfer now tx.

(** Reads only: the executor is not changed. *)
Definition call_contract (contract : Address) (input : list Z) (caller : Address) (gas_limit : Z) (x : X) :
  PacyteResult ExecutionResult :=
  let? code := ok_or (cs_get_code contract (x_code x)) (from_execution (ContractNotFound contract)) in
  match vm_execute code gas_limit with
  | (Ok data, gas) => Ok (result_success gas data)
  | (Err e, gas) => Ok (result_failure e gas)
  | (Panic, _) => Panic
  | (Deadlock, _) => Deadlock
  end.

Definition deploy_contract (code : list Z) (deployer : Address) (gas_limit : Z) : M (Address * ExecutionResult) :=
  match vm_execute code gas_limit with
  | (Ok runtime_code, gas) =>
      do! c := sget snd in
      let address := generate_contract_address deployer (cast 64 (cx_tx_index c)) in
      run! smod (fun p => (set_x_code (cs_set_code address runtime_code (x_code p.1)) p.1, p.2)) in
      sret (address, result_success gas address)
  | (Err e, gas) => sret (zero_address, result_failure e gas)
  | (Panic, _) => slift Panic
  | (Deadlock, _) => slift Deadlock
  end.

Definition x_estimate_gas (tx : Transaction) (x : X) : PacyteResult Z :=
  estimate_gas default_calculator tx (bool_decide (tx_to tx = zero_address) || cs_code_exists (tx_to tx) (x_code x)).

(** ** Blocks *)

Record BlockExecutionResult : Type := mkBlockResult {
  br_block_height : Z;
  br_block_hash : Hash;
  br_transaction_count : Z;
  br_total_gas_used : Z;
  br_total_fees : Z;
  br_results : list ExecutionResult;
  br_logs : list Log;
  br_events : list Event
}.

Definition BLOCK_GAS_LIMIT : Z := 10000000.
Definition block_context (height timestamp : Z) (hash : Hash) (i : Z) (tx : Transaction) : ExecutionContext :=
  set_position hash i (context_new height timestamp (tx_from tx) BLOCK_GAS_LIMIT).

Record BlockTotals : Type := mkTotals {
  bt_results : list ExecutionResult; bt_gas : Z; bt_fees : Z; bt_logs : list Log; bt_events : list Event
}.

(** The transactions in order, each in a context of its own, up to the first that fails. *)
Fixpoint execute_transactions (now height timestamp : Z) (hash : Hash) (i : Z) (txs : list Transaction) (t : BlockTotals) :
  ST X PacyteError BlockTotals :=
  match txs with
  | [] => sret t
  | tx :: txs =>
      do! result := (fun x => let '(r, p) := execute_transaction now tx (x, block_context height timestamp hash i tx) in (r, p.1)) in
      do! gas := slift (add_u64 (bt_gas t) (er_gas_used result)) in
      do! fees := slift (add_u128 (bt_fees t) (fee tx)) in
      let t' := mkTotals (bt_results t ++ [result]) gas fees (bt_logs t ++ er_logs result) (bt_events t ++ er_events result) in
      if negb (er_success result) then sret t' else execute_transactions now height timestamp hash (i + 1) txs t'
  end.

Definition execute_block (now : Z) (txs : list Transaction) (height timestamp : Z) (hash : Hash) : ST X PacyteError BlockExecutionResult :=
  do! t := execute_transactions now height timestamp hash 0 txs (mkTotals [] 0 0 [] []) in
  sret (mkBlockResult height hash (Z.of_nat (length (bt_results t))) (bt_gas t) (bt_fees t) (bt_results t) (bt_logs t) (bt_events t)).
End Executor.
