(* ===== verification/ExecutorProps.v ===== *)
(** * The executor: gas, blocks, and the account it writes back

    Gas stays within its limit and a block reports exactly what it executed.  The executor's
    own account cache is filled before the vault moves the money and written back after it, so a
    transfer leaves the sender's balance as it was. *)

From stdpp Require Import strings.
From S2P Require Import Prelude Floats Hashing Errors Types Merkle Block Gas VM State StateProps Burn Vault VaultProps Contracts Executor.
Abbreviation length := List.length.

Section ExecutorProps.
Context {W K : Type} `{St : Storage W} `{Laws : !StorageLaws W} `{CS : CodeStorage K} `{BP : BuildProfile} `{S3 : Sha3}
  `{KC : Keccak} `{BA : BincodeAccount} `{Iter : !HashMapIter Address Account}.
Abbreviation X := (TransactionExecutor W K).
Implicit Types x : X.

(** ** Gas *)

(** The gas used is within the limit, and the limit is at most [B]. *)
Definition gas_in_limit (B : Z) (c : ExecutionContext) : Prop := cx_gas_used c <= cx_gas_limit c <= B.
Definition gas_kept (B : Z) (p p' : X * ExecutionContext) : Prop := gas_in_limit B p.2 -> gas_in_limit B p'.2.
(** No transaction raises the limit above [B]. *)
Definition intrinsic_below (B : Z) (tx : Transaction) : Prop :=
  forall creation i, intrinsic_gas (E:=PacyteError) default_calculator tx creation = Ok i -> i <= B.

#[local] Instance gas_kept_preorder B : PreOrder (gas_kept B).
Proof. split; unfold gas_kept; [by intros ? ?|intros ? ? ? H1 H2 H; auto]. Qed.

Lemma on_executor_gas {A} B (c : ST X PacyteError A) : keeps (gas_kept B) (on_executor c).
Proof. intros [x cx] r p'. unfold on_executor. cbn. destruct (c x). intros Heq. assert (E : p'.2 = cx) by (by injection Heq as _ <-). unfold gas_kept. by rewrite E. Qed.

Lemma cx_use_gas_keeps B n : keeps (gas_kept B) (cx_use_gas (W:=W) (K:=K) n).
Proof.
  intros [x c] r p'. unfold cx_use_gas, sbind, sget, slift. cbn [snd].
  destruct (add_u64 _ n) as [t| | |]; [|intros [= <- <-]; reflexivity..].
  destruct (Z.ltb_spec (cx_gas_limit c) t) as [|Hle]; [intros [= <- <-]; reflexivity|].
  unfold smod, sret. cbn. intros Heq [_ HB]. assert (E : p'.2 = set_gas (cx_gas_limit c) t c) by (by injection Heq as _ <-).
  unfold gas_in_limit in *. rewrite E. cbn in *. lia.
Qed.

Lemma run_vm_gas {A} B code (ok : list Z -> ST (X * ExecutionContext) PacyteError A) err :
  (forall d, keeps (gas_kept B) (ok d)) -> (forall e, keeps (gas_kept B) (err e)) -> keeps (gas_kept B) (run_vm code ok err).
Proof.
  intros Hok Herr. unfold run_vm. apply keeps_bind; [apply _|keeps_leaf|]. intros c.
  destruct (vm_execute code (remaining_gas c)) as [[] gas]; try keeps_leaf; apply keeps_bind; auto using cx_use_gas_keeps; apply _.
Qed.

Lemma bump_nonce_gas B from f : keeps (gas_kept B) (bump_nonce (W:=W) (K:=K) from f).
Proof.
  unfold bump_nonce. apply keeps_bind; [apply _|apply on_executor_gas|]. intros [y|]; [|keeps_leaf].
  apply keeps_bind; [apply _|keeps_leaf|]. intros n. apply on_executor_gas.
Qed.

Lemma validate_gas B tx : intrinsic_below B tx -> keeps (gas_kept B) (validate_transaction (W:=W) (K:=K) tx).
Proof.
  intros HB. unfold validate_transaction. apply keeps_bind; [apply _|apply on_executor_gas|]. intros o.
  apply keeps_bind; [apply _|keeps_leaf|]. intros f. destruct (_ <? _); [keeps_leaf|]. cbn zeta. destruct (_ <? _); [keeps_leaf|].
  apply keeps_bind; [apply _|keeps_leaf|]. intros b. intros [y c] r p'. unfold sbind at 1, slift at 1.
  destruct (intrinsic_gas default_calculator tx b) as [i| | |] eqn:Hi; [|intros [= <- <-]; reflexivity..].
  specialize (HB _ _ Hi). intros Heq. unfold sbind, sget, slift, smod in Heq. cbn [snd] in Heq.
  destruct (cx_gas_limit c =? 0); [injection Heq as <- <-; reflexivity|]. injection Heq as <- <-.
  intros [Hu Hl]. unfold gas_in_limit. cbn in *. lia.
Qed.

(** Closes [keeps (gas_kept B)] of the rest of a call. *)
Ltac keeps_gas :=
  repeat first [ progress cbn zeta | apply on_executor_gas | apply cx_use_gas_keeps | apply bump_nonce_gas | apply validate_gas; assumption
               | apply run_vm_gas; intros ? | apply keeps_bind; [apply _| |intros ?] | keeps_leaf
               | match goal with |- keeps _ (if ?b then _ else _) => destruct b end
               | apply keeps_smod; intros ?; exact (fun H => H) ].

Lemma execute_transaction_gas B now tx : intrinsic_below B tx -> keeps (gas_kept B) (execute_transaction (W:=W) (K:=K) now tx).
Proof.
  intros HB. unfold execute_transaction, x_code_exists, execute_contract_call, execute_contract_creation, x_execute_transfer, out_of_gas, failed.
  keeps_gas.
Qed.

(** The gas of a result is the gas of the context. *)
Definition reports (c : ST (X * ExecutionContext) PacyteError ExecutionResult) : Prop :=
  forall p r p', c p = (Ok r, p') -> er_gas_used r = cx_gas_used p'.2.

Lemma reports_bind {A} (c : ST _ _ A) k : (forall a, reports (k a)) -> reports (sbind c k).
Proof. intros H p r p'. unfold sbind. destruct (c p) as [[a| | |] p1]; [apply H|done..]. Qed.
Lemma reports_final f :
  (forall c, er_gas_used (f c) = cx_gas_used c) -> reports (do! c := sget snd in sret (f c)).
Proof. intros H p r p'. unfold sbind, sget, sret. intros Heq. assert (r = f p.2 /\ p' = p) as [-> ->] by (split; congruence). apply H. Qed.
Lemma reports_after_set (c : ExecutionContext -> ST X PacyteError unit) f :
  (forall c, er_gas_used (f c) = cx_gas_used c) -> reports (do! cx := sget snd in run! on_executor (c cx) in sret (f cx)).
Proof.
  intros H [x cx] r p'. unfold sbind, sget, on_executor, sret. cbn [fst snd]. destruct (c cx x) as [[u| | |] x1]; [|done..].
  intros Heq. assert (r = f cx /\ p' = (x1, cx)) as [-> ->] by (split; congruence). apply H.
Qed.
Lemma reports_run_vm code ok err : (forall d, reports (ok d)) -> (forall e, reports (err e)) -> reports (run_vm code ok err).
Proof.
  intros Hok Herr. unfold run_vm. apply reports_bind. intros c.
  destruct (vm_execute code (remaining_gas c)) as [[d|e| |] gas]; [apply reports_bind; auto..| |];
    intros p r p' Heq; unfold slift in Heq; congruence.
Qed.

Lemma execute_transaction_reports now tx : reports (execute_transaction now tx).
Proof.
  assert (Hfail : forall e, reports (failed e)) by (intros e; unfold failed; by apply reports_final).
  assert (Hout : reports out_of_gas) by (unfold out_of_gas; by apply reports_final).
  unfold execute_transaction. apply reports_bind. intros _. apply reports_bind. intros [].
  - unfold execute_contract_call. repeat (apply reports_bind; intros ?). destruct (negb _); [done|].
    apply reports_bind. intros _. apply reports_run_vm; [|done]. intros d. apply reports_bind. intros _. by apply reports_final.
  - case_bool_decide.
    + unfold execute_contract_creation. repeat (apply reports_bind; intros ?). destruct (negb _); [done|]. cbn zeta.
      apply reports_run_vm; [|done]. intros d. apply reports_bind. intros _. apply reports_bind. intros _.
      apply (reports_after_set (fun cx => x_set_account _ (contract_account _ _ (cx_block_timestamp cx)))
               (fun cx => result_success (cx_gas_used cx) _)). done.
    + unfold x_execute_transfer. repeat (apply reports_bind; intros ?). destruct (negb _); [done|].
      apply reports_bind. intros _. apply reports_bind. intros _. by apply reports_final.
Qed.

(** ** Blocks *)

Lemma arith_mod {E} w z r : 0 <= w -> arith (E:=E) w z = Ok r -> r = z mod 2 ^ w.
Proof.
  intros Hw. unfold arith. case_decide as Hf; [|destruct overflow_checks; congruence].
  intros [= <-]. symmetry. by apply Z.mod_small.
Qed.

(** What the loop adds to its totals: a result for every transaction up to the first failure. *)
Definition executed (B : Z) (txs : list Transaction) (rs : list ExecutionResult) : Prop :=
  (length rs <= length txs)%nat
  /\ Forall (fun r => er_success r = true) (removelast rs)
  /\ ((length rs < length txs)%nat -> exists r, last rs = Some r /\ er_success r = false)
  /\ Forall (fun r => er_gas_used r <= B) rs.

Lemma executed_cons B tx txs r rs :
  er_success r = true -> er_gas_used r <= B -> executed B txs rs -> executed B (tx :: txs) (r :: rs).
Proof.
  intros Hr Hg (Hl & Hs & Hlast & HB). unfold executed. cbn [length]. split_and!; [lia| | |by constructor].
  - destruct rs; cbn in *; [done|by constructor].
  - intros Hlt. destruct Hlast as (r' & Hr' & Hf); [lia|]. exists r'. split; [|done]. destruct rs; [done|exact Hr'].
Qed.

Lemma execute_transactions_spec B now height timestamp hash txs : forall i t x t' x',
  BLOCK_GAS_LIMIT <= B -> Forall (intrinsic_below B) txs -> fits 64 (bt_gas t) -> fits 128 (bt_fees t) ->
  execute_transactions now height timestamp hash i txs t x = (Ok t', x') ->
  exists rs, bt_results t' = bt_results t ++ rs /\ executed B txs rs
    /\ bt_gas t' = (bt_gas t + list_sum (map er_gas_used rs)) mod 2 ^ 64
    /\ bt_fees t' = (bt_fees t + list_sum (map fee (take (length rs) txs))) mod 2 ^ 128.
Proof.
  induction txs as [|tx txs IH]; intros i t x t' x' HB Htx Hfg Hff.
  { intros [= <- <-]. exists []. rewrite app_nil_r. cbn. rewrite !Z.add_0_r, !Z.mod_small by done. unfold executed. cbn.
    split_and!; try done. lia. }
  inversion_clear Htx as [|? ? Hin Htxs]. cbn [execute_transactions]. unfold sbind at 1.
  set (cx := block_context height timestamp hash i tx).
  destruct (execute_transaction now tx (x, cx)) as [[r| | |] p] eqn:Hx; [|done..].
  pose proof (execute_transaction_reports _ _ _ _ _ Hx) as Hrep.
  pose proof (execute_transaction_gas B now tx Hin _ _ _ Hx) as Hgas.
  assert (Hr : er_gas_used r <= B).
  { destruct Hgas as [Hu Hl]; [unfold gas_in_limit; cbn; unfold BLOCK_GAS_LIMIT in *; lia|]. lia. }
  unfold sbind at 1, slift at 1. destruct (add_u64 (bt_gas t) (er_gas_used r)) as [g| | |] eqn:Hg; [|done..].
  unfold sbind at 1, slift at 1. destruct (add_u128 (bt_fees t) (fee tx)) as [f| | |] eqn:Hf; [|done..].
  pose proof (arith_ok_range 64 _ _ ltac:(lia) Hg) as Hg64. pose proof (arith_ok_range 128 _ _ ltac:(lia) Hf) as Hf128.
  apply arith_mod in Hg, Hf; [|lia..]. cbn zeta. destruct (er_success r) eqn:Hs; cbn [negb].
  - intros Hrest. apply IH in Hrest as (rs & Hrs & Hexec & Hgs & Hfs); [|done..]. cbn [bt_results bt_gas bt_fees] in *.
    exists (r :: rs). split_and!; [by rewrite Hrs, <- app_assoc|by apply executed_cons| |].
    + rewrite Hgs, Hg, Z.add_mod_idemp_l by done.
      change (list_sum (map er_gas_used (r :: rs))) with (er_gas_used r + list_sum (map er_gas_used rs)). f_equal. lia.
    + rewrite Hfs, Hf, Z.add_mod_idemp_l by done.
      change (list_sum (map fee (take (length (r :: rs)) (tx :: txs)))) with (fee tx + list_sum (map fee (take (length rs) txs))).
      f_equal. lia.
  - intros [= <- <-]. exists [r]. cbn [bt_results bt_gas bt_fees map length take list_sum foldr].
    split_and!; [done| | |].
    + unfold executed. cbn. split_and!; [lia|done|by exists r|by constructor].
    + rewrite Hg. f_equal. lia.
    + rewrite Hf. f_equal. destruct txs; cbn; lia.
Qed.

(** ** The account written back *)

Lemma x_get_cached a y x : x_cache x !! a = Some y -> x_get_account a x = (Ok (Some y), x).
Proof. intros H. unfold x_get_account, sbind, sget. by rewrite H. Qed.

Lemma x_get_uncached v a L x y :
  x_cache x !! a = None -> at_ledger v L (x_vault x) -> L !! a = Some y ->
  exists v', x_get_account a x = (Ok (Some y), mkExecutor v' (x_code x) (<[a := y]> (x_cache x))) /\ at_ledger v L v'.
Proof.
  intros Hc Hv Hy. destruct (on_state_get v a L (x_vault x) Hv) as (v' & E & Hv'). exists v'. split; [|done].
  unfold x_get_account, sbind, sget. rewrite Hc. unfold on_vault. by rewrite E, Hy.
Qed.

(** The account the executor works with: its cached copy, the stored account when there is none. *)
Lemma x_get_copy v a L x y :
  at_ledger v L (x_vault x) -> L !! a = Some y -> let c := default y (x_cache x !! a) in
  exists v', x_get_account a x = (Ok (Some c), mkExecutor v' (x_code x) (<[a := c]> (x_cache x))) /\ at_ledger v L v'.
Proof.
  intros Hv Hy c. subst c. destruct (x_cache x !! a) as [c|] eqn:Hc; cbn [default].
  - exists (x_vault x). split; [|done]. rewrite (x_get_cached a c x Hc), insert_id by done. by destruct x.
  - by apply (x_get_uncached v a L x y).
Qed.

(** Validation succeeds for a sender with funds and a current nonce in the executor's copy, which is cached afterwards. *)
Lemma validate_ok tx x cx f ig :
  let c := default f (x_cache x !! tx_from tx) in
  vault_ok (x_vault x) -> view (v_state (x_vault x)) !! tx_from tx = Some f ->
  acc_nonce c <= tx_nonce tx -> saturating_add 128 (amount tx) (fee tx) <= balance c ->
  cs_code_exists (tx_to tx) (x_code x) = false -> intrinsic_gas (E:=PacyteError) default_calculator tx false = Ok ig -> 0 < cx_gas_limit cx ->
  exists v', validate_transaction tx (x, cx)
    = (Ok tt, (mkExecutor v' (x_code x) (<[tx_from tx := c]> (x_cache x)), set_gas (Z.max (cx_gas_limit cx) ig) (cx_gas_used cx) cx))
    /\ at_ledger (x_vault x) (view (v_state (x_vault x))) v'.
Proof.
  intros c Hok Hf Hn Hb Hcode Hig Hlim.
  destruct (x_get_copy (x_vault x) (tx_from tx) _ x f (at_ledger_refl _ (vo_state _ Hok)) Hf) as (v' & E & Hv').
  exists v'. split; [|done]. unfold validate_transaction, sbind at 1, on_executor. cbn [fst snd]. rewrite E.
  unfold sbind, slift, sget, x_code_exists, smod. cbn [ok_or fst snd]. rewrite (proj2 (Z.ltb_ge _ _)) by done.
  cbn zeta. rewrite (proj2 (Z.ltb_ge _ _)) by done. cbn [x_code]. unfold sget. cbn [fst x_code]. rewrite Hcode, Hig.
  cbn [snd fst]. rewrite (proj2 (Z.eqb_neq (cx_gas_limit cx) 0)) by lia. done.
Qed.

Lemma cx_use_gas_ok n x c :
  cx_gas_used c + n <= cx_gas_limit c -> fits 64 (cx_gas_used c + n) ->
  cx_use_gas (W:=W) (K:=K) n (x, c) = (Ok true, (x, set_gas (cx_gas_limit c) (cx_gas_used c + n) c)).
Proof.
  intros Hle Hfit. unfold cx_use_gas, sbind, sget, slift, add_u64. cbn [snd]. rewrite arith_fits by done.
  by rewrite (proj2 (Z.ltb_ge _ _)).
Qed.

(** Writing back a cached account. *)
Lemma bump_nonce_ok v L a y x c :
  at_ledger v L (x_vault x) -> x_cache x !! a = Some y -> 0 <= acc_nonce y < U64_MAX ->
  exists x', bump_nonce a id (x, c) = (Ok tt, (x', c)) /\ at_ledger v (<[a := with_nonce (acc_nonce y + 1) y]> L) (x_vault x').
Proof.
  intros Hv Hy Hn. unfold bump_nonce, sbind at 1, on_executor at 1. cbn [fst snd]. rewrite (x_get_cached a y x Hy).
  unfold sbind, slift, add_u64. rewrite arith_fits by (unfold fits, U64_MAX in *; lia).
  destruct (on_state_set v a (with_nonce (acc_nonce y + 1) y) L (x_vault x) Hv) as (v' & E & Hv').
  exists (mkExecutor v' (x_code x) (<[a := with_nonce (acc_nonce y + 1) y]> (x_cache x))). split; [|exact Hv'].
  unfold on_executor, x_set_account, sbind, smod, on_vault. cbn [fst snd x_vault set_x_cache id].
  rewrite E. reflexivity.
Qed.

(** A vault at the ledger of another, with the same counters, specifies the same. *)
Lemma at_ledger_ok v v' : vault_ok v -> at_ledger v (view (v_state v)) v' -> vault_ok v' /\ vault_view v' = vault_view v.
Proof.
  intros [H1 H2 H3 H4 H5] [Hok Hv]. assert (Heq : vault_view v' = vault_view v) by exact Hv. unfold vault_view in Hv.
  injection Hv as HL Hs _ _ Ht. split; [|done]. split; rewrite ?HL, ?Hs, ?Ht; done.
Qed.

(** The plain transfer of a validated transaction: what the vault answers, and then the cached copy written back. *)
Lemma execute_transfer_ok now tx x cx c ig :
  vault_ok (x_vault x) -> x_cache x !! tx_from tx = Some c -> 0 <= acc_nonce c < U64_MAX ->
  intrinsic_gas (E:=PacyteError) default_calculator tx false = Ok ig -> fits 64 (cx_gas_used cx + ig) ->
  cx_gas_used cx + ig <= cx_gas_limit cx -> 0 <= amount tx -> 0 <= fee tx -> fits 128 (v_total_fees_collected (x_vault x) + fee tx) ->
  let '(r, A) := spec_transfer now (tx_from tx) (tx_to tx) (amount tx) (fee tx) (vault_view (x_vault x)) in
  match r with
  | Ok _ => exists x', x_execute_transfer now tx (x, cx)
      = (Ok (result_success (cx_gas_used cx + ig) []), (x', set_gas (cx_gas_limit cx) (cx_gas_used cx + ig) cx))
    /\ view (v_state (x_vault x')) = <[tx_from tx := with_nonce (acc_nonce c + 1) c]> (a_ledger A)
  | Err e => (x_execute_transfer now tx (x, cx)).1 = Err e
  | Panic => (x_execute_transfer now tx (x, cx)).1 = Panic
  | Deadlock => (x_execute_transfer now tx (x, cx)).1 = Deadlock
  end.
Proof.
  intros Hok Hc Hn Hig Hfit Hle Ha Hfee Hroom.
  destruct (transfer_spec now (tx_from tx) (tx_to tx) (amount tx) (fee tx) (x_vault x) Hok Ha Hfee Hroom) as (v1 & E1 & Hv1 & Hs1).
  destruct (spec_transfer _ _ _ _ _ _) as [r A]. cbn [fst snd] in *.
  set (cx' := set_gas (cx_gas_limit cx) (cx_gas_used cx + ig) cx).
  assert (Hpre : x_execute_transfer now tx (x, cx)
    = (run! on_executor (on_vault (transfer now (tx_from tx) (tx_to tx) (amount tx) (fee tx))) in
       run! bump_nonce (tx_from tx) id in do! c := sget snd in sret (result_success (cx_gas_used c) [])) (x, cx')).
  { unfold x_execute_transfer, sbind at 1, slift at 1. rewrite Hig. unfold sbind at 1. by rewrite cx_use_gas_ok by done. }
  rewrite Hpre. destruct r as [res|e| |]; [|unfold sbind, on_executor, on_vault; cbn [fst snd]; by rewrite E1..].
  unfold sbind at 1, on_executor at 1, on_vault at 1. cbn [fst snd]. rewrite E1.
  set (x1 := set_x_vault v1 x). assert (Hat : at_ledger v1 (a_ledger A) (x_vault x1)).
  { split; [done|]. cbn. rewrite <- Hv1. reflexivity. }
  destruct (bump_nonce_ok v1 _ (tx_from tx) c x1 cx' Hat Hc Hn) as (x2 & E2 & Hat2).
  unfold sbind at 1. rewrite E2. exists x2. split; [done|]. destruct Hat2 as [_ Hv2]. unfold vault_view in Hv2. by injection Hv2.
Qed.

Lemma spec_transfer_blocks now from to amt fe A f :
  a_ledger A !! from = Some f -> is_dormant f = false -> fits 128 (amt + fe) -> amt + fe <= balance f ->
  MIN_BALANCE <= amt -> from <> to -> 0 < share fe (burn_rate_at (a_supply A)) -> spec_transfer now from to amt fe A = (Deadlock, A).
Proof.
  intros Hf Hd Hfit Hb Hmin Hne Hburn. unfold spec_transfer. rewrite (proj2 (Z.ltb_ge _ _)) by lia.
  rewrite bool_decide_eq_false_2, Hf, Hd by done.
  assert (Ht : saturating_add 128 amt fe = amt + fe) by (unfold saturating_add, fits in *; lia).
  by rewrite Ht, (proj2 (Z.ltb_ge _ _)), (proj2 (Z.ltb_lt _ _)) by lia.
Qed.
Lemma spec_transfer_ok now from to amt fe A f :
  a_ledger A !! from = Some f -> is_dormant f = false -> fits 128 (amt + fe) -> amt + fe <= balance f ->
  MIN_BALANCE <= amt -> from <> to -> share fe (burn_rate_at (a_supply A)) = 0 ->
  exists res A', spec_transfer now from to amt fe A = (Ok res, A')
    /\ fee_to_genesis res = share fe (genesis_rate_at (a_supply A))
    /\ a_ledger A' !! from = Some (debited now (amt + fe) f)
    /\ a_ledger A' !! to = Some (credited now amt (default (account_new now to 0) (a_ledger A !! to))).
Proof.
  intros Hf Hd Hfit Hb Hmin Hne Hburn. unfold spec_transfer. rewrite (proj2 (Z.ltb_ge _ _)) by lia.
  rewrite bool_decide_eq_false_2, Hf, Hd by done.
  assert (Ht : saturating_add 128 amt fe = amt + fe) by (unfold saturating_add, fits in *; lia).
  rewrite Ht, (proj2 (Z.ltb_ge _ _)), Hburn by lia. cbn [Z.ltb Z.compare]. eexists _, _. split; [reflexivity|]. cbn [a_ledger fee_to_genesis].
  by rewrite lookup_insert_eq, lookup_insert_ne, lookup_insert_eq.
Qed.

(** C33. A transfer through the executor does not debit the sender.  [c] is the executor's copy of the sender: the one
    in [account_cache], which is never cleared, or the stored account when there is none.  For a sender that is not
    dormant, with the funds both in the copy and in the ledger and a nonce current in the copy, and a recipient that
    is neither the sender nor a contract nor the zero address: when no part of the fee is burned,
    [execute_transaction] succeeds and charges the intrinsic gas, the recipient is credited, and the sender ends as
    that copy with its nonce raised by one, because it overwrites what the vault wrote: not debited, and a credit the
    copy does not know of is lost too.  The ledger changes by the amount, the genesis share and the difference of
    the copy.  When some of the fee is burned the call never returns. *)
Theorem executor_sender_not_debited (now : Z) (tx : Transaction) (x : X) (cx : ExecutionContext) (f : Account) (ig : Z) :
  let L := view (v_state (x_vault x)) in
  let g := share (fee tx) (genesis_rate_at (v_total_supply (x_vault x))) in
  let burned := share (fee tx) (burn_rate_at (v_total_supply (x_vault x))) in
  let c := default f (x_cache x !! tx_from tx) in
  vault_ok (x_vault x) -> L !! tx_from tx = Some f -> is_dormant f = false -> 0 <= acc_nonce c < U64_MAX ->
  acc_nonce c <= tx_nonce tx -> 0 <= fee tx -> MIN_BALANCE <= amount tx -> fits 128 (amount tx + fee tx) ->
  amount tx + fee tx <= balance c -> amount tx + fee tx <= balance f -> tx_from tx <> tx_to tx -> tx_to tx <> zero_address ->
  cs_code_exists (tx_to tx) (x_code x) = false -> fits 128 (v_total_fees_collected (x_vault x) + fee tx) ->
  intrinsic_gas (E:=PacyteError) default_calculator tx false = Ok ig -> fits 64 ig -> cx_gas_used cx = 0 -> 0 < cx_gas_limit cx ->
  (burned = 0 ->
   exists x' cx', execute_transaction now tx (x, cx) = (Ok (result_success ig []), (x', cx'))
    /\ view (v_state (x_vault x')) !! tx_from tx = Some (with_nonce (acc_nonce c + 1) c)
    /\ view (v_state (x_vault x')) !! tx_to tx = Some (credited now (amount tx) (default (account_new now (tx_to tx) 0) (L !! tx_to tx)))
    /\ (tx_from tx <> GENESIS_VAULT_ADDRESS -> money L + g < 2 ^ 128 ->
        money (view (v_state (x_vault x'))) = money L + amount tx + g + (balance c - balance f)))
  /\ (0 < burned -> (execute_transaction now tx (x, cx)).1 = Deadlock).
Proof.
  intros L g burned c Hok Hf Hd Hnc Hn Hfee Hmin Hfit Hbc Hb Hne Hto Hcode Hroom Hig Hfig Hused Hlim.
  assert (Ha : 0 <= amount tx) by (unfold MIN_BALANCE in Hmin; lia).
  assert (Ht : saturating_add 128 (amount tx) (fee tx) <= balance c) by (unfold saturating_add; lia).
  destruct (validate_ok tx x cx f ig Hok Hf Hn Ht Hcode Hig Hlim) as (v1 & E1 & Hat1). fold c in E1.
  destruct (at_ledger_ok _ _ Hok Hat1) as [Hok1 Hv1].
  set (x1 := mkExecutor v1 (x_code x) (<[tx_from tx := c]> (x_cache x))) in *.
  set (cx1 := set_gas (Z.max (cx_gas_limit cx) ig) (cx_gas_used cx) cx) in *.
  assert (Hfees1 : v_total_fees_collected v1 = v_total_fees_collected (x_vault x)) by (unfold vault_view in Hv1; by injection Hv1).
  pose proof (execute_transfer_ok now tx x1 cx1 c ig) as Hx. cbn [x1 cx1 x_vault x_cache cx_gas_used cx_gas_limit set_gas] in Hx.
  rewrite Hused, Z.add_0_l, Hfees1, Hv1 in Hx. specialize (Hx Hok1 ltac:(apply lookup_insert_eq) Hnc Hig Hfig ltac:(lia) Ha Hfee Hroom).
  assert (Hrun : execute_transaction now tx (x, cx) = x_execute_transfer now tx (x1, cx1)).
  { unfold execute_transaction, sbind at 1. rewrite E1. unfold sbind at 1, x_code_exists, sget. cbn [fst x_code x1]. rewrite Hcode.
    by rewrite bool_decide_eq_false_2 by done. }
  rewrite Hrun. split; intros Hburn.
  - destruct (spec_transfer_ok now (tx_from tx) (tx_to tx) (amount tx) (fee tx) (vault_view (x_vault x)) f) as (res & A & Hspec & Hg & Hfrom & Hcred); try done.
    rewrite Hspec in Hx. destruct Hx as (x2 & E2 & Hview). eexists x2, _. split; [exact E2|]. rewrite Hview. split_and!.
    + by rewrite lookup_insert_eq.
    + by rewrite lookup_insert_ne by done.
    + intros Hgen Hmax.
      destruct (spec_transfer_money now (tx_from tx) (tx_to tx) (amount tx) (fee tx) (vault_view (x_vault x)) res A (vo_ledger _ Hok) Hgen Hto Hfee Hfit Hspec)
        as [_ Hm]; [by rewrite Hg|]. rewrite Hg in Hm. cbn [a_ledger vault_view a_supply] in Hm. fold L g in Hm.
      unfold money in *. rewrite (map_sum_update balance _ _ _ _ Hfrom), Hm. cbn. lia.
  - by rewrite (spec_transfer_blocks now (tx_from tx) (tx_to tx) (amount tx) (fee tx) (vault_view (x_vault x)) f) in Hx.
Qed.

(** A block reports what was executed: on success [execute_block] has a result for each
    transaction up to and including the first that fails, all but the last successful, each with gas within the block's
    limit, and its totals are the sums over exactly those transactions, at the width of the
    counters. *)
Theorem execute_block_summary (now height timestamp : Z) (hash : Hash) (txs : list Transaction) (x x' : X) (b : BlockExecutionResult) :
  Forall (intrinsic_below BLOCK_GAS_LIMIT) txs ->
  execute_block now txs height timestamp hash x = (Ok b, x') ->
  executed BLOCK_GAS_LIMIT txs (br_results b) /\ br_transaction_count b = Z.of_nat (length (br_results b))
  /\ br_total_gas_used b = list_sum (map er_gas_used (br_results b)) mod 2 ^ 64
  /\ br_total_fees b = list_sum (map fee (take (length (br_results b)) txs)) mod 2 ^ 128
  /\ br_block_height b = height /\ br_block_hash b = hash.
Proof.
  intros Htx. unfold execute_block, sbind.
  destruct (execute_transactions _ _ _ _ _ _ _ x) as [[t| | |] x1] eqn:E; [|done..].
  unfold sret. intros Heq. assert (Hb : b = mkBlockResult height hash (Z.of_nat (length (bt_results t))) (bt_gas t) (bt_fees t) (bt_results t) (bt_logs t) (bt_events t)) by congruence.
  apply (execute_transactions_spec BLOCK_GAS_LIMIT) in E as (rs & Hrs & Hex & Hg & Hf); [|lia|done|split; cbn; lia..].
  cbn [bt_results bt_gas bt_fees app] in *. subst b. cbn. rewrite Hrs, Hg, Hf. done.
Qed.

(** What validation refuses, in the order of its checks. *)
Definition refusal (tx : Transaction) (L : Ledger) : option ExecutionError :=
  match L !! tx_from tx with
  | None => Some (ContractNotFound (tx_from tx))
  | Some f =>
      let total := saturating_add 128 (amount tx) (fee tx) in
      if tx_nonce tx <? acc_nonce f then Some (NonceTooLow (acc_nonce f) (tx_nonce tx))
      else if balance f <? total then Some (InsufficientBalance total (balance f))
      else None
  end.

(** A refused transaction has no effect: a missing sender, a used nonce or a short balance
    makes [execute_transaction] return that error, and the ledger, the counters of the vault, the
    contract codes and the context are as before. *)
Theorem executor_refuses (now : Z) (tx : Transaction) (x : X) (cx : ExecutionContext) (e : ExecutionError) :
  state_ok (v_state (x_vault x)) -> x_cache x !! tx_from tx = None ->
  refusal tx (view (v_state (x_vault x))) = Some e ->
  exists x', execute_transaction now tx (x, cx) = (Err (from_execution e), (x', cx))
    /\ vault_view (x_vault x') = vault_view (x_vault x) /\ x_code x' = x_code x.
Proof.
  intros Hok Hc Href. unfold execute_transaction, sbind at 1, validate_transaction, sbind at 1, on_executor at 1. cbn [fst snd].
  unfold refusal in Href. destruct (view (v_state (x_vault x)) !! tx_from tx) as [f|] eqn:Hf.
  - destruct (x_get_uncached _ _ _ x f Hc (at_ledger_refl _ Hok) Hf) as (v' & -> & _ & Hv').
    exists (mkExecutor v' (x_code x) (<[tx_from tx := f]> (x_cache x))). unfold sbind at 1, slift at 1. cbn [ok_or].
    split; [|split; [exact Hv'|done]]. destruct (_ <? acc_nonce f); [by injection Href as <-|]. cbn zeta in *.
    destruct (balance f <? _); [by injection Href as <-|done].
  - injection Href as <-.
    destruct (on_state_get (x_vault x) (tx_from tx) _ (x_vault x) (at_ledger_refl _ Hok)) as (v' & E & _ & Hv').
    exists (set_x_vault v' x). split; [|split; [exact Hv'|done]].
    unfold x_get_account, sbind, sget. rewrite Hc. unfold on_vault. by rewrite E, Hf.
Qed.
End ExecutorProps.

(** ** Concrete runs *)

Section ExecutorWitnesses.
#[local] Existing Instance release_profile.
#[local] Existing Instance toy_sha3.
#[local] Existing Instance toy_keccak.
#[local] Existing Instance key_order.
#[local] Instance exec_block_bincode : Bincode := fun _ => None.
#[local] Instance exec_account_bincode : BincodeAccount := fun x => Some (to_le_bytes 16 (balance x)).
#[local] Instance exec_storage : Storage MemoryStorage := memory_storage 100.
#[local] Instance exec_storage_laws : StorageLaws MemoryStorage := memory_storage_laws 100.

Definition rich_executor : TransactionExecutor MemoryStorage (gmap Address (list Z)) :=
  executor_new (rich_vault 200000000000000) ∅.
Definition plain_tx : Transaction := transaction_new 99 alice bob 2000 100 0.
Definition plain_context : ExecutionContext := context_new 1 100 alice 10000000.

Lemma executor_sender_not_debited_witness :
  exists x' cx', execute_transaction 7 plain_tx (rich_executor, plain_context) = (Ok (result_success 21000 []), (x', cx'))
    /\ balance <$> (view (v_state (x_vault x')) !! alice) = Some 50000
    /\ balance <$> (view (v_state (x_vault x')) !! bob) = Some 2000
    /\ money (view (v_state (x_vault x'))) = 50000 + 2000 + 10.
Proof.
  assert (Hview : view (v_state (x_vault rich_executor)) = rich_ledger) by apply fresh_view.
  destruct (executor_sender_not_debited 7 plain_tx rich_executor plain_context (account_new 0 alice 50000) 21000) as [H _];
    [apply rich_vault_ok; by vm_compute|rewrite Hview; apply lookup_singleton_eq|reflexivity|by vm_compute|by vm_compute|by vm_compute
    |by vm_compute|split; by vm_compute|by vm_compute|by vm_compute|by vm_compute|by vm_compute|reflexivity|split; by vm_compute|reflexivity
    |split; by vm_compute|reflexivity|by vm_compute|].
  destruct H as (x' & cx' & E & Hf & Ht & Hm); [vm_compute; reflexivity|].
  exists x', cx'. split; [exact E|]. change (tx_from plain_tx) with alice in *. change (tx_to plain_tx) with bob in *.
  rewrite Hf, Ht, Hview. split_and!; [reflexivity|reflexivity|]. rewrite Hview in Hm. apply Hm; by vm_compute.
Defined.

Lemma execute_block_summary_witness :
  exists b x', execute_block 7 [plain_tx] 1 100 zero_hash rich_executor = (Ok b, x')
    /\ br_transaction_count b = 1 /\ br_total_fees b = 100.
Proof.
  assert (Hin : Forall (intrinsic_below BLOCK_GAS_LIMIT) [plain_tx]).
  { apply Forall_singleton. intros [] i [= <-]; by vm_compute. }
  destruct (execute_block 7 [plain_tx] 1 100 zero_hash rich_executor) as [[b| | |] x'] eqn:E.
  2-4: exfalso; assert (Hok : is_ok (execute_block 7 [plain_tx] 1 100 zero_hash rich_executor).1 = true) by (vm_compute; reflexivity);
       rewrite E in Hok; discriminate Hok.
  exists b, x'. split; [done|].
  destruct (execute_block_summary 7 1 100 zero_hash [plain_tx] rich_executor x' b Hin E) as (Hex & Hc & _ & Hfees & _).
  assert (Hlen : length (br_results b) = 1%nat).
  { assert (Hl : match (execute_block 7 [plain_tx] 1 100 zero_hash rich_executor).1 with Ok b => length (br_results b) | _ => 0%nat end = 1%nat)
      by (vm_compute; reflexivity). by rewrite E in Hl. }
  rewrite Hlen in *. split; [exact Hc|exact Hfees].
Defined.

Lemma executor_refuses_witness :
  exists x', execute_transaction 7 (transaction_new 99 bob alice 2000 100 0) (rich_executor, plain_context)
    = (Err (from_execution (ContractNotFound bob)), (x', plain_context)).
Proof.
  destruct (executor_refuses 7 (transaction_new 99 bob alice 2000 100 0) rich_executor plain_context (ContractNotFound bob))
    as (x' & E & _); [apply fresh_ok|reflexivity|reflexivity|]. by exists x'.
Defined.
End ExecutorWitnesses.
