(* ===== verification/Cache.v ===== *)
(** * Caches (src/storage/cache.rs)

    The least-recently-used cache with its optional time to live, and the caches of blocks,
    transactions and accounts built on it.  [Instant]s are numbers of a monotonic clock; an
    operation that reads the clock twice takes both readings. *)

From S2P Require Import Prelude Floats Hashing Types Merkle Block.
Abbreviation length := List.length.

Record LruEntry (V : Type) : Type := mkEntry { e_value : V; last_access : Z }.
Arguments mkEntry {V}.
Arguments e_value {V}.
Arguments last_access {V}.

Record LruCache (K V : Type) `{Countable K} : Type := mkLru {
  max_size : Z;
  ttl : option Z;
  lru_map : gmap K (LruEntry V);
  hits : Z;
  misses : Z
}.
Arguments mkLru {K V _ _}.
Arguments max_size {K V _ _}.
Arguments ttl {K V _ _}.
Arguments lru_map {K V _ _}.
Arguments hits {K V _ _}.
Arguments misses {K V _ _}.

(** ** LRU cache *)

Section Lru.
Context {K V : Type} `{Countable K} `{Iter : !HashMapIter K (LruEntry V)} `{BP : BuildProfile} {E : Type}.
Abbreviation Lru := (LruCache K V).

Definition lru_new (size : Z) : Lru := mkLru size None ∅ 0 0.
Definition with_ttl (size t : Z) : Lru := mkLru size (Some t) ∅ 0 0.
Definition set_lru_map (m : gmap K (LruEntry V)) (c : Lru) : Lru := mkLru (max_size c) (ttl c) m (hits c) (misses c).
Definition set_hits (n : Z) (c : Lru) : Lru := mkLru (max_size c) (ttl c) (lru_map c) n (misses c).
Definition set_misses (n : Z) (c : Lru) : Lru := mkLru (max_size c) (ttl c) (lru_map c) (hits c) n.

(** [now.duration_since(last_access) < ttl]; an earlier [now] counts as zero. *)
Definition live (now t : Z) (p : K * LruEntry V) : Prop := saturating_sub now (last_access p.2) < t.
#[export] Instance live_dec now t p : Decision (live now t p).
Proof. unfold live. apply _. Defined.

Definition evict_expired (now : Z) (c : Lru) : Lru :=
  match ttl c with
  | Some t => set_lru_map (filter (live now t) (lru_map c)) c
  | None => c
  end.

(** [entries.sort_by_key(|(_, entry)| entry.last_access)] *)
Definition by_access (m : gmap K (LruEntry V)) : list (K * LruEntry V) := sort_desc (fun p => - last_access p.2) (entries m).

Definition evict_lru (c : Lru) : Lru :=
  if max_size c <? Z.of_nat (size (lru_map c)) then
    let to_remove := saturating_sub (Z.of_nat (length (by_access (lru_map c)))) (max_size c) in
    let keys_to_remove := (take (Z.to_nat to_remove) (by_access (lru_map c))).*1 in
    set_lru_map (foldl (fun m k => delete k m) (lru_map c) keys_to_remove) c
  else c.

Definition lru_get (t0 t1 : Z) (k : K) : ST Lru E (option V) :=
  run! smod (evict_expired t0) in
  do! m := sget lru_map in
  match m !! k with
  | Some e =>
      run! smod (set_lru_map (<[k := mkEntry (e_value e) t1]> m)) in
      do! n := sget hits in
      do! n' := slift (add_u64 n 1) in
      run! smod (set_hits n') in
      sret (Some (e_value e))
  | None =>
      do! n := sget misses in
      do! n' := slift (add_u64 n 1) in
      run! smod (set_misses n') in
      sret None
  end.

Definition lru_put (t0 t1 : Z) (k : K) (v : V) (c : Lru) : Lru :=
  let c1 := evict_expired t0 c in
  let c2 := set_lru_map (<[k := mkEntry v t1]> (lru_map c1)) c1 in
  evict_lru c2.

Definition lru_remove (k : K) (c : Lru) : Lru := set_lru_map (delete k (lru_map c)) c.
Definition lru_clear (c : Lru) : Lru := set_lru_map ∅ c.
Definition lru_len (c : Lru) : Z := Z.of_nat (size (lru_map c)).
Definition lru_is_empty (c : Lru) : bool := lru_len c =? 0.
Definition lru_contains_key (t0 : Z) (k : K) (c : Lru) : bool * Lru :=
  let c' := evict_expired t0 c in (bool_decide (is_Some (lru_map c' !! k)), c').

Definition hit_rate (c : Lru) : f64 :=
  let total := f64_add (f64_of (hits c)) (f64_of (misses c)) in
  if f64_lt (f64_of 0) total then f64_div (f64_of (hits c)) total else f64_of 0.
End Lru.

(** ** Typed caches *)

Record BlockCache : Type := mkBlockCache { bc_cache : LruCache Z Block; hash_index : gmap Hash Z }.

Section BlockCache.
Context `{Iter : !HashMapIter Z (LruEntry Block)} `{BP : BuildProfile} `{S3 : Sha3} {E : Type}.

Definition block_cache_new (size : Z) : BlockCache := mkBlockCache (lru_new size) ∅.

Definition on_lru {A} (c : ST (LruCache Z Block) E A) : ST BlockCache E A :=
  fun b => let '(r, x) := c (bc_cache b) in (r, mkBlockCache x (hash_index b)).

Definition block_cache_get (t0 t1 height : Z) : ST BlockCache E (option Block) := on_lru (lru_get t0 t1 height).
Definition block_cache_get_by_hash (t0 t1 : Z) (h : Hash) : ST BlockCache E (option Block) :=
  do! o := sget (fun b => hash_index b !! h) in
  match o with
  | Some height => on_lru (lru_get t0 t1 height)
  | None => sret None
  end.
Definition block_cache_put (t0 t1 : Z) (b : Block) (c : BlockCache) : BlockCache :=
  let c1 := mkBlockCache (bc_cache c) (<[block_hash b := height (header b)]> (hash_index c)) in
  mkBlockCache (lru_put t0 t1 (height (header b)) b (bc_cache c1)) (hash_index c1).
Definition block_cache_remove (t0 t1 height : Z) : ST BlockCache E unit :=
  do! o := on_lru (lru_get t0 t1 height) in
  run! (match o with
        | Some b => smod (fun c => mkBlockCache (bc_cache c) (delete (block_hash b) (hash_index c)))
        | None => sret tt
        end) in
  smod (fun c => mkBlockCache (lru_remove height (bc_cache c)) (hash_index c)).
Definition block_cache_clear (c : BlockCache) : BlockCache := mkBlockCache (lru_clear (bc_cache c)) ∅.
Definition block_cache_len (c : BlockCache) : Z := lru_len (bc_cache c).
Definition block_cache_contains (t0 height : Z) (c : BlockCache) : bool * BlockCache :=
  let '(r, x) := lru_contains_key t0 height (bc_cache c) in (r, mkBlockCache x (hash_index c)).
End BlockCache.

Abbreviation TransactionCache := (LruCache Hash Transaction).
Abbreviation AccountCache := (LruCache Address Account).

Section OtherCaches.
Context `{IterT : !HashMapIter Hash (LruEntry Transaction)} `{IterA : !HashMapIter Address (LruEntry Account)}
  `{BP : BuildProfile} `{S3 : Sha3} {E : Type}.
Definition tx_cache_put (t0 t1 : Z) (tx : Transaction) (c : TransactionCache) : TransactionCache := lru_put t0 t1 (tx_hash tx) tx c.
Definition tx_cache_get (t0 t1 : Z) (h : Hash) : ST TransactionCache E (option Transaction) := lru_get t0 t1 h.
Definition account_cache_put (t0 t1 : Z) (a : Address) (x : Account) (c : AccountCache) : AccountCache := lru_put t0 t1 a x c.
Definition account_cache_get (t0 t1 : Z) (a : Address) : ST AccountCache E (option Account) := lru_get t0 t1 a.
End OtherCaches.

(** ** Cache manager *)

Record CacheConfig : Type := mkCacheConfig {
  block_cache_size : Z; transaction_cache_size : Z; account_cache_size : Z; ttl_seconds : option Z
}.
Definition default_cache_config : CacheConfig := mkCacheConfig 1000 10000 100000 (Some 3600).

Record CacheManager : Type := mkCaches {
  cm_blocks : BlockCache; cm_transactions : TransactionCache; cm_accounts : AccountCache; cm_config : CacheConfig
}.
(** The time to live is computed and not used. *)
Definition cache_manager_new (cfg : CacheConfig) : CacheManager :=
  mkCaches (block_cache_new (block_cache_size cfg)) (lru_new (transaction_cache_size cfg)) (lru_new (account_cache_size cfg)) cfg.
Definition clear_all (m : CacheManager) : CacheManager :=
  mkCaches (block_cache_clear (cm_blocks m)) (lru_clear (cm_transactions m)) (lru_clear (cm_accounts m)) (cm_config m).

Record CacheStats : Type := mkCacheStats { blocks_cached : Z; transactions_cached : Z; accounts_cached : Z }.
Definition cache_stats (m : CacheManager) : CacheStats :=
  mkCacheStats (block_cache_len (cm_blocks m)) (lru_len (cm_transactions m)) (lru_len (cm_accounts m)).
