(* ===== verification/CacheProps.v ===== *)
(** * Caches: bounds, recency, and the index of blocks *)

From stdpp Require Import sorting.
From S2P Require Import Prelude Floats Hashing Types Merkle Block Cache.
Abbreviation length := List.length.

(** ** Deleting a list of keys *)

Section DeleteKeys.
Context {K V : Type} `{Countable K}.

Lemma lookup_delete_keys (ks : list K) (m : gmap K V) k :
  foldl (fun m k => delete k m) m ks !! k = if decide (k ∈ ks) then None else m !! k.
Proof.
  revert m. induction ks as [|x ks IH]; intros m; cbn [foldl]; [done|]. rewrite IH.
  destruct (decide (k ∈ ks)) as [Hin|Hin].
  - rewrite decide_True; [done|]. by apply list_elem_of_further.
  - destruct (decide (k = x)) as [->|Hne].
    + rewrite decide_True by apply list_elem_of_here. apply lookup_delete_eq.
    + rewrite lookup_delete_ne by done. rewrite decide_False; [done|]. rewrite elem_of_cons. by intros [?|?].
Qed.

Lemma size_delete_keys (ks : list K) (m : gmap K V) :
  NoDup ks -> (forall k, k ∈ ks -> is_Some (m !! k)) -> (size (foldl (fun m k => delete k m) m ks) + length ks = size m)%nat.
Proof.
  intros Hnd. revert m. induction Hnd as [|x ks Hx _ IH]; intros m Hm; cbn [foldl length]; [lia|].
  destruct (Hm x) as [v Hv]; [apply list_elem_of_here|].
  assert (Hsize : size m = S (size (delete x m))).
  { rewrite <- (insert_delete_id m x v Hv) at 1. apply map_size_insert_None, lookup_delete_eq. }
  specialize (IH (delete x m)). rewrite Hsize, <- IH; [lia|].
  intros k Hk. rewrite lookup_delete_ne by (intros ->; done). apply Hm. by apply list_elem_of_further.
Qed.
End DeleteKeys.

(** ** Eviction *)

Section LruProps.
Context {K V : Type} `{Countable K} `{Iter : !HashMapIter K (LruEntry V)} `{BP : BuildProfile} {E : Type}.
Abbreviation Lru := (LruCache K V).
Implicit Types (c : Lru) (m : gmap K (LruEntry V)).

Lemma by_access_perm m : by_access m ≡ₚ map_to_list m.
Proof. unfold by_access. by rewrite sort_desc_perm, entries_perm. Qed.

Lemma elem_of_by_access m k e : (k, e) ∈ by_access m <-> m !! k = Some e.
Proof. rewrite by_access_perm. apply elem_of_map_to_list. Qed.

Lemma length_by_access m : length (by_access m) = size m.
Proof. rewrite by_access_perm. apply length_map_to_list. Qed.

Lemma by_access_sorted m k1 e1 k2 e2 n :
  (k1, e1) ∈ take n (by_access m) -> (k2, e2) ∈ drop n (by_access m) -> last_access e1 <= last_access e2.
Proof.
  intros H1 H2. pose proof (sort_desc_sorted (fun p : K * LruEntry V => - last_access p.2) (entries m)) as Hs.
  fold (by_access m) in Hs. rewrite <- (take_drop n (by_access m)) in Hs.
  pose proof (StronglySorted_app_1_elem_of _ _ _ _ _ Hs H1 H2) as Hle. unfold desc in Hle. cbn in Hle. lia.
Qed.

(** The keys that eviction removes. *)
Definition victims c : list K :=
  (take (Z.to_nat (Z.of_nat (size (lru_map c)) - max_size c)) (by_access (lru_map c))).*1.

Lemma evict_lru_victims c :
  0 <= max_size c -> evict_lru c = set_lru_map (foldl (fun m k => delete k m) (lru_map c) (victims c)) c.
Proof.
  intros Hmax. unfold evict_lru, victims. rewrite length_by_access. destruct (Z.ltb_spec (max_size c) (Z.of_nat (size (lru_map c)))).
  - unfold saturating_sub. by rewrite Z.max_r by lia.
  - replace (Z.to_nat _) with 0%nat by lia. by destruct c.
Qed.

Lemma victims_in c k : k ∈ victims c -> exists e, lru_map c !! k = Some e /\
  (k, e) ∈ take (Z.to_nat (Z.of_nat (size (lru_map c)) - max_size c)) (by_access (lru_map c)).
Proof.
  intros Hk. apply list_elem_of_fmap in Hk as ([k' e] & -> & Hin). exists e. split; [|done].
  apply elem_of_by_access.
  rewrite <- (take_drop (Z.to_nat (Z.of_nat (size (lru_map c)) - max_size c)) (by_access (lru_map c))). apply elem_of_app. by left.
Qed.

Lemma NoDup_victims c : NoDup (victims c).
Proof.
  assert (Hnd : NoDup (by_access (lru_map c)).*1) by (rewrite by_access_perm; apply NoDup_fst_map_to_list).
  unfold victims. rewrite fmap_take. set (n := Z.to_nat _). rewrite <- (take_drop n (by_access (lru_map c)).*1) in Hnd.
  by apply NoDup_app in Hnd as [? _].
Qed.

Lemma evict_lru_size c :
  0 <= max_size c -> Z.of_nat (size (lru_map (evict_lru c))) = Z.min (Z.of_nat (size (lru_map c))) (max_size c).
Proof.
  intros Hmax. rewrite evict_lru_victims by done. cbn [lru_map set_lru_map].
  pose proof (size_delete_keys (victims c) (lru_map c) (NoDup_victims c)) as Hs.
  assert (Hlen : length (victims c) = Z.to_nat (Z.of_nat (size (lru_map c)) - max_size c)).
  { unfold victims. rewrite length_fmap, length_take, length_by_access. lia. }
  assert (forall k, k ∈ victims c -> is_Some (lru_map c !! k)) by (intros k (e & ? & _)%victims_in; eauto).
  specialize (Hs ltac:(done)). lia.
Qed.

Lemma evict_lru_lookup c k :
  0 <= max_size c -> lru_map (evict_lru c) !! k = if decide (k ∈ victims c) then None else lru_map c !! k.
Proof. intros Hmax. rewrite evict_lru_victims by done. cbn. apply lookup_delete_keys. Qed.

(** What goes was last used no later than anything that stays. *)
Lemma evict_lru_oldest c k1 e1 k2 e2 :
  0 <= max_size c -> lru_map c !! k1 = Some e1 -> lru_map (evict_lru c) !! k1 = None ->
  lru_map (evict_lru c) !! k2 = Some e2 -> last_access e1 <= last_access e2.
Proof.
  intros Hmax H1. rewrite !evict_lru_lookup by done. destruct (decide (k1 ∈ victims c)) as [Hv1|]; [|congruence]. intros _.
  destruct (decide (k2 ∈ victims c)) as [|Hv2]; [done|]. intros H2.
  apply victims_in in Hv1 as (e & He & Hin1). assert (e = e1) as -> by congruence.
  apply elem_of_by_access in H2.
  rewrite <- (take_drop (Z.to_nat (Z.of_nat (size (lru_map c)) - max_size c)) (by_access (lru_map c))), elem_of_app in H2.
  destruct H2 as [H2|H2]; [|by eapply by_access_sorted].
  exfalso. apply Hv2. unfold victims. apply list_elem_of_fmap. by exists (k2, e2).
Qed.

(** ** Operations *)

(** The entries a reader at time [now] still finds. *)
Definition live_map (now : Z) c : gmap K (LruEntry V) :=
  match ttl c with Some t => filter (live now t) (lru_map c) | None => lru_map c end.

Lemma evict_expired_map now c : lru_map (evict_expired now c) = live_map now c.
Proof. unfold evict_expired, live_map. by destruct (ttl c). Qed.
Lemma evict_expired_config now c : max_size (evict_expired now c) = max_size c /\ ttl (evict_expired now c) = ttl c
  /\ hits (evict_expired now c) = hits c /\ misses (evict_expired now c) = misses c.
Proof. unfold evict_expired. destruct (ttl c) eqn:Ht; cbn; by rewrite ?Ht. Qed.

Lemma live_map_subseteq now c : live_map now c ⊆ lru_map c.
Proof. unfold live_map. destruct (ttl c); [apply map_filter_subseteq|done]. Qed.

Definition lru_ok c : Prop := 0 <= max_size c /\ Z.of_nat (size (lru_map c)) <= max_size c.

(** What [put] does to the entries. *)
Lemma lru_put_spec (t0 t1 : Z) (k : K) (v : V) c :
  1 <= max_size c ->
  let before := <[k := mkEntry v t1]> (live_map t0 c) in
  let after := lru_map (lru_put t0 t1 k v c) in
  Z.of_nat (size after) = Z.min (Z.of_nat (size before)) (max_size c)
  /\ after ⊆ before
  /\ (forall k1 e1 k2 e2, before !! k1 = Some e1 -> after !! k1 = None -> after !! k2 = Some e2 -> last_access e1 <= last_access e2)
  /\ (Z.of_nat (size before) <= max_size c -> after = before)
  /\ ((forall k' e, lru_map c !! k' = Some e -> last_access e < t1) -> after !! k = Some (mkEntry v t1)).
Proof.
  intros Hmax before after. set (c2 := set_lru_map before (evict_expired t0 c)).
  assert (Hput : lru_put t0 t1 k v c = evict_lru c2) by (unfold lru_put, c2, before; by rewrite evict_expired_map).
  assert (Hmax2 : max_size c2 = max_size c) by (cbn; apply evict_expired_config).
  assert (Hsub : after ⊆ before).
  { apply map_subseteq_spec. intros k' e. unfold after. rewrite Hput, evict_lru_lookup by lia. by case_decide. }
  assert (Hsize : Z.of_nat (size after) = Z.min (Z.of_nat (size before)) (max_size c)).
  { unfold after. rewrite Hput, evict_lru_size, Hmax2 by lia. done. }
  assert (Hold : forall k1 e1 k2 e2, before !! k1 = Some e1 -> after !! k1 = None -> after !! k2 = Some e2 -> last_access e1 <= last_access e2).
  { intros k1 e1 k2 e2 H1 H2 H3. unfold after in *. rewrite Hput in *. eapply (evict_lru_oldest c2); [lia|exact H1|exact H2|exact H3]. }
  split_and!; [done|done|done| |].
  - intros Hroom. apply map_subseteq_size_eq; [done|]. lia.
  - intros Hclock. destruct (after !! k) as [e|] eqn:Hk.
    + f_equal. apply (lookup_weaken _ _ _ _ Hk) in Hsub. unfold before in Hsub. rewrite lookup_insert_eq in Hsub. congruence.
    + exfalso. assert (Hpos : (0 < size after)%nat).
      { assert (size before <> 0%nat); [|lia]. unfold before. intros H0%map_size_empty_inv. by apply insert_non_empty in H0. }
      destruct (map_choose after) as (k2 & e2 & H2); [intros He; rewrite He, map_size_empty in Hpos; lia|].
      assert (Hne : k2 <> k) by congruence.
      specialize (Hold k (mkEntry v t1) k2 e2 (lookup_insert_eq _ _ _) Hk H2). cbn in Hold.
      pose proof (lookup_weaken _ _ _ _ H2 Hsub) as Hb. unfold before in Hb. rewrite lookup_insert_ne in Hb by done.
      pose proof (lookup_weaken _ _ _ _ Hb (live_map_subseteq t0 c)) as Hc. specialize (Hclock _ _ Hc). lia.
Qed.

(** A read in full: what it returns, the entry it touches, the counter it raises. *)
Lemma lru_get_effect t0 t1 k c :
  0 <= hits c < U64_MAX -> 0 <= misses c < U64_MAX ->
  lru_get (E:=E) t0 t1 k c =
  match live_map t0 c !! k with
  | Some e => (Ok (Some (e_value e)), set_hits (hits c + 1) (set_lru_map (<[k := mkEntry (e_value e) t1]> (live_map t0 c)) c))
  | None => (Ok None, set_misses (misses c + 1) (set_lru_map (live_map t0 c) c))
  end.
Proof.
  intros Hh Hm. unfold U64_MAX in *. destruct (evict_expired_config t0 c) as (E1 & E2 & E3 & E4).
  unfold lru_get, sbind, smod, sget, slift. rewrite evict_expired_map. unfold add_u64.
  destruct (live_map t0 c !! k) as [e|]; cbn [hits misses set_lru_map]; rewrite ?E3, ?E4, arith_fits by (unfold fits; lia);
    unfold sret, set_hits, set_misses, set_lru_map; cbn [max_size ttl lru_map hits misses]; rewrite ?evict_expired_map, ?E1, ?E2, ?E3, ?E4; done.
Qed.

(** The cache stays within its capacity. *)
Lemma lru_put_ok t0 t1 k v c : lru_ok c -> lru_ok (lru_put t0 t1 k v c).
Proof.
  intros [H0 _]. unfold lru_put, lru_ok. set (c2 := set_lru_map _ _).
  assert (Hmax : max_size (evict_lru c2) = max_size c).
  { rewrite evict_lru_victims; cbn; destruct (evict_expired_config t0 c) as (-> & _); done. }
  rewrite Hmax, evict_lru_size; cbn [c2 max_size set_lru_map]; destruct (evict_expired_config t0 c) as (-> & _); lia.
Qed.

Lemma live_map_ok t c : lru_ok c -> Z.of_nat (size (live_map t c)) <= max_size c.
Proof. intros [_ Hs]. pose proof (map_subseteq_size _ _ (live_map_subseteq t c)). lia. Qed.

Inductive LruOp : Type :=
| LGet (t0 t1 : Z) (k : K) | LPut (t0 t1 : Z) (k : K) (v : V) | LRemove (k : K) | LClear | LContains (t0 : Z) (k : K).
Definition lru_step (op : LruOp) c : Lru :=
  match op with
  | LGet t0 t1 k => (lru_get (E:=E) t0 t1 k c).2
  | LPut t0 t1 k v => lru_put t0 t1 k v c
  | LRemove k => lru_remove k c
  | LClear => lru_clear c
  | LContains t0 k => (lru_contains_key t0 k c).2
  end.

Lemma lru_step_ok op c : lru_ok c -> lru_ok (lru_step op c).
Proof.
  intros Hc. pose proof Hc as [H0 Hs]. destruct op as [t0 t1 k|t0 t1 k v|k| |t0 k]; cbn [lru_step].
  - destruct (evict_expired_config t0 c) as (Em & _). pose proof (live_map_ok t0 c Hc) as Hl.
    assert (Hwrite : forall e, live_map t0 c !! k = Some e -> size (<[k := mkEntry (e_value e) t1]> (live_map t0 c)) = size (live_map t0 c)).
    { intros e He. apply map_size_insert_Some. by eexists. }
    unfold lru_get, sbind, smod, sget, slift. rewrite evict_expired_map. unfold add_u64.
    destruct (live_map t0 c !! k) as [e|] eqn:Hk; destruct (arith 64 _); unfold lru_ok; cbn;
      rewrite ?Em, ?evict_expired_map, ?(Hwrite e) by done; done.
  - by apply lru_put_ok.
  - split; [done|]. cbn. pose proof (map_subseteq_size _ _ (delete_subseteq (lru_map c) k)). lia.
  - split; [done|]. cbn. rewrite map_size_empty. lia.
  - unfold lru_contains_key, lru_ok. cbn. destruct (evict_expired_config t0 c) as (-> & _).
    rewrite evict_expired_map. split; [done|by apply live_map_ok].
Qed.

(** A cache never holds more than its capacity, through any sequence of reads, writes,
    removals and look-ups, at any times and whatever the iteration order of its map. *)
Theorem lru_capacity (ops : list LruOp) (size_limit time_to_live : Z) :
  0 <= size_limit ->
  let run := foldl (fun c op => lru_step op c) in
  lru_len (run (lru_new size_limit) ops) <= size_limit /\ lru_len (run (with_ttl size_limit time_to_live) ops) <= size_limit.
Proof.
  intros H0 run.
  assert (Hrun : forall ops c, lru_ok c -> max_size c = size_limit -> lru_len (run c ops) <= size_limit).
  { intros l. induction l as [|op l IH]; intros c Hc Hm; cbn; [destruct Hc; unfold lru_len; lia|].
    apply IH; [by apply lru_step_ok|]. destruct (lru_step_ok op c Hc) as [_ _]. revert Hm. clear.
    destruct op as [t0 t1 k|t0 t1 k v|k| |t0 k]; cbn; try done; intros <-.
    - destruct (evict_expired_config t0 c) as (Em & _). unfold lru_get, sbind, smod, sget, slift, add_u64.
      destruct (lru_map _ !! k); destruct (arith 64 _); cbn; done.
    - unfold lru_put, evict_lru. destruct (_ <? _); cbn; apply evict_expired_config.
    - unfold lru_contains_key. cbn. apply evict_expired_config. }
  split; apply Hrun; try done; (split; cbn; [done|rewrite map_size_empty; lia]).
Qed.

Lemma lru_get_after_put (t0 t1 t2 t3 : Z) (k : K) (v : V) (c : LruCache K V) :
  1 <= max_size c -> 0 <= hits c < U64_MAX -> 0 <= misses c < U64_MAX ->
  (forall k' e, lru_map c !! k' = Some e -> last_access e < t1) ->
  t1 <= t2 -> (forall t, ttl c = Some t -> t2 - t1 < t) ->
  (lru_get (E:=E) t2 t3 k (lru_put t0 t1 k v c)).1 = Ok (Some v).
Proof.
  intros Hmax Hh Hm Hclock Hle Httl.
  assert (Hput : exists m, lru_put t0 t1 k v c = set_lru_map m c /\ m !! k = Some (mkEntry v t1)).
  { set (m := lru_map (lru_put t0 t1 k v c)). exists m. split.
    - destruct (evict_expired_config t0 c) as (E1 & E2 & E3 & E4). unfold m, lru_put, evict_lru.
      destruct (_ <? _); unfold set_lru_map; cbn; by rewrite E1, E2, E3, E4.
    - by apply lru_put_spec. }
  destruct Hput as (m & -> & Hk). rewrite lru_get_effect by done.
  assert (Hlive : live_map t2 (set_lru_map m c) !! k = Some (mkEntry v t1)).
  { unfold live_map. cbn [ttl lru_map set_lru_map]. destruct (ttl c) as [t|] eqn:Ht; [|done].
    apply map_lookup_filter_Some. split; [done|]. unfold live, saturating_sub. cbn. specialize (Httl t eq_refl). lia. }
  by rewrite Hlive.
Qed.

(** Reading back: a value put into a cache of positive capacity is what the next [get] of its
    key returns, if the clock advanced before the put and the time to live has not passed. *)
Theorem lru_put_get (t0 t1 t2 t3 : Z) (k : K) (v : V) (c : LruCache K V) :
  1 <= max_size c -> 0 <= hits c < U64_MAX -> 0 <= misses c < U64_MAX ->
  (forall k' e, lru_map c !! k' = Some e -> last_access e < t1) ->
  t1 <= t2 -> (forall t, ttl c = Some t -> t2 - t1 < t) ->
  (lru_get (E:=E) t2 t3 k (lru_put t0 t1 k v c)).1 = Ok (Some v).
Proof. apply lru_get_after_put. Qed.

(** [put] on a cache of positive capacity: the cache is within its capacity; everything in
    it but the new entry was there before, live and unchanged; what was pushed out was used last no
    later than whatever remains; nothing live is pushed out while there is room; and if the
    clock has advanced since every earlier access, the new entry is in the cache. *)
Theorem lru_put_effect (t0 t1 : Z) (k : K) (v : V) (c : LruCache K V) :
  1 <= max_size c ->
  let before := <[k := mkEntry v t1]> (live_map t0 c) in
  let after := lru_map (lru_put t0 t1 k v c) in
  Z.of_nat (size after) = Z.min (Z.of_nat (size before)) (max_size c)
  /\ after ⊆ before
  /\ (forall k1 e1 k2 e2, before !! k1 = Some e1 -> after !! k1 = None -> after !! k2 = Some e2 -> last_access e1 <= last_access e2)
  /\ (Z.of_nat (size before) <= max_size c -> after = before)
  /\ ((forall k' e, lru_map c !! k' = Some e -> last_access e < t1) -> after !! k = Some (mkEntry v t1)).
Proof. apply lru_put_spec. Qed.
End LruProps.

(** ** Blocks *)

Section BlockCacheProps.
Context `{Iter : !HashMapIter Z (LruEntry Block)} `{BP : BuildProfile} `{S3 : Sha3} {E : Type}.

(** A block put into the cache is found under its hash; but so it is under the hash of every
    block of the same height that was put before it, since the index entry of the replaced block stays. *)
Theorem block_cache_by_hash (t0 t1 t2 t3 : Z) (b old : Block) (c : BlockCache) :
  1 <= max_size (bc_cache c) -> 0 <= hits (bc_cache c) < U64_MAX -> 0 <= misses (bc_cache c) < U64_MAX ->
  (forall k e, lru_map (bc_cache c) !! k = Some e -> last_access e < t1) -> t1 <= t2 -> ttl (bc_cache c) = None ->
  hash_index c !! block_hash old = Some (height (header b)) ->
  let c' := block_cache_put t0 t1 b c in
  (block_cache_get_by_hash (E:=E) t2 t3 (block_hash b) c').1 = Ok (Some b)
  /\ (block_cache_get_by_hash (E:=E) t2 t3 (block_hash old) c').1 = Ok (Some b).
Proof.
  intros Hmax Hh Hm Hclock Hle Httl Hold c'.
  assert (Hget : forall h, hash_index c' !! h = Some (height (header b)) ->
    (block_cache_get_by_hash (E:=E) t2 t3 h c').1 = Ok (Some b)).
  { intros h Hi. unfold block_cache_get_by_hash, sbind, sget. rewrite Hi. unfold on_lru, c', block_cache_put. cbn [bc_cache].
    pose proof (lru_get_after_put (E:=E) t0 t1 t2 t3 (height (header b)) b (bc_cache c) Hmax Hh Hm Hclock Hle) as Hg.
    destruct (lru_get _ _ _ _) as [r x]. apply Hg. intros t Ht. congruence. }
  split; apply Hget; unfold c'; cbn.
  - apply lookup_insert_eq.
  - destruct (decide (block_hash old = block_hash b)) as [->|Hne]; [apply lookup_insert_eq|by rewrite lookup_insert_ne].
Qed.
End BlockCacheProps.

(** ** Concrete runs *)

Section CacheWitnesses.
#[local] Existing Instance release_profile.
#[local] Existing Instance toy_sha3.
#[local] Existing Instance key_order.

Definition demo_block (h n : Z) : Block := mkBlock (mkHeader h zero_hash zero_hash zero_hash n zero_address 0 0 []) [].
Definition demo_cache : LruCache Z Z := lru_put 1 1 10 100 (lru_put 2 2 20 200 (lru_new 2)).

Lemma lru_put_effect_witness : lru_map (lru_put 5 5 30 300 demo_cache) !! 30 = Some (mkEntry 300 5).
Proof.
  destruct (lru_put_effect 5 5 30 300 demo_cache ltac:(by vm_compute)) as (_ & _ & _ & _ & H). apply H.
  intros k e Hk. apply elem_of_map_to_list in Hk.
  assert (Hall : Forall (fun p => last_access p.2 < 5) (map_to_list (lru_map demo_cache))) by (repeat constructor).
  rewrite Forall_forall in Hall. exact (Hall _ Hk).
Defined.

Lemma lru_capacity_witness :
  lru_len (foldl (fun c op => lru_step (E:=unit) op c) (lru_new 1) [LPut 1 1 10 100; LPut 2 2 20 200; LGet 3 3 10]) <= 1.
Proof. exact (proj1 (lru_capacity (E:=unit) [LPut 1 1 10 100; LPut 2 2 20 200; LGet 3 3 10] 1 5 ltac:(lia))). Defined.

Lemma lru_put_get_witness : (lru_get (E:=unit) 6 6 30 (lru_put 5 5 30 300 (with_ttl 2 10))).1 = Ok (Some 300).
Proof.
  apply (lru_put_get (E:=unit) 5 5 6 6 30 300 (with_ttl 2 10)); [by vm_compute|split; by vm_compute|split; by vm_compute| |by vm_compute|].
  - intros k e Hk. unfold with_ttl in Hk; cbn [lru_map] in Hk; by rewrite lookup_empty in Hk.
  - intros t [= <-]. lia.
Defined.

Lemma block_cache_by_hash_witness :
  (block_cache_get_by_hash (E:=unit) 9 9 (block_hash (demo_block 3 1))
     (block_cache_put 8 8 (demo_block 3 2) (block_cache_put 7 7 (demo_block 3 1) (block_cache_new 5)))).1 = Ok (Some (demo_block 3 2)).
Proof.
  apply (block_cache_by_hash (E:=unit) 8 8 9 9 (demo_block 3 2) (demo_block 3 1));
    [by vm_compute|split; by vm_compute|split; by vm_compute| |by vm_compute|by vm_compute|].
  - intros k e Hk. apply elem_of_map_to_list in Hk.
    assert (Hall : Forall (fun p => last_access p.2 < 8) (map_to_list (lru_map (bc_cache (block_cache_put 7 7 (demo_block 3 1) (block_cache_new 5))))))
      by (repeat constructor).
    rewrite Forall_forall in Hall. exact (Hall _ Hk).
  - cbn. apply lookup_insert_eq.
Defined.
End CacheWitnesses.
