(* ===== verification/Rounds.v ===== *)
(** * Rounds and the pacemaker (src/consensus/round.rs, src/consensus/pacemaker.rs)

    [RoundManager] keeps height, round, state and the start of the round, each behind its own lock;
    no method holds two of them.  [Instant]s are milliseconds of a monotonic clock.  The loops of the two
    modules are one turn per tick; the command channel of the pacemaker is the list of what was sent. *)

From S2P Require Import Prelude Hashing Errors Types Merkle Block Engine Floats.
Abbreviation length := List.length.

(** ** Rounds *)

Inductive RoundState : Type :=
  NewRound | ProposalSent | ProposalReceived | Prevoted | Precommitted | Committed | TimedOut.
#[export] Instance RoundState_eq_dec : EqDecision RoundState.
Proof. solve_decision. Defined.

Inductive TimeoutType : Type := ToProposal | ToPrevote | ToPrecommit | ToRound.
#[export] Instance TimeoutType_eq_dec : EqDecision TimeoutType.
Proof. solve_decision. Defined.

Record RoundManager : Type := mkRounds {
  rm_height : Z;
  rm_round : Z;
  rm_state : RoundState;
  rm_start_time : option Z;
  rm_proposal_timeout_ms : Z;
  rm_prevote_timeout_ms : Z;
  rm_precommit_timeout_ms : Z;
  rm_round_timeout_ms : Z
}.
Definition rounds_new (proposal prevote precommit round : Z) : RoundManager :=
  mkRounds 0 0 NewRound None proposal prevote precommit round.
Definition set_rounds (h r : Z) (s : RoundState) (t : option Z) (m : RoundManager) : RoundManager :=
  mkRounds h r s t (rm_proposal_timeout_ms m) (rm_prevote_timeout_ms m) (rm_precommit_timeout_ms m) (rm_round_timeout_ms m).

Definition rm_start_new_round (now h r : Z) (m : RoundManager) : RoundManager := set_rounds h r NewRound (Some now) m.
Definition set_state (s : RoundState) (m : RoundManager) : RoundManager := set_rounds (rm_height m) (rm_round m) s (rm_start_time m) m.
Definition reset_for_height (now h : Z) (m : RoundManager) : RoundManager := set_rounds h 0 NewRound (Some now) m.

(** [t.elapsed().as_millis() as u64], zero before the first round. *)
Definition elapsed_ms (now : Z) (m : RoundManager) : Z :=
  match rm_start_time m with Some t => cast 64 (saturating_sub now t) | None => 0 end.

Definition check_timeout (now : Z) (m : RoundManager) : option TimeoutType :=
  let elapsed := elapsed_ms now m in
  match rm_state m with
  | NewRound => if rm_proposal_timeout_ms m <? elapsed then Some ToProposal else None
  | ProposalReceived | ProposalSent => if rm_prevote_timeout_ms m <? elapsed then Some ToPrevote else None
  | Prevoted => if rm_precommit_timeout_ms m <? elapsed then Some ToPrecommit else None
  | Precommitted => if rm_round_timeout_ms m <? elapsed then Some ToRound else None
  | _ => None
  end.

(** One turn of [wait_for_state], begun at [start]: the result, or another turn after a pause. *)
Definition wait_turn (now start timeout : Z) (expected : RoundState) (m : RoundManager) : option (TimeoutType + unit) :=
  if bool_decide (rm_state m = expected) then Some (inr tt)
  else if timeout <? now - start then Some (inl (default ToRound (check_timeout now m)))
  else None.

Section Rounds.
Context `{BP : BuildProfile} {E : Type}.

Definition advance_round (now : Z) : ST RoundManager E (Z * Z) :=
  do! h := sget rm_height in
  do! current := sget rm_round in
  do! next := slift (add_u64 current 1) in
  run! smod (fun m => set_rounds (rm_height m) next NewRound (Some now) m) in
  sret (h, next).

(** [2u64.pow(n)] of an exponent up to five. *)
Definition get_timeout_with_backoff (base_timeout consecutive : Z) : Outcome E Z :=
  let multiplier := 2 ^ (cast 32 (Z.min consecutive 5)) in
  let? a := mul_u64 base_timeout multiplier in
  let? b := mul_u64 base_timeout 10 in
  Ok (Z.min a b).

(** One turn of [run_timeout_loop]: the call of [on_timeout], if any.  The count of consecutive
    timeouts is kept by the loop and not read. *)
Definition timeout_turn (now : Z) : ST RoundManager E (option (TimeoutType * Z * Z)) :=
  do! t := sget (check_timeout now) in
  match t with
  | None => sret None
  | Some ty =>
      do! h := sget rm_height in
      do! r := sget rm_round in
      run! (if bool_decide (ty = ToRound) then run! advance_round now in sret tt else sret tt) in
      sret (Some (ty, h, r))
  end.
End Rounds.

(** ** Round timer *)

Record RoundTimer : Type := mkTimer { timer_start : Z; timer_timeout_ms : Z }.
Definition timer_new (now t : Z) : RoundTimer := mkTimer now t.
Definition timer_reset (now : Z) (t : RoundTimer) : RoundTimer := mkTimer now (timer_timeout_ms t).
Definition timer_elapsed_ms (now : Z) (t : RoundTimer) : Z := cast 64 (saturating_sub now (timer_start t)).
Definition timer_is_expired (now : Z) (t : RoundTimer) : bool := timer_timeout_ms t <? timer_elapsed_ms now t.
Definition timer_remaining_ms (now : Z) (t : RoundTimer) : Z := saturating_sub (timer_timeout_ms t) (timer_elapsed_ms now t).
Definition timer_progress (now : Z) (t : RoundTimer) : f64 := f64_div (f64_of (timer_elapsed_ms now t)) (f64_of (timer_timeout_ms t)).

(** ** Pacemaker *)

Record Pacemaker : Type := mkPacemaker {
  pm_rounds : RoundManager;
  pm_sent : list ConsensusCommand;
  pm_base_timeout_ms : Z;
  pm_max_timeout_ms : Z;
  pm_consecutive : Z;
  pm_backoff_multiplier : f64;
  pm_last_activity : Z
}.
Definition set_pacemaker (sent : list ConsensusCommand) (n t : Z) (p : Pacemaker) : Pacemaker :=
  mkPacemaker (pm_rounds p) sent (pm_base_timeout_ms p) (pm_max_timeout_ms p) n (pm_backoff_multiplier p) t.

(** [x as i32] of an unsigned number. *)
Definition as_i32 (z : Z) : Z := let w := cast 32 z in if w <? 2 ^ 31 then w else w - 2 ^ 32.

Definition get_current_timeout (p : Pacemaker) : Z :=
  if pm_consecutive p =? 0 then pm_base_timeout_ms p
  else
    let multiplier := f64_powi (pm_backoff_multiplier p) (as_i32 (pm_consecutive p)) in
    Z.min (f64_to_uint 64 (f64_mul (f64_of (pm_base_timeout_ms p)) multiplier)) (pm_max_timeout_ms p).

Definition pm_record_activity (clock : Z) (p : Pacemaker) : Pacemaker := set_pacemaker (pm_sent p) 0 clock p.
Definition on_new_round (clock : Z) (p : Pacemaker) : Pacemaker := pm_record_activity clock p.
Definition on_proposal_received (clock : Z) (p : Pacemaker) : Pacemaker := pm_record_activity clock p.
Definition on_vote_received (clock : Z) (p : Pacemaker) : Pacemaker := pm_record_activity clock p.
Definition reset_timeouts (p : Pacemaker) : Pacemaker := set_pacemaker (pm_sent p) 0 (pm_last_activity p) p.
Definition on_quorum_reached (clock : Z) (p : Pacemaker) : Pacemaker := reset_timeouts (pm_record_activity clock p).
Definition enter_sync_mode (p : Pacemaker) : Pacemaker := reset_timeouts p.
Definition exit_sync_mode (clock : Z) (p : Pacemaker) : Pacemaker := pm_record_activity clock p.

Record PacemakerStatus : Type := mkPaceStatus {
  ps_base_timeout_ms : Z; ps_current_timeout_ms : Z; ps_consecutive_timeouts : Z; ps_last_activity : Z
}.
Definition pm_status (p : Pacemaker) : PacemakerStatus :=
  mkPaceStatus (pm_base_timeout_ms p) (get_current_timeout p) (pm_consecutive p) (pm_last_activity p).

Section Pacemaker.
Context `{BP : BuildProfile} {E : Type}.

Definition pacemaker_new (rounds : RoundManager) (base clock : Z) : Outcome E Pacemaker :=
  let? max := mul_u64 base 10 in
  Ok (mkPacemaker rounds [] base max 0 (literal 3 2) clock).

(** One tick, at instant [now] and clock time [clock]. *)
Definition check_and_handle_timeouts (now clock : Z) : ST Pacemaker E unit :=
  do! h := sget (fun p => rm_height (pm_rounds p)) in
  do! r := sget (fun p => rm_round (pm_rounds p)) in
  do! elapsed := sget (fun p => elapsed_ms now (pm_rounds p)) in
  do! current := sget get_current_timeout in
  if current <? elapsed then
    do! n := sget pm_consecutive in
    do! n' := slift (add_u64 n 1) in
    run! smod (fun p => set_pacemaker (pm_sent p) n' (pm_last_activity p) p) in
    run! smod (fun p => set_pacemaker (pm_sent p ++ [CmdTimeout h r]) (pm_consecutive p) (pm_last_activity p) p) in
    smod (fun p => set_pacemaker (pm_sent p) (pm_consecutive p) clock p)
  else sret tt.

(** The loop of [start]: ticks until the shutdown message. *)
Inductive PaceEvent : Type := PaceTick (now clock : Z) | PaceShutdown.
Fixpoint pacemaker_run (events : list PaceEvent) : ST Pacemaker E unit :=
  match events with
  | [] | PaceShutdown :: _ => sret tt
  | PaceTick now clock :: events => run! check_and_handle_timeouts now clock in pacemaker_run events
  end.
End Pacemaker.

(** ** Timeout calculator *)

(** [Duration]s in nanoseconds. *)
Definition DURATION_MAX : Z := 2 ^ 64 * 1000000000 - 1.
Definition from_millis (ms : Z) : Z := ms * 1000000.
Definition as_millis (d : Z) : Z := d / 1000000.

Record TimeoutCalculator : Type := mkTimeouts {
  tc_base_timeout : Z; tc_min_timeout : Z; tc_max_timeout : Z; tc_backoff_factor : f64
}.

Section Calculator.
Context {E : Type}.
(** [Duration * u32] panics on overflow in every build. *)
Definition duration_mul (d n : Z) : Outcome E Z := if d * n <=? DURATION_MAX then Ok (d * n) else Panic.
Definition with_backoff (base : Z) (factor : f64) : Outcome E TimeoutCalculator :=
  let? max := duration_mul base 10 in Ok (mkTimeouts base base max factor).
Definition timeouts_new (base : Z) : Outcome E TimeoutCalculator := with_backoff base (literal 3 2).
(** [Ord::clamp] asserts its bounds. *)
Definition clamp (x min max : Z) : Outcome E Z := if min <=? max then Ok (Z.min (Z.max x min) max) else Panic.

Definition calculate (failures : Z) (t : TimeoutCalculator) : Outcome E Z :=
  if failures =? 0 then Ok (tc_base_timeout t)
  else
    let multiplier := f64_powi (tc_backoff_factor t) (as_i32 failures) in
    let timeout := from_millis (f64_to_uint 64 (f64_mul (f64_of (as_millis (tc_base_timeout t))) multiplier)) in
    clamp timeout (tc_min_timeout t) (tc_max_timeout t).

Definition calculate_for_round (round : Z) (is_leader : bool) (t : TimeoutCalculator) : Outcome E Z :=
  let base := if is_leader then tc_base_timeout t / 2 else tc_base_timeout t in
  let round_factor := f64_add f64_one (f64_mul (f64_of round) (literal 1 10)) in
  let timeout := from_millis (f64_to_uint 64 (f64_mul (f64_of (as_millis base)) round_factor)) in
  clamp timeout (tc_min_timeout t) (tc_max_timeout t).
End Calculator.

(** ** Rounds and the pacemaker: when a round ends, how long timeouts are *)

Section RoundsProps.
Context `{BP : BuildProfile} {E : Type}.

(** The loop over a list of instants, with the calls it makes. *)
Fixpoint timeout_turns (ts : list Z) : ST RoundManager E (list (TimeoutType * Z * Z)) :=
  match ts with
  | [] => sret []
  | t :: ts =>
      do! o := timeout_turn t in
      do! l := timeout_turns ts in
      sret (match o with Some x => x :: l | None => l end)
  end.

Lemma check_timeout_round now m : check_timeout now m = Some ToRound -> rm_state m = Precommitted.
Proof. unfold check_timeout. destruct (rm_state m); try destruct (_ <? _); congruence. Qed.

Lemma timeout_turn_stays now m :
  rm_state m <> Precommitted -> timeout_turn (E:=E) now m = (Ok ((fun ty => (ty, rm_height m, rm_round m)) <$> check_timeout now m), m).
Proof.
  intros Hs. unfold timeout_turn, sbind, sget. destruct (check_timeout now m) as [ty|] eqn:Hc; [|done].
  rewrite bool_decide_eq_false_2; [done|]. intros ->. by apply check_timeout_round in Hc.
Qed.

(** The timeout loop leaves a round only from [Precommitted]: in every other state, however
    long it runs, it reports timeouts but height, round, state and start stay as they are; from
    [Precommitted], the first turn past the round timeout reports it and begins the next round. *)
Theorem round_timeout_loop (m : RoundManager) (now : Z) (ts : list Z) :
  (rm_state m <> Precommitted -> (timeout_turns ts m).2 = m /\ exists l, (timeout_turns ts m).1 = Ok l /\ (length l <= length ts)%nat)
  /\ (rm_state m = Precommitted -> fits 64 (rm_round m + 1) ->
      timeout_turn (E:=E) now m =
      if rm_round_timeout_ms m <? elapsed_ms now m
      then (Ok (Some (ToRound, rm_height m, rm_round m)), rm_start_new_round now (rm_height m) (rm_round m + 1) m)
      else (Ok None, m)).
Proof.
  split.
  - intros Hs. induction ts as [|t ts [IH1 (l & IH2 & Hl)]]; cbn [timeout_turns]; [split; [done|by exists []]|].
    unfold sbind at 1 3. rewrite timeout_turn_stays by done. unfold sbind.
    destruct (timeout_turns ts m) as [r m']. cbn [fst snd] in *. subst r m'. split; [done|].
    destruct (check_timeout t m); cbn; eexists; (split; [reflexivity|cbn; lia]).
  - intros Hs Hfit. unfold timeout_turn, sbind at 1, sget at 1, check_timeout. rewrite Hs.
    destruct (_ <? _); [|done]. unfold sbind, sget, slift, smod, advance_round, add_u64. cbn [bool_decide].
    rewrite bool_decide_eq_true_2 by done. unfold sbind, sget, slift. rewrite arith_fits by done. done.
Qed.

(** Exponential backoff is exact and bounded: doubling up to the fifth timeout, never below
    the base, never above ten times the base, never decreasing. *)
Theorem backoff_exact (base n n' : Z) :
  0 <= base -> fits 64 (base * 32) -> 0 <= n <= n' ->
  get_timeout_with_backoff (E:=E) base n = Ok (base * Z.min (2 ^ Z.min n 5) 10)
  /\ base <= base * Z.min (2 ^ Z.min n 5) 10 <= base * Z.min (2 ^ Z.min n' 5) 10
  /\ base * Z.min (2 ^ Z.min n' 5) 10 <= base * 10.
Proof.
  intros Hb Hfit Hn.
  assert (Hpow : 1 <= 2 ^ Z.min n 5 <= 32).
  { split; [change 1 with (2 ^ 0)|change 32 with (2 ^ 5)]; apply Z.pow_le_mono_r; lia. }
  assert (Hmono : 2 ^ Z.min n 5 <= 2 ^ Z.min n' 5) by (apply Z.pow_le_mono_r; lia).
  split_and!; [|nia|nia|nia].
  unfold get_timeout_with_backoff, mul_u64. assert (Hc : cast 32 (Z.min n 5) = Z.min n 5) by (unfold cast; apply Z.mod_small; lia).
  rewrite Hc. unfold fits in Hfit. rewrite !arith_fits by (unfold fits; nia). cbn [obind].
  f_equal. by rewrite Z.mul_min_distr_nonneg_l.
Qed.

(** ** Pacemaker *)

Lemma get_current_timeout_max p : pm_base_timeout_ms p <= pm_max_timeout_ms p -> get_current_timeout p <= pm_max_timeout_ms p.
Proof. intros H. unfold get_current_timeout. destruct (_ =? 0); lia. Qed.

Lemma tick_past_max now clock p :
  pm_base_timeout_ms p <= pm_max_timeout_ms p < elapsed_ms now (pm_rounds p) -> fits 64 (pm_consecutive p + 1) ->
  check_and_handle_timeouts (E:=E) now clock p
  = (Ok tt, set_pacemaker (pm_sent p ++ [CmdTimeout (rm_height (pm_rounds p)) (rm_round (pm_rounds p))]) (pm_consecutive p + 1) clock p).
Proof.
  intros Hlt Hfit. pose proof (get_current_timeout_max p ltac:(lia)) as Hmax.
  unfold check_and_handle_timeouts, sbind, sget, slift, smod, add_u64. rewrite (proj2 (Z.ltb_lt _ _)) by lia.
  by rewrite arith_fits.
Qed.

(** Timeouts are capped at ten times the base, so a round that outlasts the cap is reported
    again by every tick: [n] ticks past it send [n] commands for the same height and round, since
    nothing restarts the round's clock. *)
Theorem pacemaker_repeats_timeouts (ticks : list (Z * Z)) (p : Pacemaker) :
  pm_base_timeout_ms p <= pm_max_timeout_ms p -> 0 <= pm_consecutive p ->
  pm_consecutive p + Z.of_nat (length ticks) < 2 ^ 64 ->
  Forall (fun t => pm_max_timeout_ms p < elapsed_ms t.1 (pm_rounds p)) ticks ->
  exists p', pacemaker_run (E:=E) (map (fun t => PaceTick t.1 t.2) ticks) p = (Ok tt, p')
    /\ pm_sent p' = pm_sent p ++ replicate (length ticks) (CmdTimeout (rm_height (pm_rounds p)) (rm_round (pm_rounds p)))
    /\ pm_consecutive p' = pm_consecutive p + Z.of_nat (length ticks) /\ pm_rounds p' = pm_rounds p
    /\ get_current_timeout p' <= pm_max_timeout_ms p.
Proof.
  intros Hmax H0 Hfit Hticks. revert p Hmax H0 Hfit Hticks. induction ticks as [|[now clock] ticks IH]; intros p Hmax H0 Hfit Hticks.
  - exists p. cbn. rewrite app_nil_r, Z.add_0_r. split_and!; try done. by apply get_current_timeout_max.
  - inversion_clear Hticks as [|? ? Hnow Hrest]. cbn [length] in Hfit. cbn [map pacemaker_run]. cbn [fst snd] in *.
    unfold sbind. rewrite tick_past_max by (done || (unfold fits; lia)).
    set (p1 := set_pacemaker _ _ _ p).
    destruct (IH p1) as (p' & E' & Hs & Hc & Hr & Hg); cbn [p1 pm_base_timeout_ms pm_max_timeout_ms pm_consecutive pm_rounds set_pacemaker]; [done|lia|lia|done|].
    exists p'. rewrite E'. split_and!; [done| |rewrite Hc; cbn; lia|done|done].
    rewrite Hs. cbn [p1 pm_sent pm_rounds set_pacemaker length replicate]. by rewrite <- app_assoc.
Qed.

(** Whatever the number of failures or the round, the calculator's timeout is between the base and
    ten times the base; so a leader, meant to get half the base, never gets less than the base. *)
Theorem calculator_bounds (base round failures : Z) (leader : bool) (factor : f64) (t : TimeoutCalculator) :
  0 <= base -> with_backoff (E:=E) base factor = Ok t ->
  (exists d, calculate (E:=E) failures t = Ok d /\ base <= d <= base * 10)
  /\ exists d, calculate_for_round (E:=E) round leader t = Ok d /\ base <= d <= base * 10.
Proof.
  intros Hb. unfold with_backoff, duration_mul. destruct (_ <=? _); [|done]. cbn [obind]. intros [= <-].
  assert (Hclamp : forall x, exists d, clamp (E:=E) x base (base * 10) = Ok d /\ base <= d <= base * 10).
  { intros x. unfold clamp. rewrite (proj2 (Z.leb_le _ _)) by lia. eexists. split; [reflexivity|]. lia. }
  split; [unfold calculate; destruct (_ =? 0); [cbn; eexists; split; [reflexivity|]; lia|apply Hclamp]|apply Hclamp].
Qed.
End RoundsProps.

(** ** Concrete runs *)

Section RoundsWitnesses.
#[local] Existing Instance release_profile.

Definition demo_rounds (s : RoundState) : RoundManager := set_state s (rm_start_new_round 0 1 0 (rounds_new 1000 2000 3000 5000)).

Lemma round_timeout_loop_witness :
  (timeout_turns (E:=unit) [1500; 90000] (demo_rounds NewRound)).2 = demo_rounds NewRound
  /\ (timeout_turn (E:=unit) 6000 (demo_rounds Precommitted)).1 = Ok (Some (ToRound, 1, 0)).
Proof.
  split.
  - exact (proj1 (proj1 (round_timeout_loop (demo_rounds NewRound) 0 [1500; 90000]) ltac:(done))).
  - rewrite (proj2 (round_timeout_loop (demo_rounds Precommitted) 6000 []) eq_refl ltac:(split; by vm_compute)). reflexivity.
Defined.

Lemma backoff_exact_witness : get_timeout_with_backoff (E:=unit) 1000 3 = Ok 8000.
Proof. exact (proj1 (backoff_exact (E:=unit) 1000 3 4 ltac:(lia) ltac:(split; by vm_compute) ltac:(lia))). Defined.

Definition demo_pacemaker : Pacemaker := mkPacemaker (demo_rounds NewRound) [] 1000 10000 0 (literal 3 2) 0.
Lemma pacemaker_repeats_timeouts_witness :
  exists p', pacemaker_run (E:=unit) [PaceTick 20000 20; PaceTick 20100 20] demo_pacemaker = (Ok tt, p')
    /\ pm_sent p' = [CmdTimeout 1 0; CmdTimeout 1 0].
Proof.
  destruct (pacemaker_repeats_timeouts (E:=unit) [(20000, 20); (20100, 20)] demo_pacemaker) as (p' & E & Hs & _);
    [by vm_compute|by vm_compute|by vm_compute|repeat constructor; by vm_compute|]. by exists p'.
Defined.

Lemma calculator_bounds_witness :
  exists t d, timeouts_new (E:=unit) (from_millis 1000) = Ok t /\ calculate_for_round (E:=unit) 0 true t = Ok d /\ from_millis 1000 <= d.
Proof.
  exists (mkTimeouts (from_millis 1000) (from_millis 1000) (from_millis 1000 * 10) (literal 3 2)).
  destruct (calculator_bounds (E:=unit) (from_millis 1000) 0 1 true (literal 3 2)
    (mkTimeouts (from_millis 1000) (from_millis 1000) (from_millis 1000 * 10) (literal 3 2)) ltac:(by vm_compute) eq_refl) as [_ (d & Hd & Hle)].
  exists d. split_and!; [reflexivity|exact Hd|apply Hle].
Defined.
End RoundsWitnesses.

(** The values of the tests; at the first round leader and validator wait equally long. *)
Example calculator_values :
  let t := mkTimeouts (from_millis 1000) (from_millis 1000) (from_millis 10000) (literal 3 2) in
  calculate (E:=unit) 1 t = Ok (from_millis 1500) /\ calculate (E:=unit) 2 t = Ok (from_millis 2250)
  /\ calculate_for_round (E:=unit) 0 true t = calculate_for_round (E:=unit) 0 false t.
Proof. vm_compute. done. Qed.

(** After [2 ^ 31] timeouts the exponent is negative and the timeout is zero. *)
Example backoff_wraps :
  get_current_timeout (mkPacemaker (rounds_new 0 0 0 0) [] 1000 10000 (2 ^ 31) (literal 3 2) 0) = 0.
Proof. vm_compute. reflexivity. Qed.
