(* ===== verification/Dormancy.v ===== *)
(** * Dormant accounts (src/vault/dormancy.rs)

    [DormancyManager] tracks the last activity of addresses, marks accounts dormant after six years
    and burns them later.  [current_timestamp()] is the argument [now]; its five locks are fields,
    and no method asks for one twice. *)

From S2P Require Import Prelude Hashing.
Abbreviation length := List.length.

Definition DORMANCY_THRESHOLD_YEARS : Z := 6.
Definition DORMANCY_THRESHOLD_SECONDS : Z := DORMANCY_THRESHOLD_YEARS * 365 * 24 * 60 * 60.
Definition GRACE_PERIOD_SECONDS : Z := 30 * 24 * 60 * 60.

Record DormantRecord : Type := mkDormant {
  dr_address : Address;
  dr_balance : Z;
  dr_last_activity : Z;
  dormant_since : Z;
  burned : bool;
  burned_at : option Z
}.

Record DormancyManager : Type := mkDormancy {
  dm_last_activity : gmap Address Z;
  warnings_sent : gmap Address Z;
  dormant_accounts : gmap Address DormantRecord;
  total_dormant_accounts : Z;
  total_dormant_value : Z
}.
Definition dormancy_new : DormancyManager := mkDormancy ∅ ∅ ∅ 0 0.
Definition set_dm_activity x m := mkDormancy x (warnings_sent m) (dormant_accounts m) (total_dormant_accounts m) (total_dormant_value m).
Definition set_dm_warnings x m := mkDormancy (dm_last_activity m) x (dormant_accounts m) (total_dormant_accounts m) (total_dormant_value m).
Definition set_dm_dormant x m := mkDormancy (dm_last_activity m) (warnings_sent m) x (total_dormant_accounts m) (total_dormant_value m).
Definition set_dm_count x m := mkDormancy (dm_last_activity m) (warnings_sent m) (dormant_accounts m) x (total_dormant_value m).
Definition set_dm_value x m := mkDormancy (dm_last_activity m) (warnings_sent m) (dormant_accounts m) (total_dormant_accounts m) x.

Section Dormancy.
Context `{IterA : !HashMapIter Address Z} `{IterD : !HashMapIter Address DormantRecord} `{BP : BuildProfile} {E : Type}.
Abbreviation M := (ST DormancyManager E).

(** [usize] has 64 bits. *)
Definition change_count (d : Z) : M unit :=
  do! n := sget total_dormant_accounts in do! n' := slift (arith 64 (n + d)) in smod (set_dm_count n').
Definition change_value (d : Z) : M unit :=
  do! n := sget total_dormant_value in do! n' := slift (arith 128 (n + d)) in smod (set_dm_value n').

(** The value is not changed. *)
Definition dm_record_activity (now : Z) (a : Address) : M unit :=
  run! smod (fun m => set_dm_activity (<[a := now]> (dm_last_activity m)) m) in
  do! o := sget (fun m => dormant_accounts m !! a) in
  run! smod (fun m => set_dm_dormant (delete a (dormant_accounts m)) m) in
  match o with
  | Some _ => change_count (-1)
  | None => sret tt
  end.

Definition dm_add_account (now : Z) (a : Address) (balance : Z) : M unit :=
  smod (fun m => set_dm_activity (<[a := now]> (dm_last_activity m)) m).

Definition remove_account (a : Address) : M unit :=
  run! smod (fun m => set_dm_activity (delete a (dm_last_activity m)) m) in
  do! o := sget (fun m => dormant_accounts m !! a) in
  run! smod (fun m => set_dm_dormant (delete a (dormant_accounts m)) m) in
  match o with
  | Some r => run! change_count (-1) in change_value (- dr_balance r)
  | None => sret tt
  end.

Definition dm_check_dormancy (current_time : Z) (m : DormancyManager) : list Address :=
  let threshold := saturating_sub current_time DORMANCY_THRESHOLD_SECONDS in
  (List.filter (fun p => negb (bool_decide (is_Some (dormant_accounts m !! p.1))) && (p.2 <? threshold))
     (entries (dm_last_activity m))).*1.

(** An account marked again keeps the old value in the total. *)
Definition mark_dormant (now : Z) (a : Address) (balance : Z) : M unit :=
  do! last_active := sget (fun m => default now (dm_last_activity m !! a)) in
  let record := mkDormant a balance last_active now false None in
  do! o := sget (fun m => dormant_accounts m !! a) in
  run! smod (fun m => set_dm_dormant (<[a := record]> (dormant_accounts m)) m) in
  match o with
  | None => run! change_count 1 in change_value balance
  | Some _ => sret tt
  end.

Definition mark_burned (now : Z) (r : DormantRecord) : DormantRecord :=
  mkDormant (dr_address r) (dr_balance r) (dr_last_activity r) (dormant_since r) true (Some now).

Definition burn_dormant (now : Z) (a : Address) : M (option Z) :=
  do! o := sget (fun m => dormant_accounts m !! a) in
  match o with
  | None => sret None
  | Some r =>
      if burned r then sret None
      else
        do! t := slift (add_u64 (dormant_since r) DORMANCY_THRESHOLD_SECONDS) in
        do! grace_end := slift (add_u64 t GRACE_PERIOD_SECONDS) in
        if grace_end <=? now then
          run! smod (fun m => set_dm_dormant (<[a := mark_burned now r]> (dormant_accounts m)) m) in
          run! change_value (- dr_balance r) in
          sret (Some (dr_balance r))
        else sret None
  end.

(** Entries in the order of the map; [current_time - last_warning] can underflow. *)
Fixpoint needing_warning (current_time : Z) (l : list (Address * Z)) (m : DormancyManager) : Outcome E (list Address) :=
  match l with
  | [] => Ok []
  | (a, last_active) :: l =>
      let? warned := match warnings_sent m !! a with
                     | Some w => let? d := sub_u64 current_time w in Ok (d <? GRACE_PERIOD_SECONDS)
                     | None => Ok false
                     end in
      let? rest := needing_warning current_time l m in
      let threshold := saturating_sub current_time (DORMANCY_THRESHOLD_SECONDS - GRACE_PERIOD_SECONDS) in
      Ok (if negb warned && negb (bool_decide (is_Some (dormant_accounts m !! a))) && (last_active <? threshold)
          then a :: rest else rest)
  end.
Definition get_accounts_needing_warning (current_time : Z) (m : DormancyManager) : Outcome E (list Address) :=
  needing_warning current_time (entries (dm_last_activity m)) m.

Definition mark_warning_sent (now : Z) (a : Address) : M unit :=
  smod (fun m => set_dm_warnings (<[a := now]> (warnings_sent m)) m).
Definition dm_is_dormant (a : Address) (m : DormancyManager) : bool := bool_decide (is_Some (dormant_accounts m !! a)).
Definition inactive_duration (now : Z) (a : Address) (m : DormancyManager) : option Z :=
  saturating_sub now <$> dm_last_activity m !! a.
Definition list_dormant_accounts (m : DormancyManager) : list DormantRecord := values (dormant_accounts m).

Record DormancyStats : Type := mkDormancyStats {
  ds_total_dormant_accounts : Z;
  ds_total_dormant_balance : Z;
  ds_burned_accounts : Z;
  ds_burned_value : Z;
  ds_oldest_dormant_days : Z;
  ds_threshold_years : Z
}.
(** The loop of [stats]: total balance, burned count and value, oldest age. *)
Definition stats_turn (now : Z) (r : DormantRecord) (acc : Z * Z * Z * Z) : Outcome E (Z * Z * Z * Z) :=
  let '(total, count, value, oldest) := acc in
  let? total' := add_u128 total (dr_balance r) in
  let? p := (if burned r then let? c := add_u64 count 1 in let? v := add_u128 value (dr_balance r) in Ok (c, v)
             else Ok (count, value)) in
  Ok (total', p.1, p.2, Z.max oldest (saturating_sub now (dormant_since r))).
Definition dormancy_stats (now : Z) (m : DormancyManager) : Outcome E DormancyStats :=
  let? acc := foldl (fun acc r => let? x := acc in stats_turn now r x) (Ok (0, 0, 0, 0)) (values (dormant_accounts m)) in
  let '(total, count, value, oldest) := acc in
  Ok (mkDormancyStats (Z.of_nat (size (dormant_accounts m))) total count value (oldest / 86400) DORMANCY_THRESHOLD_YEARS).
End Dormancy.

(** ** Dormant accounts: the count, the check, the delay of burning, the drifting total *)

Section DormancyProps.
Context `{IterA : !HashMapIter Address Z} `{IterD : !HashMapIter Address DormantRecord} `{BP : BuildProfile} {E : Type}.
Implicit Types m : DormancyManager.

Definition dormant_size m : Z := Z.of_nat (size (dormant_accounts m)).
Definition count_ok m : Prop := total_dormant_accounts m = dormant_size m.

Lemma change_count_ok d m : fits 64 (total_dormant_accounts m + d) ->
  change_count (E:=E) d m = (Ok tt, set_dm_count (total_dormant_accounts m + d) m).
Proof. intros H. unfold change_count, sbind, sget, slift. by rewrite arith_fits. Qed.

(** Whatever it returns, only the total value changes. *)
Lemma change_value_keeps d m :
  dormant_accounts (change_value (E:=E) d m).2 = dormant_accounts m
  /\ total_dormant_accounts (change_value (E:=E) d m).2 = total_dormant_accounts m.
Proof. unfold change_value, sbind, sget, slift. by destruct (arith _ _). Qed.

Lemma size_delete_present (D : gmap Address DormantRecord) a r :
  D !! a = Some r -> Z.of_nat (size D) = Z.of_nat (size (delete a D)) + 1.
Proof.
  intros Ha. rewrite <- (insert_delete_id D a r Ha) at 1. rewrite map_size_insert_None by apply lookup_delete_eq. lia.
Qed.

Inductive DormancyOp : Type :=
| DActivity (now : Z) (a : Address) | DAdd (now : Z) (a : Address) (b : Z) | DRemove (a : Address)
| DMark (now : Z) (a : Address) (b : Z) | DBurn (now : Z) (a : Address) | DWarn (now : Z) (a : Address).

Definition dormancy_step (op : DormancyOp) m : DormancyManager :=
  match op with
  | DActivity now a => (dm_record_activity (E:=E) now a m).2
  | DAdd now a b => (dm_add_account (E:=E) now a b m).2
  | DRemove a => (remove_account (E:=E) a m).2
  | DMark now a b => (mark_dormant (E:=E) now a b m).2
  | DBurn now a => (burn_dormant (E:=E) now a m).2
  | DWarn now a => (mark_warning_sent (E:=E) now a m).2
  end.

(** The count agrees and grew by at most one. *)
Definition counted m m' : Prop := count_ok m' /\ dormant_size m' <= dormant_size m + 1.

Lemma counted_value d m m1 : counted m m1 -> counted m (change_value (E:=E) d m1).2.
Proof. unfold counted, count_ok, dormant_size. by destruct (change_value_keeps d m1) as [-> ->]. Qed.

Lemma counted_delete a m m1 :
  count_ok m1 -> dormant_accounts m1 = dormant_accounts m -> dormant_size m < 2 ^ 64 - 1 ->
  let m2 := set_dm_dormant (delete a (dormant_accounts m1)) m1 in
  match dormant_accounts m1 !! a with
  | Some _ => exists m3, change_count (E:=E) (-1) m2 = (Ok tt, m3) /\ counted m m3
  | None => counted m m2
  end.
Proof.
  unfold counted, count_ok, dormant_size. intros Hc Hd Hmax. cbn zeta. rewrite Hd in *.
  destruct (dormant_accounts m !! a) as [r|] eqn:Ha.
  - pose proof (size_delete_present _ _ _ Ha) as Hs. rewrite change_count_ok by (cbn; unfold fits; lia). eexists. split; [done|]. cbn. lia.
  - cbn. rewrite (delete_id _ _ Ha). lia.
Qed.

Lemma dormancy_step_count op m :
  count_ok m -> dormant_size m < 2 ^ 64 - 1 -> counted m (dormancy_step op m).
Proof.
  intros Hc Hmax. assert (Hsame : counted m m) by (split; [done|lia]).
  destruct op as [now a|now a b|a|now a b|now a|now a]; cbn [dormancy_step]; [| | | | |exact Hsame].
  - unfold dm_record_activity, sbind, smod, sget. cbn [dormant_accounts set_dm_activity].
    pose proof (counted_delete a m (set_dm_activity (<[a := now]> (dm_last_activity m)) m) Hc eq_refl Hmax) as Hdel.
    cbn [dormant_accounts set_dm_activity] in Hdel. destruct (dormant_accounts m !! a); [|exact Hdel].
    by destruct Hdel as (m3 & -> & H3).
  - exact Hsame.
  - unfold remove_account, sbind, smod, sget. cbn [dormant_accounts set_dm_activity].
    pose proof (counted_delete a m (set_dm_activity (delete a (dm_last_activity m)) m) Hc eq_refl Hmax) as Hdel.
    cbn [dormant_accounts set_dm_activity] in Hdel. destruct (dormant_accounts m !! a); [|exact Hdel].
    destruct Hdel as (m3 & -> & H3). by apply counted_value.
  - unfold mark_dormant, sbind, smod, sget. cbn zeta. destruct (dormant_accounts m !! a) as [r|] eqn:Ha.
    + unfold counted, count_ok, dormant_size in *. cbn. rewrite map_size_insert_Some by (by eexists). lia.
    + unfold count_ok, dormant_size in *. rewrite change_count_ok by (cbn; unfold fits; lia).
      apply counted_value. unfold counted, count_ok, dormant_size. cbn. rewrite map_size_insert_None by done. lia.
  - unfold burn_dormant, sbind, sget, slift, smod. destruct (dormant_accounts m !! a) as [r|] eqn:Ha; [|exact Hsame].
    destruct (Dormancy.burned r); [exact Hsame|]. destruct (add_u64 _ _) as [t| | |]; [|exact Hsame..].
    destruct (add_u64 t _) as [g| | |]; [|exact Hsame..]. destruct (_ <=? now); [|exact Hsame].
    set (m1 := set_dm_dormant _ m). assert (H1 : counted m m1).
    { unfold counted, count_ok, dormant_size in *. cbn. rewrite map_size_insert_Some by (by eexists). lia. }
    apply (counted_value (- dr_balance r)) in H1. by destruct (change_value _ _) as [[] m2].
Qed.

(** The number of dormant accounts is always the number of records, through any sequence of
    activity, additions, removals, marks, burns and warnings, whatever each of them returns. *)
Theorem dormancy_count_invariant (ops : list DormancyOp) :
  Z.of_nat (length ops) < 2 ^ 64 - 1 -> count_ok (foldl (fun m op => dormancy_step op m) dormancy_new ops).
Proof.
  intros Hlen.
  assert (Hgen : forall ops m, count_ok m -> dormant_size m + Z.of_nat (length ops) < 2 ^ 64 - 1 ->
    count_ok (foldl (fun m op => dormancy_step op m) m ops)).
  { intros l. induction l as [|op l IH]; intros m Hc Hs; cbn [foldl length] in *; [done|].
    destruct (dormancy_step_count op m Hc) as [Hc' Hs']; [lia|]. apply IH; [done|]. lia. }
  apply Hgen; [done|]. unfold dormant_size. cbn. rewrite map_size_empty. lia.
Qed.

(** What the sweep finds. *)
Lemma elem_of_check_dormancy t a m :
  a ∈ dm_check_dormancy t m <->
  exists l, dm_last_activity m !! a = Some l /\ dormant_accounts m !! a = None /\ l < saturating_sub t DORMANCY_THRESHOLD_SECONDS.
Proof.
  unfold dm_check_dormancy. rewrite list_elem_of_fmap. split.
  - intros ([a' l] & -> & Hin). apply list_elem_of_In, filter_In in Hin as [Hin Hcond]. apply list_elem_of_In, elem_of_entries in Hin.
    apply andb_prop in Hcond as [Hd Hl]. apply negb_true_iff, bool_decide_eq_false in Hd. apply Z.ltb_lt in Hl. cbn in *.
    exists l. split_and!; [done|by apply eq_None_not_Some|done].
  - intros (l & Hl & Hd & Hlt). exists (a, l). split; [done|]. apply list_elem_of_In, filter_In. split.
    + by apply list_elem_of_In, elem_of_entries.
    + cbn. rewrite Hd. by apply Z.ltb_lt.
Qed.

(** The sweep lists exactly the unmarked addresses idle for more than six years; and an account
    it lists, marked then or later, is burned only when idle for more than twelve years and thirty days,
    the six years being waited for a second time. *)
Theorem dormancy_burn_delay (t now1 now2 b : Z) (a : Address) (m m1 m2 : DormancyManager) :
  (forall a, a ∈ dm_check_dormancy t m <->
    exists l, dm_last_activity m !! a = Some l /\ dormant_accounts m !! a = None /\ l < saturating_sub t DORMANCY_THRESHOLD_SECONDS)
  /\ (a ∈ dm_check_dormancy t m -> DORMANCY_THRESHOLD_SECONDS <= t -> t <= now1 < 2 ^ 62 -> mark_dormant (E:=E) now1 a b m = (Ok tt, m1) ->
      forall paid, burn_dormant (E:=E) now2 a m1 = (Ok (Some paid), m2) ->
      paid = b /\ exists l, dm_last_activity m !! a = Some l /\ 2 * DORMANCY_THRESHOLD_SECONDS + GRACE_PERIOD_SECONDS < now2 - l).
Proof.
  split; [intros a'; apply elem_of_check_dormancy|]. intros Ha Ht Hnow Hmark paid Hburn.
  apply elem_of_check_dormancy in Ha as (l & Hl & Hd & Hlt).
  assert (Hrec : dormant_accounts m1 !! a = Some (mkDormant a b l now1 false None)).
  { revert Hmark. unfold mark_dormant, sbind at 1, sget at 1. rewrite Hl. cbn [default]. cbn zeta.
    unfold sbind at 1, sget at 1. unfold sbind at 1, smod at 1. rewrite Hd. unfold sbind, change_count, sbind, sget, slift.
    destruct (arith 64 _); [|done..]. unfold smod. intros Hv.
    match type of Hv with change_value b ?x = _ => pose proof (change_value_keeps b x) as [Hk _] end.
    rewrite Hv in Hk. cbn in Hk. rewrite Hk. apply lookup_insert_eq. }
  revert Hburn. unfold burn_dormant, sbind at 1, sget at 1. rewrite Hrec. cbn [Dormancy.burned dormant_since dr_balance].
  unfold DORMANCY_THRESHOLD_SECONDS, DORMANCY_THRESHOLD_YEARS, GRACE_PERIOD_SECONDS, saturating_sub in *.
  unfold sbind at 1, slift at 1, add_u64. rewrite arith_fits by (unfold fits; lia).
  unfold sbind at 1, slift at 1. rewrite arith_fits by (unfold fits; lia).
  destruct (Z.leb_spec (now1 + 6 * 365 * 24 * 60 * 60 + 30 * 24 * 60 * 60) now2) as [Hge|]; [|done].
  unfold sbind, smod. destruct (change_value _ _) as [[] m3]; [|done..]. unfold sret. intros Heq.
  split; [congruence|]. exists l. split; [done|]. lia.
Qed.

(** Removing a burned account takes its balance off the total a second time: with total [V]
    the burn leaves [V - balance] and the removal asks for [V - 2 * balance], which panics in a debug build and
    wraps around in a release build when it is negative. *)
Theorem dormancy_removes_twice (now : Z) (a : Address) (r : DormantRecord) (m : DormancyManager) :
  dormant_accounts m !! a = Some r -> Dormancy.burned r = false -> 0 <= dr_balance r <= total_dormant_value m ->
  total_dormant_value m < 2 ^ 128 -> 0 <= dormant_since r ->
  dormant_since r + DORMANCY_THRESHOLD_SECONDS + GRACE_PERIOD_SECONDS <= now -> now < 2 ^ 64 ->
  1 <= total_dormant_accounts m < 2 ^ 64 ->
  exists m', burn_dormant (E:=E) now a m = (Ok (Some (dr_balance r)), m')
    /\ total_dormant_value m' = total_dormant_value m - dr_balance r
    /\ match arith (E:=E) 128 (total_dormant_value m - 2 * dr_balance r) with
       | Ok v => exists m2, remove_account (E:=E) a m' = (Ok tt, m2) /\ total_dormant_value m2 = v
       | o => (remove_account (E:=E) a m').1 = Panic
       end.
Proof.
  intros Ha Hb Hv Hmax Hs Hgrace Hnow Hcount.
  assert (Hpos : 0 <= DORMANCY_THRESHOLD_SECONDS /\ 0 <= GRACE_PERIOD_SECONDS) by (by vm_compute).
  set (m' := set_dm_value (total_dormant_value m - dr_balance r) (set_dm_dormant (<[a := mark_burned now r]> (dormant_accounts m)) m)).
  exists m'. split; [|split; [done|]].
  - unfold burn_dormant, sbind at 1, sget at 1. rewrite Ha, Hb. unfold sbind at 1, slift at 1, add_u64. rewrite arith_fits by (unfold fits; lia).
    unfold sbind at 1, slift at 1. rewrite arith_fits by (unfold fits; lia). rewrite (proj2 (Z.leb_le _ _)) by lia.
    unfold sbind, smod, change_value, sbind, sget, slift. cbn [total_dormant_value set_dm_dormant]. rewrite arith_fits by (unfold fits; lia). done.
  - set (m3 := set_dm_count (total_dormant_accounts m + -1)
                 (set_dm_dormant (delete a (dormant_accounts m')) (set_dm_activity (delete a (dm_last_activity m')) m'))).
    assert (Hrem : remove_account (E:=E) a m' = change_value (- dr_balance r) m3).
    { unfold remove_account, sbind at 1, smod at 1. unfold sbind at 1, sget at 1. unfold sbind at 1, smod at 1.
      cbn [dormant_accounts set_dm_activity m' set_dm_value set_dm_dormant]. rewrite lookup_insert_eq.
      unfold sbind at 1. rewrite change_count_ok by (cbn; unfold fits; lia). done. }
    assert (Hval : total_dormant_value m3 + - dr_balance r = total_dormant_value m - 2 * dr_balance r) by (cbn; lia).
    rewrite Hrem. unfold change_value, sbind, sget, slift. rewrite Hval.
    destruct (arith 128 (total_dormant_value m - 2 * dr_balance r)) as [v|e| |] eqn:Har; [by eexists| |done|].
    + by apply arith_not_err in Har.
    + by apply arith_not_deadlock in Har.
Qed.
End DormancyProps.

Section DormancyWitnesses.
#[local] Existing Instance release_profile.
#[local] Existing Instance key_order.

Lemma dormancy_count_invariant_witness :
  count_ok (foldl (fun m op => dormancy_step (E:=unit) op m) dormancy_new [DMark 5 [1] 10; DActivity 6 [1]; DMark 7 [2] 3; DRemove [2]]).
Proof. apply dormancy_count_invariant. cbn. lia. Defined.

Definition idle_manager : DormancyManager := set_dm_activity {[ [1] := 10 ]} dormancy_new.
Lemma dormancy_burn_delay_witness :
  exists m1 m2, mark_dormant (E:=unit) 200000000 [1] 7 idle_manager = (Ok tt, m1)
    /\ burn_dormant (E:=unit) 400000000 [1] m1 = (Ok (Some 7), m2)
    /\ exists l, dm_last_activity idle_manager !! ([1] : Address) = Some l /\ 2 * DORMANCY_THRESHOLD_SECONDS + GRACE_PERIOD_SECONDS < 400000000 - l.
Proof.
  set (m1 := (mark_dormant (E:=unit) 200000000 [1] 7 idle_manager).2). set (m2 := (burn_dormant (E:=unit) 400000000 [1] m1).2).
  assert (H1 : mark_dormant (E:=unit) 200000000 [1] 7 idle_manager = (Ok tt, m1)) by reflexivity.
  assert (H2 : burn_dormant (E:=unit) 400000000 [1] m1 = (Ok (Some 7), m2)) by (vm_compute; reflexivity).
  exists m1, m2. split; [exact H1|]. split; [exact H2|].
  assert (Hin : [1] ∈ dm_check_dormancy 200000000 idle_manager) by (vm_compute; constructor).
  exact (proj2 (proj2 (dormancy_burn_delay (E:=unit) 200000000 200000000 400000000 7 [1] idle_manager m1 m2) Hin ltac:(by vm_compute) ltac:(lia) H1 7 H2)).
Defined.

Lemma dormancy_removes_twice_witness :
  let m := mkDormancy ∅ ∅ {[ [1] := mkDormant [1] 7 0 0 false None ]} 1 7 in
  exists m', burn_dormant (E:=unit) 400000000 [1] m = (Ok (Some 7), m') /\ total_dormant_value m' = 0.
Proof.
  intros m. destruct (dormancy_removes_twice (E:=unit) 400000000 [1] (mkDormant [1] 7 0 0 false None) m) as (m' & E1 & E2 & _);
    [reflexivity|reflexivity|cbn; lia|by vm_compute|by vm_compute|by vm_compute|by vm_compute|cbn; lia|].
  exists m'. split; [exact E1|exact E2].
Defined.
End DormancyWitnesses.
