(* ===== verification/Fees.v ===== *)
(** * Fee manager and sovereign hook (src/vault/fee.rs, src/vault/sovereign.rs)

    [FeeManager] prices transactions with [f64] multipliers and keeps the history of block fees;
    its locks are fields, and the one method that holds a read guard while asking again asks to
    read.  [SovereignHook] keeps the set of frozen accounts; the JSON encoder is a parameter. *)

From stdpp Require Import strings.
From S2P Require Import Prelude Floats Hashing Errors Types Merkle Block State Burn.
Abbreviation length := List.length.

(** ** Fees *)

Record FeeConfig : Type := mkFeeConfig {
  base_fee : Z;
  fc_min_fee : Z;
  fee_per_byte : Z;
  congestion_multiplier : f64;
  max_fee_multiplier : f64
}.
Definition default_fee_config : FeeConfig := mkFeeConfig 1000 100 1 f64_one (f64_of 10).
Definition set_congestion (x : f64) (c : FeeConfig) : FeeConfig :=
  mkFeeConfig (base_fee c) (fc_min_fee c) (fee_per_byte c) x (max_fee_multiplier c).

Record FeeRecord : Type := mkFeeRecord {
  fr_block_height : Z;
  fr_total_fee : Z;
  fr_burned : Z;
  fr_to_validators : Z;
  fr_to_genesis : Z;
  avg_fee_per_tx : Z;
  tx_count : Z;
  fr_timestamp : Z;
  fr_phase : SupplyPhase
}.

Record FeeManager : Type := mkFees {
  fm_config : FeeConfig;
  fee_history : list FeeRecord;
  total_fees_collected : Z;
  total_fees_burned : Z;
  total_fees_distributed : Z
}.
Definition fees_new (c : FeeConfig) : FeeManager := mkFees c [] 0 0 0.
Definition set_fee_config c m := mkFees c (fee_history m) (total_fees_collected m) (total_fees_burned m) (total_fees_distributed m).
Definition set_fee_history h m := mkFees (fm_config m) h (total_fees_collected m) (total_fees_burned m) (total_fees_distributed m).
Definition set_collected x m := mkFees (fm_config m) (fee_history m) x (total_fees_burned m) (total_fees_distributed m).
Definition set_fees_burned x m := mkFees (fm_config m) (fee_history m) (total_fees_collected m) x (total_fees_distributed m).
Definition set_distributed x m := mkFees (fm_config m) (fee_history m) (total_fees_collected m) (total_fees_burned m) x.

Inductive FeePriority : Type := Low | Normal | High | Urgent.

(** [f64::min]: a NaN loses. *)
Definition f64_min (x y : f64) : f64 :=
  match x, y with
  | SpecFloat.S754_nan, _ => y
  | _, SpecFloat.S754_nan => x
  | _, _ => if f64_lt y x then y else x
  end.

Section Fees.
Context `{BP : BuildProfile} {E : Type}.

Definition calculate_fee (tx_size : Z) (network_load : f64) (m : FeeManager) : Outcome E Z :=
  let c := fm_config m in
  let? byte_fee := mul_u128 tx_size (fee_per_byte c) in
  let base := Z.max (Z.max (base_fee c) byte_fee) (fc_min_fee c) in
  let load_multiplier := f64_add f64_one (f64_mul network_load (f64_of 2)) in
  let multiplier := f64_min (f64_mul load_multiplier (congestion_multiplier c)) (max_fee_multiplier c) in
  Ok (f64_to_uint 128 (f64_mul (f64_of base) multiplier)).

Definition recommended_fee (tx_size : Z) (p : FeePriority) (m : FeeManager) : Outcome E Z :=
  let? base := calculate_fee tx_size (literal 5 10) m in
  match p with
  | Low => Ok (base / 2)
  | Normal => Ok base
  | High => mul_u128 base 2
  | Urgent => mul_u128 base 5
  end.

(** The phase recorded is that of the initial supply. *)
Definition record_block_fees (now block_height total_fee burned to_validators to_genesis count : Z) : ST FeeManager E unit :=
  let avg := if 0 <? count then total_fee / count else 0 in
  let record := mkFeeRecord block_height total_fee burned to_validators to_genesis avg count now (from_supply TOTAL_SUPPLY) in
  run! smod (fun m => set_fee_history (fee_history m ++ [record]) m) in
  do! c := sget total_fees_collected in
  do! c' := slift (add_u128 c total_fee) in
  run! smod (set_collected c') in
  do! b := sget total_fees_burned in
  do! b' := slift (add_u128 b burned) in
  run! smod (set_fees_burned b') in
  do! paid := slift (add_u128 to_validators to_genesis) in
  do! d := sget total_fees_distributed in
  do! d' := slift (add_u128 d paid) in
  smod (set_distributed d').

Definition update_congestion (mempool_size max_mempool : Z) (m : FeeManager) : FeeManager :=
  set_fee_config (set_congestion
    (f64_add f64_one (f64_mul (f64_div (f64_of mempool_size) (f64_of max_mempool)) (f64_of 3))) (fm_config m)) m.
Definition update_config (c : FeeConfig) (m : FeeManager) : FeeManager := set_fee_config c m.

Record FeeStats : Type := mkFeeStats {
  fs_total_collected : Z; fs_total_burned : Z; fs_total_distributed : Z; fs_current_base_fee : Z;
  fs_current_congestion : f64; fs_average_fee : Z; fs_history_length : Z
}.
Definition fee_stats (m : FeeManager) : Outcome E FeeStats :=
  let? avg := (if bool_decide (fee_history m = []) then Ok 0
               else let? s := foldl (fun acc r => let? t := acc in add_u128 t (avg_fee_per_tx r)) (Ok 0) (fee_history m) in
                    Ok (s / Z.of_nat (length (fee_history m)))) in
  Ok (mkFeeStats (total_fees_collected m) (total_fees_burned m) (total_fees_distributed m) (base_fee (fm_config m))
        (congestion_multiplier (fm_config m)) avg (Z.of_nat (length (fee_history m)))).

Definition get_fees_in_range (first last : Z) (m : FeeManager) : list FeeRecord :=
  List.filter (fun r => (first <=? fr_block_height r) && (fr_block_height r <=? last)) (fee_history m).
End Fees.

(** ** Sovereign hook *)

Definition SOVEREIGN_ADDRESS : Address := replicate 32 0.

Inductive SovereignAction : Type :=
| Rollback (target_height : Z)
| Freeze (target : Address)
| Unfreeze (target : Address)
| UpdateParameter (key : string) (value : list Z)
| ManualBurn (amount : Z) (why : string).

Record SovereignRecord : Type := mkSovereign {
  sr_id : Hash;
  initiator : Address;
  action : SovereignAction;
  sr_block_height : Z;
  sr_timestamp : Z;
  sr_reason : string;
  multi_sig_proof : option (list Z)
}.

(** [serde_json::to_vec]. *)
Class SerdeJson : Type := {
  json_action : SovereignAction -> string + list Z;
  json_record : SovereignRecord -> string + list Z
}.

(** The frozen accounts; the storage handle is not used. *)
Record SovereignHook : Type := mkHook { frozen_accounts : gmap Address bool }.
Definition hook_new : SovereignHook := mkHook ∅.

Section Sovereign.
Context `{S3 : Sha3} `{SJ : SerdeJson}.

Definition generate_record_id (now : Z) (a : SovereignAction) (block_height : Z) : Hash :=
  sha3_256 (to_le_bytes 8 block_height ++ to_le_bytes 8 now ++ match json_action a with inr b => b | inl _ => [] end).

(** The encoded record is dropped. *)
Definition save_record (r : SovereignRecord) : PacyteResult unit :=
  match json_record r with inr _ => Ok tt | inl e => Err (PE.Internal e) end.

Definition sovereign_execute (now : Z) (a : SovereignAction) (block_height : Z) (why : string) : ST SovereignHook PacyteError Hash :=
  run! smod (fun h => match a with
                      | Freeze t => mkHook (<[t := true]> (frozen_accounts h))
                      | Unfreeze t => mkHook (delete t (frozen_accounts h))
                      | _ => h
                      end) in
  let record := mkSovereign (generate_record_id now a block_height) SOVEREIGN_ADDRESS a block_height now why None in
  run! slift (save_record record) in
  sret (sr_id record).

Definition is_frozen (a : Address) (h : SovereignHook) : bool := bool_decide (is_Some (frozen_accounts h !! a)).
End Sovereign.

(** ** Properties *)

Section FeeProps.
Context `{BP : BuildProfile} {E : Type}.
Implicit Types m : FeeManager.

(** The totals are the sums over the history. *)
Definition fees_ok m : Prop :=
  total_fees_collected m = list_sum (map fr_total_fee (fee_history m))
  /\ total_fees_burned m = list_sum (map fr_burned (fee_history m))
  /\ total_fees_distributed m = list_sum (map (fun r => fr_to_validators r + fr_to_genesis r) (fee_history m)).

(** One block's fees: height, total, burned, validators, genesis, transactions. *)
Definition BlockFees : Type := Z * Z * Z * Z * Z * Z.
Definition record_fees (now : Z) (b : BlockFees) : ST FeeManager E unit :=
  let '(h, t, bu, v, g, n) := b in record_block_fees now h t bu v g n.
Fixpoint record_all (now : Z) (l : list BlockFees) : ST FeeManager E unit :=
  match l with
  | [] => sret tt
  | b :: l => run! record_fees now b in record_all now l
  end.

Definition fees_of (b : BlockFees) : Z := let '(_, t, bu, v, g, _) := b in t + bu + v + g.
Definition fees_pos (b : BlockFees) : Prop := let '(_, t, bu, v, g, _) := b in 0 <= t /\ 0 <= bu /\ 0 <= v /\ 0 <= g.

Lemma record_fees_ok now b m :
  fees_ok m -> fees_pos b -> 0 <= total_fees_collected m -> 0 <= total_fees_burned m -> 0 <= total_fees_distributed m ->
  total_fees_collected m + total_fees_burned m + total_fees_distributed m + fees_of b < 2 ^ 128 ->
  exists m' r, record_fees now b m = (Ok tt, m') /\ fees_ok m' /\ fee_history m' = fee_history m ++ [r]
    /\ fr_phase r = from_supply TOTAL_SUPPLY
    /\ (let '(h, t, bu, v, g, n) := b in fr_block_height r = h /\ fr_total_fee r = t /\ fr_burned r = bu /\ fr_to_validators r = v
        /\ fr_to_genesis r = g /\ avg_fee_per_tx r = if 0 <? n then t / n else 0)
    /\ 0 <= total_fees_collected m' /\ 0 <= total_fees_burned m' /\ 0 <= total_fees_distributed m'
    /\ total_fees_collected m' + total_fees_burned m' + total_fees_distributed m'
       = total_fees_collected m + total_fees_burned m + total_fees_distributed m + fees_of b.
Proof.
  destruct b as [[[[[h t] bu] v] g] n]. cbn [fees_of fees_pos]. intros (Hc & Hb & Hd) (Ht & Hbu & Hv & Hg) H1 H2 H3 Hmax.
  unfold record_fees, record_block_fees. cbn zeta.
  set (r := mkFeeRecord h t bu v g (if 0 <? n then t / n else 0) n now (from_supply TOTAL_SUPPLY)).
  unfold sbind, smod, sget, slift, add_u128.
  cbn [total_fees_collected total_fees_burned total_fees_distributed set_fee_history set_collected set_fees_burned].
  rewrite !arith_fits by (unfold fits; lia). eexists _, r. split; [reflexivity|].
  unfold fees_ok. cbn. rewrite !map_app, !list_sum_app, <- Hc, <- Hb, <- Hd. cbn. split_and!; try done; lia.
Qed.

(** The totals of the fee manager are the sums over its history: recording the fees of any
    blocks, while their sum fits the counters, succeeds, appends one record per block in order with its
    average, and the three totals are exactly the sums of the recorded fees; every record carries the phase of the
    initial supply. *)
Theorem fee_totals_exact (now : Z) (l : list (Z * Z * Z * Z * Z * Z)) (c : FeeConfig) :
  Forall fees_pos l -> list_sum (map fees_of l) < 2 ^ 128 ->
  exists m', record_all now l (fees_new c) = (Ok tt, m') /\ fees_ok m'
    /\ map fr_total_fee (fee_history m') = map (fun '(_, t, _, _, _, _) => t) l
    /\ Forall (fun r => fr_phase r = GreatBurn) (fee_history m').
Proof.
  intros Hpos Hmax.
  assert (Hgen : forall l m, Forall fees_pos l -> fees_ok m -> 0 <= total_fees_collected m -> 0 <= total_fees_burned m ->
    0 <= total_fees_distributed m ->
    total_fees_collected m + total_fees_burned m + total_fees_distributed m + list_sum (map fees_of l) < 2 ^ 128 ->
    exists m', record_all now l m = (Ok tt, m') /\ fees_ok m'
      /\ map fr_total_fee (fee_history m') = map fr_total_fee (fee_history m) ++ map (fun '(_, t, _, _, _, _) => t) l
      /\ (Forall (fun r => fr_phase r = GreatBurn) (fee_history m) -> Forall (fun r => fr_phase r = GreatBurn) (fee_history m'))).
  { intros k. induction k as [|b k IH]; intros m Hp Hok H1 H2 H3 Hm.
    - exists m. rewrite app_nil_r. by split_and!.
    - inversion_clear Hp as [|? ? Hb Hk].
      assert (Hrest : 0 <= list_sum (map fees_of k)).
      { apply list_sum_nonneg, Forall_map. eapply Forall_impl; [exact Hk|]. intros [[[[[h t] bu] v] g] n] Hx. cbn in *. lia. }
      change (list_sum (map fees_of (b :: k))) with (fees_of b + list_sum (map fees_of k)) in Hm.
      destruct (record_fees_ok now b m Hok Hb H1 H2 H3 ltac:(lia)) as (m1 & r & E1 & Hok1 & Hh1 & Hph & Hr & H1' & H2' & H3' & Hsum).
      destruct (IH m1 Hk Hok1 H1' H2' H3' ltac:(lia)) as (m2 & E2 & Hok2 & Hh2 & Hph2).
      exists m2. split_and!; [by cbn [record_all]; unfold sbind; rewrite E1|done| |].
      + rewrite Hh2, Hh1, map_app, <- app_assoc. cbn. destruct b as [[[[[h t] bu] v] g] n]. by destruct Hr as (_ & -> & _).
      + intros Hall. apply Hph2. rewrite Hh1. apply Forall_app. split; [done|]. by apply Forall_singleton. }
  destruct (Hgen l (fees_new c) Hpos) as (m' & E' & Hok & Hh & Hph); cbn; try done; try lia.
  exists m'. split_and!; try done. by apply Hph.
Qed.
End FeeProps.

Section SovereignProps.
Context `{S3 : Sha3} `{SJ : SerdeJson}.

(** The last word on an address in a list of actions. *)
Fixpoint frozen_by (a : Address) (l : list SovereignAction) (before : bool) : bool :=
  match l with
  | [] => before
  | Freeze t :: l => frozen_by a l (if decide (t = a) then true else before)
  | Unfreeze t :: l => frozen_by a l (if decide (t = a) then false else before)
  | _ :: l => frozen_by a l before
  end.

(** An account is frozen exactly when the last directive that names it is a freeze, whatever
    the hook returned for each of them; no other directive has an effect on the hook. *)
Theorem sovereign_last_directive (now h : Z) (why : string) (a : Address) (l : list SovereignAction) (k : SovereignHook) :
  is_frozen a (foldl (fun k act => (sovereign_execute now act h why k).2) k l) = frozen_by a l (is_frozen a k).
Proof.
  revert k. induction l as [|act l IH]; intros k; cbn [foldl frozen_by]; [done|]. rewrite IH.
  assert (Hstep : (sovereign_execute now act h why k).2 =
    match act with Freeze t => mkHook (<[t := true]> (frozen_accounts k)) | Unfreeze t => mkHook (delete t (frozen_accounts k)) | _ => k end).
  { unfold sovereign_execute, sbind, smod, slift, save_record. cbn zeta. by destruct (json_record _). }
  rewrite Hstep. destruct act as [|t|t| |]; try done; f_equal; unfold is_frozen; cbn; case_decide as Ht.
  - subst t. rewrite lookup_insert_eq. by apply bool_decide_eq_true_2.
  - by rewrite lookup_insert_ne.
  - subst t. rewrite lookup_delete_eq. apply bool_decide_eq_false_2. by intros [].
  - by rewrite lookup_delete_ne.
Qed.
End SovereignProps.

(** The fees the tests ask for. *)
Example fee_values :
  let m := fees_new default_fee_config in
  calculate_fee (BP := release_profile) (E:=unit) 250 (literal 5 10) m = Ok 2000
  /\ calculate_fee (BP := release_profile) (E:=unit) 250 (literal 9 10) m = Ok 2800
  /\ recommended_fee (BP := release_profile) (E:=unit) 250 Urgent m = Ok 10000.
Proof. vm_compute. done. Qed.

Lemma fee_totals_exact_witness :
  exists m', record_all (BP := release_profile) (E:=unit) 5 [(100, 1000000, 500000, 400000, 100000, 10)] (fees_new default_fee_config) = (Ok tt, m')
    /\ fees_ok m'.
Proof.
  destruct (fee_totals_exact (BP := release_profile) (E:=unit) 5 [(100, 1000000, 500000, 400000, 100000, 10)] default_fee_config) as (m' & E' & Hok & _);
    [repeat constructor; lia|by vm_compute|]. by exists m'.
Defined.
