(* ===== verification/Messages.v ===== *)
(** * Network messages (src/network/message.rs, src/network/handshake.rs)

    The messages nodes exchange, their names and priorities, the short hash by which gossip
    recognises them, and the signed handshake.  The bincode encoder of the messages is an interface. *)

From stdpp Require Import strings.
From S2P Require Import Prelude Hashing Errors Types Block Votes.
Abbreviation length := List.length.

Module Msg.
Record HandshakeData : Type := mkHandshake {
  version : string;
  protocol_version : Z;
  node_id : Z;
  port : Z;
  genesis_hash : Hash;
  best_height : Z;
  best_hash : Hash;
  capabilities : list string;
  hs_timestamp : Z
}.
(** [crate::VERSION], the version of the package. *)
Definition VERSION : string := "0.25.2".
Definition handshake_new (now node port : Z) (genesis : Hash) (height : Z) (best : Hash) : HandshakeData :=
  mkHandshake VERSION 1 node port genesis height best ["full"; "titan"]%string now.

Record HandshakeAck : Type := mkAck { accepted : bool; reason : option string; ack_peer_id : option Z }.

Record PeerInfo : Type := mkPeerInfo {
  pi_id : Z;
  pi_address : string;
  pi_port : Z;
  pi_best_height : Z;
  pi_best_hash : Hash;
  pi_capabilities : list string;
  connected_since : Z;
  last_seen : Z;
  latency_ms : Z
}.

Record BlockHeaderData : Type := mkHeaderData {
  hd_height : Z; hd_hash : Hash; hd_previous_hash : Hash; hd_timestamp : Z; hd_transaction_count : Z
}.

(** [network::message::ConsensusProposal] and [ConsensusVote]; the vote types are those of the votes. *)
Record ConsensusProposal : Type := mkProposal {
  pr_height : Z; pr_round : Z; pr_block : Block; pr_proposer : Z; pr_signature : list Z
}.
Record ConsensusVote : Type := mkVote {
  vo_height : Z; vo_round : Z; vo_block_hash : Hash; vo_voter : Z; vo_vote_type : VoteType; vo_signature : list Z
}.

Inductive NetworkMessage : Type :=
| Handshake (h : HandshakeData)
| HandshakeAcked (a : HandshakeAck)
| Ping (nonce : Z)
| Pong (nonce : Z)
| GetPeers
| Peers (l : list PeerInfo)
| PeerConnected (p : PeerInfo)
| PeerDisconnected (id : Z)
| GetBlocks (from to : Z)
| Blocks (l : list Block)
| NewBlock (b : Block)
| GetBlockHeaders (from limit : Z)
| BlockHeaders (l : list BlockHeaderData)
| NewTransaction (tx : Transaction)
| GetTransactions (l : list Hash)
| Transactions (l : list Transaction)
| Proposal (p : ConsensusProposal)
| Vote (v : ConsensusVote)
| NewView (height round : Z)
| Timeout (height round : Z)
| GetStateChunk (root : Hash) (chunk_index : Z)
| StateChunk (root : Hash) (chunk_index : Z) (data : list Z)
| Error (code : Z) (message : string).

Definition message_type (m : NetworkMessage) : string :=
  match m with
  | Handshake _ => "Handshake"
  | HandshakeAcked _ => "HandshakeAck"
  | Ping _ => "Ping"
  | Pong _ => "Pong"
  | GetPeers => "GetPeers"
  | Peers _ => "Peers"
  | PeerConnected _ => "PeerConnected"
  | PeerDisconnected _ => "PeerDisconnected"
  | GetBlocks _ _ => "GetBlocks"
  | Blocks _ => "Blocks"
  | NewBlock _ => "NewBlock"
  | GetBlockHeaders _ _ => "GetBlockHeaders"
  | BlockHeaders _ => "BlockHeaders"
  | NewTransaction _ => "NewTransaction"
  | GetTransactions _ => "GetTransactions"
  | Transactions _ => "Transactions"
  | Proposal _ => "Proposal"
  | Vote _ => "Vote"
  | NewView _ _ => "NewView"
  | Timeout _ _ => "Timeout"
  | GetStateChunk _ _ => "GetStateChunk"
  | StateChunk _ _ _ => "StateChunk"
  | Error _ _ => "Error"
  end%string.

Definition priority (m : NetworkMessage) : Z :=
  match m with
  | Proposal _ | Vote _ => 1
  | NewBlock _ | NewTransaction _ => 2
  | Ping _ | Pong _ => 3
  | _ => 4
  end.

(** [bincode] on messages.  Reading starts at the front and ignores what follows. *)
Class BincodeMsg : Type := {
  msg_serialize : NetworkMessage -> option (list Z);
  msg_deserialize : list Z -> option NetworkMessage;
  msg_roundtrip : forall m b rest, msg_serialize m = Some b -> msg_deserialize (b ++ rest) = Some m
}.
Definition to_bytes `{BincodeMsg} (m : NetworkMessage) : list Z := default [] (msg_serialize m).
Definition from_bytes `{BincodeMsg} (b : list Z) : option NetworkMessage := msg_deserialize b.

(** [str::as_bytes] of text whose characters are bytes. *)
Definition as_bytes (s : string) : list Z := map (fun c => Z.of_nat (Ascii.nat_of_ascii c)) (String.list_ascii_of_string s).

(** What [compute_short_hash] feeds to the hasher. *)
Definition short_preimage `{Sha3} (now : Z) (m : NetworkMessage) : list Z :=
  match m with
  | NewTransaction tx => as_bytes "tx:" ++ tx_hash tx
  | NewBlock b => as_bytes "block:" ++ block_hash b
  | Proposal p => as_bytes "proposal:" ++ block_hash (pr_block p) ++ to_le_bytes 8 (pr_round p)
  | Vote v => as_bytes "vote:" ++ vo_block_hash v ++ to_le_bytes 8 (vo_voter v) ++ to_le_bytes 8 (vo_round v)
  | _ => as_bytes "other:" ++ to_le_bytes 8 now
  end.
Definition compute_short_hash `{Sha3} (now : Z) (m : NetworkMessage) : Hash := sha3_256 (short_preimage now m).
End Msg.

(** ** Signed handshake (src/network/handshake.rs) *)

Module Hs.
Record HandshakeMessage : Type := mkHandshakeMessage {
  protocol_version : Z;
  network_id : Z;
  node_id : Z;
  port : Z;
  genesis_hash : Hash;
  best_height : Z;
  best_hash : Hash;
  capabilities : list string;
  hm_timestamp : Z;
  hm_signature : list Z
}.
Definition handshake_message_new (now node port : Z) (genesis : Hash) (height : Z) (best : Hash) : HandshakeMessage :=
  mkHandshakeMessage 1 1 node port genesis height best ["full"; "titan"]%string now [].

Definition handshake_preimage (m : HandshakeMessage) : list Z :=
  to_le_bytes 4 (protocol_version m) ++ to_le_bytes 4 (network_id m) ++ to_le_bytes 8 (node_id m) ++ to_le_bytes 2 (port m)
  ++ genesis_hash m ++ to_le_bytes 8 (best_height m) ++ best_hash m ++ to_le_bytes 8 (hm_timestamp m)
  ++ flat_map Msg.as_bytes (capabilities m).
Definition handshake_signing_hash `{Sha3} (m : HandshakeMessage) : Hash := sha3_256 (handshake_preimage m).

(** [||] does not compute the lower bound once the upper one is passed. *)
Definition handshake_validate `{BuildProfile} (now : Z) (ours : Hash) (max_diff : Z) (m : HandshakeMessage) : PacyteResult unit :=
  if negb (bool_decide (genesis_hash m = ours)) then Err (PE.HandshakeFailed "Genesis hash mismatch")
  else
    let? latest := add_u64 now max_diff in
    let? out := (if latest <? hm_timestamp m then Ok true else let? earliest := sub_u64 now max_diff in Ok (hm_timestamp m <? earliest)) in
    if out : bool then Err (PE.HandshakeFailed "Timestamp out of range") else Ok tt.

Record HandshakeAck : Type := mkHandshakeAck { accepted : bool; reason : option string; assigned_peer_id : option Z }.
Definition ack_accept (id : Z) : HandshakeAck := mkHandshakeAck true None (Some id).
Definition ack_reject (r : string) : HandshakeAck := mkHandshakeAck false (Some r) None.
End Hs.
