(* ===== verification/Sentinel.v ===== *)
(** * The sentinel (src/consensus/sentinel.rs)

    [SentinelNode] watches proposals and votes and keeps evidence of double signing.  The LRU caches
    of the [lru] crate, the JSON encoder and the file are interfaces; each lock is a field, and no method
    asks twice for one it holds.  One reading of the clock stands for the readings of one call. *)

From stdpp Require Import strings pretty.
From S2P Require Import Prelude Hashing Errors Types Merkle Block Votes Engine Messages.
Abbreviation length := List.length.

(** ** The lru crate *)

(** [get_mut] is a lens: the value and the cache for every value written back. *)
Class LruCrate : Type := {
  lru : forall (K V : Type) `{Countable K}, Type;
  lru_with_capacity : forall {K V} `{Countable K}, Z -> lru K V;
  lru_get_mut : forall {K V} `{Countable K}, K -> lru K V -> option (V * (V -> lru K V));
  lru_insert : forall {K V} `{Countable K}, K -> V -> lru K V -> lru K V;
  lru_peek : forall {K V} `{Countable K}, K -> lru K V -> option V
}.

(** A map of bounded size: inserting a new key into a full cache may drop others. *)
Class LruLaws `{LruCrate} : Type := {
  lru_view : forall {K V} `{Countable K}, lru K V -> gmap K V;
  lru_cap : forall {K V} `{Countable K}, lru K V -> Z;
  lru_new_law : forall {K V} `{Countable K} n, lru_view (lru_with_capacity (K:=K) (V:=V) n) = ∅
    /\ lru_cap (lru_with_capacity (K:=K) (V:=V) n) = n;
  lru_get_mut_law : forall {K V} `{Countable K} (k : K) (c : lru K V),
    match lru_view c !! k with
    | None => lru_get_mut k c = None
    | Some v => exists f, lru_get_mut k c = Some (v, f)
        /\ forall v', lru_view (f v') = <[k := v']> (lru_view c) /\ lru_cap (f v') = lru_cap c
    end;
  lru_insert_law : forall {K V} `{Countable K} (k : K) (v : V) (c : lru K V),
    lru_cap (lru_insert k v c) = lru_cap c
    /\ (Z.of_nat (size (lru_view c)) < lru_cap c -> lru_view (lru_insert k v c) = <[k := v]> (lru_view c))
    /\ lru_view (lru_insert k v c) ⊆ <[k := v]> (lru_view c);
  lru_peek_law : forall {K V} `{Countable K} (k : K) (c : lru K V), lru_peek k c = lru_view c !! k
}.

(** ** Configuration and reports *)

Record SentinelConfig : Type := mkSentinelConfig {
  report_interval : Z;
  max_retries : Z;
  network_timeout_ms : Z;
  quorum_threshold : Z;
  max_height_history : Z;
  max_missed_blocks_before_alarm : Z;
  max_timestamp_drift_secs : Z;
  broadcast_alarms : bool;
  sc_cache_size : Z
}.
Definition default_sentinel_config : SentinelConfig := mkSentinelConfig 10 3 30000 15 1000 50 30 false 10000.
Definition sentinel_validate (c : SentinelConfig) : PacyteResult unit :=
  if report_interval c =? 0 then Err (PE.ConfigError "report_interval cannot be 0")
  else if quorum_threshold c =? 0 then Err (PE.ConfigError "quorum_threshold cannot be 0")
  else Ok tt.

Inductive SentinelState : Type := SIdle | SWatching | SReporting | SError (e : string).

Inductive AnomalyType : Type :=
| ADoubleProposal (validator_id : Z) (hash1 hash2 : Hash)
| ADoubleVote (validator_id : Z) (hash1 hash2 : Hash)
| AInvalidTimestamp (expected got : Z)
| AMissedBlock (validator_id height : Z)
| ALowQuorum (got needed : Z)
| AGenesisViolation (round : Z)
| ANonSequentialHeight (expected got : Z)
| AInvalidSignature (validator_id : Z)
| AProposalWithoutVote (proposer height : Z)
| AVoteWithoutProposal (voter height round : Z)
| AStakeBelowThreshold (validator_id current_stake min_stake : Z).

Inductive SlashingEvidence : Type :=
| SlashDoubleProposal (validator_id height round : Z) (block_hash_1 block_hash_2 : Hash) (reported_at : Z)
| SlashDoubleVote (validator_id height round : Z) (block_hash_1 block_hash_2 : Hash) (reported_at : Z).
#[export] Instance SlashingEvidence_eq_dec : EqDecision SlashingEvidence.
Proof. solve_decision. Defined.

Record SentinelReport : Type := mkReport {
  rp_height : Z;
  rp_round : Z;
  rp_block_hash : option Hash;
  rp_validator_count : Z;
  rp_quorum_reached : bool;
  rp_anomalies : list string;
  rp_anomaly_types : list AnomalyType;
  rp_warnings : list string;
  rp_timestamp : Z
}.
Definition report_new (now height : Z) : SentinelReport := mkReport height 0 None 0 false [] [] [] now.
Definition report_about (round : Z) (h : Hash) (r : SentinelReport) : SentinelReport :=
  mkReport (rp_height r) round (Some h) (rp_validator_count r) (rp_quorum_reached r) (rp_anomalies r) (rp_anomaly_types r)
    (rp_warnings r) (rp_timestamp r).
Definition report_quorum (n : Z) (b : bool) (r : SentinelReport) : SentinelReport :=
  mkReport (rp_height r) (rp_round r) (rp_block_hash r) n b (rp_anomalies r) (rp_anomaly_types r) (rp_warnings r) (rp_timestamp r).
Definition add_anomaly (d : string) (a : AnomalyType) (r : SentinelReport) : SentinelReport :=
  mkReport (rp_height r) (rp_round r) (rp_block_hash r) (rp_validator_count r) (rp_quorum_reached r) (rp_anomalies r ++ [d])
    (rp_anomaly_types r ++ [a]) (rp_warnings r) (rp_timestamp r).
Definition add_warning (d : string) (r : SentinelReport) : SentinelReport :=
  mkReport (rp_height r) (rp_round r) (rp_block_hash r) (rp_validator_count r) (rp_quorum_reached r) (rp_anomalies r)
    (rp_anomaly_types r) (rp_warnings r ++ [d]) (rp_timestamp r).
Definition has_anomalies (r : SentinelReport) : bool := negb (bool_decide (length (rp_anomalies r) = 0%nat)).
Definition has_issues (r : SentinelReport) : bool :=
  has_anomalies r || negb (bool_decide (length (rp_warnings r) = 0%nat)).

Definition anomaly_evidence (r : SentinelReport) (a : AnomalyType) : list SlashingEvidence :=
  match a with
  | ADoubleProposal v h1 h2 => [SlashDoubleProposal v (rp_height r) (rp_round r) h1 h2 (rp_timestamp r)]
  | ADoubleVote v h1 h2 => [SlashDoubleVote v (rp_height r) (rp_round r) h1 h2 (rp_timestamp r)]
  | _ => []
  end.
Definition to_slashing_evidence (r : SentinelReport) : list SlashingEvidence :=
  flat_map (anomaly_evidence r) (rp_anomaly_types r).

(** ** Node *)

(** [types::ConsensusProposal] and [types::ConsensusVote]. *)
Record ProposalData : Type := mkProposalData {
  pd_height : Z; pd_round : Z; pd_block : Block; pd_proposer : Z; pd_signature : list Z
}.
Record VoteData : Type := mkVoteData {
  vd_height : Z; vd_round : Z; vd_block_hash : Hash; vd_voter : Z; vd_vote_type : VoteType; vd_signature : list Z
}.

Section Sentinel.
Context `{LC : LruCrate} `{S3 : Sha3} `{BP : BuildProfile} {E : Type}.

Record SentinelNode : Type := mkSentinel {
  sn_config : SentinelConfig;
  sn_state : SentinelState;
  sn_height : Z;
  latest_report : option SentinelReport;
  report_history : list SentinelReport;
  slashing_evidence : list SlashingEvidence;
  seen_proposals : lru (Z * Z) (gset Hash);
  seen_votes : lru (Z * Z * Z) (gset Hash);
  block_timestamps : lru Z Z;
  missed_blocks : gmap Z Z;
  total_blocks : Z;
  total_votes : Z;
  total_anomalies : Z
}.
Abbreviation M := (ST SentinelNode E).

(** [NonZeroUsize::new(..).unwrap()] panics on a cache size of zero. *)
Definition sentinel_new (c : SentinelConfig) : Outcome E SentinelNode :=
  if sc_cache_size c =? 0 then Panic
  else Ok (mkSentinel c SIdle 0 None [] [] (lru_with_capacity (sc_cache_size c)) (lru_with_capacity (sc_cache_size c))
             (lru_with_capacity (sc_cache_size c)) ∅ 0 0 0).

Definition set_sn_state x n := mkSentinel (sn_config n) x (sn_height n) (latest_report n) (report_history n) (slashing_evidence n)
  (seen_proposals n) (seen_votes n) (block_timestamps n) (missed_blocks n) (total_blocks n) (total_votes n) (total_anomalies n).
Definition set_sn_height x n := mkSentinel (sn_config n) (sn_state n) x (latest_report n) (report_history n) (slashing_evidence n)
  (seen_proposals n) (seen_votes n) (block_timestamps n) (missed_blocks n) (total_blocks n) (total_votes n) (total_anomalies n).
Definition set_reports l h n := mkSentinel (sn_config n) (sn_state n) (sn_height n) l h (slashing_evidence n)
  (seen_proposals n) (seen_votes n) (block_timestamps n) (missed_blocks n) (total_blocks n) (total_votes n) (total_anomalies n).
Definition set_evidence x n := mkSentinel (sn_config n) (sn_state n) (sn_height n) (latest_report n) (report_history n) x
  (seen_proposals n) (seen_votes n) (block_timestamps n) (missed_blocks n) (total_blocks n) (total_votes n) (total_anomalies n).
Definition set_seen_proposals x n := mkSentinel (sn_config n) (sn_state n) (sn_height n) (latest_report n) (report_history n)
  (slashing_evidence n) x (seen_votes n) (block_timestamps n) (missed_blocks n) (total_blocks n) (total_votes n) (total_anomalies n).
Definition set_seen_votes x n := mkSentinel (sn_config n) (sn_state n) (sn_height n) (latest_report n) (report_history n)
  (slashing_evidence n) (seen_proposals n) x (block_timestamps n) (missed_blocks n) (total_blocks n) (total_votes n) (total_anomalies n).
Definition set_timestamps x n := mkSentinel (sn_config n) (sn_state n) (sn_height n) (latest_report n) (report_history n)
  (slashing_evidence n) (seen_proposals n) (seen_votes n) x (missed_blocks n) (total_blocks n) (total_votes n) (total_anomalies n).
Definition set_missed x n := mkSentinel (sn_config n) (sn_state n) (sn_height n) (latest_report n) (report_history n)
  (slashing_evidence n) (seen_proposals n) (seen_votes n) (block_timestamps n) x (total_blocks n) (total_votes n) (total_anomalies n).
Definition set_counts b v a n := mkSentinel (sn_config n) (sn_state n) (sn_height n) (latest_report n) (report_history n)
  (slashing_evidence n) (seen_proposals n) (seen_votes n) (block_timestamps n) (missed_blocks n) b v a.

Definition count_block : M unit :=
  do! b := sget total_blocks in do! b' := slift (add_u64 b 1) in smod (fun n => set_counts b' (total_votes n) (total_anomalies n) n).
Definition count_vote : M unit :=
  do! v := sget total_votes in do! v' := slift (add_u64 v 1) in smod (fun n => set_counts (total_blocks n) v' (total_anomalies n) n).
Definition count_anomalies (k : Z) : M unit :=
  do! a := sget total_anomalies in do! a' := slift (add_u64 a k) in smod (fun n => set_counts (total_blocks n) (total_votes n) a' n).

(** Placeholders of the source. *)
Definition get_active_validator_count (height : Z) : Z := 21.
Definition get_proposer_for_height (height : Z) : Z := height mod 21 + 1.

(** A hash arrives under a key: the first of two hashes when it is the second one, and the cache
    afterwards.  [iter().next()] of a set with one element is that element. *)
Definition first_of (s : gset Hash) : Hash := hd [] (elements s).
Definition see {K} `{Countable K} (k : K) (h : Hash) (c : lru K (gset Hash)) : option Hash * lru K (gset Hash) :=
  match lru_get_mut k c with
  | Some (hashes, write) =>
      if bool_decide (h ∈ hashes) then (None, write hashes)
      else ((if bool_decide (size hashes = 1%nat) then Some (first_of hashes) else None), write ({[h]} ∪ hashes))
  | None => (None, lru_insert k {[h]} c)
  end.

Definition missed_block_check (p : ProposalData) (prev_height : Z) (r : SentinelReport) : M SentinelReport :=
  let height := pd_height p in
  if (0 <? height) && (prev_height <? height) then
    let expected := get_proposer_for_height height in
    if negb (pd_proposer p =? expected) then
      do! count := sget (fun n => default 0 (missed_blocks n !! expected)) in
      do! count' := slift (add_u64 count 1) in
      run! smod (fun n => set_missed (<[expected := count']> (missed_blocks n)) n) in
      do! limit := sget (fun n => max_missed_blocks_before_alarm (sn_config n)) in
      sret (if limit <=? count'
            then add_anomaly ("Validator " +:+ pretty expected +:+ " missed " +:+ pretty count' +:+ " blocks")%string
                   (AMissedBlock expected height) r
            else r)
    else sret r
  else sret r.

Definition sequence_check (height round prev_height : Z) (r : SentinelReport) : M SentinelReport :=
  do! r1 := (if 0 <? height then
               do! next := slift (add_u64 prev_height 1) in
               sret (if negb (height =? next) && (0 <? prev_height)
                     then add_warning ("Non-sequential height: expected " +:+ pretty next +:+ ", got " +:+ pretty height)%string r
                     else r)
             else sret r) in
  sret (if (height =? 0) && (0 <? round)
        then add_anomaly ("Genesis block at non-zero round: " +:+ pretty round)%string (AGenesisViolation round) r1
        else r1).

Definition double_proposal_check (p : ProposalData) (h : Hash) (r : SentinelReport) : M SentinelReport :=
  do! seen := sget (fun n => see (pd_height p, pd_round p) h (seen_proposals n)) in
  run! smod (set_seen_proposals seen.2) in
  sret (match seen.1 with
        | Some first =>
            add_anomaly ("DOUBLE PROPOSAL: v=" +:+ pretty (pd_proposer p) +:+ " at h=" +:+ pretty (pd_height p) +:+ ", r="
                         +:+ pretty (pd_round p))%string (ADoubleProposal (pd_proposer p) first h) r
        | None => r
        end).

Definition timestamp_check (now height timestamp : Z) (r : SentinelReport) : M SentinelReport :=
  do! prev := sget (fun n => lru_peek (saturating_sub height 1) (block_timestamps n)) in
  let r1 := match prev with
            | Some prev_ts => if timestamp <? prev_ts
                then add_warning ("Timestamp drift: " +:+ pretty timestamp +:+ " < " +:+ pretty prev_ts)%string r else r
            | None => r
            end in
  do! drift := sget (fun n => max_timestamp_drift_secs (sn_config n)) in
  do! limit := slift (add_u64 now drift) in
  sret (if limit <? timestamp
        then add_warning ("Future timestamp: " +:+ pretty timestamp +:+ " (now: " +:+ pretty now +:+ ")")%string r1 else r1).

Definition quorum_check (height : Z) (r : SentinelReport) : M SentinelReport :=
  let active := get_active_validator_count height in
  do! needed := sget (fun n => quorum_threshold (sn_config n)) in
  let reached := needed <=? active in
  let r1 := report_quorum active reached r in
  sret (if negb reached && (0 <? active)
        then add_warning ("Low quorum: " +:+ pretty active +:+ "/" +:+ pretty needed)%string r1 else r1).

Definition file_report (r : SentinelReport) : M unit :=
  run! (if has_anomalies r then
          run! count_anomalies (Z.of_nat (length (rp_anomaly_types r))) in
          smod (fun n => set_evidence (slashing_evidence n ++ to_slashing_evidence r) n)
        else sret tt) in
  smod (fun n =>
    let history := report_history n ++ [r] in
    set_reports (Some r) (if max_height_history (sn_config n) <? Z.of_nat (length history) then tl history else history) n).

Definition sn_handle_proposal (now : Z) (p : ProposalData) : M unit :=
  let height := pd_height p in
  let hash := block_hash (pd_block p) in
  let time := timestamp (header (pd_block p)) in
  do! prev_height := sget sn_height in
  run! smod (fun n => if sn_height n <? height then set_sn_height height n else n) in
  run! count_block in
  run! smod (fun n => set_timestamps (lru_insert height time (block_timestamps n)) n) in
  let r0 := report_about (pd_round p) hash (report_new now height) in
  do! r1 := missed_block_check p prev_height r0 in
  do! r2 := sequence_check height (pd_round p) prev_height r1 in
  do! r3 := double_proposal_check p hash r2 in
  do! r4 := timestamp_check now height time r3 in
  do! r5 := quorum_check height r4 in
  file_report r5.

Definition sn_handle_vote (now : Z) (v : VoteData) : M unit :=
  run! count_vote in
  do! seen := sget (fun n => see (vd_height v, vd_round v, vd_voter v) (vd_block_hash v) (seen_votes n)) in
  run! (match seen.1 with
        | Some first =>
            run! smod (fun n => set_evidence (slashing_evidence n
                   ++ [SlashDoubleVote (vd_voter v) (vd_height v) (vd_round v) first (vd_block_hash v) now]) n) in
            count_anomalies 1
        | None => sret tt
        end) in
  smod (set_seen_votes seen.2).

(** Messages of the network: proposals and votes are ignored like any other. *)
Definition process_message (msg : Msg.NetworkMessage) (blocks_since_report : Z) : M Z :=
  match msg with
  | Msg.Proposal _ => sret blocks_since_report
  | Msg.Vote _ => sret blocks_since_report
  | _ => sret blocks_since_report
  end.

(** [watch_loop]: the messages received until the shutdown; a remainder by zero panics. *)
Fixpoint watch_messages (l : list Msg.NetworkMessage) (blocks_since_report : Z) : M Z :=
  match l with
  | [] => sret blocks_since_report
  | msg :: l =>
      do! k := process_message msg blocks_since_report in
      do! interval := sget (fun n => report_interval (sn_config n)) in
      run! (if interval =? 0 then slift Panic
            else if k mod interval =? 0 then run! smod (set_sn_state SReporting) in smod (set_sn_state SWatching)
            else sret tt) in
      watch_messages l k
  end.
Definition watch_loop (l : list Msg.NetworkMessage) : M unit :=
  run! smod (set_sn_state SWatching) in
  run! watch_messages l 0 in
  smod (set_sn_state SIdle).

Definition stop_watching : M unit := smod (set_sn_state SIdle).
Definition get_report_history (limit : nat) (n : SentinelNode) : list SentinelReport := take limit (rev (report_history n)).
Definition get_slashing_evidence (limit : nat) (n : SentinelNode) : list SlashingEvidence := take limit (rev (slashing_evidence n)).
End Sentinel.

(** ** Persistent state *)

Record SentinelPersistentState : Type := mkPersistent {
  last_height : Z; ps_total_anomalies : Z; ps_slashing_evidence : list SlashingEvidence
}.
(** [serde_json] on the persistent state: what is written can be read back. *)
Class JsonState : Type := {
  state_to_json : SentinelPersistentState -> string + list Z;
  state_of_json : list Z -> string + SentinelPersistentState;
  state_json_law : forall s b, state_to_json s = inr b -> state_of_json b = inr s
}.
(** The file at the path: absent, or its bytes; writing can fail. *)
Class StateFile (F : Type) : Type := {
  file_write : list Z -> ST F string unit;
  file_read : F -> Outcome string (list Z);
  file_exists : F -> bool;
  file_write_law : forall b f f', file_write b f = (Ok tt, f') -> file_exists f' = true /\ file_read f' = Ok b
}.

Section Persistence.
Context `{LC : LruCrate} `{JS : JsonState} {F : Type} `{SF : StateFile F}.

Definition disk_error {A} (o : Outcome string A) : PacyteResult A :=
  match o with Ok a => Ok a | Err e => Err (PE.DiskIoFailure e) | Panic => Panic | Deadlock => Deadlock end.

Definition save_state (n : SentinelNode) : ST F PacyteError unit :=
  let state := mkPersistent (sn_height n) (total_anomalies n) (slashing_evidence n) in
  match state_to_json state with
  | inl e => sfail (PE.SerializationError e)
  | inr data => fun f => let '(r, f') := file_write data f in (disk_error r, f')
  end.

Definition load_state (f : F) : ST SentinelNode PacyteError unit :=
  if negb (file_exists f) then sret tt
  else
    do! data := slift (disk_error (file_read f)) in
    match state_of_json data with
    | inl e => sfail (PE.SerializationError e)
    | inr s =>
        run! smod (set_sn_height (last_height s)) in
        run! smod (fun n => set_counts (total_blocks n) (total_votes n) (ps_total_anomalies s) n) in
        smod (set_evidence (ps_slashing_evidence s))
    end.
End Persistence.
