(* ===== verification/SentinelProps.v ===== *)
(** * The sentinel: evidence is genuine and complete, and never gathered

    Fed with votes, the node keeps exactly one piece of evidence for every validator that voted for two
    blocks in a round; its proposal check can name a validator that proposed once; and its
    message loop feeds it with nothing. *)

From stdpp Require Import strings.
From S2P Require Import Prelude Hashing Errors Types Merkle Block Votes Engine Messages Sentinel.
Abbreviation length := List.length.

Section SeenHashes.
Context `{LC : LruCrate} `{LL : !LruLaws}.

(** A hash under a key: the set grows, and the second hash reveals the first. *)
Lemma see_spec {K} `{Countable K} (k : K) (h : Hash) (c : lru K (gset Hash)) :
  Z.of_nat (size (lru_view c)) < lru_cap c ->
  let s := default ∅ (lru_view c !! k) in
  (see k h c).1 = (if bool_decide (size s = 1%nat /\ h ∉ s) then Some (first_of s) else None)
  /\ lru_view (see k h c).2 = <[k := {[h]} ∪ s]> (lru_view c) /\ lru_cap (see k h c).2 = lru_cap c.
Proof.
  intros Hroom s. unfold see. pose proof (lru_get_mut_law k c) as Hget. destruct (lru_view c !! k) as [hashes|] eqn:Hk.
  - destruct Hget as (f & -> & Hf). change s with hashes. case_bool_decide as Hin.
    + rewrite bool_decide_eq_false_2 by (by intros [_ ?]). split; [done|]. cbn [fst snd]. destruct (Hf hashes) as [-> ->].
      split; [|done]. by replace ({[h]} ∪ hashes) with hashes by set_solver.
    + destruct (Hf ({[h]} ∪ hashes)) as [Hv Hc]. cbn [fst snd]. split; [|done].
      case_bool_decide as Hs; [by rewrite bool_decide_eq_true_2|]. rewrite bool_decide_eq_false_2; [done|]. by intros [? _].
  - rewrite Hget. cbn [fst snd]. destruct (lru_insert_law k {[h]} c) as (Hc & Hv & _). change s with (∅ : gset Hash).
    rewrite bool_decide_eq_false_2 by (intros [Hs _]; by rewrite size_empty in Hs). rewrite (right_id_L ∅ (∪)). split; [done|].
    split; [by apply Hv|done].
Qed.

(** Also when the cache drops entries: nothing but the hash is added, and what is revealed was under the key. *)
Lemma see_any {K} `{Countable K} (k : K) (h : Hash) (c : lru K (gset Hash)) :
  let s := default ∅ (lru_view c !! k) in
  (see k h c).1 = (if bool_decide (size s = 1%nat /\ h ∉ s) then Some (first_of s) else None)
  /\ lru_view (see k h c).2 ⊆ <[k := {[h]} ∪ s]> (lru_view c).
Proof.
  intros s. unfold see. pose proof (lru_get_mut_law k c) as Hget. destruct (lru_view c !! k) as [hashes|] eqn:Hk.
  - destruct Hget as (f & -> & Hf). change s with hashes. case_bool_decide as Hin; cbn [fst snd].
    + rewrite bool_decide_eq_false_2 by (by intros [_ ?]). split; [done|]. destruct (Hf hashes) as [-> _].
      by replace ({[h]} ∪ hashes) with hashes by set_solver.
    + destruct (Hf ({[h]} ∪ hashes)) as [-> _]. split; [|done].
      case_bool_decide as Hs; [by rewrite bool_decide_eq_true_2|]. rewrite bool_decide_eq_false_2; [done|]. by intros [? _].
  - rewrite Hget. cbn [fst snd]. destruct (lru_insert_law k {[h]} c) as (_ & _ & Hv). change s with (∅ : gset Hash).
    rewrite bool_decide_eq_false_2 by (intros [Hs _]; by rewrite size_empty in Hs). by rewrite (right_id_L ∅ (∪)).
Qed.

Lemma first_of_singleton (s : gset Hash) : size s = 1%nat -> s = {[first_of s]}.
Proof.
  intros Hs. destruct (size_1_elem_of s Hs) as [x Hx]. apply leibniz_equiv in Hx. subst s. unfold first_of. by rewrite elements_singleton.
Qed.
End SeenHashes.

Section SentinelProps.
Context `{LC : LruCrate} `{LL : !LruLaws} `{S3 : Sha3} `{BP : BuildProfile} {E : Type}.

(** ** Votes *)

Definition vote_slot (v : VoteData) : Z * Z * Z := (vd_height v, vd_round v, vd_voter v).
(** The blocks a validator voted for in a round. *)
Definition voted (k : Z * Z * Z) (vs : list VoteData) : gset Hash :=
  list_to_set (map vd_block_hash (List.filter (fun v => bool_decide (vote_slot v = k)) vs)).

Lemma voted_app k vs v :
  voted k (vs ++ [v]) = if decide (vote_slot v = k) then {[vd_block_hash v]} ∪ voted k vs else voted k vs.
Proof.
  unfold voted. rewrite List.filter_app, map_app, list_to_set_app_L. cbn [List.filter].
  destruct (decide (vote_slot v = k)) as [Hk|Hk].
  - rewrite bool_decide_eq_true_2 by done. cbn. set_solver.
  - rewrite bool_decide_eq_false_2 by done. cbn. set_solver.
Qed.

(** Evidence that names the validator, height and round. *)
Definition about (k : Z * Z * Z) (e : SlashingEvidence) : bool :=
  match e with
  | SlashDoubleVote v h r _ _ _ => bool_decide ((h, r, v) = k)
  | SlashDoubleProposal _ _ _ _ _ _ => false
  end.
Definition genuine (vs : list VoteData) (e : SlashingEvidence) : Prop :=
  match e with
  | SlashDoubleVote v h r h1 h2 _ => h1 <> h2 /\ h1 ∈ voted (h, r, v) vs /\ h2 ∈ voted (h, r, v) vs
  | SlashDoubleProposal _ _ _ _ _ _ => True
  end.

Lemma genuine_app vs v e : genuine vs e -> genuine (vs ++ [v]) e.
Proof. destruct e; cbn; [done|]. rewrite voted_app. case_decide; set_solver. Qed.

(** What the node knows after the votes [vs]. *)
Record knows (vs : list VoteData) (n : SentinelNode) : Prop := {
  kn_seen : forall k, lru_view (seen_votes n) !! k = if decide (voted k vs = ∅) then None else Some (voted k vs);
  kn_count : forall k, length (List.filter (about k) (slashing_evidence n)) = if decide (2 <= size (voted k vs))%nat then 1%nat else 0%nat;
  kn_genuine : Forall (genuine vs) (slashing_evidence n);
  kn_size : (size (lru_view (seen_votes n)) <= length vs)%nat;
  kn_votes : total_votes n = Z.of_nat (length vs);
  kn_anomalies : total_anomalies n = Z.of_nat (length (slashing_evidence n));
  kn_evidence : (length (slashing_evidence n) <= length vs)%nat
}.

(** The evidence a vote adds: the first block of the slot against this one, when it is the second. *)
Definition new_evidence (now : Z) (v : VoteData) (s : gset Hash) : list SlashingEvidence :=
  if bool_decide (size s = 1%nat /\ vd_block_hash v ∉ s)
  then [SlashDoubleVote (vd_voter v) (vd_height v) (vd_round v) (first_of s) (vd_block_hash v) now] else [].

Lemma knows_slot vs n k : knows vs n -> default ∅ (lru_view (seen_votes n) !! k) = voted k vs.
Proof. intros Hk. rewrite (kn_seen _ _ Hk). destruct (decide (voted k vs = ∅)) as [->|]; done. Qed.

(** What the handler does to the node. *)
Lemma vote_run now v vs n :
  knows vs n -> Z.of_nat (length vs) < lru_cap (seen_votes n) -> Z.of_nat (length vs) + 1 < 2 ^ 64 ->
  let s := voted (vote_slot v) vs in
  let ev := new_evidence now v s in
  exists n', sn_handle_vote (E:=E) now v n = (Ok tt, n')
    /\ lru_view (seen_votes n') = <[vote_slot v := {[vd_block_hash v]} ∪ s]> (lru_view (seen_votes n))
    /\ lru_cap (seen_votes n') = lru_cap (seen_votes n) /\ slashing_evidence n' = slashing_evidence n ++ ev
    /\ total_votes n' = Z.of_nat (length vs) + 1 /\ total_anomalies n' = total_anomalies n + Z.of_nat (length ev).
Proof.
  intros Hk Hcap Hlen s ev. pose proof Hk as [_ _ _ Hsize Hvotes Hanom Hev].
  unfold sn_handle_vote, sbind at 1, count_vote, sbind at 1, sget at 1. unfold sbind at 1, slift at 1, add_u64.
  rewrite Hvotes, arith_fits by (unfold fits; lia). unfold smod at 1. set (n1 := set_counts _ _ _ n).
  unfold sbind at 1, sget at 1. change (seen_votes n1) with (seen_votes n).
  destruct (see_spec (vote_slot v) (vd_block_hash v) (seen_votes n)) as (Ho & Hview & Hc); [lia|]. cbn zeta in Ho, Hview.
  rewrite (knows_slot vs n _ Hk) in Ho, Hview. fold (vote_slot v) s. fold s in Ho, Hview.
  set (found := see (vote_slot v) (vd_block_hash v) (seen_votes n)) in *. rewrite Ho. unfold ev, new_evidence.
  destruct (bool_decide (size s = 1%nat /\ vd_block_hash v ∉ s)); cbn [length].
  - unfold sbind, smod, count_anomalies, sbind, sget, slift, add_u64. cbn [total_anomalies set_evidence n1 set_counts].
    rewrite arith_fits by (unfold fits; lia). eexists. split; [reflexivity|]. cbn. done.
  - eexists. split; [reflexivity|]. cbn. rewrite app_nil_r, Z.add_0_r. done.
Qed.

(** One slot counts one piece of evidence once two blocks are known. *)
Lemma evidence_count now v vs k (c : nat) :
  c = (if decide (2 <= size (voted k vs))%nat then 1%nat else 0%nat) ->
  (c + length (List.filter (about k) (new_evidence now v (voted (vote_slot v) vs))))%nat
  = (if decide (2 <= size (voted k (vs ++ [v])))%nat then 1%nat else 0%nat).
Proof.
  intros ->. rewrite voted_app. destruct (decide (vote_slot v = k)) as [<-|Hne].
  - set (s := voted (vote_slot v) vs). unfold new_evidence. case_bool_decide as Hf.
    + destruct Hf as [Hs1 Hnin]. cbn [List.filter about]. rewrite bool_decide_eq_true_2 by done. cbn [length].
      rewrite size_union, size_singleton by set_solver. rewrite Hs1. done.
    + cbn. rewrite Nat.add_0_r. destruct (decide (vd_block_hash v ∈ s)) as [Hin|Hnin].
      * by replace ({[vd_block_hash v]} ∪ s) with s by set_solver.
      * assert (size s <> 1%nat) by naive_solver. rewrite size_union, size_singleton by set_solver. repeat case_decide; lia.
  - assert (Hnone : List.filter (about k) (new_evidence now v (voted (vote_slot v) vs)) = []).
    { unfold new_evidence. destruct (bool_decide _); cbn; [|done]. rewrite bool_decide_eq_false_2; [done|]. exact Hne. }
    rewrite Hnone. cbn. lia.
Qed.
Lemma new_evidence_genuine now v vs : Forall (genuine (vs ++ [v])) (new_evidence now v (voted (vote_slot v) vs)).
Proof.
  unfold new_evidence. case_bool_decide as Hf; [|done]. destruct Hf as [Hs1 Hnin]. apply Forall_singleton. cbn.
  pose proof (first_of_singleton _ Hs1) as Hs. change (vd_height v, vd_round v, vd_voter v) with (vote_slot v).
  rewrite voted_app, decide_True by done. split_and!; [|set_solver|set_solver]. intros Heq. apply Hnin. rewrite Hs, <- Heq. set_solver.
Qed.

Lemma vote_step now v vs n :
  knows vs n -> Z.of_nat (length vs) < lru_cap (seen_votes n) -> Z.of_nat (length vs) + 1 < 2 ^ 64 ->
  exists n', sn_handle_vote (E:=E) now v n = (Ok tt, n') /\ knows (vs ++ [v]) n' /\ lru_cap (seen_votes n') = lru_cap (seen_votes n).
Proof.
  intros Hk Hcap Hlen. destruct (vote_run now v vs n Hk Hcap Hlen) as (n' & Hrun & Hview & Hc & Hse & Htv & Hta).
  pose proof Hk as [Hseen Hcount Hgen Hsize Hvotes Hanom Hev]. exists n'. split; [done|]. split; [|done].
  split; rewrite ?Hse, ?Htv, ?Hta, ?Hview, ?length_app; cbn [length].
  - intros k. rewrite voted_app. destruct (decide (vote_slot v = k)) as [<-|Hne].
    + rewrite lookup_insert_eq, decide_False by set_solver. done.
    + rewrite lookup_insert_ne by done. apply Hseen.
  - intros k. rewrite List.filter_app, length_app. apply evidence_count, Hcount.
  - apply Forall_app. split; [|apply new_evidence_genuine]. eapply Forall_impl; [exact Hgen|]. intros e. apply genuine_app.
  - pose proof (map_size_insert (M:=gmap (Z * Z * Z)) (vote_slot v) ({[vd_block_hash v]} ∪ voted (vote_slot v) vs) (lru_view (seen_votes n))) as Hsz.
    rewrite Hsz. destruct (lru_view (seen_votes n) !! vote_slot v); cbn; lia.
  - lia.
  - rewrite Hanom. lia.
  - unfold new_evidence. destruct (bool_decide _); cbn; lia.
Qed.

Fixpoint handle_votes (l : list (Z * VoteData)) : ST SentinelNode E unit :=
  match l with
  | [] => sret tt
  | (now, v) :: l => run! sn_handle_vote now v in handle_votes l
  end.

Lemma handle_votes_ok l vs n :
  knows vs n -> Z.of_nat (length vs + length l) <= lru_cap (seen_votes n) -> Z.of_nat (length vs + length l) < 2 ^ 64 ->
  exists n', handle_votes l n = (Ok tt, n') /\ knows (vs ++ l.*2) n'.
Proof.
  revert vs n. induction l as [|[now v] l IH]; intros vs n Hk Hcap Hlen; cbn [handle_votes length] in *.
  - exists n. cbn. by rewrite app_nil_r.
  - destruct (vote_step now v vs n Hk) as (n1 & E1 & Hk1 & Hc1); [lia|lia|]. unfold sbind. rewrite E1.
    destruct (IH (vs ++ [v]) n1 Hk1) as (n2 & E2 & Hk2); [rewrite length_app; cbn; lia..|].
    exists n2. split; [done|]. cbn. by rewrite <- app_assoc in Hk2.
Qed.

Lemma knows_new c n : sentinel_new (E:=E) c = Ok n -> knows [] n /\ lru_cap (seen_votes n) = sc_cache_size c.
Proof.
  unfold sentinel_new. destruct (_ =? 0); [done|]. intros [= <-].
  destruct (lru_new_law (K:=Z * Z * Z) (V:=gset Hash) (sc_cache_size c)) as [Hv Hc]. split; [|exact Hc].
  split; cbn [seen_votes slashing_evidence total_votes total_anomalies]; try rewrite Hv; try done.
Qed.

(** *** However many votes *)

(** What holds of the node after the votes [vs] whatever its cache dropped. *)
Record honest (vs : list VoteData) (n : SentinelNode) : Prop := {
  hn_seen : forall k s, lru_view (seen_votes n) !! k = Some s -> s ⊆ voted k vs;
  hn_genuine : Forall (genuine vs) (slashing_evidence n);
  hn_votes : total_votes n = Z.of_nat (length vs);
  hn_anomalies : total_anomalies n = Z.of_nat (length (slashing_evidence n));
  hn_evidence : (length (slashing_evidence n) <= length vs)%nat
}.
Lemma honest_step now v vs n :
  honest vs n -> Z.of_nat (length vs) + 1 < 2 ^ 64 -> exists n', sn_handle_vote (E:=E) now v n = (Ok tt, n') /\ honest (vs ++ [v]) n'.
Proof.
  intros [Hseen Hgen Hvotes Hanom Hev] Hlen.
  unfold sn_handle_vote, sbind at 1, count_vote, sbind at 1, sget at 1. unfold sbind at 1, slift at 1, add_u64.
  rewrite Hvotes, arith_fits by (unfold fits; lia). unfold smod at 1. set (n1 := set_counts _ _ _ n).
  unfold sbind at 1, sget at 1. change (seen_votes n1) with (seen_votes n). fold (vote_slot v).
  destruct (see_any (vote_slot v) (vd_block_hash v) (seen_votes n)) as [Ho Hview]. cbn zeta in Ho, Hview.
  set (s := default ∅ (lru_view (seen_votes n) !! vote_slot v)) in *.
  assert (Hs : s ⊆ voted (vote_slot v) vs) by (unfold s; destruct (lru_view _ !! _) as [x|] eqn:Ex; [by apply Hseen|set_solver]).
  set (found := see (vote_slot v) (vd_block_hash v) (seen_votes n)) in *.
  assert (Hkeep : forall k x, lru_view found.2 !! k = Some x -> x ⊆ voted k (vs ++ [v])).
  { intros k x Hx. rewrite voted_app. apply (lookup_weaken _ _ _ _ Hx) in Hview.
    apply lookup_insert_Some in Hview as [[<- <-]|[Hne Hk]]; [rewrite decide_True by done; set_solver|].
    rewrite decide_False by done. by apply Hseen. }
  assert (Hold : Forall (genuine (vs ++ [v])) (slashing_evidence n)) by (eapply Forall_impl; [exact Hgen|]; intros e; apply genuine_app).
  rewrite Ho. case_bool_decide as Hf.
  - destruct Hf as [Hs1 Hnin]. unfold sbind, smod, count_anomalies, sbind, sget, slift, add_u64. cbn [total_anomalies set_evidence n1 set_counts].
    rewrite arith_fits by (unfold fits; lia). eexists. split; [reflexivity|]. split; cbn; rewrite ?length_app; cbn; try done; try lia.
    apply Forall_app. split; [done|]. apply Forall_singleton. cbn. pose proof (first_of_singleton _ Hs1) as Hone.
    change (vd_height v, vd_round v, vd_voter v) with (vote_slot v). rewrite voted_app, decide_True by done.
    assert (Hfirst : first_of s ∈ s) by (rewrite Hone at 2; set_solver). split_and!; [intros Heq; apply Hnin; by rewrite <- Heq|set_solver|set_solver].
  - eexists. split; [reflexivity|]. split; cbn; rewrite ?length_app; cbn; try done; lia.
Qed.
Lemma handle_votes_honest l : forall vs n,
  honest vs n -> Z.of_nat (length vs + length l) < 2 ^ 64 -> exists n', handle_votes l n = (Ok tt, n') /\ honest (vs ++ l.*2) n'.
Proof.
  induction l as [|[now v] l IH]; intros vs n Hh Hlen; cbn [handle_votes length] in *.
  - exists n. cbn. by rewrite app_nil_r.
  - destruct (honest_step now v vs n Hh) as (n1 & E1 & Hh1); [lia|]. unfold sbind. rewrite E1.
    destruct (IH (vs ++ [v]) n1 Hh1) as (n2 & E2 & Hh2); [rewrite length_app; cbn; lia|].
    exists n2. split; [done|]. cbn. by rewrite <- app_assoc in Hh2.
Qed.
Lemma knows_honest vs n : knows vs n -> honest vs n.
Proof.
  intros [Hseen _ ? _ ? ? ?]. split; try done. intros k s Hk. rewrite Hseen in Hk. destruct (decide _); [done|]. by injection Hk as <-.
Qed.

(** C35. Evidence of double voting, for a new sentinel node handed votes by calling [handle_vote] (its message loop never
    calls it: [sentinel_blind]).  For any votes the evidence is genuine: each piece names two different blocks the
    validator did vote for in that height and round, and the anomalies count the pieces.  It is complete while the
    votes are no more than the cache holds: then there is exactly one piece of evidence for each validator, height and
    round with votes for two different blocks and none otherwise; beyond that the cache may have dropped the first vote. *)
Theorem sentinel_double_votes (c : SentinelConfig) (n : SentinelNode) (l : list (Z * VoteData)) :
  sentinel_new (E:=E) c = Ok n -> Z.of_nat (length l) < 2 ^ 64 ->
  exists n', handle_votes l n = (Ok tt, n')
    /\ Forall (genuine l.*2) (slashing_evidence n') /\ total_anomalies n' = Z.of_nat (length (slashing_evidence n'))
    /\ (Z.of_nat (length l) <= sc_cache_size c ->
        forall k, length (List.filter (about k) (slashing_evidence n')) = if decide (2 <= size (voted k l.*2))%nat then 1%nat else 0%nat).
Proof.
  intros Hnew Hlen. destruct (knows_new c n Hnew) as [Hk Hc].
  destruct (handle_votes_honest l [] n (knows_honest _ _ Hk)) as (n' & E' & [_ Hgen _ Hanom _]); [done|].
  exists n'. split_and!; [done|done|done|]. intros Hcap.
  destruct (handle_votes_ok l [] n Hk) as (n2 & E2 & [_ Hcount _ _ _ _ _]); [cbn; lia|done|]. rewrite E' in E2. by injection E2 as <-.
Qed.
(** ** The message loop *)

Lemma watch_messages_blind l k n :
  report_interval (sn_config n) <> 0 -> exists s, watch_messages (E:=E) l k n = (Ok k, set_sn_state s n) .
Proof.
  intros Hi. assert (Hset : forall s n, report_interval (sn_config (set_sn_state s n)) = report_interval (sn_config n)) by done.
  assert (Hself : n = set_sn_state (sn_state n) n) by (by destruct n). revert Hi. rewrite Hself.
  generalize (sn_state n) as s. clear Hself. induction l as [|msg l IH]; intros s Hi; cbn [watch_messages]; [by exists s|].
  assert (Hmsg : process_message (E:=E) msg k (set_sn_state s n) = (Ok k, set_sn_state s n)) by (by destruct msg).
  unfold sbind at 1. rewrite Hmsg. unfold sbind at 1, sget at 1. rewrite (proj2 (Z.eqb_neq _ _)) by done.
  destruct (_ =? 0).
  - unfold sbind at 1. unfold sbind at 1, smod. exact (IH SWatching Hi).
  - unfold sbind at 1, sret. exact (IH s Hi).
Qed.

(** The watch loop is blind: whatever proposals and votes the network delivers, the node ends as it began,
    but for its state, which is idle: no block, vote, anomaly or evidence is ever counted. *)
Theorem sentinel_blind (l : list Msg.NetworkMessage) (n : SentinelNode) :
  report_interval (sn_config n) <> 0 -> watch_loop (E:=E) l n = (Ok tt, set_sn_state SIdle n).
Proof.
  intros Hi. unfold watch_loop, sbind at 1, smod at 1.
  destruct (watch_messages_blind l 0 (set_sn_state SWatching n) Hi) as [s E']. unfold sbind. by rewrite E'.
Qed.

(** ** Proposals *)

(** The key of a proposal has no proposer: a second block at a height and round is held against its own
    proposer, whoever proposed the first one. *)
Lemma double_proposal_names_second (p : ProposalData) (h h1 : Hash) (r : SentinelReport) (n : SentinelNode) :
  lru_view (seen_proposals n) !! (pd_height p, pd_round p) = Some {[h1]} -> h1 <> h -> to_slashing_evidence r = [] ->
  exists r' n', double_proposal_check (E:=E) p h r n = (Ok r', n')
    /\ to_slashing_evidence r' = [SlashDoubleProposal (pd_proposer p) (rp_height r) (rp_round r) h1 h (rp_timestamp r)].
Proof.
  intros Hs Hne Hr. unfold double_proposal_check, sbind, sget, smod, sret.
  pose proof (lru_get_mut_law (pd_height p, pd_round p) (seen_proposals n)) as Hl. rewrite Hs in Hl.
  destruct Hl as (f & Hf & _). unfold see. rewrite Hf, bool_decide_eq_false_2 by set_solver.
  rewrite bool_decide_eq_true_2 by apply size_singleton. cbn [fst snd]. eexists _, _. split; [reflexivity|].
  unfold to_slashing_evidence in *. cbn. rewrite flat_map_app. rewrite (flat_map_ext _ (anomaly_evidence r)) by done.
  rewrite Hr. cbn. unfold first_of. by rewrite elements_singleton.
Qed.
End SentinelProps.

(** ** Persistence *)

Section Persistence.
Context `{LL : LruLaws} `{JS : JsonState} {F : Type} `{SF : StateFile F}.

(** Saving and loading: a node that loads what another saved has that node's height, count of
    anomalies and evidence, and nothing else of it changes. *)
Theorem sentinel_save_load (n fresh : SentinelNode) (f f' : F) :
  save_state n f = (Ok tt, f') ->
  load_state f' fresh = (Ok tt, set_evidence (slashing_evidence n)
    (set_counts (total_blocks fresh) (total_votes fresh) (total_anomalies n) (set_sn_height (sn_height n) fresh))).
Proof.
  unfold save_state. destruct (state_to_json _) as [e|data] eqn:Hj; [done|]. intros Hw.
  destruct (file_write data f) as [r f1] eqn:Hf. injection Hw as Hr ->. destruct r as [[]|?| |]; try done.
  destruct (file_write_law _ _ _ Hf) as [He Hrd]. unfold load_state. rewrite He, Hrd. cbn [negb disk_error].
  unfold sbind at 1, slift at 1. by rewrite (state_json_law _ _ Hj).
Qed.
End Persistence.

(** ** Witnesses *)

(** A cache that forgets everything else when a new key meets it full. *)
#[local] Instance toy_lru : LruCrate := {
  lru := fun K V _ _ => (Z * gmap K V)%type;
  lru_with_capacity := fun _ _ _ _ n => (n, ∅);
  lru_get_mut := fun _ _ _ _ k c => v ← c.2 !! k; Some (v, fun v' => (c.1, <[k := v']> c.2));
  lru_insert := fun _ _ _ _ k v c =>
    if Z.of_nat (size c.2) <? c.1 then (c.1, <[k := v]> c.2) else (c.1, {[k := v]});
  lru_peek := fun _ _ _ _ k c => c.2 !! k
}.
#[local] Instance toy_lru_laws : LruLaws.
Proof.
  refine {| lru_view := fun _ _ _ _ c => c.2; lru_cap := fun _ _ _ _ c => c.1 |}.
  - done.
  - intros K V ?? k [n m]. cbn. destruct (m !! k); cbn; [|done]. eexists. split; [reflexivity|]. done.
  - intros K V ?? k v [n m]. cbn. split_and!; [by destruct (_ <? _)|intros Hlt; by rewrite (proj2 (Z.ltb_lt _ _))|]. destruct (_ <? _); [done|]. apply map_singleton_subseteq_l, lookup_insert_eq.
  - done.
Defined.

Section SentinelWitnesses.
#[local] Existing Instance release_profile.

Definition cast (voter : Z) (h : Hash) : Z * VoteData := (7, mkVoteData 3 0 h voter Precommit []).
Definition small_sentinel : SentinelNode := mkSentinel default_sentinel_config SIdle 0 None [] []
  (lru_with_capacity 10000) (lru_with_capacity 10000) (lru_with_capacity 10000) ∅ 0 0 0.

Lemma sentinel_double_votes_witness :
  exists n', handle_votes (E:=unit) [cast 1 [1]; cast 2 [1]; cast 1 [2]; cast 2 [1]] small_sentinel = (Ok tt, n')
    /\ length (List.filter (about (3, 0, 1)) (slashing_evidence n')) = 1%nat
    /\ length (List.filter (about (3, 0, 2)) (slashing_evidence n')) = 0%nat.
Proof.
  destruct (sentinel_double_votes (E:=unit) default_sentinel_config small_sentinel [cast 1 [1]; cast 2 [1]; cast 1 [2]; cast 2 [1]])
    as (n' & E & _ & _ & Hc); [reflexivity|cbn; lia|].
  exists n'. split; [exact E|]. split; (etransitivity; [apply Hc; cbn; lia|vm_compute; reflexivity]).
Defined.

Lemma sentinel_blind_witness :
  watch_loop (E:=unit) [Msg.Vote (Msg.mkVote 3 0 [1] 1 Precommit []); Msg.Vote (Msg.mkVote 3 0 [2] 1 Precommit [])] small_sentinel = (Ok tt, small_sentinel).
Proof. exact (sentinel_blind (E:=unit) [Msg.Vote (Msg.mkVote 3 0 [1] 1 Precommit []); Msg.Vote (Msg.mkVote 3 0 [2] 1 Precommit [])] small_sentinel ltac:(done)). Defined.

(** An encoder for states without evidence, and a disk that never fails. *)
#[local] Instance toy_json : JsonState.
Proof.
  refine {|
    state_to_json := fun s => match ps_slashing_evidence s with [] => inr [last_height s; ps_total_anomalies s] | _ => inl "too large"%string end;
    state_of_json := fun b => match b with [h; a] => inr (mkPersistent h a []) | _ => inl "invalid"%string end |}.
  intros [h a [|e l]] b [=]. by subst b.
Defined.
#[local] Instance toy_file : StateFile (option (list Z)).
Proof.
  refine {|
    file_write := fun b _ => (Ok tt, Some b);
    file_read := fun f => match f with Some b => Ok b | None => Err "not found"%string end;
    file_exists := fun f => match f with Some _ => true | None => false end |}.
  intros b f f' [= <-]. done.
Defined.

Lemma sentinel_save_load_witness :
  save_state (set_sn_height 9 small_sentinel) (None : option (list Z)) = (Ok tt, Some [9; 0])
  /\ load_state (Some [9; 0]) small_sentinel = (Ok tt, set_sn_height 9 small_sentinel).
Proof.
  assert (Hs : save_state (set_sn_height 9 small_sentinel) (None : option (list Z)) = (Ok tt, Some [9; 0])) by reflexivity.
  split; [exact Hs|]. exact (sentinel_save_load (set_sn_height 9 small_sentinel) small_sentinel _ _ Hs).
Defined.
End SentinelWitnesses.
