(* ===== verification/Peers.v ===== *)
(** * Peers and gossip (src/network/peer.rs, src/network/gossip.rs)

    The table of peers with its index by address and its bans, and the router that passes a message on
    once.  The channels of tokio are a shared store: a connection holds names of channels, and a
    sender reaches the one receiver of its channel.  Instants are nanoseconds. *)

From stdpp Require Import strings pretty.
From S2P Require Import Prelude Hashing Errors Types Block Votes State Messages.
Abbreviation length := List.length.

(** ** Socket addresses of the standard library *)

Inductive SocketAddr : Type :=
| V4 (octets : list Z) (port : Z)
| V6 (segments : list Z) (port flowinfo scope_id : Z).
#[export] Instance SocketAddr_eq_dec : EqDecision SocketAddr.
Proof. solve_decision. Defined.
#[export] Instance SocketAddr_countable : Countable SocketAddr.
Proof.
  refine (inj_countable' (fun a => match a with V4 o p => inl (o, p) | V6 s p f c => inr (s, p, f, c) end)
    (fun x => match x with inl (o, p) => V4 o p | inr (s, p, f, c) => V6 s p f c end) _). by intros [].
Defined.
Definition addr_port (a : SocketAddr) : Z := match a with V4 _ p => p | V6 _ p _ _ => p end.

(** [{:x}] of a 16-bit segment. *)
Fixpoint hex_digits (fuel : nat) (z : Z) : string :=
  match fuel with
  | O => ""
  | S fuel' => if z <? 16 then hex_digit z else (hex_digits fuel' (z / 16) +:+ hex_digit (z mod 16))%string
  end.
Definition segments_text (l : list Z) : string := String.concat ":" (map (hex_digits 4) l).
(** The first longest run of zero segments: start and length. *)
Fixpoint zero_run (l : list Z) (i : nat) (cur best : nat * nat) : nat * nat :=
  match l with
  | [] => best
  | s :: l =>
      if s =? 0 then
        let cur' := if bool_decide (cur.2 = 0%nat) then (i, 1%nat) else (cur.1, S cur.2) in
        zero_run l (S i) cur' (if bool_decide (best.2 < cur'.2)%nat then cur' else best)
      else zero_run l (S i) (0%nat, 0%nat) best
  end.
Definition v4_text (o : list Z) : string := String.concat "." (map pretty o).
Definition v6_text (s : list Z) : string :=
  if bool_decide (take 6 s = [0; 0; 0; 0; 0; 65535])
  then ("::ffff:" +:+ v4_text (flat_map (fun x => [x / 256; x mod 256]) (drop 6 s)))%string
  else
    let run := zero_run s 0 (0%nat, 0%nat) (0%nat, 0%nat) in
    if bool_decide (1 < run.2)%nat
    then (segments_text (take run.1 s) +:+ "::" +:+ segments_text (drop (run.1 + run.2) s))%string
    else segments_text s.
(** [addr.ip().to_string()] and [addr.to_string()]. *)
Definition ip_text (a : SocketAddr) : string := match a with V4 o _ => v4_text o | V6 s _ _ _ => v6_text s end.
Definition addr_text (a : SocketAddr) : string :=
  match a with
  | V4 o p => (v4_text o +:+ ":" +:+ pretty p)%string
  | V6 s p _ c => ("[" +:+ v6_text s +:+ (if Z.eqb c 0 then "" else ("%" +:+ pretty c)%string) +:+ "]:" +:+ pretty p)%string
  end.

(** ** Unbounded channels *)

Record Channels : Type := mkChannels {
  ch_next : Z;
  ch_queue : gmap Z (list Msg.NetworkMessage);
  ch_receivers : gset Z
}.
Record PeerConnection : Type := mkConnection { conn_sender : Z; conn_receiver : Z }.

(** [unbounded_channel()]: a new channel, its receiver alive. *)
Definition unbounded_channel {E} : ST Channels E Z := fun c =>
  (Ok (ch_next c), mkChannels (ch_next c + 1) (<[ch_next c := []]> (ch_queue c)) ({[ch_next c]} ∪ ch_receivers c)).
(** [sender.send(m)] fails when the receiver is gone. *)
Definition chan_send {E} (c : Z) (m : Msg.NetworkMessage) : ST Channels E bool := fun s =>
  if bool_decide (c ∈ ch_receivers s)
  then (Ok true, mkChannels (ch_next s) (<[c := default [] (ch_queue s !! c) ++ [m]]> (ch_queue s)) (ch_receivers s))
  else (Ok false, s).
(** [receiver.recv()] when a message waits. *)
Definition chan_recv {E} (c : Z) : ST Channels E (option Msg.NetworkMessage) := fun s =>
  match ch_queue s !! c with
  | Some (m :: q) => (Ok (Some m), mkChannels (ch_next s) (<[c := q]> (ch_queue s)) (ch_receivers s))
  | _ => (Ok None, s)
  end.
Definition drop_receiver {E} (c : Z) : ST Channels E unit :=
  smod (fun s => mkChannels (ch_next s) (ch_queue s) (ch_receivers s ∖ {[c]})).
Definition connection_new {E} : ST Channels E PeerConnection :=
  do! c := unbounded_channel in sret (mkConnection c c).

(** ** Peers *)

Inductive PeerState : Type := Connecting | Handshaking | Connected | Disconnected | Banned.
#[export] Instance PeerState_eq_dec : EqDecision PeerState.
Proof. solve_decision. Defined.

Record PeerStats : Type := mkPeerStats {
  connected_at : option Z;
  last_message_at : option Z;
  messages_sent : Z;
  messages_received : Z;
  bytes_sent : Z;
  bytes_received : Z;
  ping_latency_ms : Z;
  failed_pings : Z
}.
Definition default_peer_stats : PeerStats := mkPeerStats None None 0 0 0 0 0 0.

Record Peer : Type := mkPeer {
  peer_id : Z;
  peer_address : SocketAddr;
  peer_info : Msg.PeerInfo;
  peer_connection : PeerConnection;
  peer_state : PeerState;
  peer_stats : PeerStats
}.
Definition peer_new (now id : Z) (a : SocketAddr) (conn : PeerConnection) : Peer :=
  mkPeer id a (Msg.mkPeerInfo id (ip_text a) (addr_port a) 0 zero_hash [] now now 0) conn Connecting default_peer_stats.
Definition is_connected (p : Peer) : bool := bool_decide (peer_state p = Connected).
Definition update_info (h : Msg.HandshakeData) (p : Peer) : Peer :=
  let i := peer_info p in
  mkPeer (peer_id p) (peer_address p)
    (Msg.mkPeerInfo (Msg.pi_id i) (Msg.pi_address i) (Msg.pi_port i) (Msg.best_height h) (Msg.best_hash h) (Msg.capabilities h)
       (Msg.connected_since i) (Msg.last_seen i) (Msg.latency_ms i))
    (peer_connection p) (peer_state p) (peer_stats p).
Definition set_peer_stats (s : PeerStats) (p : Peer) : Peer :=
  mkPeer (peer_id p) (peer_address p) (peer_info p) (peer_connection p) (peer_state p) s.
Definition set_last_seen (now : Z) (p : Peer) : Peer :=
  let i := peer_info p in
  mkPeer (peer_id p) (peer_address p)
    (Msg.mkPeerInfo (Msg.pi_id i) (Msg.pi_address i) (Msg.pi_port i) (Msg.pi_best_height i) (Msg.pi_best_hash i) (Msg.pi_capabilities i)
       (Msg.connected_since i) now (Msg.latency_ms i))
    (peer_connection p) (peer_state p) (peer_stats p).

Section Peers.
Context `{BP : BuildProfile}.

Definition record_message_sent {E} (t bytes : Z) (p : Peer) : Outcome E Peer :=
  let s := peer_stats p in
  let? n := add_u64 (messages_sent s) 1 in
  let? b := add_u64 (bytes_sent s) bytes in
  Ok (set_peer_stats (mkPeerStats (connected_at s) (Some t) n (messages_received s) b (bytes_received s) (ping_latency_ms s) (failed_pings s)) p).
Definition record_message_received {E} (t now bytes : Z) (p : Peer) : Outcome E Peer :=
  let s := peer_stats p in
  let? n := add_u64 (messages_received s) 1 in
  let? b := add_u64 (bytes_received s) bytes in
  Ok (set_last_seen now
        (set_peer_stats (mkPeerStats (connected_at s) (Some t) (messages_sent s) n (bytes_sent s) b (ping_latency_ms s) (failed_pings s)) p)).

(** ** Peer manager *)

Record PeerManager : Type := mkManager {
  peers : gmap Z Peer;
  address_to_id : gmap SocketAddr Z;
  next_peer_id : Z;
  max_peers : Z;
  banned_peers : gmap SocketAddr Z
}.
Definition peer_manager_new (max : Z) : PeerManager := mkManager ∅ ∅ 1 max ∅.
Definition set_peers x m := mkManager x (address_to_id m) (next_peer_id m) (max_peers m) (banned_peers m).
Definition set_addresses x m := mkManager (peers m) x (next_peer_id m) (max_peers m) (banned_peers m).
Definition set_next_peer_id x m := mkManager (peers m) (address_to_id m) x (max_peers m) (banned_peers m).
Definition set_banned x m := mkManager (peers m) (address_to_id m) (next_peer_id m) (max_peers m) x.
Abbreviation M := (ST PeerManager PacyteError).

(** Banned until the recorded instant. *)
Definition is_banned (t : Z) (a : SocketAddr) (m : PeerManager) : bool :=
  match banned_peers m !! a with Some until => t <? until | None => false end.

Definition add_peer (t now : Z) (a : SocketAddr) (conn : PeerConnection) : M Z :=
  do! banned := sget (is_banned t a) in
  if banned : bool then sfail (PE.PeerBanned (addr_text a))
  else
    do! known := sget (fun m => bool_decide (is_Some (address_to_id m !! a))) in
    if known : bool then sfail (PE.PeerAlreadyConnected (addr_text a))
    else
      do! m := sget id in
      if max_peers m <=? Z.of_nat (size (peers m)) then sfail (PE.MaxPeersReached (max_peers m))
      else
        let id := next_peer_id m in
        do! next := slift (add_u64 id 1) in
        run! smod (set_next_peer_id next) in
        run! smod (fun m => set_peers (<[id := peer_new now id a conn]> (peers m)) m) in
        run! smod (fun m => set_addresses (<[a := id]> (address_to_id m)) m) in
        sret id.

Definition remove_peer (id : Z) : M (option Peer) :=
  do! p := sget (fun m => peers m !! id) in
  run! smod (fun m => set_peers (delete id (peers m)) m) in
  run! (match p with Some p => smod (fun m => set_addresses (delete (peer_address p) (address_to_id m)) m) | None => sret tt end) in
  sret p.

(** [get_peer] returns a copy whose connection is a channel of its own and whose statistics are new. *)
Definition get_peer {E} (id : Z) (m : PeerManager) : ST Channels E (option Peer) :=
  match peers m !! id with
  | Some p =>
      do! conn := connection_new in
      sret (Some (mkPeer (peer_id p) (peer_address p) (peer_info p) conn (peer_state p) default_peer_stats))
  | None => sret None
  end.

Definition get_peer_by_address (a : SocketAddr) (m : PeerManager) : option Z := address_to_id m !! a.

Definition update_peer_state (t id : Z) (s : PeerState) : M unit :=
  do! p := sget (fun m => peers m !! id) in
  match p with
  | Some p =>
      let st := peer_stats p in
      let st' := if bool_decide (s = Connected)
                 then mkPeerStats (Some t) (last_message_at st) (messages_sent st) (messages_received st) (bytes_sent st)
                        (bytes_received st) (ping_latency_ms st) (failed_pings st)
                 else st in
      smod (fun m => set_peers (<[id := mkPeer (peer_id p) (peer_address p) (peer_info p) (peer_connection p) s st']> (peers m)) m)
  | None => sfail (PE.PeerNotFound (pretty id))
  end.

Context `{HI : !HashMapIter Z Peer}.
Definition get_all_peers (m : PeerManager) : list Msg.PeerInfo := map peer_info (values (peers m)).
Definition get_connected_peers (m : PeerManager) : list Msg.PeerInfo :=
  map peer_info (List.filter is_connected (values (peers m))).
Definition peer_count (m : PeerManager) : Z := Z.of_nat (size (peers m)).
Definition connected_count (m : PeerManager) : Z := Z.of_nat (length (List.filter is_connected (values (peers m)))).

(** [Instant + Duration] panics past the seconds of an [i64]. *)
Definition instant_add {E} (t d : Z) : Outcome E Z := if (t + d) / 1000000000 <? 2 ^ 63 then Ok (t + d) else Panic.
Definition ban_peer (t d : Z) (a : SocketAddr) : M unit :=
  do! until := slift (instant_add t d) in
  run! smod (fun m => set_banned (<[a := until]> (banned_peers m)) m) in
  do! id := sget (get_peer_by_address a) in
  match id with Some id => run! remove_peer id in sret tt | None => sret tt end.
Definition cleanup_banned (t : Z) : M unit := smod (fun m => set_banned (filter (fun e => t < e.2) (banned_peers m)) m).

(** *** The manager under threads

    The methods of the manager take its locks one after the other, and connections run on several worker threads.  A
    [Point] is where a thread stands between two of them; [point_step] goes on under the next lock. *)
Inductive Point : Type :=
| AddBan (t now : Z) (a : SocketAddr) (conn : PeerConnection)
| AddKnown (now : Z) (a : SocketAddr) (conn : PeerConnection)
| AddRoom (now : Z) (a : SocketAddr) (conn : PeerConnection)
| AddNumber (now : Z) (a : SocketAddr) (conn : PeerConnection)
| AddInsert (now id : Z) (a : SocketAddr) (conn : PeerConnection)
| AddIndex (id : Z) (a : SocketAddr)
| RemoveTable (id : Z)
| RemoveIndex (p : Peer)
| BanRecord (t d : Z) (a : SocketAddr)
| BanLookup (a : SocketAddr).
Inductive Return : Type := Added (id : Z) | Removed (p : option Peer).
Inductive Progress : Type := Goes (p : Point) | Ends (r : PacyteResult Return).

Definition point_step (p : Point) (m : PeerManager) : Progress * PeerManager :=
  match p with
  | AddBan t now a conn =>
      (if is_banned t a m then Ends (Err (PE.PeerBanned (addr_text a))) else Goes (AddKnown now a conn), m)
  | AddKnown now a conn =>
      (if bool_decide (is_Some (address_to_id m !! a)) then Ends (Err (PE.PeerAlreadyConnected (addr_text a))) else Goes (AddRoom now a conn), m)
  | AddRoom now a conn =>
      (if max_peers m <=? Z.of_nat (size (peers m)) then Ends (Err (PE.MaxPeersReached (max_peers m))) else Goes (AddNumber now a conn), m)
  | AddNumber now a conn =>
      match add_u64 (E := PacyteError) (next_peer_id m) 1 with
      | Ok next => (Goes (AddInsert now (next_peer_id m) a conn), set_next_peer_id next m)
      | Err e => (Ends (Err e), m) | Panic => (Ends Panic, m) | Deadlock => (Ends Deadlock, m)
      end
  | AddInsert now id a conn => (Goes (AddIndex id a), set_peers (<[id := peer_new now id a conn]> (peers m)) m)
  | AddIndex id a => (Ends (Ok (Added id)), set_addresses (<[a := id]> (address_to_id m)) m)
  | RemoveTable id =>
      (match peers m !! id with Some p => Goes (RemoveIndex p) | None => Ends (Ok (Removed None)) end, set_peers (delete id (peers m)) m)
  | RemoveIndex p => (Ends (Ok (Removed (Some p))), set_addresses (delete (peer_address p) (address_to_id m)) m)
  | BanRecord t d a =>
      match instant_add (E := PacyteError) t d with
      | Ok until => (Goes (BanLookup a), set_banned (<[a := until]> (banned_peers m)) m)
      | Err e => (Ends (Err e), m) | Panic => (Ends Panic, m) | Deadlock => (Ends Deadlock, m)
      end
  | BanLookup a => (match get_peer_by_address a m with Some id => Goes (RemoveTable id) | None => Ends (Ok (Removed None)) end, m)
  end.

(** A call that no other thread interrupts. *)
Fixpoint run_point (fuel : nat) (p : Point) (m : PeerManager) : option (PacyteResult Return * PeerManager) :=
  match fuel with
  | O => None
  | S fuel => match point_step p m with
              | (Goes p', m') => run_point fuel p' m'
              | (Ends r, m') => Some (r, m')
              end
  end.

(** The manager and the calls under way, at most one per worker thread: none of these methods awaits. *)
Record Shared : Type := mkShared { sh_manager : PeerManager; sh_running : list Point }.
Inductive TableEvent : Type :=
| TAdd (t now : Z) (a : SocketAddr) (conn : PeerConnection)
| TRemove (id : Z)
| TBan (t d : Z) (a : SocketAddr)
| TStep (i : nat)
| TState (t id : Z) (s : PeerState)
| TCleanup (t : Z).
Definition table_call (workers : nat) (p : Point) (s : Shared) : Shared :=
  if (length (sh_running s) <? workers)%nat then mkShared (sh_manager s) (p :: sh_running s) else s.
Definition table_step (workers : nat) (s : Shared) (ev : TableEvent) : Shared :=
  match ev with
  | TAdd t now a conn => table_call workers (AddBan t now a conn) s
  | TRemove id => table_call workers (RemoveTable id) s
  | TBan t d a => table_call workers (BanRecord t d a) s
  | TStep i =>
      match sh_running s !! i with
      | Some p => match point_step p (sh_manager s) with
                  | (Goes p', m) => mkShared m (<[i := p']> (sh_running s))
                  | (Ends _, m) => mkShared m (delete i (sh_running s))
                  end
      | None => s
      end
  | TState t id st => mkShared (update_peer_state t id st (sh_manager s)).2 (sh_running s)
  | TCleanup t => mkShared (cleanup_banned t (sh_manager s)).2 (sh_running s)
  end.
Definition table_run (workers : nat) (l : list TableEvent) (s : Shared) : Shared := foldl (table_step workers) s l.

(** [choose_multiple]: the choice of the [rand] crate among the connected peers. *)
Definition get_random_peers (choose : list Msg.PeerInfo -> nat -> list Msg.PeerInfo) (count : nat) (m : PeerManager) : list Msg.PeerInfo :=
  choose (get_connected_peers m) count.
End Peers.

(** ** Gossip *)

Record GossipRouter : Type := mkRouter { seen_messages : gmap Hash Z; max_seen_cache : Z; ttl_seconds : Z }.
Definition gossip_new (max ttl : Z) : GossipRouter := mkRouter ∅ max ttl.
Definition set_seen x g := mkRouter x (max_seen_cache g) (ttl_seconds g).

Section Gossip.
Context `{S3 : Sha3} {E : Type}.
Abbreviation G := (ST GossipRouter E).

Definition cleanup_expired (now : Z) : G unit :=
  smod (fun g => set_seen (filter (fun e => saturating_sub now (ttl_seconds g) < e.2) (seen_messages g)) g).

Definition should_propagate (now : Z) (m : Msg.NetworkMessage) : G bool :=
  let h := Msg.compute_short_hash now m in
  do! full := sget (fun g => max_seen_cache g <? Z.of_nat (size (seen_messages g))) in
  run! (if full : bool then cleanup_expired now else sret tt) in
  do! known := sget (fun g => bool_decide (is_Some (seen_messages g !! h))) in
  run! smod (fun g => set_seen (<[h := now]> (seen_messages g)) g) in
  sret (negb known).

Definition gossip_cache_size (g : GossipRouter) : Z := Z.of_nat (size (seen_messages g)).
End Gossip.
