(* ===== verification/P2P.v ===== *)
(** * The peer-to-peer node (src/network/p2p.rs)

    [P2PNetwork] with one task for each connection.  A task is cut at its awaits: it registers the peer
    and writes its handshake, waits for the answer, then loops over what it reads, what its channel
    holds and the shutdown; the steps of different tasks interleave freely.  The socket is a parameter of
    each step (what was read, whether writing failed), and [p_wire] lists what was handed to the
    writers. *)

From stdpp Require Import strings pretty.
From S2P Require Import Prelude Hashing Errors Types Block Votes State Messages Peers.
Abbreviation length := List.length.

Record NetworkConfig : Type := mkNetConfig {
  nc_node_id : Z;
  listen_addr : SocketAddr;
  public_addr : option SocketAddr;
  bootstrap_peers : list SocketAddr;
  nc_max_peers : Z;
  min_peers : Z;
  handshake_timeout_ms : Z;
  ping_interval_ms : Z;
  max_message_size : Z
}.
Definition default_net_config : NetworkConfig :=
  mkNetConfig 1 (V4 [0; 0; 0; 0] 9333) None [] 50 3 5000 30000 (16 * 1024 * 1024).

Record PeerMessage : Type := mkPeerMessage { pm_from : Z; pm_message : Msg.NetworkMessage; pm_received_at : Z }.

Inductive NetworkState : Type := Stopped | Starting | Running | Stopping.
#[export] Instance NetworkState_eq_dec : EqDecision NetworkState.
Proof. solve_decision. Defined.

(** Where a connection task waits, with the channel it reads. *)
Inductive TaskPhase : Type := AwaitHandshake (receiver : Z) | Looping (receiver : Z).

(** What a read gave: no answer in time, an error, or bytes. *)
Inductive ReadResult : Type := ReadTimeout | ReadError (e : string) | ReadBytes (b : list Z).

Record P2PNetwork : Type := mkP2P {
  p_config : NetworkConfig;
  peer_manager : PeerManager;
  message_tx : list PeerMessage;
  message_rx : bool;
  p_state : NetworkState;
  p_genesis : Hash;
  p_best_height : Z;
  p_best_hash : Hash;
  p_channels : Channels;
  p_tasks : gmap Z TaskPhase;
  p_wire : list (Z * list Z);
  p_dialled : list SocketAddr
}.
Definition p2p_new (c : NetworkConfig) (genesis : Hash) : P2PNetwork :=
  mkP2P c (peer_manager_new (nc_max_peers c)) [] true Stopped genesis 0 zero_hash (mkChannels 0 ∅ ∅) ∅ [] [].

Definition set_manager x n := mkP2P (p_config n) x (message_tx n) (message_rx n) (p_state n) (p_genesis n) (p_best_height n)
  (p_best_hash n) (p_channels n) (p_tasks n) (p_wire n) (p_dialled n).
Definition set_message_tx x n := mkP2P (p_config n) (peer_manager n) x (message_rx n) (p_state n) (p_genesis n) (p_best_height n)
  (p_best_hash n) (p_channels n) (p_tasks n) (p_wire n) (p_dialled n).
Definition set_message_rx x n := mkP2P (p_config n) (peer_manager n) (message_tx n) x (p_state n) (p_genesis n) (p_best_height n)
  (p_best_hash n) (p_channels n) (p_tasks n) (p_wire n) (p_dialled n).
Definition set_p_state x n := mkP2P (p_config n) (peer_manager n) (message_tx n) (message_rx n) x (p_genesis n) (p_best_height n)
  (p_best_hash n) (p_channels n) (p_tasks n) (p_wire n) (p_dialled n).
Definition set_best h x n := mkP2P (p_config n) (peer_manager n) (message_tx n) (message_rx n) (p_state n) (p_genesis n) h x
  (p_channels n) (p_tasks n) (p_wire n) (p_dialled n).
Definition set_channels x n := mkP2P (p_config n) (peer_manager n) (message_tx n) (message_rx n) (p_state n) (p_genesis n)
  (p_best_height n) (p_best_hash n) x (p_tasks n) (p_wire n) (p_dialled n).
Definition set_tasks x n := mkP2P (p_config n) (peer_manager n) (message_tx n) (message_rx n) (p_state n) (p_genesis n)
  (p_best_height n) (p_best_hash n) (p_channels n) x (p_wire n) (p_dialled n).
Definition set_wire x n := mkP2P (p_config n) (peer_manager n) (message_tx n) (message_rx n) (p_state n) (p_genesis n)
  (p_best_height n) (p_best_hash n) (p_channels n) (p_tasks n) x (p_dialled n).
Definition set_dialled x n := mkP2P (p_config n) (peer_manager n) (message_tx n) (message_rx n) (p_state n) (p_genesis n)
  (p_best_height n) (p_best_hash n) (p_channels n) (p_tasks n) (p_wire n) x.

Section P2P.
Context `{BP : BuildProfile} `{BM : Msg.BincodeMsg} `{HI : !HashMapIter Z Peer}.
Abbreviation M := (ST P2PNetwork PacyteError).

Definition on_manager {A} (c : ST PeerManager PacyteError A) : M A :=
  fun n => let '(r, m) := c (peer_manager n) in (r, set_manager m n).
Definition on_channels {A} (c : ST Channels PacyteError A) : M A :=
  fun n => let '(r, s) := c (p_channels n) in (r, set_channels s n).
(** [writer.write_all(&m.to_bytes())]. *)
Definition write_msg (id : Z) (m : Msg.NetworkMessage) : M unit := smod (fun n => set_wire (p_wire n ++ [(id, Msg.to_bytes m)]) n).
Definition net_check (r : option string) : M unit :=
  match r with Some e => sfail (PE.NetworkError e) | None => sret tt end.

Definition update_best_block (height : Z) (h : Hash) : M unit := smod (set_best height h).

(** [send_to] looks the peer up, sends on the connection of the copy and drops the copy. *)
Definition send_to (id : Z) (m : Msg.NetworkMessage) : M unit :=
  do! mgr := sget peer_manager in
  do! p := on_channels (get_peer id mgr) in
  match p with
  | Some p =>
      do! ok := on_channels (chan_send (conn_sender (peer_connection p)) m) in
      run! on_channels (drop_receiver (conn_receiver (peer_connection p))) in
      if ok : bool then sret tt else sfail (PE.PeerNotFound (pretty id))
  | None => sfail (PE.PeerNotFound (pretty id))
  end.
(** [let _ = ...]. *)
Definition ignore {A} (c : M A) : M unit :=
  fun n => match c n with (Ok _, n') | (Err _, n') => (Ok tt, n') | (Panic, n') => (Panic, n') | (Deadlock, n') => (Deadlock, n') end.

Fixpoint send_each (ids : list Z) (m : Z -> Msg.NetworkMessage) : M unit :=
  match ids with
  | [] => sret tt
  | id :: ids => run! ignore (send_to id (m id)) in send_each ids m
  end.
Definition broadcast (m : Msg.NetworkMessage) : M unit :=
  do! l := sget (fun n => get_connected_peers (peer_manager n)) in send_each (map Msg.pi_id l) (fun _ => m).

Definition handle_message (now id : Z) (m : Msg.NetworkMessage) : M unit :=
  match m with
  | Msg.Ping nonce => ignore (send_to id (Msg.Pong nonce))
  | Msg.Pong _ => sret tt
  | Msg.GetPeers =>
      do! l := sget (fun n => get_connected_peers (peer_manager n)) in ignore (send_to id (Msg.Peers l))
  | _ => smod (fun n => set_message_tx (message_tx n ++ [mkPeerMessage id m now]) n)
  end.

(** ** Connection task *)

(** The first half of [perform_handshake]; [w] and [f] are the failures of writing and flushing. *)
Definition send_handshake (now id : Z) (w f : option string) : M unit :=
  do! ours := sget (fun n => Msg.handshake_new now (nc_node_id (p_config n)) (addr_port (listen_addr (p_config n))) (p_genesis n)
                               (p_best_height n) (p_best_hash n)) in
  run! write_msg id (Msg.Handshake ours) in
  run! net_check w in
  net_check f.
(** Its second half, from the answer. *)
Definition receive_handshake (id : Z) (r : ReadResult) : M Msg.HandshakeData :=
  match r with
  | ReadTimeout => sfail PE.HandshakeTimeout
  | ReadError e => sfail (PE.NetworkError e)
  | ReadBytes [] => sfail (PE.HandshakeFailed "Connection closed")
  | ReadBytes b =>
      match Msg.from_bytes b with
      | None => sfail (PE.HandshakeFailed "Invalid message")
      | Some (Msg.Handshake theirs) =>
          do! ours := sget p_genesis in
          if negb (bool_decide (Msg.genesis_hash theirs = ours)) then
            run! write_msg id (Msg.HandshakeAcked (Msg.mkAck false (Some "Genesis hash mismatch"%string) None)) in
            sfail (PE.HandshakeFailed "Genesis mismatch")
          else
            run! write_msg id (Msg.HandshakeAcked (Msg.mkAck true None (Some id))) in
            sret theirs
      | Some _ => sfail (PE.HandshakeFailed "Expected Handshake")
      end
  end.

Definition set_task (id : Z) (p : TaskPhase) : M unit := smod (fun n => set_tasks (<[id := p]> (p_tasks n)) n).
(** The task ends: its receiver is dropped. *)
Definition end_task (id receiver : Z) : M unit :=
  run! smod (fun n => set_tasks (delete id (p_tasks n)) n) in on_channels (drop_receiver receiver).

(** [c?]: an error leaves the function, which drops what it holds. *)
Definition or_drop {A} (cleanup : M unit) (c : M A) : M A :=
  fun n => match c n with
           | (Err e, n') => (Err e, (cleanup n').2)
           | other => other
           end.
Definition or_end (id receiver : Z) {A} (c : M A) : M A := or_drop (end_task id receiver) c.

(** [handle_connection] up to the wait for the answer: the task keeps the receiver of the new connection and
    leaves the manager one that nobody sends to. *)
Definition start_connection (t now : Z) (a : SocketAddr) (w f : option string) : M unit :=
  do! conn := on_channels connection_new in
  let receiver := conn_receiver conn in
  do! dead := on_channels unbounded_channel in
  do! id := or_drop (run! on_channels (drop_receiver receiver) in on_channels (drop_receiver dead))
              (on_manager (add_peer t now a (mkConnection (conn_sender conn) dead))) in
  run! set_task id (AwaitHandshake receiver) in
  or_end id receiver (send_handshake now id w f).

(** The answer to the handshake. *)
Definition finish_handshake (t id receiver : Z) (r : ReadResult) : M unit :=
  or_end id receiver (
    run! receive_handshake id r in
    run! on_manager (update_peer_state t id Connected) in
    set_task id (Looping receiver)).

(** The end of [handle_connection]. *)
Definition close_connection (id receiver : Z) : M unit :=
  run! on_manager (remove_peer id) in end_task id receiver.

(** One turn of the loop: bytes arrived, a message waits in the channel, or the node shuts down. *)
Definition loop_read (now id receiver : Z) (r : ReadResult) : M unit :=
  match r with
  | ReadBytes [] => close_connection id receiver
  | ReadBytes b => match Msg.from_bytes b with Some m => handle_message now id m | None => sret tt end
  | ReadError _ => close_connection id receiver
  | ReadTimeout => sret tt
  end.
Definition loop_write (id receiver : Z) (failed : bool) : M unit :=
  do! m := on_channels (chan_recv receiver) in
  match m with
  | Some m => run! write_msg id m in if failed then close_connection id receiver else sret tt
  | None => sret tt
  end.

(** ** Node operations *)

(** [TcpStream::connect]; success spawns the task of the connection. *)
Definition connect (a : SocketAddr) (r : option string) : M unit :=
  run! net_check r in smod (fun n => set_dialled (p_dialled n ++ [a]) n).
Fixpoint dial_each (l : list SocketAddr) (dial : SocketAddr -> option string) : M unit :=
  match l with
  | [] => sret tt
  | a :: l =>
      do! n := sget id in
      if nc_max_peers (p_config n) <=? connected_count (peer_manager n) then sret tt
      else run! ignore (connect a (dial a)) in dial_each l dial
  end.
Definition connect_to_bootstrap (dial : SocketAddr -> option string) : M unit :=
  do! l := sget (fun n => bootstrap_peers (p_config n)) in dial_each l dial.
(** One tick of [maintain_connections]; [nonce] is the random number for a peer. *)
Definition maintain_tick (t : Z) (dial : SocketAddr -> option string) (nonce : Z -> Z) : M unit :=
  do! n := sget id in
  run! (if connected_count (peer_manager n) <? min_peers (p_config n) then ignore (connect_to_bootstrap dial) else sret tt) in
  do! l := sget (fun n => get_connected_peers (peer_manager n)) in
  run! send_each (map Msg.pi_id l) (fun id => Msg.Ping (nonce id)) in
  on_manager (cleanup_banned t).

(** [start] up to its accept loop, and the test of each turn. *)
Definition start_network (bind : option string) (dial : SocketAddr -> option string) : M unit :=
  run! smod (set_p_state Starting) in
  run! net_check bind in
  run! smod (set_p_state Running) in
  connect_to_bootstrap dial.
Definition keeps_accepting (n : P2PNetwork) : bool := negb (bool_decide (p_state n = Stopping)).
Definition stop_network : M unit :=
  run! smod (set_p_state Stopping) in smod (set_p_state Stopped).

Definition disconnect (id : Z) : M unit := run! on_manager (remove_peer id) in sret tt.
Definition connected_peers (n : P2PNetwork) : list Msg.PeerInfo := get_connected_peers (peer_manager n).
(** [peer_count] of the node counts the connected peers. *)
Definition net_peer_count (n : P2PNetwork) : Z := connected_count (peer_manager n).
(** [subscribe]: whether the returned receiver gets the messages; the first call takes them. *)
Definition subscribe : M bool :=
  do! live := sget message_rx in run! smod (set_message_rx false) in sret live.

(** ** Interleavings *)

Inductive NetEvent : Type :=
| EvConnection (t now : Z) (a : SocketAddr) (w f : option string)
| EvHandshake (t id : Z) (r : ReadResult)
| EvRead (now id : Z) (r : ReadResult)
| EvWrite (id : Z) (failed : bool)
| EvShutdown (id : Z)
| EvBroadcast (m : Msg.NetworkMessage)
| EvSendTo (id : Z) (m : Msg.NetworkMessage)
| EvDisconnect (id : Z)
| EvBan (t d : Z) (a : SocketAddr)
| EvTick (t : Z) (dial : SocketAddr -> option string) (nonce : Z -> Z)
| EvBest (height : Z) (h : Hash)
| EvStart (bind : option string) (dial : SocketAddr -> option string)
| EvStop
| EvSubscribe.

(** An event at a task acts when the task waits for it. *)
Definition net_action (ev : NetEvent) : M unit :=
  match ev with
  | EvConnection t now a w f => start_connection t now a w f
  | EvHandshake t id r => do! p := sget (fun n => p_tasks n !! id) in
      match p with Some (AwaitHandshake c) => finish_handshake t id c r | _ => sret tt end
  | EvRead now id r => do! p := sget (fun n => p_tasks n !! id) in
      match p with Some (Looping c) => loop_read now id c r | _ => sret tt end
  | EvWrite id failed => do! p := sget (fun n => p_tasks n !! id) in
      match p with Some (Looping c) => loop_write id c failed | _ => sret tt end
  | EvShutdown id => do! p := sget (fun n => p_tasks n !! id) in
      match p with Some (Looping c) => close_connection id c | _ => sret tt end
  | EvBroadcast m => broadcast m
  | EvSendTo id m => send_to id m
  | EvDisconnect id => disconnect id
  | EvBan t d a => on_manager (ban_peer t d a)
  | EvTick t dial nonce => maintain_tick t dial nonce
  | EvBest h x => update_best_block h x
  | EvStart bind dial => start_network bind dial
  | EvStop => stop_network
  | EvSubscribe => run! subscribe in sret tt
  end.
Definition net_step (n : P2PNetwork) (ev : NetEvent) : P2PNetwork := (net_action ev n).2.
Definition net_run (n : P2PNetwork) (l : list NetEvent) : P2PNetwork := foldl net_step n l.
End P2P.
