(* ===== verification/NetworkProps.v ===== *)
(** * The network: a table that agrees with its index, and nothing sent

    The peer manager under threads: its methods interleaved lock by lock keep numbers unique and an index that never
    names a peer of another address, and pass the limit by at most one peer for each further thread; two threads do
    pass it.  The node over the manager's whole calls: under every interleaving of connections, messages, bans and
    shutdowns whose manager calls do not overlap the table and its index agree; no message but a handshake is ever
    written to a socket; a refused handshake keeps its slot; a disconnected or banned peer is still read; gossip
    passes a short hash on once. *)

From stdpp Require Import strings pretty.
From S2P Require Import Prelude Hashing Errors Types Block Votes State Messages Peers P2P.
Abbreviation length := List.length.

(** ** The peer table *)

Record peers_ok (m : PeerManager) : Prop := {
  pe_index : forall a id, address_to_id m !! a = Some id <-> exists p, peers m !! id = Some p /\ peer_address p = a;
  pe_ids : forall id p, peers m !! id = Some p -> peer_id p = id /\ 0 < id < next_peer_id m;
  pe_info : forall id p, peers m !! id = Some p -> Msg.pi_id (peer_info p) = id;
  pe_room : Z.of_nat (size (peers m)) <= max_peers m
}.

Section PeerTable.
Context `{BP : BuildProfile}.

Lemma peers_ok_new max : 0 <= max -> peers_ok (peer_manager_new max).
Proof. intros H. split; cbn; [|done..]. intros a id. rewrite lookup_empty. naive_solver. Qed.

Lemma peers_ok_banned m b : peers_ok m -> peers_ok (set_banned b m).
Proof. intros [H1 H2 H3 H4]. by split. Qed.

(** Replacing a peer by one with the same identity. *)
Lemma peers_ok_replace m id p p' :
  peers_ok m -> peers m !! id = Some p -> peer_id p' = peer_id p -> peer_address p' = peer_address p ->
  Msg.pi_id (peer_info p') = Msg.pi_id (peer_info p) -> peers_ok (set_peers (<[id := p']> (peers m)) m).
Proof.
  intros [H1 H2 H3 H4] Hp Hi Ha Hn. split; cbn.
  - intros a i. rewrite H1. split; intros (q & Hq & Hqa).
    + destruct (decide (i = id)) as [->|]; [|exists q; by rewrite lookup_insert_ne].
      exists p'. rewrite lookup_insert_eq. split; [done|]. congruence.
    + apply lookup_insert_Some in Hq as [[<- <-]|[Hne Hq]]; [|by exists q]. exists p. split; [done|]. congruence.
  - intros i q Hq. apply lookup_insert_Some in Hq as [[<- <-]|[_ Hq]]; [|by apply H2]. rewrite Hi. by apply H2.
  - intros i q Hq. apply lookup_insert_Some in Hq as [[<- <-]|[_ Hq]]; [|by apply H3]. rewrite Hn. by apply H3.
  - rewrite map_size_insert_Some; [done|by exists p].
Qed.

Lemma remove_peer_eq id m :
  remove_peer id m = (Ok (peers m !! id), match peers m !! id with
    | Some p => set_addresses (delete (peer_address p) (address_to_id m)) (set_peers (delete id (peers m)) m)
    | None => set_peers (delete id (peers m)) m
    end).
Proof. unfold remove_peer, sbind, sget, smod, sret. by destruct (peers m !! id). Qed.

Lemma peers_ok_remove id m : peers_ok m -> peers_ok (remove_peer id m).2.
Proof.
  intros Hok. rewrite remove_peer_eq. cbn [snd]. destruct (peers m !! id) as [p|] eqn:Hp.
  - destruct Hok as [H1 H2 H3 H4]. split; cbn.
    + intros a i. rewrite lookup_delete_Some, H1. split.
      * intros (Hne & q & Hq & <-). exists q. split; [|done]. rewrite lookup_delete_ne; [done|]. intros <-. congruence.
      * intros (q & Hq & <-). apply lookup_delete_Some in Hq as [Hne Hq]. split; [|by exists q]. intros Heq. apply Hne.
        assert (Hi : address_to_id m !! peer_address q = Some i) by (apply H1; by exists q).
        assert (Hi' : address_to_id m !! peer_address p = Some id) by (apply H1; by exists p). congruence.
    + intros i q Hq. apply lookup_delete_Some in Hq as [_ Hq]. by apply H2.
    + intros i q Hq. apply lookup_delete_Some in Hq as [_ Hq]. by apply H3.
    + pose proof (map_size_delete id (peers m)) as Hs. rewrite Hs, Hp. lia.
  - rewrite delete_id by done. by destruct m.
Qed.

(** The three refusals and the acceptance of [add_peer]. *)
Lemma add_peer_cases t now a conn m :
  fits 64 (next_peer_id m + 1) ->
  add_peer t now a conn m =
    if is_banned t a m then (Err (PE.PeerBanned (addr_text a)), m)
    else if decide (is_Some (address_to_id m !! a)) then (Err (PE.PeerAlreadyConnected (addr_text a)), m)
    else if decide (max_peers m <= Z.of_nat (size (peers m))) then (Err (PE.MaxPeersReached (max_peers m)), m)
    else let id := next_peer_id m in
         (Ok id, mkManager (<[id := peer_new now id a conn]> (peers m)) (<[a := id]> (address_to_id m)) (id + 1) (max_peers m) (banned_peers m)).
Proof.
  intros Hf. unfold add_peer, sbind at 1, sget at 1. destruct (is_banned t a m); [done|]. unfold sbind at 1, sget at 1.
  destruct (decide (is_Some (address_to_id m !! a))) as [Hs|Hs]; [by rewrite bool_decide_eq_true_2|rewrite bool_decide_eq_false_2 by done].
  unfold sbind at 1, sget at 1. cbn [id]. destruct (decide (max_peers m <= _)) as [Hm|Hm];
    [by rewrite (proj2 (Z.leb_le _ _))|rewrite (proj2 (Z.leb_gt _ _)) by lia].
  unfold sbind, slift, smod, sret, add_u64. by rewrite arith_fits.
Qed.

Lemma peers_ok_add t now a conn m :
  peers_ok m -> fits 64 (next_peer_id m + 1) -> 0 < next_peer_id m -> peers_ok (add_peer t now a conn m).2.
Proof.
  intros Hok Hf Hpos. rewrite add_peer_cases by done. destruct (is_banned t a m); [done|].
  destruct (decide (is_Some _)) as [|Hnew]; [done|]. destruct (decide (max_peers m <= _)) as [|Hroom]; [done|].
  destruct Hok as [H1 H2 H3 H4]. set (id := next_peer_id m). cbn zeta. cbn [snd].
  assert (Hid : peers m !! id = None).
  { destruct (peers m !! id) as [p|] eqn:E; [|done]. apply H2 in E as [_ E]. unfold id in E. lia. }
  apply eq_None_not_Some in Hnew. split; cbn.
  - intros a' i. split.
    + intros Hi. apply lookup_insert_Some in Hi as [[<- <-]|[Hne Hi]]; [exists (peer_new now id a conn); by rewrite lookup_insert_eq|].
      apply H1 in Hi as (p & Hp & Ha). exists p. split; [|done]. rewrite lookup_insert_ne; [done|]. intros <-. congruence.
    + intros (p & Hp & <-). apply lookup_insert_Some in Hp as [[<- <-]|[Hne Hp]]; [by rewrite lookup_insert_eq|].
      assert (Hi : address_to_id m !! peer_address p = Some i) by (apply H1; by exists p).
      rewrite lookup_insert_ne; [done|]. intros Heq. congruence.
  - intros i p Hp. apply lookup_insert_Some in Hp as [[<- <-]|[_ Hp]]; [cbn; lia|]. apply H2 in Hp. unfold id. lia.
  - intros i p Hp. apply lookup_insert_Some in Hp as [[<- <-]|[_ Hp]]; [done|]. by apply H3.
  - rewrite map_size_insert_None by done. lia.
Qed.

Lemma peers_ok_state t id s m : peers_ok m -> peers_ok (update_peer_state t id s m).2.
Proof.
  intros Hok. unfold update_peer_state, sbind, sget. destruct (peers m !! id) as [p|] eqn:Hp; [|done]. cbn [smod snd].
  by apply (peers_ok_replace m id p).
Qed.

Lemma peers_ok_ban t d a m : peers_ok m -> peers_ok (ban_peer t d a m).2.
Proof.
  intros Hok. unfold ban_peer, sbind at 1, slift at 1. destruct (instant_add t d) as [until| | |]; try done.
  unfold sbind at 1, smod at 1. unfold sbind at 1, sget at 1. set (m1 := set_banned _ m).
  assert (Hm1 : peers_ok m1) by (by apply peers_ok_banned). destruct (get_peer_by_address a m1) as [id|]; [|done].
  unfold sbind. pose proof (peers_ok_remove id m1 Hm1) as Hr. rewrite remove_peer_eq in *. done.
Qed.
End PeerTable.

(** ** The peer table under threads *)

Section Threads.
Context `{BP : BuildProfile}.

(** Uninterrupted, the points of a call are the call. *)
Lemma add_peer_alone t now a conn m :
  run_point 6 (AddBan t now a conn) m = let '(r, m') := add_peer t now a conn m in Some ((let? id := r in Ok (Added id)), m').
Proof.
  unfold add_peer, sbind, sget, slift, smod, sret, sfail. cbn [run_point point_step].
  destruct (is_banned t a m); [done|]. cbn [run_point point_step]. case_bool_decide; [done|]. cbn [run_point point_step id].
  destruct (max_peers m <=? _); [done|]. cbn [run_point point_step]. by destruct (add_u64 (next_peer_id m) 1).
Qed.
Lemma remove_peer_alone id m :
  run_point 2 (RemoveTable id) m = let '(r, m') := remove_peer id m in Some ((let? p := r in Ok (Removed p)), m').
Proof. rewrite remove_peer_eq. cbn [run_point point_step]. by destruct (peers m !! id). Qed.

(** The number a point has taken for its peer. *)
Definition taken (p : Point) : option Z := match p with AddInsert _ id _ _ | AddIndex id _ => Some id | _ => None end.
(** Past the test of the capacity, before the insertion. *)
Definition entering (p : Point) : bool := match p with AddNumber _ _ _ | AddInsert _ _ _ _ => true | _ => false end.
Definition entering_count (l : list Point) : nat := length (List.filter entering l).
#[local] Arguments entering_count : simpl never.

Definition point_ok (m : PeerManager) (p : Point) : Prop :=
  match p with
  | AddInsert _ id _ _ => 0 < id < next_peer_id m /\ peers m !! id = None /\ forall a, address_to_id m !! a <> Some id
  | AddIndex id a => 0 < id < next_peer_id m /\ (forall q, peers m !! id = Some q -> peer_address q = a) /\ forall b, address_to_id m !! b <> Some id
  | _ => True
  end.
(** What holds of table and index at every moment. *)
Record table_ok (m : PeerManager) : Prop := {
  tb_numbers : forall id p, peers m !! id = Some p -> peer_id p = id /\ Msg.pi_id (peer_info p) = id /\ 0 < id < next_peer_id m;
  tb_index : forall a id, address_to_id m !! a = Some id -> 0 < id < next_peer_id m /\ forall p, peers m !! id = Some p -> peer_address p = a
}.
Record shared_ok (workers : nat) (k : Z) (s : Shared) : Prop := {
  sd_table : table_ok (sh_manager s);
  sd_points : Forall (point_ok (sh_manager s)) (sh_running s);
  sd_taken : NoDup (omap taken (sh_running s));
  sd_workers : (length (sh_running s) <= workers)%nat;
  sd_room : Z.of_nat (size (peers (sh_manager s))) + Z.of_nat (entering_count (sh_running s)) <= max_peers (sh_manager s) + Z.of_nat workers - 1;
  sd_next : 0 < next_peer_id (sh_manager s) <= k
}.
Lemma points_frame (m m' : PeerManager) l :
  next_peer_id m <= next_peer_id m' ->
  (forall id, id ∈ omap taken l -> peers m' !! id = peers m !! id \/ peers m' !! id = None) ->
  (forall a id, id ∈ omap taken l -> address_to_id m' !! a = Some id -> address_to_id m !! a = Some id) ->
  Forall (point_ok m) l -> Forall (point_ok m') l.
Proof.
  intros Hn Hp Ha Hl. apply Forall_forall. intros q Hq. rewrite Forall_forall in Hl. specialize (Hl q Hq).
  assert (Hin : forall id, taken q = Some id -> id ∈ omap taken l) by (intros id Ht; apply list_elem_of_omap; by exists q).
  destruct q; cbn in *; try done; specialize (Hin _ eq_refl); destruct Hl as (Hr & H1 & H2).
  - split_and!; [lia|lia| |]; [by destruct (Hp _ Hin) as [-> | ->]|]. intros b Hb. by eapply H2, Ha.
  - split_and!; [lia|lia| |]; [intros q; destruct (Hp _ Hin) as [-> | ->]; [apply H1|done]|]. intros b Hb. by eapply H2, Ha.
Qed.

Definition points (g : Progress) : list Point := match g with Goes p => [p] | Ends _ => [] end.
Lemma entering_count_app l1 l2 : entering_count (l1 ++ l2) = (entering_count l1 + entering_count l2)%nat.
Proof. unfold entering_count. by rewrite List.filter_app, length_app. Qed.
Lemma entering_count_le l : (entering_count l <= length l)%nat.
Proof. apply List.filter_length_le. Qed.

(** One step of a thread, by what it does to the manager. *)
Section PointStep.
Context (m : PeerManager) (l1 l2 : list Point) (p : Point).
Context (Htab : table_ok m) (Hpts : Forall (point_ok m) (l1 ++ p :: l2)) (Htak : NoDup (omap taken (l1 ++ p :: l2))).

Lemma others_ok : Forall (point_ok m) (l1 ++ l2) /\ point_ok m p.
Proof. apply Forall_app in Hpts as [H1 H2]. apply Forall_cons in H2 as [H2 H3]. split; [by apply Forall_app|done]. Qed.
Lemma others_taken id : taken p = Some id -> id ∉ omap taken (l1 ++ l2).
Proof.
  intros Hp. pose proof Htak as Hd. rewrite omap_app in *. cbn in Hd. rewrite Hp in Hd. rewrite elem_of_app.
  apply NoDup_app in Hd as (_ & Hx & Hy). apply NoDup_cons in Hy as [Hy _]. intros [Hi|Hi]; [|done]. apply (Hx _ Hi). by constructor.
Qed.
Lemma put_back (m' : PeerManager) q : Forall (point_ok m') (l1 ++ l2) -> point_ok m' q -> Forall (point_ok m') (l1 ++ q :: l2).
Proof. rewrite !Forall_app, Forall_cons. tauto. Qed.
Lemma taken_back q : taken q = taken p \/ taken q = None -> NoDup (omap taken (l1 ++ q :: l2)).
Proof.
  intros Hq. pose proof Htak as Hd. rewrite omap_app in *. cbn in *. destruct Hq as [-> | ->]; [done|].
  destruct (taken p) as [id|]; [|done]. by apply NoDup_app in Hd as (? & Hx & [_ ?]%NoDup_cons); apply NoDup_app; split_and!; [|intros ? ? ?; eapply Hx; [done|by constructor]|].
Qed.
Lemma taken_dropped : NoDup (omap taken (l1 ++ l2)).
Proof.
  pose proof Htak as Hd. rewrite omap_app in *. cbn in *. destruct (taken p) as [id|]; [|done].
  by apply NoDup_app in Hd as (? & Hx & [_ ?]%NoDup_cons); apply NoDup_app; split_and!; [|intros ? ? ?; eapply Hx; [done|by constructor]|].
Qed.
Lemma taken_fresh q id : taken p = None -> taken q = Some id -> id ∉ omap taken (l1 ++ l2) -> NoDup (omap taken (l1 ++ q :: l2)).
Proof.
  intros Hp Hq Hid. pose proof taken_dropped as Hd. rewrite omap_app in *. cbn. rewrite Hq. rewrite elem_of_app in Hid.
  apply NoDup_app in Hd as (? & Hx & ?). apply NoDup_app. split_and!; [done| |apply NoDup_cons; split; [tauto|done]].
  intros i Hi [-> |Hi2]%elem_of_cons; [tauto|by eapply Hx].
Qed.
End PointStep.

Lemma entering_mid l1 p l2 : entering_count (l1 ++ p :: l2) = (entering_count (l1 ++ l2) + if entering p then 1 else 0)%nat.
Proof. rewrite !entering_count_app. unfold entering_count at 2. cbn. destruct (entering p); cbn; fold (entering_count l2); lia. Qed.

(** The state after a step: the changed manager, the others undisturbed, the thread at its next point or gone. *)
Lemma shared_step workers k m l1 p l2 m' g :
  shared_ok workers k (mkShared m (l1 ++ p :: l2)) -> table_ok m' -> Forall (point_ok m') (l1 ++ l2) ->
  Forall (point_ok m') (points g) ->
  NoDup (omap taken (l1 ++ points g ++ l2)) -> max_peers m' = max_peers m -> 0 < next_peer_id m' <= k + 1 ->
  Z.of_nat (size (peers m')) + Z.of_nat (entering_count (l1 ++ points g ++ l2)) <= max_peers m + Z.of_nat workers - 1 ->
  shared_ok workers (k + 1) (mkShared m' (l1 ++ points g ++ l2)).
Proof.
  intros [_ _ _ Hw _ _] Ht Hl Hp Hd Hm Hn Hr. split; cbn in *; try done; [|rewrite !length_app in *; cbn in *; destruct g; cbn; lia|by rewrite Hm].
  apply Forall_app in Hl as [? ?]. by rewrite !Forall_app.
Qed.

Lemma point_step_ok workers k m l1 p l2 g m' :
  shared_ok workers k (mkShared m (l1 ++ p :: l2)) -> fits 64 (next_peer_id m + 1) -> point_step p m = (g, m') ->
  shared_ok workers (k + 1) (mkShared m' (l1 ++ points g ++ l2)).
Proof.
  intros Hok Hf Hs. pose proof Hok as [Htab Hpts Htak Hw Hroom Hnext]. cbn [sh_manager sh_running] in Htab, Hpts, Htak, Hw, Hroom, Hnext.
  destruct (others_ok m l1 l2 p Hpts) as [Hoth Hp]. rewrite entering_mid in Hroom. rewrite length_app in Hw. cbn in Hw.
  pose proof (entering_count_le (l1 ++ l2)) as Hle. rewrite length_app in Hle. pose proof Htab as [Hnum Hidx].
  assert (Hsame : forall g, (forall q, g = Goes q -> taken q = None) ->
    (entering_count (l1 ++ points g ++ l2) <= entering_count (l1 ++ l2) + (if entering p then 1 else 0))%nat -> shared_ok workers (k + 1) (mkShared m (l1 ++ points g ++ l2))).
  { intros g0 Hg Hc. apply (shared_step workers k m l1 p l2 m g0); try done; [| |lia|lia].
    - destruct g0 as [q|]; cbn; [|done]. apply Forall_singleton. specialize (Hg q eq_refl). by destruct q.
    - destruct g0 as [q|]; cbn; [|by eapply taken_dropped]. eapply taken_back; [done|]. right. by apply Hg. }
  destruct p as [t now a conn|now a conn|now a conn|now a conn|now id a conn|id a|id|q|t d a|a]; cbn [point_step] in Hs.
  - destruct (is_banned t a m); injection Hs as <- <-; (apply Hsame; cbn [points app]; [intros ? Hg; by inversion Hg|rewrite ?entering_mid; cbn [entering]; lia]).
  - destruct (bool_decide _); injection Hs as <- <-; (apply Hsame; cbn [points app]; [intros ? Hg; by inversion Hg|rewrite ?entering_mid; cbn [entering]; lia]).
  - (* the capacity *) destruct (Z.leb_spec (max_peers m) (Z.of_nat (size (peers m)))) as [Hmax|Hmax]; injection Hs as <- <-; [apply Hsame; cbn [points app]; [intros ? Hg; by inversion Hg|rewrite ?entering_mid; cbn [entering]; lia]|].
    apply (shared_step workers k m l1 (AddRoom now a conn) l2 m (Goes (AddNumber now a conn))); try done; cbn [points app];
      [by apply Forall_singleton|eapply taken_back; [done|by right]|lia|rewrite entering_mid; cbn [entering]; lia].
  - (* the number *) unfold add_u64 in Hs. rewrite arith_fits in Hs by done. injection Hs as <- <-. set (id := next_peer_id m).
    assert (Hbelow : forall i, i ∈ omap taken (l1 ++ l2) -> i < id).
    { intros i (q & Hq & Hi)%list_elem_of_omap. rewrite Forall_forall in Hoth. specialize (Hoth q Hq). destruct q; cbn in *; simplify_eq; unfold id; lia. }
    apply (shared_step workers k m l1 (AddNumber now a conn) l2 _ (Goes (AddInsert now id a conn))); try done; cbn [points app].
    + split; cbn; [intros i q Hq; destruct (Hnum i q Hq) as (? & ? & ?); split_and!; try done; lia|]. intros b i Hi. destruct (Hidx b i Hi). split; [lia|done].
    + eapply points_frame; [| | |exact Hoth]; cbn; [lia|by left|done].
    + apply Forall_singleton. cbn. split_and!; [unfold id; lia|unfold id; lia| |].
      * destruct (peers m !! id) as [q|] eqn:E; [|done]. destruct (Hnum id q E) as (_ & _ & ?). unfold id in *. lia.
      * intros b Hb. destruct (Hidx b id Hb) as [? _]. unfold id in *. lia.
    + eapply taken_fresh; [done|done|done|]. intros Hi%Hbelow. lia.
    + cbn. lia.
    + cbn. rewrite entering_mid. cbn [entering] in *. lia.
  - (* the table *) injection Hs as <- <-. destruct Hp as (Hr & Hnone & Hnoidx). pose proof (others_taken l1 l2 _ Htak id eq_refl) as Hid.
    apply (shared_step workers k m l1 (AddInsert now id a conn) l2 _ (Goes (AddIndex id a))); try done; cbn [points app].
    + split; cbn.
      * intros i q [[<- <-]|[Hne Hq]]%lookup_insert_Some; [done|by apply Hnum].
      * intros b i Hi. destruct (Hidx b i Hi) as [? Hb]. split; [done|]. intros q [[<- <-]|[Hne Hq]]%lookup_insert_Some; [by destruct (Hnoidx b)|by apply Hb].
    + eapply points_frame; [| | |exact Hoth]; cbn; [lia| |done]. intros i Hi. left. rewrite lookup_insert_ne; [done|]. by intros <-.
    + apply Forall_singleton. cbn. split_and!; [lia|lia| |done]. intros q. rewrite lookup_insert_eq. by intros [= <-].
    + eapply taken_back; [done|by left].
    + cbn. lia.
    + cbn. rewrite map_size_insert_None by done. rewrite entering_mid. cbn [entering] in *. lia.
  - (* the index *) injection Hs as <- <-. destruct Hp as (Hr & Hadr & Hnoidx). pose proof (others_taken l1 l2 _ Htak id eq_refl) as Hid.
    apply (shared_step workers k m l1 (AddIndex id a) l2 _ (Ends (Ok (Added id)))); try done; cbn [points app].
    + split; cbn; [done|]. intros b i [[<- <-]|[Hne Hi]]%lookup_insert_Some; [by split|by apply Hidx].
    + eapply points_frame; [| | |exact Hoth]; cbn; [lia|by left|]. intros b i Hi [[<- <-]|[_ Hb]]%lookup_insert_Some; done.
    + by eapply taken_dropped.
    + cbn. lia.
    + cbn. cbn [entering] in Hroom. lia.
  - (* removal from the table *) injection Hs as <- <-.
    apply (shared_step workers k m l1 (RemoveTable id) l2 _ (match peers m !! id with Some q => Goes (RemoveIndex q) | None => Ends (Ok (Removed None)) end)); try done.
    + split; cbn; [intros i q [_ Hq]%lookup_delete_Some; by apply Hnum|]. intros b i Hi. destruct (Hidx b i Hi) as [? Hb]. split; [done|].
      intros q [_ Hq]%lookup_delete_Some. by apply Hb.
    + eapply points_frame; [| | |exact Hoth]; cbn; [lia| |done]. intros i _. destruct (decide (id = i)) as [<-|]; [right; by rewrite lookup_delete_eq|left; by rewrite lookup_delete_ne].
    + destruct (peers m !! id); cbn; [by apply Forall_singleton|done].
    + destruct (peers m !! id); cbn; [eapply taken_back; [done|by right]|by eapply taken_dropped].
    + cbn. lia.
    + cbn. assert (Hsz : (size (delete id (peers m)) <= size (peers m))%nat) by (rewrite map_size_delete; destruct (_ !! _); [apply Nat.le_pred_l|done]).
      cbn [entering] in Hroom. destruct (peers m !! id); cbn [points app]; rewrite ?entering_mid; cbn [entering]; lia.
  - (* removal from the index *) injection Hs as <- <-.
    apply (shared_step workers k m l1 (RemoveIndex q) l2 _ (Ends (Ok (Removed (Some q))))); try done; cbn [points app].
    + split; cbn; [done|]. intros b i [_ Hi]%lookup_delete_Some. by apply Hidx.
    + eapply points_frame; [| | |exact Hoth]; cbn; [lia|by left|]. by intros b i _ [_ Hb]%lookup_delete_Some.
    + by eapply taken_dropped.
    + cbn. lia.
    + cbn. cbn [entering] in Hroom. lia.
  - destruct (instant_add t d) as [until| | |]; injection Hs as <- <-; try (apply Hsame; cbn [points app]; [intros ? Hg; by inversion Hg|rewrite ?entering_mid; cbn [entering]; lia]).
    apply (shared_step workers k m l1 (BanRecord t d a) l2 _ (Goes (BanLookup a)) Hok); cbn [points app].
    + by split.
    + eapply points_frame; [| | |exact Hoth]; cbn; [lia|by left|done].
    + by apply Forall_singleton.
    + eapply taken_back; [done|by right].
    + done.
    + cbn. lia.
    + rewrite entering_mid. cbn [entering] in *. cbn. lia.
  - destruct (get_peer_by_address a m); injection Hs as <- <-; (apply Hsame; cbn [points app]; [intros ? Hg; by inversion Hg|rewrite ?entering_mid; cbn [entering]; lia]).
Qed.
Lemma table_call_ok workers k p s :
  taken p = None -> entering p = false -> shared_ok workers k s -> shared_ok workers (k + 1) (table_call workers p s).
Proof.
  intros Ht He [H1 H2 H3 H4 H5 H6]. unfold table_call. destruct (Nat.ltb_spec (length (sh_running s)) workers); [|split; [done..|lia]].
  split; cbn [sh_manager sh_running]; [done| | |cbn; lia| |lia].
  - apply Forall_cons. split; [by destruct p|done].
  - cbn. by rewrite Ht.
  - change (p :: sh_running s) with ([] ++ p :: sh_running s). by rewrite entering_mid, He, Nat.add_0_r.
Qed.
Lemma table_state_ok workers k t id st s :
  shared_ok workers k s -> shared_ok workers (k + 1) (table_step workers s (TState t id st)).
Proof.
  intros [H1 H2 H3 H4 H5 H6]. cbn [table_step]. unfold update_peer_state, sbind, sget, smod, sfail.
  destruct (peers (sh_manager s) !! id) as [p|] eqn:Hp; [|split; [done..|cbn; lia]]. destruct H1 as [Hnum Hidx]. destruct (Hnum id p Hp) as (? & ? & ?).
  split; cbn [snd sh_manager sh_running]; [split; cbn| |done|done| |cbn; lia].
  - by intros i q [[<- <-]|[_ Hq]]%lookup_insert_Some; [|apply Hnum].
  - intros a i Hi. destruct (Hidx a i Hi) as [? Ha]. split; [done|]. intros q [[<- <-]|[_ Hq]]%lookup_insert_Some; [by apply (Ha p)|by apply Ha].
  - apply Forall_forall. intros q Hq. rewrite Forall_forall in H2. specialize (H2 q Hq). destruct q; cbn in *; try done; destruct H2 as (? & Hx & ?).
    + split; [done|split; [|done]]. rewrite lookup_insert_ne; [done|]. intros ->. by rewrite Hp in Hx.
    + split; [done|split; [|done]]. intros r [[<- <-]|[_ Hr]]%lookup_insert_Some; [by apply (Hx p)|by apply Hx].
  - cbn. rewrite map_size_insert_Some by (by exists p). done.
Qed.
Lemma table_step_ok workers k s ev : k + 1 < 2 ^ 64 -> shared_ok workers k s -> shared_ok workers (k + 1) (table_step workers s ev).
Proof.
  intros Hk Hok. destruct ev as [t now a conn|id|t d a|i|t id st|t]; try (by apply table_call_ok); [|by apply table_state_ok|].
  - cbn [table_step]. destruct s as [m l]. cbn [sh_manager sh_running] in *.
    destruct (l !! i) as [p|] eqn:Hi; [|destruct Hok; split; [done..|lia]]. destruct (point_step p m) as [g m'] eqn:Hs.
    assert (Hl := list_elem_of_split_length l i p Hi). destruct Hl as (l1 & l2 & -> & ->).
    assert (Hf : fits 64 (next_peer_id m + 1)) by (destruct Hok as [_ _ _ _ _ ?]; unfold fits; cbn in *; lia).
    pose proof (point_step_ok workers k m l1 p l2 g m' Hok Hf Hs) as Hg. destruct g as [q|r]; cbn in Hg |- *.
    + by rewrite insert_app_r_alt, Nat.sub_diag by done.
    + by rewrite delete_middle.
  - destruct Hok as [H1 H2 H3 H4 H5 H6]. split; cbn; [by destruct H1|by eapply Forall_impl; [exact H2|intros []]|done|done|done|lia].
Qed.
Lemma table_step_max workers s ev : max_peers (sh_manager (table_step workers s ev)) = max_peers (sh_manager s).
Proof.
  destruct ev as [t now a conn|id|t d a|i|t id st|t]; cbn [table_step]; try (unfold table_call; by destruct (_ <? _)%nat); [| |done].
  - destruct (sh_running s !! i) as [p|]; [|done]. destruct p; cbn; repeat case_match; by simplify_eq.
  - unfold update_peer_state, sbind, sget. by destruct (peers _ !! id).
Qed.
Lemma table_run_max workers l : forall s, max_peers (sh_manager (table_run workers l s)) = max_peers (sh_manager s).
Proof. induction l as [|ev l IH]; [done|]. intros s. etrans; [apply (IH (table_step workers s ev))|apply table_step_max]. Qed.
Lemma table_run_ok workers l : forall k s, k + Z.of_nat (length l) < 2 ^ 64 -> shared_ok workers k s ->
  shared_ok workers (k + Z.of_nat (length l)) (table_run workers l s).
Proof.
  induction l as [|ev l IH]; cbn [table_run foldl length]; intros k s Hk Hok; [by rewrite Z.add_0_r|].
  replace (k + Z.of_nat (S (length l))) with (k + 1 + Z.of_nat (length l)) by lia.
  apply IH; [cbn [length] in Hk; lia|]. apply table_step_ok; [cbn [length] in Hk; lia|done].
Qed.

(** C22. The peer table under threads.  The methods of the peer manager take their locks one by one and run on
    [workers] threads at once, interleaved in any order and left at any point: from a new manager, over fewer than
    2^64 - 1 steps, every peer in the table has the number it is filed under, in its information too; numbers are
    positive, below the next one and never given twice (two calls under way hold different ones); whatever an index
    entry names carries the address of that entry, so that a lookup by address never finds a peer of another address;
    and the table holds at most [max_peers] peers and one more for each thread beyond the first.  With one thread the
    limit is exact; with several it is not ([peer_limit_race]). *)
Theorem peer_table_threads (workers : nat) (max : Z) (l : list TableEvent) :
  0 <= max -> (1 <= workers)%nat -> 1 + Z.of_nat (length l) < 2 ^ 64 ->
  let s := table_run workers l (mkShared (peer_manager_new max) []) in
  let m := sh_manager s in
  (forall id p, peers m !! id = Some p -> peer_id p = id /\ Msg.pi_id (peer_info p) = id /\ 0 < id < next_peer_id m) /\
  (forall a id p, get_peer_by_address a m = Some id -> peers m !! id = Some p -> peer_address p = a) /\
  NoDup (omap taken (sh_running s)) /\
  (forall now id a conn, AddInsert now id a conn ∈ sh_running s -> peers m !! id = None) /\
  Z.of_nat (size (peers m)) <= max + Z.of_nat workers - 1.
Proof.
  intros Hmax Hw Hl s m.
  assert (Hnew : shared_ok workers 1 (mkShared (peer_manager_new max) [])) 
    by (split; cbn; [by split|done|apply NoDup_nil_2|lia|change (0 + 0 <= max + Z.of_nat workers - 1); lia|lia]).
  pose proof (table_run_ok workers l 1 _ Hl Hnew) as Hok. fold s in Hok. destruct Hok as [[Hnum Hidx] Hpts Htak _ Hroom _].
  assert (Hmx : max_peers (sh_manager s) = max) by apply table_run_max. subst m. split_and!; [done| |done| |lia].
  - intros a id p Ha. by apply (Hidx a id).
  - intros now id a conn Hin. rewrite Forall_forall in Hpts. by destruct (Hpts _ Hin) as (_ & ? & _).
Qed.
End Threads.

(** ** The node *)

Section Node.
Context `{BP : BuildProfile} `{BM : Msg.BincodeMsg} `{HI : !HashMapIter Z Peer}.

(** An empty channel: nothing was ever sent on it. *)
Definition chan_free (c : Z) (s : Channels) : Prop := c < ch_next s /\ ch_queue s !! c = Some [].
Definition phase_chan (p : TaskPhase) : Z := match p with AwaitHandshake c | Looping c => c end.
Definition is_greeting (m : Msg.NetworkMessage) : Prop :=
  match m with Msg.Handshake _ | Msg.HandshakeAcked _ => True | _ => False end.
Definition greets (b : list Z) : Prop := exists m, is_greeting m /\ b = Msg.to_bytes m.

(** A node whose next peer has at most the number [k]. *)
Record net_ok (k : Z) (n : P2PNetwork) : Prop := {
  no_peers : peers_ok (peer_manager n);
  no_next : 0 < next_peer_id (peer_manager n) <= k;
  no_tasks : forall id p, p_tasks n !! id = Some p -> chan_free (phase_chan p) (p_channels n);
  no_wire : Forall (fun e => greets e.2) (p_wire n)
}.
Definition good (o : option Z) (k : Z) (n : P2PNetwork) : Prop :=
  net_ok k n /\ forall c, o = Some c -> chan_free c (p_channels n).
Definition leads (o : option Z) (n n' : P2PNetwork) : Prop := forall k, good o k n -> good o k n'.
#[local] Instance leads_preorder o : PreOrder (leads o).
Proof. split; [by intros ???|]. intros x y z H1 H2 k H. by apply H2, H1. Qed.

Lemma good_none k n : net_ok k n -> good None k n.
Proof. by split. Qed.

(** *** Steps that keep the invariant *)

Lemma leads_same o (f : P2PNetwork -> P2PNetwork) :
  (forall n, peer_manager (f n) = peer_manager n /\ p_channels (f n) = p_channels n /\ p_tasks (f n) = p_tasks n /\ p_wire (f n) = p_wire n) ->
  keeps (leads o) (smod (E:=PacyteError) f).
Proof.
  intros Hf. apply keeps_smod. intros n k [[H1 H2 H3 H4] Hc]. destruct (Hf n) as (E1 & E2 & E3 & E4).
  split; [split|]; rewrite ?E1, ?E2, ?E3, ?E4; done.
Qed.

Lemma leads_manager o {A} (c : ST PeerManager PacyteError A) :
  (forall m, peers_ok m -> peers_ok (c m).2) -> (forall m, next_peer_id (c m).2 = next_peer_id m) -> keeps (leads o) (on_manager c).
Proof.
  intros Hok Hnext n r n' Hrun k [[H1 H2 H3 H4] Hc]. unfold on_manager in Hrun. specialize (Hok _ H1). specialize (Hnext (peer_manager n)).
  destruct (c (peer_manager n)) as [r1 m1]. injection Hrun as <- <-. cbn in *. split; [split|]; cbn; by rewrite ?Hnext.
Qed.

Lemma leads_wire o id m : is_greeting m -> keeps (leads o) (write_msg id m).
Proof.
  intros Hg. apply keeps_smod. intros n k [[H1 H2 H3 H4] Hc]. split; [split|]; try done. cbn.
  apply Forall_app. split; [done|]. apply Forall_singleton. by exists m.
Qed.

Definition grows (s s' : Channels) : Prop := ch_next s <= ch_next s' /\ forall c, c < ch_next s -> ch_queue s' !! c = ch_queue s !! c.
Lemma grows_free c s s' : grows s s' -> chan_free c s -> chan_free c s'.
Proof. intros [Hn Hq] [H1 H2]. split; [lia|]. by rewrite Hq. Qed.
Lemma leads_channels o {A} (c : ST Channels PacyteError A) :
  (forall s, grows s (c s).2) -> keeps (leads o) (on_channels c).
Proof.
  intros Hg n r n' Hrun k [[H1 H2 H3 H4] Hc]. unfold on_channels in Hrun. specialize (Hg (p_channels n)).
  destruct (c (p_channels n)) as [r1 s1]. injection Hrun as <- <-. cbn in Hg.
  split; [split|]; cbn; try done; intros; eapply grows_free; eauto.
Qed.
Lemma grows_new s : grows s (unbounded_channel (E:=PacyteError) s).2.
Proof. split; cbn; [lia|]. intros c Hc. rewrite lookup_insert_ne; [done|lia]. Qed.
Lemma grows_drop c s : grows s (drop_receiver (E:=PacyteError) c s).2.
Proof. split; cbn; [lia|done]. Qed.

Lemma leads_end o id c : keeps (leads o) (end_task id c).
Proof.
  apply keeps_bind; [apply _| |intros _; apply leads_channels; intros s; apply grows_drop].
  apply keeps_smod. intros n k [[H1 H2 H3 H4] Hc]. split; [split|]; try done. cbn. intros i p Hp.
  apply lookup_delete_Some in Hp as [_ Hp]. by eapply H3.
Qed.
Lemma leads_set_task id c p : phase_chan p = c -> keeps (leads (Some c)) (set_task id p).
Proof.
  intros <-. apply keeps_smod. intros n k [[H1 H2 H3 H4] Hc]. split; [split|]; try done. cbn. intros i q Hq.
  apply lookup_insert_Some in Hq as [[_ <-]|[_ Hq]]; [by apply Hc|by eapply H3].
Qed.
Lemma leads_or_drop o {A} (cl : ST P2PNetwork PacyteError unit) (c : ST P2PNetwork PacyteError A) :
  keeps (leads o) cl -> keeps (leads o) c -> keeps (leads o) (or_drop cl c).
Proof.
  intros Hcl Hc n r n' Hrun. unfold or_drop in Hrun. destruct (c n) as [[a|e| |] n1] eqn:E1; simplify_eq/=; try by eapply Hc.
  destruct (cl n1) as [r2 n2] eqn:E2. etransitivity; [by eapply Hc|by eapply Hcl].
Qed.
Lemma leads_ignore o {A} (c : ST P2PNetwork PacyteError A) : keeps (leads o) c -> keeps (leads o) (ignore c).
Proof. intros Hc n r n' Hrun. unfold ignore in Hrun. destruct (c n) as [[a|e| |] n1] eqn:E1; simplify_eq/=; by eapply Hc. Qed.

(** [send_to] uses a channel of its own. *)
Lemma send_to_eq id m n :
  send_to id m n = match peers (peer_manager n) !! id with
    | Some _ => (Ok tt, set_channels (mkChannels (ch_next (p_channels n) + 1) (<[ch_next (p_channels n) := [m]]> (ch_queue (p_channels n)))
                   (({[ch_next (p_channels n)]} ∪ ch_receivers (p_channels n)) ∖ {[ch_next (p_channels n)]})) n)
    | None => (Err (PE.PeerNotFound (pretty id)), n)
    end.
Proof.
  unfold send_to, sbind at 1, sget at 1. unfold sbind at 1, on_channels at 1, get_peer.
  destruct (peers (peer_manager n) !! id); [|by destruct n]. cbn [connection_new sbind unbounded_channel sret].
  unfold sbind at 1, connection_new, sbind at 1, unbounded_channel, sret. cbn [peer_connection conn_sender].
  unfold on_channels at 1, chan_send. cbn [p_channels set_channels ch_receivers]. rewrite bool_decide_eq_true_2 by set_solver.
  cbn [ch_queue]. rewrite lookup_insert_eq. cbn [default app]. rewrite insert_insert_eq. reflexivity.
Qed.
Lemma leads_send o id m : keeps (leads o) (send_to id m).
Proof.
  intros n r n' Hrun. rewrite send_to_eq in Hrun. destruct (peers _ !! id); injection Hrun as <- <-; [|reflexivity].
  intros k [[H1 H2 H3 H4] Hc].
  assert (Hg : forall x, grows (p_channels n) (mkChannels (ch_next (p_channels n) + 1) (<[ch_next (p_channels n) := [m]]> (ch_queue (p_channels n))) x)).
  { split; cbn; [lia|]. intros c Hlt. rewrite lookup_insert_ne; [done|lia]. }
  split; [split|]; cbn; try done; intros; eapply grows_free; eauto.
Qed.

Ltac leads_step :=
  lazymatch goal with
  | |- keeps _ (sbind _ _) => apply keeps_bind; [apply _| |intros ?]
  | |- keeps _ (send_to _ _) => apply leads_send
  | |- keeps _ (ignore _) => apply leads_ignore
  | |- keeps _ (end_task _ _) => apply leads_end
  | |- keeps _ (or_drop _ _) => apply leads_or_drop
  | |- keeps _ (or_end _ _ _) => apply leads_or_drop
  | |- keeps _ (write_msg _ _) => apply leads_wire; done
  | |- keeps _ (smod _) => apply leads_same; done
  | |- keeps _ (match ?x with _ => _ end) => destruct x
  | |- keeps _ _ => first [keeps_leaf | assumption]
  end.
Ltac leads_auto := repeat leads_step.

Lemma next_remove id m : next_peer_id (remove_peer id m).2 = next_peer_id m.
Proof. rewrite remove_peer_eq. cbn. by destruct (peers m !! id). Qed.
Lemma next_state t id s m : next_peer_id (update_peer_state t id s m).2 = next_peer_id m.
Proof. unfold update_peer_state, sbind, sget. by destruct (peers m !! id). Qed.
Lemma next_ban t d a m : next_peer_id (ban_peer t d a m).2 = next_peer_id m.
Proof.
  unfold ban_peer, sbind at 1, slift at 1. destruct (instant_add t d); try done. unfold sbind at 1, smod at 1. unfold sbind at 1, sget at 1.
  destruct (get_peer_by_address _ _) as [i|]; [|done]. unfold sbind. by rewrite remove_peer_eq; cbn; destruct (peers _ !! i).
Qed.

Lemma leads_close o id c : keeps (leads o) (close_connection id c).
Proof.
  unfold close_connection. apply keeps_bind; [apply _| |intros _; apply leads_end].
  apply leads_manager; [intros m; apply peers_ok_remove|intros m; apply next_remove].
Qed.
Lemma leads_send_each o ids m : keeps (leads o) (send_each ids m).
Proof. induction ids; cbn [send_each]; leads_auto. Qed.
Lemma leads_handle o now id m : keeps (leads o) (handle_message now id m).
Proof. unfold handle_message. leads_auto. Qed.
Lemma leads_read o now id c r : keeps (leads o) (loop_read now id c r).
Proof. unfold loop_read. destruct r as [|e|[|x b]]; try apply leads_close; leads_auto. apply leads_handle. Qed.
Lemma leads_receive o id r : keeps (leads o) (receive_handshake id r).
Proof. unfold receive_handshake. destruct r as [|e|[|x b]]; leads_auto. Qed.
Lemma leads_check o r : keeps (leads o) (net_check r).
Proof. unfold net_check. leads_auto. Qed.
Lemma leads_hello o now id w f : keeps (leads o) (send_handshake now id w f).
Proof. unfold send_handshake. leads_auto; apply leads_check. Qed.
Lemma leads_finish t id c r : keeps (leads (Some c)) (finish_handshake t id c r).
Proof.
  unfold finish_handshake. leads_auto; [apply leads_receive| |by apply leads_set_task].
  apply leads_manager; [intros m; apply peers_ok_state|intros m; apply next_state].
Qed.
Lemma leads_dial o l dial : keeps (leads o) (dial_each l dial).
Proof. induction l; cbn [dial_each]; leads_auto; unfold connect; leads_auto. apply leads_check. Qed.
Lemma leads_tick o t dial nonce : keeps (leads o) (maintain_tick t dial nonce).
Proof.
  unfold maintain_tick, connect_to_bootstrap. leads_auto; [apply leads_dial|apply leads_send_each|].
  apply leads_manager; [intros m; apply peers_ok_banned|done].
Qed.

(** A task with an empty channel writes nothing. *)
Lemma loop_write_silent id c failed n : chan_free c (p_channels n) -> loop_write id c failed n = (Ok tt, n).
Proof. intros [_ Hq]. unfold loop_write, sbind, on_channels, chan_recv. rewrite Hq. by destruct n. Qed.

(** *** The steps *)

Lemma start_ok k t now a w f n :
  net_ok k n -> fits 64 (k + 1) -> net_ok (k + 1) (start_connection t now a w f n).2.
Proof.
  intros [H1 H2 H3 H4] Hf. unfold start_connection, sbind at 1.
  set (c := ch_next (p_channels n)). destruct (on_channels connection_new n) as [r1 n1] eqn:E1.
  assert (r1 = Ok (mkConnection c c)) as -> by (cbn in E1; by injection E1).
  assert (G1 : good (Some c) k n1).
  { destruct (leads_channels None connection_new grows_new n _ n1 E1 k) as [G _]; [by split|]. split; [done|]. intros x [= <-].
    injection E1 as <-. split; cbn; [lia|]. by rewrite lookup_insert_eq. }
  cbn [conn_receiver conn_sender]. unfold sbind at 1. destruct (on_channels unbounded_channel n1) as [r2 n2] eqn:E2.
  assert (G2 : good (Some c) k n2) by (eapply (leads_channels (Some c) unbounded_channel grows_new); eauto).
  assert (exists d, r2 = Ok d) as [d ->] by (cbn in E2; injection E2; eauto). clear E1 E2 H1 H2 H3 H4.
  destruct G2 as [[H1 H2 H3 H4] Hc]. unfold fits in Hf. unfold sbind at 1, or_drop at 1, on_manager at 1.
  pose proof (peers_ok_add t now a (mkConnection c d) (peer_manager n2) H1 ltac:(unfold fits; lia) ltac:(lia)) as Hok.
  rewrite add_peer_cases in * by (unfold fits; lia).
  assert (Hfail : net_ok (k + 1) (set_manager (peer_manager n2) n2)) by (split; cbn; [done|lia|done..]).
  assert (Hdrop : forall o, keeps (leads o) (run! on_channels (drop_receiver c) in on_channels (drop_receiver d)))
    by (intros o; leads_auto; apply leads_channels; intros s; apply grows_drop).
  assert (Herr : forall e, net_ok (k + 1) ((let '(r, n') := (Err (A:=unit) e : PacyteResult unit, set_manager (peer_manager n2) n2) in
    (r, ((run! on_channels (drop_receiver c) in on_channels (drop_receiver d)) n').2)).2)).
  { intros e. exact (proj1 (Hdrop None _ _ _ (surjective_pairing _) (k + 1) (good_none _ _ Hfail))). }
  destruct (is_banned t a (peer_manager n2)); [by apply Herr|]. destruct (decide (is_Some _)) as [Hs|Hs]; [by apply Herr|].
  destruct (decide (max_peers _ <= _)) as [Hm|Hm]; [by apply Herr|].
  cbn zeta in *. cbn [snd] in *. set (n3 := set_manager _ n2). set (i := next_peer_id (peer_manager n2)).
  assert (G3 : good (Some c) (k + 1) n3) by (split; [split; cbn; [exact Hok|lia|done..]|done]).
  assert (Hrest : keeps (leads (Some c)) (run! set_task i (AwaitHandshake c) in or_end i c (send_handshake now i w f))).
  { leads_auto; [by apply leads_set_task|apply leads_hello]. }
  exact (proj1 (Hrest n3 _ _ (surjective_pairing _) (k + 1) G3)).
Qed.

Lemma step_ok k n ev : net_ok k n -> fits 64 (k + 1) -> net_ok (k + 1) (net_step n ev).
Proof.
  intros Hok Hf. assert (Hmono : forall n', net_ok k n' -> net_ok (k + 1) n') by (intros n' [H1 H2 H3 H4]; split; [done|lia|done..]).
  assert (Hkeep : forall c : ST P2PNetwork PacyteError unit, keeps (leads None) c -> net_ok (k + 1) (c n).2).
  { intros c Hc. apply Hmono. exact (proj1 (Hc n _ _ (surjective_pairing _) k (good_none _ _ Hok))). }
  assert (Htask : forall id (g : TaskPhase -> ST P2PNetwork PacyteError unit), (forall p, p_tasks n !! id = Some p -> net_ok (k + 1) (g p n).2) ->
    net_ok (k + 1) ((do! p := sget (fun n => p_tasks n !! id) in match p with Some p => g p | None => sret tt end) n).2).
  { intros id g Hg. unfold sbind, sget. destruct (p_tasks n !! id) as [p|] eqn:E; [by apply Hg|by apply Hmono]. }
  unfold net_step. destruct ev; cbn [net_action].
  - by apply start_ok.
  - apply (Htask id (fun p => match p with AwaitHandshake c => finish_handshake t id c r | _ => sret tt end)).
    intros [c|c] Hp; [|by apply Hmono]. apply Hmono.
    refine (proj1 (leads_finish t id c r n _ _ (surjective_pairing _) k (conj Hok _))). intros x [= <-]. exact (no_tasks k n Hok id _ Hp).
  - apply Hkeep. leads_auto. apply leads_read.
  - apply (Htask id (fun p => match p with Looping c => loop_write id c failed | _ => sret tt end)).
    intros [c|c] Hp; [by apply Hmono|]. rewrite loop_write_silent by exact (no_tasks k n Hok id _ Hp). by apply Hmono.
  - apply Hkeep. leads_auto. apply leads_close.
  - apply Hkeep. unfold broadcast. leads_auto. apply leads_send_each.
  - apply Hkeep, leads_send.
  - apply Hkeep. unfold disconnect. leads_auto. apply leads_manager; [intros m; apply peers_ok_remove|intros m; apply next_remove].
  - apply Hkeep. apply leads_manager; [intros m; apply peers_ok_ban|intros m; apply next_ban].
  - apply Hkeep, leads_tick.
  - apply Hkeep. unfold update_best_block. leads_auto.
  - apply Hkeep. unfold start_network, connect_to_bootstrap. leads_auto; [apply leads_check|apply leads_dial].
  - apply Hkeep. unfold stop_network. leads_auto.
  - apply Hkeep. unfold subscribe. leads_auto.
Qed.

Lemma net_run_ok l : forall k n, net_ok k n -> k + Z.of_nat (length l) < 2 ^ 64 -> net_ok (k + Z.of_nat (length l)) (net_run n l).
Proof.
  induction l as [|ev l IH]; intros k n Hok Hk; cbn [length] in *; cbn; [by rewrite Z.add_0_r|].
  replace (k + Z.of_nat (S (length l))) with (k + 1 + Z.of_nat (length l)) by lia. apply IH; [|lia].
  pose proof (no_next k n Hok). apply step_ok; [done|]. unfold fits. lia.
Qed.
Lemma new_ok c g : 0 <= nc_max_peers c -> net_ok 1 (p2p_new c g).
Proof. intros Hc. split; cbn; [by apply peers_ok_new|lia|done|constructor]. Qed.

(** C16. No message leaves the node: whatever connects, arrives and is broadcast or answered, in any order, the
    channel of every connection stays empty and the only bytes written to a socket are handshakes and
    their acknowledgements. *)
Theorem p2p_never_sends (c : NetworkConfig) (g : Hash) (l : list NetEvent) :
  0 <= nc_max_peers c -> 1 + Z.of_nat (length l) < 2 ^ 64 ->
  Forall (fun e => greets e.2) (p_wire (net_run (p2p_new c g) l))
  /\ forall id p, p_tasks (net_run (p2p_new c g) l) !! id = Some p -> ch_queue (p_channels (net_run (p2p_new c g) l)) !! phase_chan p = Some [].
Proof.
  intros Hc Hl. destruct (net_run_ok l 1 _ (new_ok c g Hc) Hl) as [_ _ Htasks Hwire]. split; [done|]. intros id p Hp. by apply (Htasks id).
Qed.

(** While the calls of the peer manager do not overlap, the peer table and its index by address are inverse to each
    other, peers carry their numbers, numbers are never reused and there are at most [max_peers], in every reachable
    state of the network.  For calls that overlap see [peer_table_threads]. *)
Theorem peer_table_invariant (c : NetworkConfig) (g : Hash) (l : list NetEvent) :
  0 <= nc_max_peers c -> 1 + Z.of_nat (length l) < 2 ^ 64 -> peers_ok (peer_manager (net_run (p2p_new c g) l)).
Proof. intros Hc Hl. apply (net_run_ok l 1 _ (new_ok c g Hc) Hl). Qed.

(** *** A refused handshake *)

(** The peer [p] keeps its place [id] without a task. *)
Record stale (id : Z) (p : Peer) (n : P2PNetwork) : Prop := {
  st_peer : exists q, peers (peer_manager n) !! id = Some q /\ peer_address q = peer_address p;
  st_index : address_to_id (peer_manager n) !! peer_address p = Some id;
  st_task : p_tasks n !! id = None;
  st_ok : peers_ok (peer_manager n)
}.
Definition spares (id : Z) (a : SocketAddr) (ev : NetEvent) : Prop :=
  match ev with EvDisconnect i => i <> id | EvBan _ _ b => b <> a | _ => True end.
Definition stays (id : Z) (p : Peer) (n n' : P2PNetwork) : Prop := stale id p n -> stale id p n'.
#[local] Instance stays_preorder id p : PreOrder (stays id p).
Proof. split; [by intros ??|]. intros x y z H1 H2 H. by apply H2, H1. Qed.

Lemma stays_same id p (f : P2PNetwork -> P2PNetwork) :
  (forall n, peer_manager (f n) = peer_manager n /\ p_tasks (f n) = p_tasks n) -> keeps (stays id p) (smod (E:=PacyteError) f).
Proof. intros Hf. apply keeps_smod. intros n [H1 H2 H3 H4]. destruct (Hf n) as [E1 E2]. split; by rewrite ?E1, ?E2. Qed.
Lemma stays_channels id p {A} (c : ST Channels PacyteError A) : keeps (stays id p) (on_channels c).
Proof. intros n r n' Hrun. unfold on_channels in Hrun. destruct (c (p_channels n)). injection Hrun as <- <-. intros [H1 H2 H3 H4]. by split. Qed.
Lemma stays_ignore id p {A} (c : ST P2PNetwork PacyteError A) : keeps (stays id p) c -> keeps (stays id p) (ignore c).
Proof. intros Hc n r n' Hrun. unfold ignore in Hrun. destruct (c n) as [[a|e| |] n1] eqn:E1; simplify_eq/=; by eapply Hc. Qed.
Lemma stays_or_drop id p {A} (cl : ST P2PNetwork PacyteError unit) (c : ST P2PNetwork PacyteError A) :
  keeps (stays id p) cl -> keeps (stays id p) c -> keeps (stays id p) (or_drop cl c).
Proof.
  intros Hcl Hc n r n' Hrun. unfold or_drop in Hrun. destruct (c n) as [[a|e| |] n1] eqn:E1; simplify_eq/=; try by eapply Hc.
  destruct (cl n1) as [r2 n2] eqn:E2. etransitivity; [by eapply Hc|by eapply Hcl].
Qed.
Lemma stays_send id p i m : keeps (stays id p) (send_to i m).
Proof.
  intros n r n' Hrun. rewrite send_to_eq in Hrun. destruct (peers _ !! i); injection Hrun as <- <-; [|reflexivity].
  intros [H1 H2 H3 H4]. by split.
Qed.
Lemma stays_set_task id p i ph : i <> id -> keeps (stays id p) (set_task i ph).
Proof. intros Hne. apply keeps_smod. intros n [H1 H2 H3 H4]. split; cbn; try done. by rewrite lookup_insert_ne. Qed.
Lemma stays_end id p i c : keeps (stays id p) (end_task i c).
Proof.
  apply keeps_bind; [apply _| |intros _; apply stays_channels]. apply keeps_smod. intros n [H1 H2 H3 H4]. split; cbn; try done.
  by apply lookup_delete_None; right.
Qed.
Lemma stays_manager id p {A} (c : ST PeerManager PacyteError A) :
  (forall m, peers_ok m -> peers_ok (c m).2) ->
  (forall m q, peers_ok m -> peers m !! id = Some q -> peer_address q = peer_address p ->
    exists q', peers (c m).2 !! id = Some q' /\ peer_address q' = peer_address p) ->
  keeps (stays id p) (on_manager c).
Proof.
  intros Hok Hc n r n' Hrun [(q & Hq & Ha) H2 H3 H4]. unfold on_manager in Hrun.
  destruct (Hc (peer_manager n) q H4 Hq Ha) as (q' & Hq' & Ha'). specialize (Hok _ H4).
  destruct (c (peer_manager n)) as [r1 m1]. injection Hrun as <- <-. cbn in *. split; cbn; [by exists q'| |done..].
  apply (pe_index m1 Hok). by exists q'.
Qed.

Lemma stays_remove id p i : i <> id -> keeps (stays id p) (on_manager (remove_peer i)).
Proof.
  intros Hne. apply stays_manager; [intros m; apply peers_ok_remove|]. intros m q Hm Hq Ha. exists q. split; [|done].
  rewrite remove_peer_eq. cbn. by destruct (peers m !! i); cbn; rewrite lookup_delete_ne.
Qed.
Lemma stays_state id p t i s : keeps (stays id p) (on_manager (update_peer_state t i s)).
Proof.
  apply stays_manager; [intros m; apply peers_ok_state|]. intros m q Hm Hq Ha. unfold update_peer_state, sbind, sget.
  destruct (peers m !! i) as [x|] eqn:Hx; [|by exists q]. cbn. destruct (decide (i = id)) as [->|Hne].
  - rewrite lookup_insert_eq. eexists. split; [done|]. cbn. congruence.
  - rewrite lookup_insert_ne by done. by exists q.
Qed.
Lemma stays_ban id p t d a : a <> peer_address p -> keeps (stays id p) (on_manager (ban_peer t d a)).
Proof.
  intros Hne. apply stays_manager; [intros m; apply peers_ok_ban|]. intros m q Hm Hq Ha.
  unfold ban_peer, sbind at 1, slift at 1. destruct (instant_add t d) as [until| | |]; try by exists q.
  unfold sbind at 1, smod at 1. unfold sbind at 1, sget at 1. cbn [get_peer_by_address]. unfold get_peer_by_address. cbn.
  destruct (address_to_id m !! a) as [i|] eqn:Hi; [|by exists q]. unfold sbind. rewrite remove_peer_eq. cbn.
  assert (i <> id). { intros ->. apply (pe_index m Hm) in Hi as (x & Hx & Hxa). congruence. }
  exists q. split; [|done]. by destruct (peers m !! i); cbn; rewrite lookup_delete_ne.
Qed.
Lemma stays_cleanup id p t : keeps (stays id p) (on_manager (cleanup_banned t)).
Proof. apply stays_manager; [intros m; apply peers_ok_banned|]. intros m q Hm Hq Ha. by exists q. Qed.
Lemma stays_add id p t now a conn n r n' :
  fits 64 (next_peer_id (peer_manager n) + 1) -> 0 < next_peer_id (peer_manager n) ->
  on_manager (add_peer t now a conn) n = (r, n') -> stale id p n -> stale id p n' /\ r <> Ok id.
Proof.
  intros Hf Hpos Hrun [(q & Hq & Ha) H2 H3 H4]. pose proof (peers_ok_add t now a conn _ H4 Hf Hpos) as Hok. unfold on_manager in Hrun.
  assert (Hid : id <> next_peer_id (peer_manager n)) by (intros ->; apply (pe_ids _ H4) in Hq; lia).
  rewrite add_peer_cases in * by done. repeat (case_match; [injection Hrun as <- <-; split; [split; cbn; eauto|done]|]).
  cbn zeta in Hrun. injection Hrun as <- <-. split; [|intros [= ?]; by apply Hid]. cbn [snd] in Hok.
  assert (Hq' : (<[next_peer_id (peer_manager n) := peer_new now (next_peer_id (peer_manager n)) a conn]> (peers (peer_manager n))) !! id = Some q)
    by (by rewrite lookup_insert_ne).
  split; cbn; [by exists q| |done..]. apply (pe_index _ Hok). by exists q.
Qed.

Ltac stays_step :=
  lazymatch goal with
  | |- keeps _ (sbind _ _) => apply keeps_bind; [apply _| |intros ?]
  | |- keeps _ (send_to _ _) => apply stays_send
  | |- keeps _ (ignore _) => apply stays_ignore
  | |- keeps _ (end_task _ _) => apply stays_end
  | |- keeps _ (or_drop _ _) => apply stays_or_drop
  | |- keeps _ (or_end _ _ _) => apply stays_or_drop
  | |- keeps _ (on_channels _) => apply stays_channels
  | |- keeps _ (on_manager (update_peer_state _ _ _)) => apply stays_state
  | |- keeps _ (on_manager (cleanup_banned _)) => apply stays_cleanup
  | |- keeps _ (on_manager (remove_peer _)) => apply stays_remove; assumption
  | |- keeps _ (set_task _ _) => apply stays_set_task; assumption
  | |- keeps _ (smod _) => apply stays_same; done
  | |- keeps _ (match ?x with _ => _ end) => destruct x
  | |- keeps _ _ => first [keeps_leaf | assumption]
  end.
Ltac stays_auto := repeat stays_step.
Ltac stays_unfold := unfold finish_handshake, loop_read, loop_write, close_connection, handle_message, receive_handshake, send_handshake,
  write_msg, broadcast, maintain_tick, start_network, connect_to_bootstrap, stop_network, disconnect, subscribe, update_best_block, net_check.

Lemma stays_send_each id p ids m : keeps (stays id p) (send_each ids m).
Proof. induction ids; cbn [send_each]; stays_auto. Qed.
Lemma stays_dial id p l dial : keeps (stays id p) (dial_each l dial).
Proof. induction l; cbn [dial_each]; stays_auto; unfold connect, net_check; stays_auto. Qed.

Lemma stays_start k id p t now a w f n :
  net_ok k n -> fits 64 (k + 1) -> stale id p n -> stale id p (start_connection t now a w f n).2.
Proof.
  intros [_ Hk _ _] Hf Hs. unfold fits in Hf. unfold start_connection, sbind at 1.
  destruct (on_channels connection_new n) as [r1 n1] eqn:E1. pose proof (stays_channels id p _ _ _ _ E1 Hs) as S1.
  assert (Hm1 : peer_manager n1 = peer_manager n) by (cbn in E1; by injection E1 as <- <-).
  destruct r1 as [conn| | |]; try exact S1. unfold sbind at 1. destruct (on_channels unbounded_channel n1) as [r2 n2] eqn:E2.
  pose proof (stays_channels id p _ _ _ _ E2 S1) as S2. assert (Hm2 : peer_manager n2 = peer_manager n) by (cbn in E2; by injection E2 as <- <-).
  destruct r2 as [d| | |]; try exact S2. unfold sbind at 1, or_drop at 1.
  destruct (on_manager (add_peer t now a (mkConnection (conn_sender conn) d)) n2) as [r3 n3] eqn:E3.
  destruct (stays_add id p _ _ _ _ n2 r3 n3 ltac:(rewrite Hm2; unfold fits; lia) ltac:(rewrite Hm2; lia) E3 S2) as [S3 Hne].
  destruct r3 as [i|e| |]; try exact S3.
  - assert (i <> id) by (intros ->; by apply Hne).
    assert (Hrest : keeps (stays id p) (run! set_task i (AwaitHandshake (conn_receiver conn)) in or_end i (conn_receiver conn) (send_handshake now i w f)))
      by (stays_unfold; stays_auto).
    exact (Hrest n3 _ _ (surjective_pairing _) S3).
  - assert (Hdrop : keeps (stays id p) (run! on_channels (drop_receiver (conn_receiver conn)) in on_channels (drop_receiver d))) by stays_auto.
    exact (Hdrop n3 _ _ (surjective_pairing _) S3).
Qed.

Lemma stays_event k id p ev n :
  net_ok k n -> fits 64 (k + 1) -> spares id (peer_address p) ev -> stale id p n -> stale id p (net_step n ev).
Proof.
  intros Hok Hf Hsp Hs. unfold net_step.
  assert (Hkeep : forall c : ST P2PNetwork PacyteError unit, keeps (stays id p) c -> stale id p (c n).2)
    by (intros c Hc; exact (Hc n _ _ (surjective_pairing _) Hs)).
  assert (Htask : forall i (g : option TaskPhase -> ST P2PNetwork PacyteError unit), g None = sret tt -> (i <> id -> forall o, keeps (stays id p) (g o)) ->
    stale id p ((do! o := sget (fun n => p_tasks n !! i) in g o) n).2).
  { intros i g Hg0 Hg. destruct (decide (i = id)) as [->|Hne].
    - unfold sbind, sget. by rewrite (st_task id p n Hs), Hg0.
    - apply Hkeep. stays_auto. by apply Hg. }
  destruct ev; cbn [net_action spares] in *.
  - by eapply stays_start.
  - apply Htask; [done|]. intros Hne o. stays_unfold. stays_auto.
  - apply Htask; [done|]. intros Hne o. stays_unfold. stays_auto.
  - apply Htask; [done|]. intros Hne o. stays_unfold. stays_auto.
  - apply Htask; [done|]. intros Hne o. stays_unfold. stays_auto.
  - apply Hkeep. stays_unfold. stays_auto. apply stays_send_each.
  - apply Hkeep, stays_send.
  - apply Hkeep. stays_unfold. stays_auto.
  - by apply Hkeep, stays_ban.
  - apply Hkeep. stays_unfold. stays_auto; [apply stays_dial|apply stays_send_each].
  - apply Hkeep. stays_unfold. stays_auto.
  - apply Hkeep. stays_unfold. stays_auto; apply stays_dial.
  - apply Hkeep. stays_unfold. stays_auto.
  - apply Hkeep. stays_unfold. stays_auto.
Qed.

Lemma stays_run l : forall k id p n, net_ok k n -> k + Z.of_nat (length l) < 2 ^ 64 -> Forall (spares id (peer_address p)) l ->
  stale id p n -> stale id p (net_run n l).
Proof.
  induction l as [|ev l IH]; intros k id p n Hok Hk Hsp Hs; cbn [length] in *; cbn; [done|]. apply Forall_cons in Hsp as [Hev Hsp].
  pose proof (no_next k n Hok). assert (Hf : fits 64 (k + 1)) by (unfold fits; lia).
  apply (IH (k + 1)); [by apply step_ok|lia|done|by apply (stays_event k)].
Qed.

Lemma receive_same id r n :
  peer_manager (receive_handshake id r n).2 = peer_manager n.
Proof.
  unfold receive_handshake. destruct r as [|e|[|x b]]; try done. destruct (Msg.from_bytes _) as [[]|]; try done.
  unfold sbind at 1, sget. by destruct (negb _).
Qed.

Lemma refused_stale k t id ch p r e n :
  net_ok k n -> p_tasks n !! id = Some (AwaitHandshake ch) -> peers (peer_manager n) !! id = Some p ->
  (receive_handshake id r n).1 = Err e -> stale id p (net_step n (EvHandshake t id r)).
Proof.
  intros Hok Ht Hp Hr. unfold net_step. cbn [net_action]. unfold sbind at 1, sget at 1. rewrite Ht.
  unfold finish_handshake, or_end, or_drop, sbind at 1. pose proof (receive_same id r n) as Hm.
  destruct (receive_handshake id r n) as [r1 n1]. cbn in Hr, Hm. rewrite Hr. cbn.
  split; cbn; rewrite ?Hm; [by exists p| |apply lookup_delete_eq|apply Hok]. apply (no_peers k n Hok). by exists p.
Qed.

(** A known address is refused. *)
Lemma known_refused t now a w f n :
  fits 64 (next_peer_id (peer_manager n) + 1) -> is_Some (address_to_id (peer_manager n) !! a) ->
  exists e, (start_connection t now a w f n).1 = Err e.
Proof.
  intros Hf Ha. unfold start_connection. unfold sbind at 1. cbn [on_channels connection_new sbind unbounded_channel sret].
  unfold sbind at 1. cbn -[or_drop on_manager add_peer]. unfold sbind, or_drop, on_manager. cbn [peer_manager set_channels].
  rewrite add_peer_cases by done. destruct (is_banned _ _ _); [by eexists|]. rewrite decide_True by done. by eexists.
Qed.

(** A refused handshake keeps its slot: whatever the wrong answer was (silence, an error, the end of the
    stream, another message, another genesis), the task ends but the peer stays in the table, and until it is
    disconnected or banned every new connection from its address is refused, whatever else happens. *)
Theorem refused_handshake_keeps_slot (c : NetworkConfig) (g : Hash) (l1 l2 : list NetEvent) (t id ch : Z) (p : Peer) (r : ReadResult) (e : PacyteError) :
  let n := net_run (p2p_new c g) l1 in
  let n' := net_run (net_step n (EvHandshake t id r)) l2 in
  0 <= nc_max_peers c -> 3 + Z.of_nat (length l1) + Z.of_nat (length l2) < 2 ^ 64 ->
  p_tasks n !! id = Some (AwaitHandshake ch) -> peers (peer_manager n) !! id = Some p -> (receive_handshake id r n).1 = Err e ->
  Forall (spares id (peer_address p)) l2 ->
  p_tasks n' !! id = None /\ is_Some (peers (peer_manager n') !! id)
  /\ forall t now w f, exists e, (start_connection t now (peer_address p) w f n').1 = Err e.
Proof.
  intros n n' Hc Hl Ht Hp Hr Hsp. assert (Hn : net_ok (1 + Z.of_nat (length l1)) n) by (apply net_run_ok; [by apply new_ok|lia]).
  pose proof (refused_stale _ t id ch p r e n Hn Ht Hp Hr) as Hs. pose proof (no_next _ _ Hn).
  assert (Hn1 := step_ok _ n (EvHandshake t id r) Hn ltac:(unfold fits; lia)).
  pose proof (stays_run l2 _ id p _ Hn1 ltac:(lia) Hsp Hs) as [(q & Hq & Ha) Hi Htask _]. fold n' in Hq, Hi, Htask.
  split; [done|]. split; [by exists q|]. intros t' now w f. apply known_refused; [|by exists id].
  pose proof (no_next _ _ (net_run_ok l2 _ _ Hn1 ltac:(lia))) as Hb. fold n' in Hb. unfold fits. lia.
Qed.

(** A disconnected peer is still read: after [disconnect] (or a ban) the task of the connection runs on, and
    a message it reads goes to the upper layers as before. *)
Theorem disconnected_still_read (n : P2PNetwork) (now id ch : Z) (ev : NetEvent) (m : Msg.NetworkMessage) (b : list Z) :
  p_tasks n !! id = Some (Looping ch) -> (ev = EvDisconnect id \/ exists t d a, ev = EvBan t d a) ->
  Msg.from_bytes b = Some m -> b <> [] -> 1 <= Msg.priority m <= 2 ->
  message_tx (net_run n [ev; EvRead now id (ReadBytes b)]) = message_tx n ++ [mkPeerMessage id m now].
Proof.
  intros Ht Hev Hb Hne Hm. assert (Hsame : p_tasks (net_step n ev) = p_tasks n /\ message_tx (net_step n ev) = message_tx n).
  { destruct Hev as [->|(t & d & a & ->)]; unfold net_step; cbn [net_action].
    - unfold disconnect, sbind, on_manager. rewrite remove_peer_eq. done.
    - unfold on_manager. by destruct (ban_peer t d a _). }
  destruct Hsame as [H1 H2]. cbn [net_run foldl]. set (n1 := net_step n ev) in *. unfold net_step. cbn [net_action].
  unfold sbind, sget. rewrite H1, Ht. cbn [loop_read]. destruct b as [|x b]; [done|]. rewrite Hb.
  destruct m; cbn in Hm; try lia; cbn; by rewrite H2.
Qed.

(** [stop] leaves the state [Stopped], which the accept loop does not test for. *)
Lemma stop_keeps_accepting n : keeps_accepting (net_step n EvStop) = true.
Proof. done. Qed.
(** Only one subscriber is served. *)
Lemma second_subscriber n : (subscribe (net_step n EvSubscribe)).1 = Ok false.
Proof. done. Qed.
(** Two messages that arrive in one read: the second is lost. *)
Lemma coalesced_read now id ch n m b rest :
  Msg.msg_serialize m = Some b -> b <> [] -> loop_read now id ch (ReadBytes (b ++ rest)) n = handle_message now id m n.
Proof.
  intros Hs Hne. unfold loop_read. destruct (b ++ rest) as [|x l] eqn:E; [by destruct b|]. unfold Msg.from_bytes.
  by rewrite <- E, (Msg.msg_roundtrip _ _ rest Hs).
Qed.
End Node.

(** ** Gossip *)

Section GossipProps.
Context `{S3 : Sha3} {E : Type}.

Fixpoint gossip_run (l : list (Z * Msg.NetworkMessage)) : ST GossipRouter E (list bool) :=
  match l with
  | [] => sret []
  | (now, m) :: l => do! b := should_propagate now m in do! bs := gossip_run l in sret (b :: bs)
  end.
Definition short (e : Z * Msg.NetworkMessage) : Hash := Msg.compute_short_hash e.1 e.2.
(** Which hashes of a list occur there for the first time, [seen] having come before. *)
Fixpoint firsts (seen : gset Hash) (l : list Hash) : list bool :=
  match l with
  | [] => []
  | h :: l => bool_decide (h ∉ seen) :: firsts ({[h]} ∪ seen) l
  end.

Lemma gossip_run_ok l : forall g, Z.of_nat (size (seen_messages g) + length l) <= max_seen_cache g ->
  (gossip_run l g).1 = Ok (firsts (dom (seen_messages g)) (map short l)).
Proof.
  induction l as [|[now m] l IH]; intros g Hsize; [done|]. cbn [gossip_run length] in *.
  unfold sbind at 1, should_propagate, sbind at 1, sget at 1. rewrite (proj2 (Z.ltb_ge _ _)) by lia.
  unfold sbind at 1, sret at 1. unfold sbind at 1, sget at 1. unfold sbind at 1, smod at 1. unfold sret at 1.
  set (h := Msg.compute_short_hash now m). set (g' := set_seen _ g).
  assert (Hn : (size (seen_messages g') <= S (size (seen_messages g)))%nat).
  { cbn. pose proof (map_size_insert h now (seen_messages g)) as Hs. rewrite Hs. destruct (seen_messages g !! h); cbn; lia. }
  specialize (IH g' ltac:(cbn [max_seen_cache g' set_seen] in *; lia)). unfold sbind. destruct (gossip_run l g') as [r g'']. cbn in IH.
  rewrite IH. unfold sret. cbn [fst map firsts]. change (short (now, m)) with h. f_equal. f_equal.
  - rewrite <- bool_decide_not. apply bool_decide_ext. by rewrite not_elem_of_dom, eq_None_not_Some.
  - by rewrite dom_insert_L.
Qed.

(** Gossip passes a message on exactly once: of any sequence of messages that fits the cache, those with a short
    hash not met before are passed on, the others are not. *)
Theorem gossip_once (l : list (Z * Msg.NetworkMessage)) (max ttl : Z) :
  Z.of_nat (length l) <= max -> (gossip_run l (gossip_new max ttl)).1 = Ok (firsts ∅ (map short l)).
Proof. intros Hl. rewrite gossip_run_ok; cbn; [by rewrite dom_empty_L|]. by rewrite map_size_empty. Qed.

(** The short hash of a vote leaves out its type, its height and its signature: the precommit of a validator
    for the block it prevoted in the round is not passed on, nor is any vote for the same block and round number later. *)
Lemma gossip_drops_precommit (t1 t2 h1 h2 max ttl round voter : Z) (hash : Hash) (s1 s2 : list Z) :
  2 <= max ->
  (gossip_run [(t1, Msg.Vote (Msg.mkVote h1 round hash voter Prevote s1)); (t2, Msg.Vote (Msg.mkVote h2 round hash voter Precommit s2))]
     (gossip_new max ttl)).1 = Ok [true; false].
Proof.
  intros Hm. rewrite gossip_run_ok by (cbn; rewrite map_size_empty; cbn; lia). cbn [map firsts seen_messages gossip_new].
  rewrite bool_decide_eq_true_2 by (rewrite dom_empty_L; set_solver). rewrite bool_decide_eq_false_2 by set_solver. done.
Qed.
End GossipProps.

(** ** Witnesses *)

Section NetworkWitnesses.
#[local] Existing Instance release_profile.
#[local] Existing Instance key_order.
#[local] Existing Instance toy_sha3.

(** An encoder that only knows pings and votes without hash and signature. *)
#[local] Instance toy_bincode : Msg.BincodeMsg.
Proof.
  refine {|
    Msg.msg_serialize := fun m => match m with
      | Msg.Ping n => Some [1; n]
      | Msg.Vote (Msg.mkVote h r [] v Prevote []) => Some [2; h; r; v]
      | _ => None end;
    Msg.msg_deserialize := fun b => match b with
      | 1 :: n :: _ => Some (Msg.Ping n)
      | 2 :: h :: r :: v :: _ => Some (Msg.Vote (Msg.mkVote h r [] v Prevote []))
      | _ => None end |}.
  intros m b rest Hs. destruct m as [ | |n| | | | | | | | | | | | | | |v| | | | | ]; try done; [by injection Hs as <-|].
  destruct v as [h r [|] v [|] [|]]; try done. by injection Hs as <-.
Defined.

Definition home : SocketAddr := V4 [127; 0; 0; 1] 9333.
Definition greet : NetEvent := EvConnection 0 5 home None None.

(** Two connections of one address, one after the other under each lock, and both pass the tests. *)
Definition race (now : Z) (a : SocketAddr) (c1 c2 : PeerConnection) : list TableEvent :=
  [TAdd 0 now a c1; TAdd 0 now a c2] ++ concat (replicate 5 [TStep 0; TStep 1]) ++ [TStep 0; TStep 0].
(** The index and the limit are lost between two threads: a table for one peer ends with two of the same address, of
    which the index names one; the other is found by no address any more and outlives a ban of it. *)
Theorem peer_limit_race now c1 c2 :
  let s := table_run 2 (race now home c1 c2) (mkShared (peer_manager_new 1) []) in
  peers (sh_manager s) = <[2 := peer_new now 2 home c1]> (<[1 := peer_new now 1 home c2]> ∅) /\
  address_to_id (sh_manager s) = {[home := 2]} /\ sh_running s = [] /\
  peers (sh_manager (table_run 2 ([TBan 0 1 home] ++ replicate 4 (TStep 0)) s)) = {[1 := peer_new now 1 home c2]}.
Proof.
  vm_compute. done.
Qed.

Lemma peer_table_threads_witness :
  let s := table_run 2 (race 7 home (mkConnection 0 0) (mkConnection 1 1)) (mkShared (peer_manager_new 1) []) in
  Z.of_nat (size (peers (sh_manager s))) <= 2.
Proof. apply (peer_table_threads 2 1 (race 7 home (mkConnection 0 0) (mkConnection 1 1))); cbn; lia. Defined.

Lemma p2p_never_sends_witness :
  Forall (fun e => greets e.2) (p_wire (net_run (p2p_new default_net_config zero_hash) [greet; EvBroadcast (Msg.Ping 1); EvWrite 1 false])).
Proof. apply (p2p_never_sends default_net_config zero_hash [greet; EvBroadcast (Msg.Ping 1); EvWrite 1 false]); cbn; lia. Defined.

Lemma peer_table_invariant_witness :
  peers_ok (peer_manager (net_run (p2p_new default_net_config zero_hash) [greet; EvDisconnect 1; greet; greet])).
Proof. apply (peer_table_invariant default_net_config zero_hash [greet; EvDisconnect 1; greet; greet]); cbn; lia. Defined.

Lemma refused_handshake_keeps_slot_witness :
  exists e, (start_connection 9 9 home None None
    (net_run (net_step (net_run (p2p_new default_net_config zero_hash) [greet]) (EvHandshake 5 1 ReadTimeout)) [EvBroadcast (Msg.Ping 3)])).1 = Err e.
Proof.
  set (conn := mkConnection 0 1).
  destruct (refused_handshake_keeps_slot default_net_config zero_hash [greet] [EvBroadcast (Msg.Ping 3)] 5 1 0
    (peer_new 5 1 home conn) ReadTimeout PE.HandshakeTimeout) as (_ & _ & H);
    [cbn; lia|cbn; lia|reflexivity|reflexivity|reflexivity|by repeat constructor|]. exact (H 9 9 None None).
Defined.

Definition talking : P2PNetwork := set_tasks {[1 := Looping 0]} (p2p_new default_net_config zero_hash).
Lemma disconnected_still_read_witness :
  message_tx (net_run talking [EvDisconnect 1; EvRead 7 1 (ReadBytes [2; 3; 0; 4])]) = [mkPeerMessage 1 (Msg.Vote (Msg.mkVote 3 0 [] 4 Prevote [])) 7].
Proof.
  exact (disconnected_still_read talking 7 1 0 (EvDisconnect 1) (Msg.Vote (Msg.mkVote 3 0 [] 4 Prevote [])) [2; 3; 0; 4] eq_refl (or_introl eq_refl)
    eq_refl ltac:(done) ltac:(cbn; lia)).
Defined.

Lemma gossip_once_witness :
  (gossip_run (E:=unit) [(1, Msg.GetPeers); (1, Msg.Ping 5); (2, Msg.Ping 5)] (gossip_new 10 60)).1 = Ok [true; false; true].
Proof. rewrite (gossip_once [(1, Msg.GetPeers); (1, Msg.Ping 5); (2, Msg.Ping 5)] 10 60 ltac:(cbn; lia)). vm_compute. reflexivity. Defined.
End NetworkWitnesses.
