(* ===== verification/Api.v ===== *)
(** * Middleware of the API (src/api/middleware.rs)

    The sliding-window rate limiter, the address a request is counted under, the table of API keys
    and the request counters.  The web framework around them is not modelled.  Instants are
    nanoseconds. *)

From stdpp Require Import strings.
From S2P Require Import Prelude.
Abbreviation length := List.length.

(** ** Rate limiter *)

Record RateLimiter : Type := mkLimiter { rl_requests : gmap string (list Z); rl_max_requests : Z; rl_window_secs : Z }.
Definition limiter_new (max_requests window_secs : Z) : RateLimiter := mkLimiter ∅ max_requests window_secs.

(** [now.duration_since(t)] is zero for a later instant. *)
Definition recent (window now t : Z) : bool := saturating_sub now t <? window.
Definition limiter_check (now : Z) (ip : string) (l : RateLimiter) : bool * RateLimiter :=
  let window := rl_window_secs l * 1000000000 in
  let entry := List.filter (recent window now) (default [] (rl_requests l !! ip)) in
  if rl_max_requests l <=? Z.of_nat (length entry)
  then (false, mkLimiter (<[ip := entry]> (rl_requests l)) (rl_max_requests l) (rl_window_secs l))
  else (true, mkLimiter (<[ip := entry ++ [now]]> (rl_requests l)) (rl_max_requests l) (rl_window_secs l)).

(** The header values that are text. *)
Record RequestHeaders : Type := mkHeaders { x_forwarded_for : option string; x_real_ip : option string }.
Fixpoint before_comma (s : string) : string :=
  match s with
  | EmptyString => EmptyString
  | String c s' => if (Ascii.nat_of_ascii c =? 44)%nat then EmptyString else String c (before_comma s')
  end.
(** [str::trim] on header text, whose white space is the space and the tab. *)
Definition is_blank (c : Ascii.ascii) : bool := ((Ascii.nat_of_ascii c =? 32) || (Ascii.nat_of_ascii c =? 9))%nat.
Fixpoint trim_left (s : string) : string :=
  match s with
  | String c s' => if is_blank c then trim_left s' else s
  | EmptyString => EmptyString
  end.
Definition trim (s : string) : string := String.rev (trim_left (String.rev (trim_left s))).
Definition get_client_ip (r : RequestHeaders) : string :=
  match x_forwarded_for r with
  | Some s => trim (before_comma s)
  | None => default "unknown"%string (x_real_ip r)
  end.
(** [rate_limit_middleware] up to the call of the next handler. *)
Definition rate_limit (now : Z) (r : RequestHeaders) (l : RateLimiter) : bool * RateLimiter := limiter_check now (get_client_ip r) l.

(** ** API keys *)

Record ApiKeyInfo : Type := mkKeyInfo { ki_key : string; ki_name : string; ki_permissions : list string; ki_rate_limit : option Z }.
Definition ApiKeyAuth : Type := gmap string ApiKeyInfo.
Definition auth_new : ApiKeyAuth := ∅.
Definition add_key (key : string) (info : ApiKeyInfo) (a : ApiKeyAuth) : ApiKeyAuth := <[key := info]> a.
Definition remove_key (key : string) (a : ApiKeyAuth) : ApiKeyAuth := delete key a.
(** The key of [Authorization: Bearer <key>] decides whether [api_key_middleware] goes on. *)
Definition strip_bearer (header : string) : option string :=
  if String.prefix "Bearer " header then Some (String.substring 7 (String.length header - 7) header) else None.
Definition validate_key (key : string) (a : ApiKeyAuth) : option ApiKeyInfo := a !! key.
Definition api_key_allows (authorization : option string) (a : ApiKeyAuth) : bool :=
  match authorization ≫= strip_bearer with
  | Some key => bool_decide (is_Some (validate_key key a))
  | None => false
  end.

(** ** Request counters *)

Record Metrics : Type := mkMetrics {
  total_requests : Z; requests_by_method : gmap string Z; requests_by_path : gmap string Z; response_codes : gmap Z Z
}.
Definition metrics_new : Metrics := mkMetrics 0 ∅ ∅ ∅.

Section Metrics.
Context `{BP : BuildProfile} {E : Type}.
Definition bump {K} `{Countable K} (k : K) (m : gmap K Z) : Outcome E (gmap K Z) :=
  match m !! k with
  | Some c => let? c' := add_u64 c 1 in Ok (<[k := c']> m)
  | None => Ok (<[k := 1]> m)
  end.
Definition metrics_record (method path : string) (status : Z) : ST Metrics E unit :=
  do! t := sget total_requests in
  do! t' := slift (add_u64 t 1) in
  run! smod (fun m => mkMetrics t' (requests_by_method m) (requests_by_path m) (response_codes m)) in
  do! ms := sget requests_by_method in
  do! ms' := slift (bump method ms) in
  run! smod (fun m => mkMetrics (total_requests m) ms' (requests_by_path m) (response_codes m)) in
  do! ps := sget requests_by_path in
  do! ps' := slift (bump path ps) in
  run! smod (fun m => mkMetrics (total_requests m) (requests_by_method m) ps' (response_codes m)) in
  do! cs := sget response_codes in
  do! cs' := slift (bump status cs) in
  smod (fun m => mkMetrics (total_requests m) (requests_by_method m) (requests_by_path m) cs').
End Metrics.

(** ** Windows *)

Fixpoint limiter_run (l : list (Z * string)) (s : RateLimiter) : list bool :=
  match l with
  | [] => []
  | (now, ip) :: l => (limiter_check now ip s).1 :: limiter_run l (limiter_check now ip s).2
  end.

(** The reference: the whole history of accepted requests, and a request accepted when fewer than the
    maximum of its address lie less than a window back. *)
Definition times (ip : string) (h : list (Z * string)) : list Z := map fst (List.filter (fun p => bool_decide (p.2 = ip)) h).
Definition spec_accepts (max window now : Z) (ip : string) (h : list (Z * string)) : bool :=
  Z.of_nat (length (List.filter (recent window now) (times ip h))) <? max.
Fixpoint spec_run (max window : Z) (l h : list (Z * string)) : list bool * list (Z * string) :=
  match l with
  | [] => ([], h)
  | (now, ip) :: l =>
      let b := spec_accepts max window now ip h in
      let r := spec_run max window l (if b then h ++ [(now, ip)] else h) in (b :: r.1, r.2)
  end.
Definition within (window until : Z) (l : list Z) : list Z := List.filter (fun t => (until - window <? t) && (t <=? until)) l.

Lemma times_snoc ip h now i : times ip (h ++ [(now, i)]) = times ip h ++ (if bool_decide (i = ip) then [now] else []).
Proof. unfold times. rewrite List.filter_app, map_app. cbn [List.filter snd]. by case_bool_decide. Qed.

Lemma filter_recent_twice w now now' l :
  now <= now' -> List.filter (recent w now') (List.filter (recent w now) l) = List.filter (recent w now') l.
Proof.
  intros Hle. induction l as [|t l IH]; cbn; [done|]. unfold recent, saturating_sub in *.
  destruct (Z.ltb_spec (Z.max 0 (now - t)) w), (Z.ltb_spec (Z.max 0 (now' - t)) w); cbn; rewrite ?IH; try done; try lia.
  - rewrite (proj2 (Z.ltb_lt _ _)) by done. done.
  - rewrite (proj2 (Z.ltb_ge _ _)) by done. done.
Qed.

(** What the limiter holds agrees with the history on every later window. *)
Definition holds (s : RateLimiter) (last : Z) (h : list (Z * string)) : Prop :=
  forall ip now, last <= now ->
    List.filter (recent (rl_window_secs s * 1000000000) now) (default [] (rl_requests s !! ip))
    = List.filter (recent (rl_window_secs s * 1000000000) now) (times ip h).

Lemma limiter_step s last h now ip :
  holds s last h -> last <= now ->
  let b := spec_accepts (rl_max_requests s) (rl_window_secs s * 1000000000) now ip h in
  (limiter_check now ip s).1 = b /\ holds (limiter_check now ip s).2 now (if b then h ++ [(now, ip)] else h)
  /\ rl_max_requests (limiter_check now ip s).2 = rl_max_requests s /\ rl_window_secs (limiter_check now ip s).2 = rl_window_secs s.
Proof.
  intros Hh Hle b. unfold limiter_check. rewrite (Hh ip now Hle). set (w := rl_window_secs s * 1000000000) in *.
  set (entry := List.filter (recent w now) (times ip h)).
  assert (Hb : b = negb (rl_max_requests s <=? Z.of_nat (length entry))) by (unfold b, spec_accepts; fold entry; by rewrite Z.leb_antisym, negb_involutive).
  rewrite Hb. destruct (_ <=? _) eqn:Hfull; cbn [negb fst snd]; (split; [done|split; [|done]]); intros i now' Hn'; cbn [rl_requests rl_window_secs]; fold w.
  - destruct (decide (ip = i)) as [<-|Hne]; [rewrite lookup_insert_eq; cbn; by apply filter_recent_twice|].
    rewrite lookup_insert_ne by done. apply Hh. lia.
  - rewrite times_snoc. destruct (decide (ip = i)) as [<-|Hne].
    + rewrite lookup_insert_eq, bool_decide_eq_true_2 by done. change (default [] (Some (entry ++ [now]))) with (entry ++ [now]). rewrite !List.filter_app. f_equal. by apply filter_recent_twice.
    + rewrite lookup_insert_ne, bool_decide_eq_false_2, app_nil_r by done. apply Hh. lia.
Qed.

Lemma limiter_run_spec l : forall s last h, holds s last h -> StronglySorted Z.le (last :: map fst l) ->
  limiter_run l s = (spec_run (rl_max_requests s) (rl_window_secs s * 1000000000) l h).1.
Proof.
  induction l as [|[now ip] l IH]; intros s last h Hh Hs; [done|]. cbn [limiter_run spec_run map fst] in *.
  apply StronglySorted_inv in Hs as [Hs Hlast]. apply Forall_cons in Hlast as [Hle _].
  destruct (limiter_step s last h now ip Hh Hle) as (E1 & Hh' & E2 & E3). rewrite E1. cbn [fst]. f_equal.
  rewrite (IH _ now _ Hh' Hs). by rewrite E2, E3.
Qed.

Lemma within_bound max w until now h ip :
  Forall (fun p => p.1 <= now) h -> spec_accepts max w now ip h = true ->
  (forall ip until, Z.of_nat (length (within w until (times ip h))) <= max) ->
  Z.of_nat (length (within w until (times ip (h ++ [(now, ip)])))) <= max.
Proof.
  intros Hpast Hacc Hall. rewrite times_snoc, bool_decide_eq_true_2 by done. unfold within. rewrite List.filter_app, length_app. fold (within w until (times ip h)).
  apply Z.ltb_lt in Hacc. destruct (decide (now <= until)) as [Hle|Hlt].
  - assert (Hsub : (length (within w until (times ip h)) <= length (List.filter (recent w now) (times ip h)))%nat).
    { unfold within. assert (Ht : Forall (fun t => t <= now) (times ip h)).
      { unfold times. rewrite Forall_map. clear -Hpast. induction Hpast; cbn; [done|]. destruct (bool_decide _); [by constructor|done]. }
      clear -Ht Hle. induction Ht as [|t l Ht Hl IH]; cbn; [lia|]. unfold recent, saturating_sub in *.
      destruct (Z.ltb_spec (until - w) t), (Z.leb_spec t until), (Z.ltb_spec (Z.max 0 (now - t)) w); cbn; lia. }
    pose proof (List.filter_length_le (fun t => (until - w <? t) && (t <=? until)) [now]) as H1. cbn [length] in H1. lia.
  - cbn [List.filter]. rewrite (proj2 (Z.leb_gt now until)) by lia. rewrite andb_false_r. cbn [length]. specialize (Hall ip until). lia.
Qed.

Lemma spec_run_bound max w l : 0 <= max -> forall last h,
  Forall (fun p => p.1 <= last) h -> StronglySorted Z.le (last :: map fst l) ->
  (forall ip until, Z.of_nat (length (within w until (times ip h))) <= max) ->
  forall ip until, Z.of_nat (length (within w until (times ip (spec_run max w l h).2))) <= max.
Proof.
  intros Hmax. induction l as [|[now i] l IH]; intros last h Hp Hs Hall ip until; cbn [spec_run map fst snd] in *; [apply Hall|].
  apply StronglySorted_inv in Hs as [Hs Hlast]. apply Forall_cons in Hlast as [Hle _].
  assert (Hp' : Forall (fun p => p.1 <= now) h) by (eapply Forall_impl; [exact Hp|]; cbn; lia).
  apply (IH now); [|done|].
  - destruct (spec_accepts max w now i h); [|done]. apply Forall_app. split; [done|]. by constructor.
  - intros ip' until'. destruct (spec_accepts max w now i h) eqn:Hacc; [|apply Hall]. destruct (decide (i = ip')) as [<-|Hne].
    + by apply (within_bound max w until' now h i).
    + rewrite times_snoc, bool_decide_eq_false_2, app_nil_r by done. apply Hall.
Qed.

(** C40. The rate limiter implements the sliding window: over any requests in the order of their instants it accepts exactly
    those with fewer than the maximum of accepted requests of their address less than a window before them, so that
    no window of that length ever holds more than the maximum. *)
Theorem rate_limiter_window (max window_secs start : Z) (l : list (Z * string)) :
  0 <= max -> StronglySorted Z.le (start :: map fst l) ->
  let w := window_secs * 1000000000 in
  limiter_run l (limiter_new max window_secs) = (spec_run max w l []).1
  /\ forall ip until, Z.of_nat (length (within w until (times ip (spec_run max w l []).2))) <= max.
Proof.
  intros Hmax Hs w. split.
  - apply (limiter_run_spec l (limiter_new max window_secs) start); [|done]. intros ip now Hn. cbn. by rewrite lookup_empty.
  - by apply (spec_run_bound max w l Hmax start).
Qed.

Lemma rate_limiter_window_witness :
  limiter_run [(0, "a"); (1, "a"); (2, "b"); (3, "a"); (5000000000, "a")]%string (limiter_new 2 1) = [true; true; true; false; true].
Proof.
  rewrite (proj1 (rate_limiter_window 2 1 0 [(0, "a"); (1, "a"); (2, "b"); (3, "a"); (5000000000, "a")]%string ltac:(lia)
    ltac:(repeat constructor; cbn; lia))). vm_compute. reflexivity.
Defined.

(** ** Forged addresses *)

(** The address is what the request claims in its first header: a client that changes it on every request is never limited. *)
Lemma forged_address_unlimited (now : Z) (fake : string) (l : RateLimiter) :
  0 < rl_max_requests l -> rl_requests l !! get_client_ip (mkHeaders (Some fake) None) = None ->
  (rate_limit now (mkHeaders (Some fake) None) l).1 = true.
Proof.
  intros Hmax Hnew. unfold rate_limit, limiter_check. rewrite Hnew. cbn. by rewrite (proj2 (Z.leb_gt _ _)).
Qed.
