(* ===== verification/RocksDB.v ===== *)
(** * The persistent storage (src/storage/rocksdb.rs, configuration and statistics of src/storage/mod.rs)

    [RocksDBStorage] keeps blocks, transactions, accounts, state roots and metadata in column
    families of one database, behind a cache of blocks and a cache of accounts that are never
    evicted.  The database and the binary format are interfaces: [RocksDb] and [StorageFormat].
    [cf_handle] makes an [Arc] out of a borrowed reference and drops it after use, which is undefined
    behaviour; the model takes it for the borrow it means to be. *)

From stdpp Require Import strings pretty.
From S2P Require Import Prelude Hashing Errors Types Block State Floats Messages.
Abbreviation length := List.length.

(** ** Configuration and statistics *)

Module Compression.
Inductive CompressionType : Type := None | Snappy | Lz4 | Zstd.
End Compression.
Abbreviation CompressionType := Compression.CompressionType.

Record StorageConfig : Type := mkStorageConfig {
  cache_size_mb : Z;
  max_open_files : Z;
  wal_enabled : bool;
  compression : CompressionType;
  sync_writes : bool
}.
Definition storage_config_default : StorageConfig := mkStorageConfig 512 1000 true Compression.Lz4 false.

Record StorageStats : Type := mkStorageStats {
  ss_total_blocks : Z;
  ss_total_transactions : Z;
  ss_total_accounts : Z;
  ss_disk_usage_bytes : Z;
  ss_cache_hit_rate : f64;
  ss_avg_read_latency_us : Z;
  ss_avg_write_latency_us : Z
}.
Definition storage_stats_default : StorageStats := mkStorageStats 0 0 0 0 (f64_of 0) 0 0.
Definition set_total_blocks (n : Z) (s : StorageStats) : StorageStats :=
  mkStorageStats n (ss_total_transactions s) (ss_total_accounts s) (ss_disk_usage_bytes s) (ss_cache_hit_rate s)
    (ss_avg_read_latency_us s) (ss_avg_write_latency_us s).
Definition set_total_transactions (n : Z) (s : StorageStats) : StorageStats :=
  mkStorageStats (ss_total_blocks s) n (ss_total_accounts s) (ss_disk_usage_bytes s) (ss_cache_hit_rate s)
    (ss_avg_read_latency_us s) (ss_avg_write_latency_us s).
Definition set_disk_usage (n : Z) (s : StorageStats) : StorageStats :=
  mkStorageStats (ss_total_blocks s) (ss_total_transactions s) (ss_total_accounts s) n (ss_cache_hit_rate s)
    (ss_avg_read_latency_us s) (ss_avg_write_latency_us s).

(** The statistics of the memory storage count what it holds. *)
Definition ms_stats (m : MemoryStorage) : StorageStats :=
  mkStorageStats (Z.of_nat (length (ms_blocks m))) (Z.of_nat (size (ms_transactions m)))
    (Z.of_nat (size (ms_accounts m))) 0 (f64_of 1) 1 1.
Definition ms_create_snapshot (_ : string) : PacyteResult unit := Err (PE.NotImplemented "Memory storage snapshot").
Definition ms_restore_from_snapshot (_ : string) : PacyteResult unit := Err (PE.NotImplemented "Memory storage restore").

(** ** The database interface *)

Inductive ColumnFamily : Type := CF_DEFAULT | CF_BLOCKS | CF_TRANSACTIONS | CF_ACCOUNTS | CF_STATE_ROOTS | CF_METADATA.
#[export] Instance ColumnFamily_eq_dec : EqDecision ColumnFamily.
Proof. solve_decision. Defined.
Definition cf_name (c : ColumnFamily) : string :=
  match c with
  | CF_DEFAULT => "default" | CF_BLOCKS => "blocks" | CF_TRANSACTIONS => "transactions"
  | CF_ACCOUNTS => "accounts" | CF_STATE_ROOTS => "state_roots" | CF_METADATA => "metadata"
  end.
Definition cf_names : list ColumnFamily := [CF_BLOCKS; CF_TRANSACTIONS; CF_ACCOUNTS; CF_STATE_ROOTS; CF_METADATA].

Abbreviation bytes := (list Z).
(** What [rocksdb::WriteBatch] collects. *)
Inductive RocksWrite : Type :=
| put_cf (c : ColumnFamily) (key value : bytes)
| delete_cf (c : ColumnFamily) (key : bytes).

(** The options the database is opened with. *)
Record RocksOptions : Type := mkOptions {
  create_if_missing : bool;
  create_missing_column_families : bool;
  opt_max_open_files : Z;
  opt_compression : CompressionType;
  opt_lru_cache : option Z
}.

(** An open database.  [db_rev_iter] is the iterator from the end: key and value, or an error, per
    step. *)
Class RocksDb (D : Type) : Type := {
  db_get : ColumnFamily -> bytes -> D -> Outcome string (option bytes);
  db_write : list RocksWrite -> ST D string unit;
  db_rev_iter : ColumnFamily -> D -> list (string + bytes * bytes);
  db_checkpoint : string -> ST D string unit
}.

(** A database as one map per family.  Reads may fail; a write happens as a whole or, when it reports
    an error, not at all. *)
Definition view_write (o : RocksWrite) (v : ColumnFamily -> gmap bytes bytes) : ColumnFamily -> gmap bytes bytes :=
  match o with
  | put_cf c k x => fun c' => if decide (c' = c) then <[k := x]> (v c) else v c'
  | delete_cf c k => fun c' => if decide (c' = c) then delete k (v c) else v c'
  end.
Definition view_writes (l : list RocksWrite) (v : ColumnFamily -> gmap bytes bytes) : ColumnFamily -> gmap bytes bytes :=
  foldl (fun v o => view_write o v) v l.

Class RocksLaws (D : Type) `{RocksDb D} : Type := {
  db_view : D -> ColumnFamily -> gmap bytes bytes;
  db_get_law : forall c k d, db_get c k d = Ok (db_view d c !! k) \/ exists e, db_get c k d = Err e;
  db_write_law : forall l d, exists r d', db_write l d = (r, d') /\
    ((r = Ok tt /\ forall c, db_view d' c = view_writes l (db_view d) c)
     \/ (exists e, r = Err e) /\ forall c, db_view d' c = db_view d c);
  db_checkpoint_law : forall p d, exists r d', db_checkpoint p d = (r, d') /\
    (r = Ok tt \/ exists e, r = Err e) /\ forall c, db_view d' c = db_view d c
}.

(** A database that does not fail. *)
Class RocksReliable (D : Type) `{RocksLaws D} : Prop := {
  db_get_ok : forall c k d, db_get c k d = Ok (db_view d c !! k);
  db_write_ok : forall l d, is_ok (db_write l d).1 = true;
  db_iter_ok : forall c d, exists l, db_rev_iter c d = map inr l /\ l ≡ₚ map_to_list (db_view d c)
}.

(** [bincode] on the stored types. *)
Class StorageFormat : Type := {
  ser_block : Block -> string + bytes;
  de_block : bytes -> string + Block;
  ser_tx : Transaction -> string + bytes;
  de_tx : bytes -> string + Transaction;
  ser_account : Account -> string + bytes;
  de_account : bytes -> string + Account
}.
(** What is written can be read back. *)
Class StorageFormatLaws `{StorageFormat} : Prop := {
  de_ser_block : forall x b, ser_block x = inr b -> de_block b = inr x;
  de_ser_tx : forall x b, ser_tx x = inr b -> de_tx b = inr x;
  de_ser_account : forall x b, ser_account x = inr b -> de_account b = inr x
}.

(** ** The storage *)

Record RocksDBStorage (D : Type) : Type := mkRocks {
  rs_db : D;
  rs_stats : StorageStats;
  rs_block_cache : gmap Z Block;
  rs_account_cache : gmap Address Account
}.
Arguments mkRocks {D}.
Arguments rs_db {D}.
Arguments rs_stats {D}.
Arguments rs_block_cache {D}.
Arguments rs_account_cache {D}.

Definition KEY_BLOCK_HEIGHT : bytes := Msg.as_bytes "block_height".
Definition KEY_LATEST_BLOCK : bytes := Msg.as_bytes "latest_block".
Definition STAT_BLOCKS : bytes := Msg.as_bytes "stats:total_blocks".
Definition STAT_TRANSACTIONS : bytes := Msg.as_bytes "stats:total_transactions".

(** [u64::from_le_bytes] of a value of eight bytes. *)
Definition read_u64 (b : bytes) : option Z :=
  if (length b =? 8)%nat then Some (from_be_bytes (rev b)) else None.
Definition height_key (h : Z) : bytes := to_le_bytes 8 h.

Module RDB.
Section Rocks.
Context {D : Type} `{DB : RocksDb D} `{Fmt : StorageFormat} `{S3 : Sha3} `{BP : BuildProfile}.
Abbreviation M := (ST (RocksDBStorage D) PacyteError).

Definition set_db (d : D) (s : RocksDBStorage D) := mkRocks d (rs_stats s) (rs_block_cache s) (rs_account_cache s).
Definition set_stats (x : StorageStats) (s : RocksDBStorage D) := mkRocks (rs_db s) x (rs_block_cache s) (rs_account_cache s).
Definition set_block_cache (x : gmap Z Block) (s : RocksDBStorage D) := mkRocks (rs_db s) (rs_stats s) x (rs_account_cache s).
Definition set_account_cache (x : gmap Address Account) (s : RocksDBStorage D) := mkRocks (rs_db s) (rs_stats s) (rs_block_cache s) x.

(** [map_err(|e| PacyteError::RocksDBError(e.to_string()))]. *)
Definition rocks_err {A} (o : Outcome string A) : PacyteResult A :=
  match o with Ok a => Ok a | Err e => Err (PE.RocksDBError e) | Panic => Panic | Deadlock => Deadlock end.
Definition encoded {A} (r : string + A) : PacyteResult A := match r with inr a => Ok a | inl e => Err (PE.RocksDBError e) end.
Definition get_cf (c : ColumnFamily) (k : bytes) : M (option bytes) := fun s => (rocks_err (db_get c k (rs_db s)), s).
Definition write_ops (l : list RocksWrite) : M unit :=
  fun s => let '(r, d) := db_write l (rs_db s) in (rocks_err r, set_db d s).
Definition put (c : ColumnFamily) (k v : bytes) : M unit := write_ops [put_cf c k v].

(** *** Opening *)

Definition read_metadata (k : bytes) (d : D) : option Z :=
  match db_get CF_METADATA k d with Ok (Some b) => read_u64 b | _ => None end.
(** The sizes of the entries of the directory whose metadata can be read; nothing when the directory cannot. *)
Definition get_disk_usage (dir : option (list (option Z))) : PacyteResult Z :=
  match dir with
  | Some l => foldl (fun acc x => let? t := acc in add_u64 t x) (Ok 0) (omap id l)
  | None => Ok 0
  end.
(** A counter of the default family overwrites the field when it has eight bytes. *)
Definition load_stat (k : bytes) (set : Z -> StorageStats -> StorageStats) (d : D) (s : StorageStats) : StorageStats :=
  match db_get CF_DEFAULT k d with
  | Ok (Some b) => match read_u64 b with Some n => set n s | None => s end
  | _ => s
  end.
Definition update_stats (dir : option (list (option Z))) : M unit :=
  run! smod (fun s => set_stats (load_stat STAT_BLOCKS set_total_blocks (rs_db s) (rs_stats s)) s) in
  run! smod (fun s => set_stats (load_stat STAT_TRANSACTIONS set_total_transactions (rs_db s) (rs_stats s)) s) in
  do! u := slift (get_disk_usage dir) in
  smod (fun s => set_stats (set_disk_usage u (rs_stats s)) s).

(** The options; [wal_enabled] and [sync_writes] reach nothing. *)
Definition rocks_options (c : StorageConfig) : PacyteResult RocksOptions :=
  let? cache := (if 0 <? cache_size_mb c then
                   let? k := mul_u64 (cache_size_mb c) 1024 in let? m := mul_u64 k 1024 in Ok (Some m)
                 else Ok None) in
  Ok (mkOptions true true (max_open_files c) (compression c) cache).

Definition rocksdb_new (mkdir : Outcome string unit) (open : RocksOptions -> list ColumnFamily -> Outcome string D)
    (dir : option (list (option Z))) (c : StorageConfig) : PacyteResult (RocksDBStorage D) :=
  let? _ := (match mkdir with Err e => Err (PE.RocksDBError ("Failed to create dir: " +:+ e)) | o => rocks_err o end) in
  let? opts := rocks_options c in
  let? d := (match open opts cf_names with
             | Err e => Err (PE.RocksDBError ("Failed to open DB: " +:+ e))
             | o => rocks_err o end) in
  let? n := add_u64 (default 0 (read_metadata KEY_BLOCK_HEIGHT d)) 1 in
  match update_stats dir (mkRocks d (set_total_blocks n storage_stats_default) ∅ ∅) with
  | (Ok _, s) => Ok s
  | (Err e, _) => Err e
  | (Panic, _) => Panic
  | (Deadlock, _) => Deadlock
  end.

Definition write_metadata (k : bytes) (v : Z) : M unit := put CF_METADATA k (to_le_bytes 8 v).
Definition increment_stat (k : bytes) (delta : Z) : M unit :=
  do! o := get_cf CF_DEFAULT k in
  do! n := slift (add_u64 (default 0 (o ≫= read_u64)) delta) in
  put CF_DEFAULT k (to_le_bytes 8 n).

(** *** Blocks *)

Definition save_block (b : Block) : M unit :=
  let h := height (header b) in
  do! v := slift (encoded (ser_block b)) in
  run! put CF_BLOCKS (height_key h) v in
  run! smod (fun s => set_block_cache (<[h := b]> (rs_block_cache s)) s) in
  run! write_metadata KEY_BLOCK_HEIGHT h in
  run! increment_stat STAT_BLOCKS 1 in
  do! n := slift (add_u64 h 1) in
  smod (fun s => set_stats (set_total_blocks n (rs_stats s)) s).

Definition get_block (h : Z) : M (option Block) :=
  do! c := sget rs_block_cache in
  match c !! h with
  | Some b => sret (Some b)
  | None =>
      do! o := get_cf CF_BLOCKS (height_key h) in
      match o with
      | Some v =>
          do! b := slift (encoded (de_block v)) in
          run! smod (fun s => set_block_cache (<[h := b]> (rs_block_cache s)) s) in
          sret (Some b)
      | None => sret None
      end
  end.

(** [while let Some(Ok((_, value))) = iter.next()]: stops at the first error, skips what does not decode. *)
Fixpoint scan_blocks (hash : Hash) (l : list (string + bytes * bytes)) : option Block :=
  match l with
  | inr (_, v) :: l =>
      match de_block v with
      | inr b => if bool_decide (block_hash b = hash) then Some b else scan_blocks hash l
      | inl _ => scan_blocks hash l
      end
  | _ => None
  end.
Definition get_block_by_hash (hash : Hash) : M (option Block) :=
  sget (fun s => scan_blocks hash (db_rev_iter CF_BLOCKS (rs_db s))).

Definition get_block_height : M Z :=
  do! o := get_cf CF_METADATA KEY_BLOCK_HEIGHT in sret (default 0 (o ≫= read_u64)).

(** *** Accounts *)

Definition account_exists (a : Address) : M bool :=
  do! c := sget rs_account_cache in
  if bool_decide (is_Some (c !! a)) then sret true
  else do! o := get_cf CF_ACCOUNTS a in sret (bool_decide (is_Some o)).
Definition save_account (a : Address) (x : Account) : M unit :=
  do! v := slift (encoded (ser_account x)) in
  run! put CF_ACCOUNTS a v in
  smod (fun s => set_account_cache (<[a := x]> (rs_account_cache s)) s).
Definition get_account (a : Address) : M (option Account) :=
  do! c := sget rs_account_cache in
  match c !! a with
  | Some x => sret (Some x)
  | None =>
      do! o := get_cf CF_ACCOUNTS a in
      match o with
      | Some v =>
          do! x := slift (encoded (de_account v)) in
          run! smod (fun s => set_account_cache (<[a := x]> (rs_account_cache s)) s) in
          sret (Some x)
      | None => sret None
      end
  end.
Definition delete_account (a : Address) : M unit :=
  run! write_ops [delete_cf CF_ACCOUNTS a] in
  smod (fun s => set_account_cache (delete a (rs_account_cache s)) s).

Definition get_latest_block : M (option Block) :=
  do! h := get_block_height in
  do! absent := (if h =? 0 then do! e := account_exists zero_address in sret (negb e) else sret false) in
  if absent then sret None else get_block h.

(** *** Transactions and state roots *)

Definition save_transaction (t : Transaction) : M unit :=
  do! v := slift (encoded (ser_tx t)) in
  run! put CF_TRANSACTIONS (tx_hash t) v in
  increment_stat STAT_TRANSACTIONS 1.
Definition get_transaction (h : Hash) : M (option Transaction) :=
  do! o := get_cf CF_TRANSACTIONS h in
  match o with
  | Some v => do! t := slift (encoded (de_tx v)) in sret (Some t)
  | None => sret None
  end.
Definition get_transactions_by_block (h : Z) : M (list Transaction) :=
  do! o := get_block h in sret (match o with Some b => transactions b | None => [] end).
Definition save_state_root (h : Z) (root : Hash) : M unit := put CF_STATE_ROOTS (height_key h) root.
Definition get_state_root (h : Z) : M (option Hash) :=
  do! o := get_cf CF_STATE_ROOTS (height_key h) in
  match o with
  | Some v => if (length v =? 32)%nat then sret (Some v) else sfail (PE.RocksDBError "Invalid state root length")
  | None => sret None
  end.

(** *** Batches *)

Fixpoint collect {A} (f : A -> PacyteResult RocksWrite) (l : list A) : PacyteResult (list RocksWrite) :=
  match l with
  | [] => Ok []
  | x :: l => let? o := f x in let? r := collect f l in Ok (o :: r)
  end.
Definition block_write (p : Z * Block) : PacyteResult RocksWrite :=
  let? v := encoded (ser_block p.2) in Ok (put_cf CF_BLOCKS (height_key p.1) v).
Definition tx_write (p : Hash * Transaction) : PacyteResult RocksWrite :=
  let? v := encoded (ser_tx p.2) in Ok (put_cf CF_TRANSACTIONS p.1 v).
Definition account_write (p : Address * option Account) : PacyteResult RocksWrite :=
  match p.2 with
  | Some x => let? v := encoded (ser_account x) in Ok (put_cf CF_ACCOUNTS p.1 v)
  | None => Ok (delete_cf CF_ACCOUNTS p.1)
  end.
Definition root_write (p : Z * Hash) : RocksWrite := put_cf CF_STATE_ROOTS (height_key p.1) p.2.
Definition batch_writes (b : WriteBatch) : PacyteResult (list RocksWrite) :=
  let? bs := collect block_write (wb_blocks b) in
  let? ts := collect tx_write (wb_transactions b) in
  let? xs := collect account_write (wb_accounts b) in
  Ok (bs ++ ts ++ xs ++ map root_write (wb_state_roots b)).
Definition cache_blocks (l : list (Z * Block)) (c : gmap Z Block) : gmap Z Block :=
  foldl (fun c p => <[p.1 := p.2]> c) c l.
Definition write_batch (b : WriteBatch) : M unit :=
  do! ops := slift (batch_writes b) in
  run! write_ops ops in
  run! smod (fun s => set_block_cache (cache_blocks (wb_blocks b) (rs_block_cache s)) s) in
  smod (fun s => set_account_cache (write_accounts (wb_accounts b) (rs_account_cache s)) s).

(** *** Snapshots, statistics, closing *)

Definition create_snapshot (path : string) : M unit :=
  fun s => let '(r, d) := db_checkpoint path (rs_db s) in (rocks_err r, set_db d s).
Definition restore_from_snapshot (_ : string) : M unit := sfail (PE.NotImplemented "Restore requires restart").
Definition stats (s : RocksDBStorage D) : StorageStats := rs_stats s.
Definition close : M unit :=
  run! smod (set_block_cache ∅) in smod (set_account_cache ∅).
End Rocks.
End RDB.
