(* ===== verification/RocksDBProps.v ===== *)
(** * Properties of the persistent storage

    The storage over a database that does not fail implements maps of blocks, transactions, accounts
    and state roots: every answer, with whatever the caches hold, is the answer of the maps. *)

From stdpp Require Import strings pretty.
From S2P Require Import Prelude Hashing Errors Types Block State Floats Messages WalProps RocksDB.
Abbreviation length := List.length.
Import RDB.
#[local] Arguments height_key : simpl never.
#[local] Arguments to_le_bytes : simpl never.

(** ** Keys and counters *)

Lemma read_u64_le n : fits 64 n -> read_u64 (to_le_bytes 8 n) = Some n.
Proof.
  intros Hn. unfold read_u64. rewrite length_to_le_bytes. cbn [Nat.eqb]. rewrite from_to_le_bytes.
  f_equal. apply Z.mod_small. exact Hn.
Qed.
Lemma height_key_inj h k : fits 64 h -> fits 64 k -> height_key h = height_key k -> h = k.
Proof. intros Hh Hk. by apply to_le_bytes_inj. Qed.

Definition counter (k : bytes) (m : gmap bytes bytes) : Z := default 0 (m !! k ≫= read_u64).
#[local] Arguments counter : simpl never.
Lemma counter_put k n m : fits 64 n -> counter k (<[k := to_le_bytes 8 n]> m) = n.
Proof. intros Hn. unfold counter. rewrite lookup_insert_eq. cbn [mbind option_bind]. by rewrite read_u64_le. Qed.
Lemma counter_put_ne k k' b m : k <> k' -> counter k (<[k' := b]> m) = counter k m.
Proof. intros Hk. unfold counter. by rewrite lookup_insert_ne. Qed.
Lemma stat_keys_ne : STAT_BLOCKS <> STAT_TRANSACTIONS.
Proof. done. Qed.
#[local] Opaque KEY_BLOCK_HEIGHT STAT_BLOCKS STAT_TRANSACTIONS.

(** ** Families of the database as typed maps *)

Section Family.
Context {K V : Type} `{Countable K} (valid : K -> Prop) (key : K -> bytes) (ser : V -> string + bytes).
Context (key_inj : forall k k', valid k -> valid k' -> key k = key k' -> k = k').

Definition stored (o : option bytes) (x : option V) : Prop :=
  match x with Some v => exists b, ser v = inr b /\ o = Some b | None => o = None end.
(** The family holds the encodings of the map's values and nothing else. *)
Record Family (m : gmap bytes bytes) (a : gmap K V) : Prop := mkFamily {
  fam_stored : forall k, valid k -> stored (m !! key k) (a !! k);
  fam_valid : forall k v, a !! k = Some v -> valid k;
  fam_keys : forall b v, m !! b = Some v -> exists k, valid k /\ b = key k
}.

Lemma family_empty : Family ∅ ∅.
Proof. split; intros *; rewrite ?lookup_empty; done. Qed.

Lemma family_insert m a k v b : valid k -> ser v = inr b -> Family m a -> Family (<[key k := b]> m) (<[k := v]> a).
Proof.
  intros Hk Hb [Hs Hv Hm]. split.
  - intros k' Hk'. destruct (decide (k = k')) as [<-|Hne].
    + rewrite !lookup_insert_eq. cbn. eauto.
    + rewrite lookup_insert_ne by (intros Heq; apply Hne; auto). rewrite lookup_insert_ne by done. auto.
  - intros k' v' [[-> _]|[_ Hk']]%lookup_insert_Some; eauto.
  - intros b' v' [[<- _]|[_ Hb']]%lookup_insert_Some; eauto.
Qed.

Lemma family_delete m a k : valid k -> Family m a -> Family (delete (key k) m) (delete k a).
Proof.
  intros Hk [Hs Hv Hm]. split.
  - intros k' Hk'. destruct (decide (k = k')) as [<-|Hne].
    + by rewrite !lookup_delete_eq.
    + rewrite lookup_delete_ne by (intros Heq; apply Hne; auto). rewrite lookup_delete_ne by done. auto.
  - intros k' v' [_ Hk']%lookup_delete_Some; eauto.
  - intros b' v' [_ Hb']%lookup_delete_Some; eauto.
Qed.

(** A value of the family is the encoding of a value of the map. *)
Lemma family_value m a b v : Family m a -> m !! b = Some v -> exists k x, a !! k = Some x /\ ser x = inr v.
Proof.
  intros [Hs Hv Hm] Hb. destruct (Hm b v Hb) as (k & Hk & ->). specialize (Hs k Hk).
  destruct (a !! k) as [x|] eqn:Ha; cbn in Hs; [|congruence]. destruct Hs as (b' & Hb' & Heq).
  exists k, x. split; [done|]. congruence.
Qed.
End Family.

(** ** The abstract store *)

Record Store : Type := mkStore {
  a_blocks : gmap Z Block;
  a_txs : gmap Hash Transaction;
  a_accounts : gmap Address Account;
  a_roots : gmap Z Hash;
  a_height : Z;
  a_block_count : Z;
  a_tx_count : Z;
  a_stats : StorageStats
}.

Inductive StoreOp : Type :=
| SaveBlock (b : Block) | GetBlock (h : Z) | GetBlockByHash (h : Hash) | GetLatestBlock | GetBlockHeight
| SaveTransaction (t : Transaction) | GetTransaction (h : Hash) | GetTransactionsByBlock (h : Z)
| SaveAccount (a : Address) (x : Account) | GetAccount (a : Address) | DeleteAccount (a : Address) | AccountExists (a : Address)
| SaveStateRoot (h : Z) (r : Hash) | GetStateRoot (h : Z) | WriteBatchOp (b : WriteBatch)
| CreateSnapshot (p : string) | RestoreFromSnapshot (p : string) | Stats | Close.

Inductive Answer : Type :=
| ADone | ABlock (b : option Block) | AHeight (h : Z) | ATx (t : option Transaction) | ATxs (l : list Transaction)
| AAccount (x : option Account) | ABool (b : bool) | AHash (h : option Hash) | AStats (s : StorageStats).

(** The types of Rust: heights are [u64], state roots have 32 bytes. *)
Definition valid_op (o : StoreOp) : Prop :=
  match o with
  | SaveBlock b => fits 64 (height (header b))
  | GetBlock h | GetTransactionsByBlock h | GetStateRoot h => fits 64 h
  | SaveStateRoot h r => fits 64 h /\ length r = 32%nat
  | WriteBatchOp b => Forall (fun p => fits 64 p.1) (wb_blocks b)
      /\ Forall (fun p => fits 64 p.1 /\ length p.2 = 32%nat) (wb_state_roots b)
  | _ => True
  end.

Definition set_a_blocks x (a : Store) := mkStore x (a_txs a) (a_accounts a) (a_roots a) (a_height a) (a_block_count a) (a_tx_count a) (a_stats a).
Definition set_a_txs x (a : Store) := mkStore (a_blocks a) x (a_accounts a) (a_roots a) (a_height a) (a_block_count a) (a_tx_count a) (a_stats a).
Definition set_a_accounts x (a : Store) := mkStore (a_blocks a) (a_txs a) x (a_roots a) (a_height a) (a_block_count a) (a_tx_count a) (a_stats a).
Definition set_a_roots x (a : Store) := mkStore (a_blocks a) (a_txs a) (a_accounts a) x (a_height a) (a_block_count a) (a_tx_count a) (a_stats a).
Definition set_a_height x (a : Store) := mkStore (a_blocks a) (a_txs a) (a_accounts a) (a_roots a) x (a_block_count a) (a_tx_count a) (a_stats a).
Definition set_a_block_count x (a : Store) := mkStore (a_blocks a) (a_txs a) (a_accounts a) (a_roots a) (a_height a) x (a_tx_count a) (a_stats a).
Definition set_a_tx_count x (a : Store) := mkStore (a_blocks a) (a_txs a) (a_accounts a) (a_roots a) (a_height a) (a_block_count a) x (a_stats a).
Definition set_a_stats x (a : Store) := mkStore (a_blocks a) (a_txs a) (a_accounts a) (a_roots a) (a_height a) (a_block_count a) (a_tx_count a) x.

Section Spec.
Context `{S3 : Sha3} `{BP : BuildProfile}.
Abbreviation P := (ST Store PacyteError).

(** Saving a block also moves the recorded height and the counters; a batch does neither. *)
Definition spec_save_block (b : Block) : P unit :=
  let h := height (header b) in
  run! smod (fun a => set_a_height h (set_a_blocks (<[h := b]> (a_blocks a)) a)) in
  do! c := sget a_block_count in
  do! n := slift (add_u64 c 1) in
  run! smod (set_a_block_count n) in
  do! t := slift (add_u64 h 1) in
  smod (fun a => set_a_stats (set_total_blocks t (a_stats a)) a).
Definition spec_save_transaction (t : Transaction) : P unit :=
  run! smod (fun a => set_a_txs (<[tx_hash t := t]> (a_txs a)) a) in
  do! c := sget a_tx_count in
  do! n := slift (add_u64 c 1) in
  smod (set_a_tx_count n).
Definition spec_batch (b : WriteBatch) (a : Store) : Store :=
  set_a_roots (foldl (fun m p => <[p.1 := p.2]> m) (a_roots a) (wb_state_roots b))
    (set_a_accounts (write_accounts (wb_accounts b) (a_accounts a))
       (set_a_txs (foldl (fun m p => <[p.1 := p.2]> m) (a_txs a) (wb_transactions b))
          (set_a_blocks (cache_blocks (wb_blocks b) (a_blocks a)) a))).
(** At height zero the latest block is reported only once the zero address has an account. *)
Definition spec_latest (a : Store) : option Block :=
  if (a_height a =? 0) && negb (bool_decide (is_Some (a_accounts a !! zero_address))) then None
  else a_blocks a !! a_height a.

Definition answers {A} (f : A -> Answer) (c : P A) : P Answer := do! x := c in sret (f x).
Definition spec_exec (o : StoreOp) : P Answer :=
  match o with
  | SaveBlock b => answers (fun _ => ADone) (spec_save_block b)
  | GetBlock h => sget (fun a => ABlock (a_blocks a !! h))
  | GetLatestBlock => sget (fun a => ABlock (spec_latest a))
  | GetBlockHeight => sget (fun a => AHeight (a_height a))
  | SaveTransaction t => answers (fun _ => ADone) (spec_save_transaction t)
  | GetTransaction h => sget (fun a => ATx (a_txs a !! h))
  | GetTransactionsByBlock h => sget (fun a => ATxs (match a_blocks a !! h with Some b => transactions b | None => [] end))
  | SaveAccount x y => answers (fun _ => ADone) (smod (fun a => set_a_accounts (<[x := y]> (a_accounts a)) a))
  | GetAccount x => sget (fun a => AAccount (a_accounts a !! x))
  | DeleteAccount x => answers (fun _ => ADone) (smod (fun a => set_a_accounts (delete x (a_accounts a)) a))
  | AccountExists x => sget (fun a => ABool (bool_decide (is_Some (a_accounts a !! x))))
  | SaveStateRoot h r => answers (fun _ => ADone) (smod (fun a => set_a_roots (<[h := r]> (a_roots a)) a))
  | GetStateRoot h => sget (fun a => AHash (a_roots a !! h))
  | WriteBatchOp b => answers (fun _ => ADone) (smod (spec_batch b))
  | RestoreFromSnapshot _ => sfail (PE.NotImplemented "Restore requires restart")
  | Stats => sget (fun a => AStats (a_stats a))
  | GetBlockByHash _ | CreateSnapshot _ | Close => sret ADone
  end.

(** One step of the store.  A search by hash may return any block with the hash; a snapshot may fail. *)
Definition spec_step (o : StoreOp) (a : Store) (r : PacyteResult Answer) (a' : Store) : Prop :=
  match o with
  | GetBlockByHash h => a' = a /\ exists x, r = Ok (ABlock x) /\
      match x with
      | Some b => block_hash b = h /\ exists k, a_blocks a !! k = Some b
      | None => forall k b, a_blocks a !! k = Some b -> block_hash b <> h
      end
  | CreateSnapshot _ => a' = a /\ (r = Ok ADone \/ exists e, r = Err (PE.RocksDBError e))
  | _ => spec_exec o a = (r, a')
  end.
Inductive spec_run : list StoreOp -> Store -> list (PacyteResult Answer) -> Store -> Prop :=
| run_nil a : spec_run [] a [] a
| run_cons o ops a r a1 rs a' : spec_step o a r a1 -> spec_run ops a1 rs a' -> spec_run (o :: ops) a (r :: rs) a'.
End Spec.

(** ** The storage implements the store *)

(** Every value of these types can be encoded. *)
Class StorageFormatTotal `{StorageFormat} : Prop := {
  ser_block_total : forall x, exists b, ser_block x = inr b;
  ser_tx_total : forall x, exists b, ser_tx x = inr b;
  ser_account_total : forall x, exists b, ser_account x = inr b
}.

Section Refinement.
Context {D : Type} `{DB : RocksDb D} `{!RocksLaws D} `{!RocksReliable D}.
Context `{Fmt : StorageFormat} `{!StorageFormatLaws} `{!StorageFormatTotal} `{S3 : Sha3} `{BP : BuildProfile}.
Implicit Types (a : Store) (s : RocksDBStorage D).

Definition answer {A} (f : A -> Answer) (c : ST (RocksDBStorage D) PacyteError A) : ST (RocksDBStorage D) PacyteError Answer :=
  do! x := c in sret (f x).
Definition rocks_exec (o : StoreOp) : ST (RocksDBStorage D) PacyteError Answer :=
  match o with
  | SaveBlock b => answer (fun _ => ADone) (save_block b)
  | GetBlock h => answer ABlock (get_block h)
  | GetBlockByHash h => answer ABlock (get_block_by_hash h)
  | GetLatestBlock => answer ABlock get_latest_block
  | GetBlockHeight => answer AHeight get_block_height
  | SaveTransaction t => answer (fun _ => ADone) (save_transaction t)
  | GetTransaction h => answer ATx (get_transaction h)
  | GetTransactionsByBlock h => answer ATxs (get_transactions_by_block h)
  | SaveAccount a x => answer (fun _ => ADone) (save_account a x)
  | GetAccount a => answer AAccount (get_account a)
  | DeleteAccount a => answer (fun _ => ADone) (delete_account a)
  | AccountExists a => answer ABool (account_exists a)
  | SaveStateRoot h r => answer (fun _ => ADone) (save_state_root h r)
  | GetStateRoot h => answer AHash (get_state_root h)
  | WriteBatchOp b => answer (fun _ => ADone) (write_batch b)
  | CreateSnapshot p => answer (fun _ => ADone) (create_snapshot p)
  | RestoreFromSnapshot p => answer (fun _ => ADone) (restore_from_snapshot p)
  | Stats => sget (fun s => AStats (stats s))
  | Close => answer (fun _ => ADone) close
  end.
(** A sequence of calls; a call that fails does not stop the next one. *)
Fixpoint run_calls (ops : list StoreOp) (s : RocksDBStorage D) : list (PacyteResult Answer) * RocksDBStorage D :=
  match ops with
  | [] => ([], s)
  | o :: ops => let '(r, s1) := rocks_exec o s in let '(rs, s') := run_calls ops s1 in (r :: rs, s')
  end.

(** What the database holds. *)
Record Holds (v : ColumnFamily -> gmap bytes bytes) (a : Store) : Prop := mkHolds {
  hd_blocks : Family (fits 64) height_key ser_block (v CF_BLOCKS) (a_blocks a);
  hd_txs : Family (fun _ => True) id ser_tx (v CF_TRANSACTIONS) (a_txs a);
  hd_accounts : Family (fun _ => True) id ser_account (v CF_ACCOUNTS) (a_accounts a);
  hd_roots : Family (fits 64) height_key inr (v CF_STATE_ROOTS) (a_roots a);
  hd_root_len : map_Forall (fun _ r => length r = 32%nat) (a_roots a);
  hd_height : counter KEY_BLOCK_HEIGHT (v CF_METADATA) = a_height a;
  hd_block_count : counter STAT_BLOCKS (v CF_DEFAULT) = a_block_count a;
  hd_tx_count : counter STAT_TRANSACTIONS (v CF_DEFAULT) = a_tx_count a;
  hd_height_fits : fits 64 (a_height a)
}.
(** What the storage holds: the caches are parts of the maps. *)
Record Implements (s : RocksDBStorage D) (a : Store) : Prop := mkImplements {
  im_holds : Holds (db_view (rs_db s)) a;
  im_block_cache : rs_block_cache s ⊆ a_blocks a;
  im_account_cache : rs_account_cache s ⊆ a_accounts a;
  im_stats : rs_stats s = a_stats a
}.

Lemma Holds_ext (v v' : ColumnFamily -> gmap bytes bytes) a : (forall c, v' c = v c) -> Holds v a -> Holds v' a.
Proof. intros Hv []. split; rewrite ?Hv; done. Qed.
Lemma Holds_stats v a x : Holds v a -> Holds v (set_a_stats x a).
Proof. intros []. by split. Qed.

Lemma holds_put_block v a h b x : fits 64 h -> ser_block b = inr x -> Holds v a ->
  Holds (view_write (put_cf CF_BLOCKS (height_key h) x) v) (set_a_blocks (<[h := b]> (a_blocks a)) a).
Proof. intros Hh Hx []. split; cbn; try done. apply family_insert; auto using height_key_inj. Qed.
Lemma holds_put_tx v a h t x : ser_tx t = inr x -> Holds v a ->
  Holds (view_write (put_cf CF_TRANSACTIONS h x) v) (set_a_txs (<[h := t]> (a_txs a)) a).
Proof. intros Hx []. split; cbn; try done. apply (family_insert (fun _ => True) id); auto. Qed.
Lemma holds_put_account v a y z x : ser_account z = inr x -> Holds v a ->
  Holds (view_write (put_cf CF_ACCOUNTS y x) v) (set_a_accounts (<[y := z]> (a_accounts a)) a).
Proof. intros Hx []. split; cbn; try done. apply (family_insert (fun _ => True) id); auto. Qed.
Lemma holds_delete_account v a y : Holds v a ->
  Holds (view_write (delete_cf CF_ACCOUNTS y) v) (set_a_accounts (delete y (a_accounts a)) a).
Proof. intros []. split; cbn; try done. apply (family_delete (fun _ => True) id); auto. Qed.
Lemma holds_put_root v a h r : fits 64 h -> length r = 32%nat -> Holds v a ->
  Holds (view_write (root_write (h, r)) v) (set_a_roots (<[h := r]> (a_roots a)) a).
Proof.
  intros Hh Hr []. split; cbn; try done.
  - apply family_insert; auto using height_key_inj.
  - by apply map_Forall_insert_2.
Qed.
Lemma holds_put_height v a h : fits 64 h -> Holds v a ->
  Holds (view_write (put_cf CF_METADATA KEY_BLOCK_HEIGHT (to_le_bytes 8 h)) v) (set_a_height h a).
Proof.
  intros Hh []. split; cbn; try done. by apply counter_put.
Qed.
Lemma holds_put_block_count v a n : fits 64 n -> Holds v a ->
  Holds (view_write (put_cf CF_DEFAULT STAT_BLOCKS (to_le_bytes 8 n)) v) (set_a_block_count n a).
Proof.
  intros Hn []. pose proof stat_keys_ne. split; cbn; try done.
  - by apply counter_put.
  - etransitivity; [by apply counter_put_ne; congruence|done].
Qed.
Lemma holds_put_tx_count v a n : fits 64 n -> Holds v a ->
  Holds (view_write (put_cf CF_DEFAULT STAT_TRANSACTIONS (to_le_bytes 8 n)) v) (set_a_tx_count n a).
Proof.
  intros Hn []. pose proof stat_keys_ne. split; cbn; try done.
  - etransitivity; [by apply counter_put_ne; congruence|done].
  - by apply counter_put.
Qed.

(** *** Calls of the database *)

Lemma get_cf_ok c k s : get_cf c k s = (Ok (db_view (rs_db s) c !! k), s).
Proof. unfold get_cf. by rewrite db_get_ok. Qed.
Lemma write_ops_ok l s : exists d, write_ops l s = (Ok tt, set_db d s)
  /\ forall c, db_view d c = view_writes l (db_view (rs_db s)) c.
Proof.
  unfold write_ops. destruct (db_write_law l (rs_db s)) as (r & d & Hw & Hr). pose proof (db_write_ok l (rs_db s)) as Hok.
  rewrite Hw in *. destruct Hr as [[-> Hv]|[[e ->] _]]; [|done]. by exists d.
Qed.
Lemma write_ops_holds l s a : Holds (view_writes l (db_view (rs_db s))) a ->
  exists d, write_ops l s = (Ok tt, set_db d s) /\ Holds (db_view d) a.
Proof. intros Ha. destruct (write_ops_ok l s) as (d & Hw & Hv). exists d. split; [done|]. by eapply Holds_ext. Qed.
Lemma increment_stat_eq k n s : increment_stat k n s =
  match add_u64 (counter k (db_view (rs_db s) CF_DEFAULT)) n with
  | Ok m => put CF_DEFAULT k (to_le_bytes 8 m) s
  | Err e => (Err e, s) | Panic => (Panic, s) | Deadlock => (Deadlock, s)
  end.
Proof. unfold increment_stat, sbind. by rewrite get_cf_ok. Qed.
Lemma add_u64_fits x y n : add_u64 (E := PacyteError) x y = Ok n -> fits 64 n.
Proof. by apply arith_ok_range. Qed.

(** *** Reads *)

(** The blocks of the database with a part of them in the cache; a read adds to the cache. *)
Lemma get_block_family h s B : fits 64 h -> Family (fits 64) height_key ser_block (db_view (rs_db s) CF_BLOCKS) B -> rs_block_cache s ⊆ B ->
  exists c, get_block h s = (Ok (B !! h), set_block_cache c s) /\ c ⊆ B.
Proof.
  intros Hh HB Hb. assert (Hsame : s = set_block_cache (rs_block_cache s) s) by by destruct s.
  unfold get_block, sbind, sget. destruct (rs_block_cache s !! h) as [b|] eqn:Hc.
  - rewrite (lookup_weaken _ _ _ _ Hc Hb). eexists. split; [by rewrite Hsame at 1|done].
  - rewrite get_cf_ok. pose proof (fam_stored _ _ _ _ _ HB h Hh) as Hst.
    destruct (B !! h) as [b|] eqn:Hl; cbn [stored] in Hst.
    + destruct Hst as (v & Hv & ->). cbn. rewrite (de_ser_block _ _ Hv). eexists. split; [reflexivity|]. by apply insert_subseteq_l.
    + rewrite Hst. eexists. split; [by rewrite Hsame at 1|done].
Qed.
Lemma get_block_ok h s a : fits 64 h -> Implements s a ->
  exists s', get_block h s = (Ok (a_blocks a !! h), s') /\ Implements s' a.
Proof.
  intros Hh [Ha Hb Hx Hs]. destruct (get_block_family h s _ Hh (hd_blocks _ _ Ha) Hb) as (c & -> & Hc). eexists. by split.
Qed.
Lemma get_account_ok x s a : Implements s a -> exists s', get_account x s = (Ok (a_accounts a !! x), s') /\ Implements s' a.
Proof.
  intros [Ha Hb Hx Hs]. unfold get_account, sbind, sget.
  destruct (rs_account_cache s !! x) as [b|] eqn:Hc.
  - rewrite (lookup_weaken _ _ _ _ Hc Hx). by exists s.
  - rewrite get_cf_ok. pose proof (fam_stored _ _ _ _ _ (hd_accounts _ _ Ha) x I) as Hst. unfold id in Hst.
    destruct (a_accounts a !! x) as [b|] eqn:Hl; cbn [stored] in Hst.
    + destruct Hst as (v & Hv & ->). cbn. rewrite (de_ser_account _ _ Hv). eexists. split; [reflexivity|].
      split; cbn; try done. by apply insert_subseteq_l.
    + rewrite Hst. by exists s.
Qed.
Lemma account_exists_ok x s a : Implements s a ->
  account_exists x s = (Ok (bool_decide (is_Some (a_accounts a !! x))), s).
Proof.
  intros [Ha Hb Hx Hs]. unfold account_exists, sbind, sget. case_bool_decide as Hc.
  - destruct Hc as [b Hc]. by rewrite (lookup_weaken _ _ _ _ Hc Hx).
  - rewrite get_cf_ok. pose proof (fam_stored _ _ _ _ _ (hd_accounts _ _ Ha) x I) as Hst. unfold id in Hst.
    destruct (a_accounts a !! x) as [b|]; cbn [stored] in Hst; [destruct Hst as (v & _ & ->)|rewrite Hst]; done.
Qed.
Lemma get_transaction_family h s T : Family (fun _ => True) id ser_tx (db_view (rs_db s) CF_TRANSACTIONS) T ->
  get_transaction h s = (Ok (T !! h), s).
Proof.
  intros HT. unfold get_transaction, sbind. rewrite get_cf_ok. pose proof (fam_stored _ _ _ _ _ HT h I) as Hst. unfold id in Hst.
  destruct (T !! h) as [t|]; cbn [stored] in Hst; [destruct Hst as (v & Hv & ->)|by rewrite Hst].
  cbn. by rewrite (de_ser_tx _ _ Hv).
Qed.
Lemma get_transaction_ok h s a : Implements s a -> get_transaction h s = (Ok (a_txs a !! h), s).
Proof. intros [Ha _ _ _]. by apply get_transaction_family, hd_txs. Qed.
Lemma get_state_root_ok h s a : fits 64 h -> Implements s a -> get_state_root h s = (Ok (a_roots a !! h), s).
Proof.
  intros Hh [Ha _ _ _]. unfold get_state_root, sbind. rewrite get_cf_ok.
  pose proof (fam_stored _ _ _ _ _ (hd_roots _ _ Ha) h Hh) as Hst.
  destruct (a_roots a !! h) as [r|] eqn:Hr; cbn [stored] in Hst; [|by rewrite Hst].
  destruct Hst as (v & [= <-] & ->). pose proof (hd_root_len _ _ Ha h r Hr) as Hl. cbn in Hl. by rewrite Hl.
Qed.
Lemma get_block_height_ok s a : Implements s a -> get_block_height s = (Ok (a_height a), s).
Proof.
  intros [Ha _ _ _]. unfold get_block_height, sbind. rewrite get_cf_ok. unfold sret.
  by rewrite <- (hd_height _ _ Ha).
Qed.
Lemma get_latest_block_ok s a : Implements s a ->
  exists s', get_latest_block s = (Ok (spec_latest a), s') /\ Implements s' a.
Proof.
  intros HI. unfold get_latest_block, sbind at 1, spec_latest. rewrite (get_block_height_ok s a HI).
  destruct (Z.eqb_spec (a_height a) 0) as [Hz|Hn]; cbn [andb].
  - unfold sbind. rewrite (account_exists_ok _ s a HI). cbn. destruct (negb _); [by exists s|].
    apply get_block_ok; [|done]. apply (im_holds _ _ HI).
  - unfold sbind, sret. apply get_block_ok; [|done]. apply (im_holds _ _ HI).
Qed.
Lemma scan_blocks_ok hash (l : list (bytes * bytes)) : 
  match scan_blocks hash (map inr l) with
  | Some b => block_hash b = hash /\ exists (k v : bytes), (k, v) ∈ l /\ de_block v = inr b
  | None => forall (k v : bytes) b, (k, v) ∈ l -> de_block v = inr b -> block_hash b <> hash
  end.
Proof.
  induction l as [|[k v] l IH]; cbn.
  { intros k v b Hin. by apply elem_of_nil in Hin. }
  assert (Hlift : forall b, (exists k0 v0, (k0, v0) ∈ l /\ de_block v0 = inr b) ->
    exists k0 v0, (k0, v0) ∈ (k, v) :: l /\ de_block v0 = inr b).
  { intros b (k0 & v0 & Hin & Hd). exists k0, v0. split; [by constructor|done]. }
  destruct (de_block v) as [e|b] eqn:Hv; [|case_bool_decide as Hh].
  - destruct (scan_blocks hash (map inr l)) as [b|]; [naive_solver|].
    intros k0 v0 b [[= -> ->]|Hin]%elem_of_cons Hd; [congruence|by eapply IH].
  - split; [done|]. exists k, v. split; [constructor|done].
  - destruct (scan_blocks hash (map inr l)) as [b'|]; [naive_solver|].
    intros k0 v0 b0 [[= -> ->]|Hin]%elem_of_cons Hd; [congruence|by eapply IH].
Qed.

(** *** Writes *)

Lemma save_block_ok b s a : fits 64 (height (header b)) -> Implements s a ->
  exists r s' a', save_block b s = (r, s') /\ spec_save_block b a = (r, a') /\ Implements s' a'.
Proof.
  intros Hh [Ha Hb Hx Hs]. destruct (ser_block_total b) as [v Hv]. set (h := height (header b)) in *.
  unfold save_block, spec_save_block. fold h. rewrite Hv. unfold sbind at 1, slift at 1. cbn [encoded].
  destruct (write_ops_holds [put_cf CF_BLOCKS (height_key h) v] s _ (holds_put_block _ a h b v Hh Hv Ha)) as (d1 & E1 & H1).
  unfold sbind at 1, put at 1. rewrite E1. unfold sbind at 1, smod at 1, write_metadata.
  destruct (write_ops_holds [put_cf CF_METADATA KEY_BLOCK_HEIGHT (to_le_bytes 8 h)]
    (set_block_cache (<[h := b]> (rs_block_cache (set_db d1 s))) (set_db d1 s)) _ (holds_put_height _ _ h Hh H1)) as (d2 & E2 & H2).
  unfold sbind at 1, put at 1. rewrite E2. unfold sbind at 1. rewrite increment_stat_eq. cbn [rs_db set_db].
  rewrite (hd_block_count _ _ H2). cbn [a_block_count set_a_height set_a_blocks]. unfold sbind, smod, sget, slift. cbn.
  assert (Hc : <[h := b]> (rs_block_cache s) ⊆ <[h := b]> (a_blocks a)) by by apply insert_mono.
  destruct (add_u64 (a_block_count a) 1) as [n| | |] eqn:En; [|do 3 eexists; (split; [reflexivity|]; split; [reflexivity|]); by split..].
  destruct (write_ops_holds [put_cf CF_DEFAULT STAT_BLOCKS (to_le_bytes 8 n)]
    (set_db d2 (set_block_cache (<[h := b]> (rs_block_cache s)) (set_db d1 s))) _
    (holds_put_block_count _ _ n (add_u64_fits _ _ _ En) H2)) as (d3 & E3 & H3).
  unfold put. unfold set_db, set_block_cache in *. cbn in *. rewrite E3.
  destruct (add_u64 h 1) as [m| | |]; do 3 eexists; (split; [reflexivity|]; split; [reflexivity|]); split; cbn; try done.
  - by apply (Holds_stats _ _ _ H3).
  - by rewrite Hs.
Qed.
Lemma save_transaction_ok t s a : Implements s a ->
  exists r s' a', save_transaction t s = (r, s') /\ spec_save_transaction t a = (r, a') /\ Implements s' a'.
Proof.
  intros [Ha Hb Hx Hs]. destruct (ser_tx_total t) as [v Hv].
  unfold save_transaction, spec_save_transaction. rewrite Hv. unfold sbind at 1, slift at 1. cbn [encoded].
  destruct (write_ops_holds [put_cf CF_TRANSACTIONS (tx_hash t) v] s _ (holds_put_tx _ a (tx_hash t) t v Hv Ha)) as (d1 & E1 & H1).
  unfold sbind at 1, put. rewrite E1, increment_stat_eq. cbn [rs_db set_db].
  rewrite (hd_tx_count _ _ H1). cbn [a_tx_count set_a_txs]. unfold sbind, smod, sget, slift. cbn.
  destruct (add_u64 (a_tx_count a) 1) as [n| | |] eqn:En; [|do 3 eexists; (split; [reflexivity|]; split; [reflexivity|]); by split..].
  destruct (write_ops_holds [put_cf CF_DEFAULT STAT_TRANSACTIONS (to_le_bytes 8 n)] (set_db d1 s) _
    (holds_put_tx_count _ _ n (add_u64_fits _ _ _ En) H1)) as (d2 & E2 & H2).
  unfold put. unfold set_db in *. cbn in *. rewrite E2. do 3 eexists. (split; [reflexivity|]; split; [reflexivity|]). by split.
Qed.
Lemma save_account_ok x y s a : Implements s a ->
  exists s', save_account x y s = (Ok tt, s') /\ Implements s' (set_a_accounts (<[x := y]> (a_accounts a)) a).
Proof.
  intros [Ha Hb Hx Hs]. destruct (ser_account_total y) as [v Hv]. unfold save_account. rewrite Hv.
  unfold sbind at 1, slift. cbn [encoded].
  destruct (write_ops_holds [put_cf CF_ACCOUNTS x v] s _ (holds_put_account _ a x y v Hv Ha)) as (d & E & Hd).
  unfold sbind, put. rewrite E. eexists. split; [reflexivity|]. split; cbn; try done. by apply insert_mono.
Qed.
Lemma delete_account_ok x s a : Implements s a ->
  exists s', delete_account x s = (Ok tt, s') /\ Implements s' (set_a_accounts (delete x (a_accounts a)) a).
Proof.
  intros [Ha Hb Hx Hs]. unfold delete_account, sbind.
  destruct (write_ops_holds [delete_cf CF_ACCOUNTS x] s _ (holds_delete_account _ a x Ha)) as (d & E & Hd).
  rewrite E. eexists. split; [reflexivity|]. split; cbn; try done. by apply delete_mono.
Qed.
Lemma save_state_root_ok h r s a : fits 64 h -> length r = 32%nat -> Implements s a ->
  exists s', save_state_root h r s = (Ok tt, s') /\ Implements s' (set_a_roots (<[h := r]> (a_roots a)) a).
Proof.
  intros Hh Hr [Ha Hb Hx Hs]. unfold save_state_root, put.
  destruct (write_ops_holds [put_cf CF_STATE_ROOTS (height_key h) r] s _ (holds_put_root _ a h r Hh Hr Ha)) as (d & E & Hd).
  rewrite E. eexists. split; [reflexivity|]. by split.
Qed.

(** *** Batches: the writes of each part, in order *)

Lemma view_writes_app l1 l2 v : view_writes (l1 ++ l2) v = view_writes l2 (view_writes l1 v).
Proof. unfold view_writes. by rewrite foldl_app. Qed.
Lemma collect_holds {A} (Q : A -> Prop) (f : A -> PacyteResult RocksWrite) (g : A -> Store -> Store) l v a :
  (forall x v a, Q x -> Holds v a -> exists o, f x = Ok o /\ Holds (view_write o v) (g x a)) ->
  Forall Q l -> Holds v a -> exists ops, collect f l = Ok ops /\ Holds (view_writes ops v) (foldl (fun a x => g x a) a l).
Proof.
  intros Hf HQ. revert v a. induction HQ as [|x l Hx HQ IH]; intros v a Ha; cbn; [by exists []|].
  destruct (Hf x v a Hx Ha) as (o & -> & Ho). destruct (IH _ _ Ho) as (ops & E & Hops). cbn. rewrite E. by exists (o :: ops).
Qed.
Lemma foldl_field {A B} (set : B -> Store -> Store) (get : Store -> B) (f : B -> A -> B) l a :
  (forall x a, get (set x a) = x) -> (forall x y a, set x (set y a) = set x a) -> (forall a, set (get a) a = a) ->
  foldl (fun a x => set (f (get a) x) a) a l = set (foldl f (get a) l) a.
Proof.
  intros H1 H2 H3. revert a. induction l as [|x l IH]; intros a; cbn; [by rewrite H3|]. by rewrite IH, H1, H2.
Qed.
Lemma blocks_written l v a : Forall (fun p => fits 64 p.1) l -> Holds v a ->
  exists ops, collect block_write l = Ok ops /\ Holds (view_writes ops v) (set_a_blocks (cache_blocks l (a_blocks a)) a).
Proof.
  intros Hl Ha. unfold cache_blocks. rewrite <- (foldl_field set_a_blocks a_blocks) by (by intros *; try destruct a0).
  apply (collect_holds (fun p => fits 64 p.1) block_write (fun p a => set_a_blocks (<[p.1 := p.2]> (a_blocks a)) a)); [|done..].
  intros [h x] v' a' Hh Ha'. unfold block_write. destruct (ser_block_total x) as [y Hy]. cbn. rewrite Hy.
  eexists. split; [reflexivity|]. by apply holds_put_block.
Qed.
Lemma txs_written l v a : Holds v a -> exists ops, collect tx_write l = Ok ops
  /\ Holds (view_writes ops v) (set_a_txs (foldl (fun m p => <[p.1 := p.2]> m) (a_txs a) l) a).
Proof.
  intros Ha. rewrite <- (foldl_field set_a_txs a_txs) by (by intros *; try destruct a0).
  apply (collect_holds (fun _ => True) tx_write (fun p a => set_a_txs (<[p.1 := p.2]> (a_txs a)) a)); [|by apply Forall_true|done].
  intros [h x] v' a' _ Ha'. unfold tx_write. destruct (ser_tx_total x) as [y Hy]. cbn. rewrite Hy.
  eexists. split; [reflexivity|]. by apply holds_put_tx.
Qed.
Lemma accounts_written l v a : Holds v a -> exists ops, collect account_write l = Ok ops
  /\ Holds (view_writes ops v) (set_a_accounts (write_accounts l (a_accounts a)) a).
Proof.
  intros Ha. unfold write_accounts. rewrite <- (foldl_field set_a_accounts a_accounts) by (by intros *; try destruct a0).
  apply (collect_holds (fun _ => True) account_write (fun p a => set_a_accounts (write_account p (a_accounts a)) a));
    [|by apply Forall_true|done].
  intros [h [x|]] v' a' _ Ha'; unfold account_write; cbn.
  - destruct (ser_account_total x) as [y Hy]. rewrite Hy. eexists. split; [reflexivity|]. by apply holds_put_account.
  - eexists. split; [reflexivity|]. by apply holds_delete_account.
Qed.
Lemma roots_written l v a : Forall (fun p => fits 64 p.1 /\ length p.2 = 32%nat) l -> Holds v a ->
  Holds (view_writes (map root_write l) v) (set_a_roots (foldl (fun m p => <[p.1 := p.2]> m) (a_roots a) l) a).
Proof.
  intros Hl. rewrite <- (foldl_field set_a_roots a_roots) by (by intros *; try destruct a0).
  revert v a. induction Hl as [|[h r] l [Hh Hr] Hl IH]; intros v a Ha; cbn; [done|]. apply IH. by apply holds_put_root.
Qed.
Lemma batch_writes_holds b v a : valid_op (WriteBatchOp b) -> Holds v a ->
  exists ops, batch_writes b = Ok ops /\ Holds (view_writes ops v) (spec_batch b a).
Proof.
  intros [Hbs Hrs] Ha. unfold batch_writes.
  destruct (blocks_written _ v a Hbs Ha) as (o1 & -> & H1). cbn.
  destruct (txs_written (wb_transactions b) _ _ H1) as (o2 & -> & H2). cbn.
  destruct (accounts_written (wb_accounts b) _ _ H2) as (o3 & -> & H3). cbn.
  eexists. split; [reflexivity|]. rewrite !view_writes_app. exact (roots_written _ _ _ Hrs H3).
Qed.
Lemma cache_blocks_mono l c m : c ⊆ m -> cache_blocks l c ⊆ cache_blocks l m.
Proof. unfold cache_blocks. revert c m. induction l as [|p l IH]; intros c m Hc; cbn; [done|]. apply IH. by apply insert_mono. Qed.
Lemma write_accounts_mono l c m : c ⊆ m -> write_accounts l c ⊆ write_accounts l m.
Proof.
  unfold write_accounts. revert c m. induction l as [|[k [x|]] l IH]; intros c m Hc; cbn; [done|..]; apply IH.
  - by apply insert_mono.
  - by apply delete_mono.
Qed.
Lemma write_batch_ok b s a : valid_op (WriteBatchOp b) -> Implements s a ->
  exists s', write_batch b s = (Ok tt, s') /\ Implements s' (spec_batch b a).
Proof.
  intros Hv [Ha Hb Hx Hs]. destruct (batch_writes_holds b _ a Hv Ha) as (ops & E & Hops).
  unfold write_batch, sbind, slift. rewrite E. destruct (write_ops_holds ops s _ Hops) as (d & -> & Hd).
  eexists. split; [reflexivity|]. split; cbn; [done|by apply cache_blocks_mono|by apply write_accounts_mono|done].
Qed.

(** *** One call, and sequences of calls *)

Lemma get_block_by_hash_ok h s a : Implements s a ->
  exists r, rocks_exec (GetBlockByHash h) s = (r, s) /\ spec_step (GetBlockByHash h) a r a.
Proof.
  intros [Ha _ _ _]. destruct (db_iter_ok CF_BLOCKS (rs_db s)) as (l & El & Hl).
  eexists. split; [reflexivity|]. split; [done|]. unfold sget. rewrite El. eexists. split; [reflexivity|].
  pose proof (scan_blocks_ok h l) as Hsc. destruct (scan_blocks h (map inr l)) as [b|].
  - destruct Hsc as (Hb & k & v & Hin & Hd). split; [done|]. rewrite Hl, elem_of_map_to_list in Hin.
    destruct (family_value _ _ _ _ _ _ _ (hd_blocks _ _ Ha) Hin) as (k' & x & Hk & Hx).
    exists k'. rewrite (de_ser_block _ _ Hx) in Hd. congruence.
  - intros k b Hk. pose proof (fam_valid _ _ _ _ _ (hd_blocks _ _ Ha) k b Hk) as Hfit.
    pose proof (fam_stored _ _ _ _ _ (hd_blocks _ _ Ha) k Hfit) as Hst. rewrite Hk in Hst. destruct Hst as (v & Hv & Hs).
    apply (Hsc (height_key k) v b); [|by apply de_ser_block]. rewrite Hl. by apply elem_of_map_to_list.
Qed.
Lemma create_snapshot_ok p s a : Implements s a ->
  exists r s', rocks_exec (CreateSnapshot p) s = (r, s') /\ spec_step (CreateSnapshot p) a r a /\ Implements s' a.
Proof.
  intros [Ha Hb Hx Hs]. cbn. unfold answer, sbind, create_snapshot.
  destruct (db_checkpoint_law p (rs_db s)) as (r & d & -> & [->|[e ->]] & Hv); do 2 eexists;
    (split; [reflexivity|]; split; [by eauto|]); (split; cbn; [by eapply Holds_ext|done..]).
Qed.

(** Calls that answer without failing. *)
Lemma answer_ok {A} (f : A -> Answer) (c : ST (RocksDBStorage D) PacyteError A) s x s' :
  c s = (Ok x, s') -> answer f c s = (Ok (f x), s').
Proof. intros E. unfold answer, sbind. by rewrite E. Qed.

Definition finished (r : PacyteResult unit) : PacyteResult Answer := let? _ := r in Ok ADone.
Lemma rocks_exec_step o s a : valid_op o -> Implements s a ->
  exists r s' a', rocks_exec o s = (r, s') /\ spec_step o a r a' /\ Implements s' a'.
Proof.
  intros Hv HI. destruct o; cbn [valid_op] in Hv.
  - destruct (save_block_ok b s a Hv HI) as (r & s' & a' & E1 & E2 & HI'). exists (finished r), s', a'.
    cbn. unfold answer, answers, sbind. rewrite E1, E2. by destruct r.
  - destruct (get_block_ok h s a Hv HI) as (s' & E & HI'). do 3 eexists. split; [by apply answer_ok|]. by split.
  - destruct (get_block_by_hash_ok h s a HI) as (r & E & Hr). by exists r, s, a.
  - destruct (get_latest_block_ok s a HI) as (s' & E & HI'). do 3 eexists. split; [by apply answer_ok|]. by split.
  - do 3 eexists. split; [by apply answer_ok, get_block_height_ok|]. by split.
  - destruct (save_transaction_ok t s a HI) as (r & s' & a' & E1 & E2 & HI'). exists (finished r), s', a'.
    cbn. unfold answer, answers, sbind. rewrite E1, E2. by destruct r.
  - do 3 eexists. split; [by apply answer_ok, get_transaction_ok|]. by split.
  - destruct (get_block_ok h s a Hv HI) as (s' & E & HI'). do 3 eexists. split.
    { apply answer_ok. unfold get_transactions_by_block, sbind. by rewrite E. }
    by split.
  - destruct (save_account_ok a0 x s a HI) as (s' & E & HI'). do 3 eexists. split; [by apply answer_ok|]. by split.
  - destruct (get_account_ok a0 s a HI) as (s' & E & HI'). do 3 eexists. split; [by apply answer_ok|]. by split.
  - destruct (delete_account_ok a0 s a HI) as (s' & E & HI'). do 3 eexists. split; [by apply answer_ok|]. by split.
  - do 3 eexists. split; [by apply answer_ok, account_exists_ok|]. by split.
  - destruct Hv as [Hh Hr]. destruct (save_state_root_ok h r s a Hh Hr HI) as (s' & E & HI').
    do 3 eexists. split; [by apply answer_ok|]. by split.
  - do 3 eexists. split; [by apply answer_ok, get_state_root_ok|]. by split.
  - destruct (write_batch_ok b s a Hv HI) as (s' & E & HI'). do 3 eexists. split; [by apply answer_ok|]. by split.
  - destruct (create_snapshot_ok p s a HI) as (r & s' & E & Hr & HI'). by exists r, s', a.
  - do 3 eexists. split; [reflexivity|]. by split.
  - do 3 eexists. split; [reflexivity|]. split; [|done]. cbn. unfold stats, sget. by rewrite (im_stats _ _ HI).
  - do 3 eexists. split; [reflexivity|]. split; [reflexivity|]. destruct HI. split; cbn; try done; apply map_empty_subseteq.
Qed.
Lemma run_calls_refine ops s a : Forall valid_op ops -> Implements s a ->
  exists a', spec_run ops a (run_calls ops s).1 a' /\ Implements (run_calls ops s).2 a'.
Proof.
  intros Hops. revert s a. induction Hops as [|o ops Ho Hops IH]; intros s a HI; cbn; [exists a; by split; [constructor|]|].
  destruct (rocks_exec_step o s a Ho HI) as (r & s1 & a1 & E & Hr & HI1). rewrite E.
  destruct (IH s1 a1 HI1) as (a' & Hrun & HI'). destruct (run_calls ops s1) as [rs s']. exists a'. split; [by econstructor|done].
Qed.

(** *** Opening *)

Lemma rocksdb_new_ok mkdir open dir c s : rocksdb_new mkdir open dir c = Ok s ->
  exists opts, open opts cf_names = Ok (rs_db s) /\ rs_block_cache s = ∅ /\ rs_account_cache s = ∅.
Proof.
  unfold rocksdb_new. intros Hs. inv_bind Hs. inv_bind Hs. inv_bind Hs. inv_bind Hs.
  destruct (open a0 cf_names) as [d| | |] eqn:Ho; try done. cbn in Hm1. injection Hm1 as <-.
  unfold update_stats, sbind, smod, slift in Hs. destruct (get_disk_usage dir); try done. injection Hs as <-.
  cbn. by exists a0.
Qed.
Definition empty_store : Store := mkStore ∅ ∅ ∅ ∅ 0 0 0 storage_stats_default.
Lemma holds_empty (v : ColumnFamily -> gmap bytes bytes) : (forall c, v c = ∅) -> Holds v empty_store.
Proof. intros Hv. split; rewrite ?Hv; cbn; try apply family_empty; try done. Qed.

(** C8. Opened on an empty database that does not fail, the storage implements four maps with a height and two counters: for
    every sequence of calls, reads that fill the caches included, the answers are answers of the maps. *)
Theorem rocksdb_refines_store mkdir open dir c s ops : rocksdb_new mkdir open dir c = Ok s ->
  (forall opts d, open opts cf_names = Ok d -> forall f, db_view d f = ∅) -> Forall valid_op ops ->
  exists a', spec_run ops (set_a_stats (rs_stats s) empty_store) (run_calls ops s).1 a'.
Proof.
  intros Hs Hopen Hops. destruct (rocksdb_new_ok _ _ _ _ _ Hs) as (opts & Ho & Hb & Hx).
  destruct (run_calls_refine ops s (set_a_stats (rs_stats s) empty_store) Hops) as (a' & Hrun & _); [|by exists a'].
  split; rewrite ?Hb, ?Hx; [|apply map_empty_subseteq..|done]. apply Holds_stats, holds_empty. by eapply Hopen.
Qed.

(** C26. A database survives its storage: after any calls, a storage opened on what the database then holds answers every
    further sequence of calls as the maps left by the first calls would; only the statistics are those of the new storage. *)
Theorem rocksdb_reopen mkdir open dir c s ops mkdir' open' dir' c' s' ops' :
  rocksdb_new mkdir open dir c = Ok s -> (forall opts d, open opts cf_names = Ok d -> forall f, db_view d f = ∅) ->
  Forall valid_op ops -> rocksdb_new mkdir' open' dir' c' = Ok s' ->
  (forall opts d, open' opts cf_names = Ok d -> forall f, db_view d f = db_view (rs_db (run_calls ops s).2) f) ->
  Forall valid_op ops' ->
  exists a a', spec_run ops (set_a_stats (rs_stats s) empty_store) (run_calls ops s).1 a
    /\ spec_run ops' (set_a_stats (rs_stats s') a) (run_calls ops' s').1 a'.
Proof.
  intros Hs Hopen Hops Hs' Hopen' Hops'. destruct (rocksdb_new_ok _ _ _ _ _ Hs) as (opts & Ho & Hb & Hx).
  destruct (run_calls_refine ops s (set_a_stats (rs_stats s) empty_store) Hops) as (a & Hrun & HI).
  { split; rewrite ?Hb, ?Hx; [|apply map_empty_subseteq..|done]. apply Holds_stats, holds_empty. by eapply Hopen. }
  destruct (rocksdb_new_ok _ _ _ _ _ Hs') as (opts' & Ho' & Hb' & Hx').
  destruct (run_calls_refine ops' s' (set_a_stats (rs_stats s') a) Hops') as (a' & Hrun' & _); [|by exists a, a'].
  split; rewrite ?Hb', ?Hx'; [|apply map_empty_subseteq..|done]. apply Holds_stats.
  eapply Holds_ext; [|exact (im_holds _ _ HI)]. by eapply Hopen'.
Qed.
End Refinement.

(** ** The storage as the interface of the state manager

    What the state manager needs of its storage ([StorageLaws]) concerns the accounts alone, and holds
    for any arguments. *)

Section AsStorage.
Context {D : Type} `{DB : RocksDb D} `{!RocksLaws D} `{!RocksReliable D}.
Context `{Fmt : StorageFormat} `{!StorageFormatLaws} `{!StorageFormatTotal} `{S3 : Sha3} `{BP : BuildProfile}.

Definition write_family (o : RocksWrite) : ColumnFamily := match o with put_cf c _ _ | delete_cf c _ => c end.
Lemma view_writes_other l v c : Forall (fun o => write_family o <> c) l -> view_writes l v c = v c.
Proof.
  intros Hl. revert v. induction Hl as [|o l Ho Hl IH]; intros v; [done|].
  change (view_writes (o :: l) v c) with (view_writes l (view_write o v) c). rewrite IH.
  destruct o; cbn in *; by rewrite decide_False.
Qed.
Lemma view_writes_local l v v' c : v c = v' c -> view_writes l v c = view_writes l v' c.
Proof.
  revert v v'. induction l as [|o l IH]; intros v v' Hv; [done|]. cbn. apply IH.
  destruct o; cbn; destruct (decide (c = c0)) as [<-|]; congruence.
Qed.
Lemma collect_total {A} (f : A -> PacyteResult RocksWrite) c l :
  (forall x, exists o, f x = Ok o /\ write_family o = c) -> exists ops, collect f l = Ok ops /\ Forall (fun o => write_family o = c) ops.
Proof.
  intros Hf. induction l as [|x l (ops & E & Hops)]; [by exists []|]. destruct (Hf x) as (o & Ho & Hc).
  exists (o :: ops). split; [cbn; by rewrite Ho; cbn; rewrite E|by constructor].
Qed.
Lemma other_family (c c' : ColumnFamily) (l : list RocksWrite) : c <> c' -> Forall (fun o => write_family o = c) l -> Forall (fun o => write_family o <> c') l.
Proof. intros Hc Hl. eapply Forall_impl; [exact Hl|]. cbn. congruence. Qed.

Abbreviation accounts_of := (Family (fun _ => True) id ser_account).
Lemma accounts_family (l : list (Address * option Account)) (v : ColumnFamily -> gmap bytes bytes) A : accounts_of (v CF_ACCOUNTS) A ->
  exists ops, collect account_write l = Ok ops /\ accounts_of (view_writes ops v CF_ACCOUNTS) (write_accounts l A).
Proof.
  revert v A. induction l as [|[x [y|]] l IH]; intros v A HA; cbn; [by exists []|..].
  - destruct (ser_account_total y) as [b Hb]. rewrite Hb. cbn.
    destruct (IH (view_write (put_cf CF_ACCOUNTS x b) v) (<[x := y]> A)) as (ops & -> & Hops);
      [by apply (family_insert (fun _ => True) id); auto|]. cbn. by exists (put_cf CF_ACCOUNTS x b :: ops).
  - destruct (IH (view_write (delete_cf CF_ACCOUNTS x) v) (delete x A)) as (ops & -> & Hops);
      [by apply (family_delete (fun _ => True) id); auto|]. cbn. by exists (delete_cf CF_ACCOUNTS x :: ops).
Qed.
Lemma batch_accounts (b : WriteBatch) (v : ColumnFamily -> gmap bytes bytes) A : accounts_of (v CF_ACCOUNTS) A ->
  exists ops, batch_writes b = Ok ops /\ accounts_of (view_writes ops v CF_ACCOUNTS) (write_accounts (wb_accounts b) A).
Proof.
  intros HA. unfold batch_writes.
  destruct (collect_total block_write CF_BLOCKS (wb_blocks b)) as (o1 & -> & H1).
  { intros [h x]. unfold block_write. destruct (ser_block_total x) as [y Hy]. cbn. rewrite Hy. by eexists. }
  cbn. destruct (collect_total tx_write CF_TRANSACTIONS (wb_transactions b)) as (o2 & -> & H2).
  { intros [h x]. unfold tx_write. destruct (ser_tx_total x) as [y Hy]. cbn. rewrite Hy. by eexists. }
  cbn. destruct (accounts_family (wb_accounts b) v A HA) as (o3 & -> & H3).
  cbn. eexists. split; [reflexivity|]. rewrite !view_writes_app, view_writes_other.
  - rewrite (view_writes_local o3 _ v); [done|].
    by rewrite !view_writes_other by (by eapply other_family; [|done]).
  - apply Forall_map, Forall_true. by intros [h r].
Qed.

(** Accounts all readable, the cache part of them. *)
Definition accounts_ok (s : RocksDBStorage D) : Prop :=
  exists A, accounts_of (db_view (rs_db s) CF_ACCOUNTS) A /\ rs_account_cache s ⊆ A.
Definition decoded_accounts (s : RocksDBStorage D) : gmap Address Account :=
  omap (fun v => match de_account v with inr x => Some x | inl _ => None end) (db_view (rs_db s) CF_ACCOUNTS).
Lemma decoded_accounts_eq s A : accounts_of (db_view (rs_db s) CF_ACCOUNTS) A -> decoded_accounts s = A.
Proof.
  intros HA. apply map_eq. intros x. unfold decoded_accounts. rewrite lookup_omap.
  pose proof (fam_stored _ _ _ _ _ HA x I) as Hs. unfold id in Hs.
  destruct (A !! x) as [y|]; cbn in Hs; [|by rewrite Hs]. destruct Hs as (b & Hb & ->). cbn. by rewrite (de_ser_account _ _ Hb).
Qed.
Lemma get_account_accounts x s A : accounts_of (db_view (rs_db s) CF_ACCOUNTS) A -> rs_account_cache s ⊆ A ->
  (get_account x s).1 = Ok (A !! x).
Proof.
  intros HA Hc. unfold get_account, sbind, sget. destruct (rs_account_cache s !! x) as [y|] eqn:Hx.
  - by rewrite (lookup_weaken _ _ _ _ Hx Hc).
  - rewrite get_cf_ok. pose proof (fam_stored _ _ _ _ _ HA x I) as Hs. unfold id in Hs.
    destruct (A !! x) as [y|]; cbn in Hs; [|by rewrite Hs]. destruct Hs as (b & Hb & ->). cbn. by rewrite (de_ser_account _ _ Hb).
Qed.
Lemma write_batch_accounts b s A : accounts_of (db_view (rs_db s) CF_ACCOUNTS) A -> rs_account_cache s ⊆ A ->
  exists s', write_batch b s = (Ok tt, s') /\ accounts_of (db_view (rs_db s') CF_ACCOUNTS) (write_accounts (wb_accounts b) A)
    /\ rs_account_cache s' ⊆ write_accounts (wb_accounts b) A.
Proof.
  intros HA Hc. destruct (batch_accounts b _ A HA) as (ops & E & Hops). unfold write_batch, sbind, slift. rewrite E.
  destruct (write_ops_ok ops s) as (d & -> & Hv). eexists. split; [reflexivity|]. cbn. rewrite Hv.
  split; [done|by apply write_accounts_mono].
Qed.
Lemma save_root_accounts h r s A : accounts_of (db_view (rs_db s) CF_ACCOUNTS) A -> rs_account_cache s ⊆ A ->
  exists s', save_state_root h r s = (Ok tt, s') /\ accounts_of (db_view (rs_db s') CF_ACCOUNTS) A /\ rs_account_cache s' ⊆ A.
Proof.
  intros HA Hc. unfold save_state_root, put. destruct (write_ops_ok [put_cf CF_STATE_ROOTS (height_key h) r] s) as (d & -> & Hv).
  eexists. split; [reflexivity|]. cbn. by rewrite Hv.
Qed.

Lemma write_batch_keeps b s : accounts_ok s -> accounts_ok (write_batch b s).2.
Proof. intros (A & HA & Hc). destruct (write_batch_accounts b s A HA Hc) as (s' & -> & H1 & H2). by eexists. Qed.
Lemma save_root_keeps h r s : accounts_ok s -> accounts_ok (save_state_root h r s).2.
Proof. intros (A & HA & Hc). destruct (save_root_accounts h r s A HA Hc) as (s' & -> & H1 & H2). by eexists. Qed.

(** The storages with readable accounts, as the state manager sees them; what a read leaves in the cache is
    not visible to it. *)
Definition RocksState : Type := { s : RocksDBStorage D | accounts_ok s }.
Definition on_rocks {A} (c : ST (RocksDBStorage D) PacyteError A) (keep : forall s, accounts_ok s -> accounts_ok (c s).2) :
  ST RocksState PacyteError A := fun w => ((c (`w)).1, (c (`w)).2 ↾ keep (`w) (proj2_sig w)).
#[export] Instance rocksdb_storage : Storage RocksState := {|
  st_get_account := fun a w => (get_account a (`w)).1;
  st_write_batch := fun b => on_rocks (write_batch b) (write_batch_keeps b);
  st_save_state_root := fun h r => on_rocks (save_state_root h r) (save_root_keeps h r);
  st_get_state_root := fun h w => (get_state_root h (`w)).1
|}.
#[export] Instance rocksdb_storage_laws : StorageLaws RocksState.
Proof.
  refine {| st_accounts := fun w => decoded_accounts (`w) |}.
  - intros a [s (A & HA & Hc)]. cbn. rewrite (decoded_accounts_eq _ _ HA). by apply get_account_accounts.
  - intros b [s (A & HA & Hc)] _ _. destruct (write_batch_accounts b s A HA Hc) as (s' & E & H1 & H2).
    cbn [st_write_batch rocksdb_storage]. unfold on_rocks. cbn [proj1_sig]. eexists. split; [f_equal; by rewrite E|].
    cbn [proj1_sig]. rewrite E. cbn [snd]. by rewrite (decoded_accounts_eq _ _ HA), (decoded_accounts_eq _ _ H1).
  - intros h r [s (A & HA & Hc)]. destruct (save_root_accounts h r s A HA Hc) as (s' & E & H1 & H2).
    cbn [st_save_state_root rocksdb_storage]. unfold on_rocks. cbn [proj1_sig]. eexists. split; [f_equal; by rewrite E|].
    cbn [proj1_sig]. rewrite E. cbn [snd]. by rewrite (decoded_accounts_eq _ _ HA), (decoded_accounts_eq _ _ H1).
Defined.
End AsStorage.

(** ** Witnesses *)

Section RocksWitnesses.
#[local] Existing Instance toy_sha3.
#[local] Instance rocks_profile : BuildProfile := debug_profile.

(** A database of maps, and a format that numbers all values. *)
Abbreviation MapDb := (ColumnFamily -> gmap bytes bytes).
#[local] Instance map_db : RocksDb MapDb := {|
  db_get := fun c k d => Ok (d c !! k);
  db_write := fun l d => (Ok tt, view_writes l d);
  db_rev_iter := fun c d => map inr (map_to_list (d c));
  db_checkpoint := fun _ d => (Ok tt, d)
|}.
#[local] Instance map_db_laws : RocksLaws MapDb.
Proof.
  refine {| db_view := fun d => d |}.
  - intros c k d. by left.
  - intros l d. do 2 eexists. split; [reflexivity|]. by left.
  - intros p d. do 2 eexists. split; [reflexivity|]. by split; [left|].
Defined.
#[local] Instance map_db_reliable : RocksReliable MapDb.
Proof. split; [done|done|]. intros c d. by exists (map_to_list (d c)). Qed.

#[local] Instance AccountType_countable : Countable AccountType.
Proof.
  apply (inj_countable' (fun t => match t with User => 0 | Sovereign => 1 | System => 2 | Bridge => 3 end)
    (fun z => if Z.eqb z 0 then User else if Z.eqb z 1 then Sovereign else if Z.eqb z 2 then System else Bridge)). by intros [].
Defined.
#[local] Instance Account_countable : Countable Account.
Proof.
  apply (inj_countable' (fun x => (acc_address x, balance x, acc_nonce x, staked x, created_at x, last_activity x, is_dormant x,
      is_validator x, validator_key x, account_type x))
    (fun '(a, b, c, d, e, f, g, h, i, j) => mkAccount a b c d e f g h i j)). by intros [].
Defined.
#[local] Instance Transaction_countable : Countable Transaction.
Proof.
  apply (inj_countable' (fun x => (tx_from x, tx_to x, amount x, fee x, tx_nonce x, signature x, tx_timestamp x))
    (fun '(a, b, c, d, e, f, g) => mkTx a b c d e f g)). by intros [].
Defined.
#[local] Instance rocks_header_eq_dec : EqDecision BlockHeader.
Proof. solve_decision. Defined.
#[local] Instance rocks_block_eq_dec : EqDecision Block.
Proof. solve_decision. Defined.
#[local] Instance BlockHeader_countable : Countable BlockHeader.
Proof.
  apply (inj_countable' (fun x => (height x, previous_hash x, transactions_root_field x, state_root x, timestamp x, proposer x,
      transaction_count x, block_size x, header_signature x))
    (fun '(a, b, c, d, e, f, g, h, i) => mkHeader a b c d e f g h i)). by intros [].
Defined.
#[local] Instance Block_countable : Countable Block.
Proof. apply (inj_countable' (fun x => (header x, transactions x)) (fun '(a, b) => mkBlock a b)). by intros []. Defined.

Definition number {A} `{Countable A} (x : A) : string + bytes := inr [Zpos (encode x)].
Definition unnumber {A} `{Countable A} (b : bytes) : string + A :=
  match b with
  | [Zpos p] => match decode p with Some x => inr x | None => inl "unknown"%string end
  | _ => inl "unknown"%string
  end.
Lemma unnumber_number {A} `{Countable A} (x : A) b : number x = inr b -> unnumber b = inr x.
Proof. intros [= <-]. cbn. by rewrite decode_encode. Qed.
#[local] Instance numbers : StorageFormat := {|
  ser_block := number; de_block := unnumber; ser_tx := number; de_tx := unnumber; ser_account := number; de_account := unnumber
|}.
#[local] Instance numbers_laws : StorageFormatLaws.
Proof. split; intros; by apply unnumber_number. Qed.
#[local] Instance numbers_total : StorageFormatTotal.
Proof. split; intros; by eexists. Qed.

Definition rocks_block (h : Z) : Block := mkBlock (mkHeader h zero_hash zero_hash zero_hash 0 zero_address 0 0 []) [].
Definition opened (d : MapDb) : PacyteResult (RocksDBStorage MapDb) :=
  rocksdb_new (Ok tt) (fun _ _ => Ok d) None storage_config_default.
Definition new_rocks (d : MapDb) : RocksDBStorage MapDb :=
  mkRocks d (mkStorageStats (counter KEY_BLOCK_HEIGHT (d CF_METADATA) + 1) 0 0 0 (f64_of 0) 0 0) ∅ ∅.
Definition some_calls : list StoreOp :=
  [SaveBlock (rocks_block 5); GetBlock 5; GetLatestBlock; WriteBatchOp (mkBatch [(7, rocks_block 7)] [] [([1], Some (account_new 3 [1] 40))] []);
   GetBlockHeight; GetAccount [1]].

Lemma rocksdb_refines_store_witness :
  exists a', spec_run some_calls (set_a_stats (rs_stats (new_rocks (fun _ => ∅))) empty_store)
    [Ok ADone; Ok (ABlock (Some (rocks_block 5))); Ok (ABlock (Some (rocks_block 5))); Ok ADone; Ok (AHeight 5);
     Ok (AAccount (Some (account_new 3 [1] 40)))] a'.
Proof.
  assert (Hr : (run_calls some_calls (new_rocks (fun _ => ∅))).1 =
    [Ok ADone; Ok (ABlock (Some (rocks_block 5))); Ok (ABlock (Some (rocks_block 5))); Ok ADone; Ok (AHeight 5);
     Ok (AAccount (Some (account_new 3 [1] 40)))]) by (vm_compute; reflexivity).
  rewrite <- Hr. apply (rocksdb_refines_store (Ok tt) (fun _ _ => Ok (fun _ => ∅)) None storage_config_default).
  - vm_compute. reflexivity.
  - by intros opts d [= <-].
  - repeat constructor; cbn; unfold fits; lia.
Defined.

Definition saved : list (PacyteResult Answer) * RocksDBStorage MapDb :=
  run_calls [SaveBlock (rocks_block 5)] (new_rocks (fun _ => ∅)).
Lemma saved_answers : saved.1 = [Ok ADone].
Proof. vm_compute. reflexivity. Qed.
Lemma reopened_answers : exists s', opened (rs_db saved.2) = Ok s' /\ (run_calls [GetBlock 5] s').1 = [Ok (ABlock (Some (rocks_block 5)))].
Proof.
  assert (Hok : match opened (rs_db saved.2) with
    Ok s => (run_calls [GetBlock 5] s).1 = [Ok (ABlock (Some (rocks_block 5)))] | _ => False end) by (vm_compute; reflexivity).
  destruct (opened (rs_db saved.2)) as [s'| | |]; [|done..]. by exists s'.
Qed.
Lemma rocksdb_reopen_witness : exists s' a a', opened (rs_db saved.2) = Ok s'
    /\ spec_run [SaveBlock (rocks_block 5)] (set_a_stats (rs_stats (new_rocks (fun _ => ∅))) empty_store) [Ok ADone] a
    /\ spec_run [GetBlock 5] (set_a_stats (rs_stats s') a) [Ok (ABlock (Some (rocks_block 5)))] a'.
Proof.
  destruct reopened_answers as (s' & Hs' & H2).
  destruct (rocksdb_reopen (Ok tt) (fun _ _ => Ok (fun _ => ∅)) None storage_config_default (new_rocks (fun _ => ∅))
    [SaveBlock (rocks_block 5)] (Ok tt) (fun _ _ => Ok (rs_db saved.2)) None storage_config_default s' [GetBlock 5]) as (a & a' & Ha & Ha').
  - vm_compute. reflexivity.
  - by intros opts d [= <-].
  - repeat constructor; cbn; unfold fits; lia.
  - exact Hs'.
  - by intros opts d [= <-].
  - repeat constructor; cbn; unfold fits; lia.
  - exists s', a, a'. pose proof saved_answers as H1. unfold saved in H1. rewrite H1 in Ha. rewrite H2 in Ha'. by split.
Defined.
End RocksWitnesses.
