(* ===== verification/BinaryHeap.v ===== *)
(** * The priority queue of the standard library

    [std::collections::BinaryHeap] as a vector with its two loops: [push] sifts the new last element up;
    [pop] moves the last element to the root, sifts it down to the bottom along the greater children, and up
    again.  The order may be partial: what is shown holds for elements among which it is total. *)

From S2P Require Import Prelude.

Definition parent (i : nat) : nat := ((i - 1) / 2)%nat.

#[local] Arguments parent : simpl never.
Lemma parent_eq (i p : nat) : (0 < i)%nat -> parent i = p <-> (i = 2 * p + 1 \/ i = 2 * p + 2)%nat.
Proof.
  intros Hi. unfold parent. pose proof (Nat.div_mod_eq (i - 1) 2). pose proof (Nat.mod_upper_bound (i - 1) 2 ltac:(lia)). lia.
Qed.
Lemma parent_lt (i : nat) : (0 < i)%nat -> (parent i < i)%nat.
Proof. intros Hi. destruct (proj1 (parent_eq i (parent i) Hi) eq_refl); lia. Qed.

Section Heap.
Context {A : Type} `{Inhabited A} (le : A -> A -> bool).

Definition heap_swap (l : list A) (i j : nat) : list A := <[i := l !!! j]> (<[j := l !!! i]> l).

Fixpoint sift_up (fuel pos : nat) (l : list A) : list A :=
  match fuel with
  | O => l
  | S fuel =>
      if (pos =? 0)%nat then l
      else if le (l !!! pos) (l !!! parent pos) then l
      else sift_up fuel (parent pos) (heap_swap l pos (parent pos))
  end.

(** Where the element ends, and the vector. *)
Fixpoint sink (fuel pos : nat) (l : list A) : nat * list A :=
  match fuel with
  | O => (pos, l)
  | S fuel =>
      let child := (2 * pos + 1)%nat in
      if (child + 2 <=? length l)%nat then
        let c := if le (l !!! child) (l !!! (child + 1)%nat) then (child + 1)%nat else child in
        sink fuel c (heap_swap l pos c)
      else if (child + 1 =? length l)%nat then (child, heap_swap l pos child)
      else (pos, l)
  end.
Definition sift_down_to_bottom (l : list A) : list A :=
  let '(pos, l') := sink (length l) 0 l in sift_up pos pos l'.

Definition heap_push (x : A) (l : list A) : list A := sift_up (length l) (length l) (l ++ [x]).
Definition heap_peek (l : list A) : option A := head l.
Definition heap_pop (l : list A) : option A * list A :=
  match last l with
  | None => (None, l)
  | Some item =>
      match take (length l - 1) l with
      | [] => (Some item, [])
      | root :: rest => (Some root, sift_down_to_bottom (item :: rest))
      end
  end.

(** ** Swapping *)

Lemma length_heap_swap l i j : length (heap_swap l i j) = length l.
Proof. unfold heap_swap. by rewrite !length_insert. Qed.
Lemma heap_swap_perm l i j : (i < length l)%nat -> (j < length l)%nat -> heap_swap l i j ≡ₚ l.
Proof.
  intros Hi Hj. apply lookup_lt_is_Some in Hi as [x Hx], Hj as [y Hy]. unfold heap_swap.
  rewrite (list_lookup_total_correct _ _ _ Hx), (list_lookup_total_correct _ _ _ Hy).
  destruct (decide (i = j)) as [->|Hne].
  { rewrite list_insert_insert_eq, list_insert_id; [done|congruence]. }
  apply (Permutation_inj). split; [by rewrite !length_insert|].
  exists (fun k => if decide (k = i) then j else if decide (k = j) then i else k). split.
  { intros a b. repeat case_decide; congruence. }
  intros k. pose proof (lookup_lt_Some _ _ _ Hx). pose proof (lookup_lt_Some _ _ _ Hy). repeat case_decide; subst.
  - rewrite list_lookup_insert_eq by (by rewrite length_insert). done.
  - rewrite list_lookup_insert_ne by done. by rewrite list_lookup_insert_eq.
  - by rewrite !list_lookup_insert_ne by done.
Qed.
Lemma heap_swap_at l i j k : (i < length l)%nat -> (j < length l)%nat ->
  heap_swap l i j !!! k = if decide (k = i) then l !!! j else if decide (k = j) then l !!! i else l !!! k.
Proof.
  intros Hi Hj. unfold heap_swap. repeat case_decide; subst.
  - by rewrite list_lookup_total_insert_eq by (by rewrite length_insert).
  - rewrite list_lookup_total_insert_ne by done. by rewrite list_lookup_total_insert_eq.
  - by rewrite !list_lookup_total_insert_ne by done.
Qed.

(** ** The heap order *)

Context (P : A -> Prop).
Context (le_total : forall x y, P x -> P y -> le x y = true \/ le y x = true).
Context (le_trans : forall x y z, P x -> P y -> P z -> le x y = true -> le y z = true -> le x z = true).

Definition below (l : list A) (i j : nat) : Prop := le (l !!! i) (l !!! j) = true.
Definition heap (l : list A) : Prop := forall i, (0 < i < length l)%nat -> below l i (parent i).

Lemma below_trans l i j k : Forall P l -> (i < length l)%nat -> (j < length l)%nat -> (k < length l)%nat ->
  below l i j -> below l j k -> below l i k.
Proof. intros Hl Hi Hj Hk. apply le_trans; by apply Forall_lookup_total_1. Qed.
Lemma not_below l i j : Forall P l -> (i < length l)%nat -> (j < length l)%nat -> le (l !!! i) (l !!! j) = false -> below l j i.
Proof.
  intros Hl Hi Hj Hle. unfold below.
  destruct (le_total (l !!! i) (l !!! j)); [by apply Forall_lookup_total_1..|congruence|done].
Qed.

(** A heap but for the element at [pos], which may be too large; what is below it is below its parent. *)
Record UpTo (l : list A) (pos : nat) : Prop := mkUpTo {
  up_other : forall i, (0 < i < length l)%nat -> i <> pos -> below l i (parent i);
  up_child : forall c, (0 < c < length l)%nat -> parent c = pos -> (0 < pos)%nat -> below l c (parent pos)
}.

Lemma sift_up_step l pos : Forall P l -> (0 < pos < length l)%nat -> UpTo l pos ->
  le (l !!! pos) (l !!! parent pos) = false -> UpTo (heap_swap l pos (parent pos)) (parent pos).
Proof.
  intros Hl Hpos [Hother Hchild] Hle. pose proof (parent_lt pos ltac:(lia)) as Hp.
  pose proof (not_below l pos (parent pos) Hl ltac:(lia) ltac:(lia) Hle) as Hge.
  split; rewrite length_heap_swap; [intros i Hi Hne|intros c Hc Hcp H0]; unfold below; rewrite !heap_swap_at by lia.
  - pose proof (parent_lt i ltac:(lia)). destruct (decide (i = pos)) as [->|Hip].
    + rewrite (decide_False (P := parent pos = pos)), decide_True by lia. exact Hge.
    + rewrite (decide_False (P := i = parent pos)) by done. destruct (decide (parent i = pos)) as [Hpi|Hpi].
      * by apply Hchild; lia.
      * destruct (decide (parent i = parent pos)) as [Hpp|Hpp]; [|by apply Hother].
        apply (below_trans l i (parent pos) pos); try done; try lia. rewrite <- Hpp. by apply Hother.
  - pose proof (parent_lt c ltac:(lia)). pose proof (parent_lt (parent pos) H0) as Hpp.
    rewrite (decide_False (P := parent (parent pos) = pos)), (decide_False (P := parent (parent pos) = parent pos)) by lia.
    assert (Hpar : below l (parent pos) (parent (parent pos))) by (apply Hother; lia).
    destruct (decide (c = pos)) as [->|Hcn]; [done|]. rewrite (decide_False (P := c = parent pos)) by lia.
    apply (below_trans l c (parent pos) (parent (parent pos))); try done; try lia. rewrite <- Hcp. apply Hother; lia.
Qed.

Lemma sift_up_heap fuel l pos : Forall P l -> (pos < length l)%nat -> (pos <= fuel)%nat -> UpTo l pos ->
  heap (sift_up fuel pos l) /\ sift_up fuel pos l ≡ₚ l.
Proof.
  revert l pos. induction fuel as [|fuel IH]; intros l pos Hl Hpos Hf Hup; cbn [sift_up].
  { split; [|done]. intros i Hi. apply Hup; lia. }
  destruct (Nat.eqb_spec pos 0) as [->|H0].
  { split; [|done]. intros i Hi. apply Hup; lia. }
  destruct (le (l !!! pos) (l !!! parent pos)) eqn:Hle.
  { split; [|done]. intros i Hi. destruct (decide (i = pos)) as [->|]; [exact Hle|by apply Hup]. }
  pose proof (parent_lt pos ltac:(lia)) as Hp.
  assert (Hperm : heap_swap l pos (parent pos) ≡ₚ l) by (apply heap_swap_perm; lia).
  destruct (IH (heap_swap l pos (parent pos)) (parent pos)) as [Hh Hp2].
  - by rewrite Hperm.
  - rewrite length_heap_swap. lia.
  - lia.
  - apply sift_up_step; done || lia.
  - split; [done|]. by rewrite Hp2.
Qed.

(** A heap but for the pairs with the element at [pos]; what is below it is below its parent. *)
Record Around (l : list A) (pos : nat) : Prop := mkAround {
  ar_other : forall i, (0 < i < length l)%nat -> i <> pos -> parent i <> pos -> below l i (parent i);
  ar_child : forall c, (0 < c < length l)%nat -> parent c = pos -> (0 < pos)%nat -> below l c (parent pos)
}.

(** The element changes places with the child [c] above its sibling. *)
Lemma sink_step l pos c : Around l pos -> (0 < c < length l)%nat -> parent c = pos ->
  (forall i, (0 < i < length l)%nat -> parent i = pos -> i <> c -> below l i c) -> Around (heap_swap l pos c) c.
Proof.
  intros [Hother Hchild] Hc Hcp Hsib. pose proof (parent_lt c ltac:(lia)) as Hlt.
  split; rewrite length_heap_swap; [intros i Hi Hne Hpne|intros d Hd Hdp H0]; unfold below; rewrite !heap_swap_at by lia.
  - pose proof (parent_lt i ltac:(lia)). rewrite (decide_False (P := parent i = c)) by done.
    destruct (decide (i = pos)) as [->|Hip].
    + rewrite (decide_False (P := parent pos = pos)) by lia. by apply Hchild; lia.
    + rewrite (decide_False (P := i = c)) by done. destruct (decide (parent i = pos)); [by apply Hsib|by apply Hother].
  - pose proof (parent_lt d ltac:(lia)). rewrite (decide_False (P := d = pos)), (decide_False (P := d = c)) by lia.
    rewrite Hcp, decide_True by done. rewrite <- Hdp. apply Hother; lia.
Qed.

Lemma sink_spec fuel l pos : Forall P l -> (pos < length l)%nat -> (length l <= fuel + pos)%nat -> Around l pos ->
  let '(q, l') := sink fuel pos l in
  Around l' q /\ l' ≡ₚ l /\ (q < length l')%nat /\ (length l' <= 2 * q + 1)%nat.
Proof.
  revert l pos. induction fuel as [|fuel IH]; intros l pos Hl Hpos Hf Har; cbn [sink]; [lia|]. cbv zeta.
  set (child := (2 * pos + 1)%nat) in *. destruct (Nat.leb_spec (child + 2) (length l)) as [Hc|Hc].
  - set (c := if le (l !!! child) (l !!! (child + 1)%nat) then (child + 1)%nat else child).
    assert (Hcc : c = child \/ c = (child + 1)%nat) by (unfold c; destruct (le _ _); auto).
    assert (Hcp : parent c = pos) by (apply parent_eq; lia).
    assert (Hperm : heap_swap l pos c ≡ₚ l) by (apply heap_swap_perm; lia).
    specialize (IH (heap_swap l pos c) c). rewrite length_heap_swap in IH.
    destruct (sink fuel c (heap_swap l pos c)) as [q l']. destruct IH as (H1 & H2 & H3 & H4).
    + by rewrite Hperm.
    + lia.
    + lia.
    + apply sink_step; [done|lia|done|]. intros i Hi Hip Hic. apply (parent_eq i pos) in Hip; [|lia].
      unfold c in *. destruct (le _ _) eqn:Hle.
      * replace i with child by lia. exact Hle.
      * replace i with (child + 1)%nat by lia. apply not_below; done || lia.
    + split_and!; [done|by etransitivity|done|done].
  - destruct (Nat.eqb_spec (child + 1) (length l)) as [He|He].
    + assert (Hcp : parent child = pos) by (apply parent_eq; lia).
      assert (Hperm : heap_swap l pos child ≡ₚ l) by (apply heap_swap_perm; lia). rewrite length_heap_swap.
      split_and!; [|done|lia|lia]. apply sink_step; [done|lia|done|].
      intros i Hi Hip Hic. apply (parent_eq i pos) in Hip; lia.
    + split_and!; [done|done|done|lia].
Qed.

Lemma sift_down_heap l : l <> [] -> Forall P l -> Around l 0 -> heap (sift_down_to_bottom l) /\ sift_down_to_bottom l ≡ₚ l.
Proof.
  intros Hne Hl Har. assert (0 < length l)%nat by (destruct l; [done|cbn; lia]). unfold sift_down_to_bottom.
  pose proof (sink_spec (length l) l 0 Hl ltac:(lia) ltac:(lia) Har) as Hs. destruct (sink (length l) 0 l) as [q l'].
  destruct Hs as (H1 & H2 & H3 & H4). destruct (sift_up_heap q l' q) as [Hh Hp]; [by rewrite H2|done|lia| |].
  - split; [|apply H1]. intros i Hi Hiq. apply H1; [done..|]. intros Hpq. apply (parent_eq i q) in Hpq; lia.
  - split; [done|]. by rewrite Hp.
Qed.

(** ** Operations *)

Lemma heap_push_spec x l : P x -> Forall P l -> heap l -> heap (heap_push x l) /\ heap_push x l ≡ₚ x :: l.
Proof.
  intros Hx Hl Hh. unfold heap_push.
  destruct (sift_up_heap (length l) (l ++ [x]) (length l)) as [H1 H2].
  - by rewrite Forall_app, Forall_singleton.
  - rewrite length_app. cbn. lia.
  - done.
  - assert (Hat : forall i, (i < length l)%nat -> (l ++ [x]) !!! i = l !!! i) by (intros i Hi; by apply lookup_total_app_l).
    split; rewrite length_app; cbn; intros i Hi Hne.
    + pose proof (parent_lt i ltac:(lia)). unfold below. rewrite !Hat by lia. apply Hh. lia.
    + apply parent_eq in Hne; lia.
  - split; [done|]. rewrite H2. by rewrite Permutation_app_comm.
Qed.

Lemma heap_root l x i : Forall P l -> heap l -> head l = Some x -> (i < length l)%nat -> le (l !!! i) x = true.
Proof.
  intros Hl Hh Hx. assert (x = l !!! 0%nat) as -> by (destruct l; by simplify_eq/=).
  assert (Hr : forall y, P y -> le y y = true) by (intros y Hy; by destruct (le_total y y)).
  induction i as [i IH] using lt_wf_ind. intros Hi. destruct (decide (i = 0%nat)) as [->|H0].
  { apply Hr. by apply Forall_lookup_total_1. }
  pose proof (parent_lt i ltac:(lia)) as Hp. apply (below_trans l i (parent i) 0); try done; try lia.
  - apply Hh. lia.
  - apply IH; lia.
Qed.

(** [pop] of a heap that is not empty takes a greatest element and leaves a heap of the others. *)
Lemma heap_pop_spec l : Forall P l -> heap l -> l <> [] ->
  exists x l', heap_pop l = (Some x, l') /\ head l = Some x /\ heap l' /\ l ≡ₚ x :: l' /\ Forall (fun y => le y x = true) l.
Proof.
  intros Hl Hh Hne. destruct l as [|item init _] using rev_ind; [done|]. unfold heap_pop. rewrite last_snoc, length_app. cbn [length].
  replace (length init + 1 - 1)%nat with (length init) by lia. rewrite take_app_length.
  assert (Hmax : forall x, head (init ++ [item]) = Some x -> Forall (fun y => le y x = true) (init ++ [item])).
  { intros x Hx. apply Forall_lookup_2. intros i y Hy. rewrite <- (list_lookup_total_correct _ _ _ Hy).
    apply (heap_root (init ++ [item])); [done..|]. by apply lookup_lt_Some in Hy. }
  destruct init as [|root rest].
  - exists item, []. split_and!; try done; [|by apply Hmax]. intros i Hi. cbn in Hi. lia.
  - apply Forall_app in Hl as [Hrr Hi]. inv_Forall.
    destruct (sift_down_heap (item :: rest)) as [Hsh Hsp]; [done|by constructor| |].
    + assert (Hat : forall i, (0 < i < length (item :: rest))%nat -> (item :: rest) !!! i = ((root :: rest) ++ [item]) !!! i).
      { intros [|i] Hi; [lia|]. rewrite lookup_total_app_l by (cbn in *; lia). done. }
      split; intros i Hi; [|lia]. intros _ Hpar. unfold below. pose proof (parent_lt i ltac:(lia)).
      rewrite !Hat by (cbn in *; lia). apply Hh. rewrite length_app. cbn in *. lia.
    + exists root, (sift_down_to_bottom (item :: rest)). split_and!; try done; [|by apply Hmax].
      rewrite Hsp. cbn. constructor. by rewrite Permutation_app_comm.
Qed.
Lemma heap_nil : heap [].
Proof. intros i Hi. cbn in Hi. lia. Qed.
End Heap.
