(* ===== verification/TxOrdering.v ===== *)
(** * Ordering of transactions (src/mempool/ordering.rs)

    Priorities in [f64], the orderings of a slice, the nonce chains of the senders, and the priority queue.
    A comparison with a NaN counts as equality; what sorting then yields is unspecified in Rust, and the
    theorems about order ask for comparable priorities. *)

From Stdlib Require Import SpecFloat.
From S2P Require Import Prelude Hashing Types Floats State Mempool FeeMarket Fees BinaryHeap.

Record TransactionOrdering : Type := mkOrdering {
  fee_priority_weight : f64;
  age_priority_weight : f64;
  size_priority_weight : f64
}.
Definition ordering_default : TransactionOrdering := mkOrdering (literal 7 10) (literal 2 10) (literal 1 10).

Definition f64_sqrt : f64 -> f64 := SFsqrt 53 1024.
Definition calculate_priority (fe size age_secs : Z) (o : TransactionOrdering) : f64 :=
  let fee_score := f64_div (f64_of fe) (f64_of size) in
  let age_score := f64_min (f64_div (f64_of age_secs) (f64_of 60)) (f64_of 100) in
  let size_score := f64_div (f64_of 1) (f64_sqrt (f64_of size)) in
  f64_add (f64_add (f64_mul fee_score (fee_priority_weight o)) (f64_mul age_score (age_priority_weight o)))
    (f64_mul size_score (size_priority_weight o)).

(** ** Sorting a slice *)

(** The transactions of each sender, in the order of the slice. *)
Definition by_address (txs : list Transaction) : gmap Address (list Transaction) :=
  foldl (fun m tx => <[tx_from tx := default [] (m !! tx_from tx) ++ [tx]]> m) ∅ txs.
(** [sort_by_key(|tx| tx.nonce)]. *)
Definition sort_nonces (l : list Transaction) : list Transaction := sort_desc (fun tx => - tx_nonce tx) l.

Section SliceOrdering.
Context `{BT : BincodeTx} `{HI : !HashMapIter Address (list Transaction)} (o : TransactionOrdering).

Definition fresh_priority (tx : Transaction) : f64 := calculate_priority (fee tx) (tx_size tx) 0 o.
(** [b_priority.partial_cmp(&a_priority).unwrap_or(Equal)] is not [Greater]. *)
Definition goes_first (a b : Transaction) : bool :=
  match SFcompare (fresh_priority b) (fresh_priority a) with Some Gt => false | _ => true end.
Fixpoint insert_first (x : Transaction) (l : list Transaction) : list Transaction :=
  match l with
  | [] => [x]
  | y :: l' => if goes_first x y then x :: l else y :: insert_first x l'
  end.
(** The groups are sorted by nonce and then dropped; the slice is sorted by priority alone. *)
Definition sort_by_nonce (txs : list Transaction) : list Transaction :=
  let groups := by_address txs in
  let _ := sort_nonces <$> groups in
  foldr insert_first [] txs.
Definition resolve_dependencies (txs : list Transaction) : list (list Transaction) :=
  values (sort_nonces <$> by_address txs).
End SliceOrdering.

(** ** The queue *)

Record PriorityTx : Type := mkPriorityTx { pt_hash : Hash; pt_priority : f64; pt_timestamp : Z }.
#[export] Instance PriorityTx_inhabited : Inhabited PriorityTx := populate (mkPriorityTx [] f64_zero 0).

Definition pt_eq (a b : PriorityTx) : bool :=
  match SFcompare (pt_priority a) (pt_priority b) with Some Eq => true | _ => false end && (pt_timestamp a =? pt_timestamp b).
Definition pt_cmp (a b : PriorityTx) : comparison :=
  match SFcompare (pt_priority a) (pt_priority b) with
  | Some Lt => Lt
  | Some Gt => Gt
  | _ => Z.compare (pt_timestamp a) (pt_timestamp b)
  end.
Definition pt_partial_cmp (a b : PriorityTx) : option comparison := Some (pt_cmp a b).
(** [a <= b]. *)
Definition pt_le (a b : PriorityTx) : bool := match pt_partial_cmp a b with Some Gt | None => false | _ => true end.

Record TransactionQueue : Type := mkQueue { tq_heap : list PriorityTx; tq_ordering : TransactionOrdering }.
Definition queue_new : TransactionQueue := mkQueue [] ordering_default.
Definition queue_push (hash : Hash) (fe size timestamp : Z) (q : TransactionQueue) : TransactionQueue :=
  let priority := calculate_priority fe size 0 (tq_ordering q) in
  mkQueue (heap_push pt_le (mkPriorityTx hash priority timestamp) (tq_heap q)) (tq_ordering q).
Definition queue_pop (q : TransactionQueue) : option Hash * TransactionQueue :=
  let '(o, h) := heap_pop pt_le (tq_heap q) in (pt_hash <$> o, mkQueue h (tq_ordering q)).
Definition queue_peek (q : TransactionQueue) : option Hash := pt_hash <$> heap_peek (tq_heap q).
Definition queue_len (q : TransactionQueue) : nat := length (tq_heap q).
Definition queue_is_empty (q : TransactionQueue) : bool := bool_decide (tq_heap q = []).
Definition queue_clear (q : TransactionQueue) : TransactionQueue := mkQueue [] (tq_ordering q).

(** ** Chains: one per sender, by nonce *)

Lemma sorted_impl {A} (R R' : A -> A -> Prop) l : (forall x y, R x y -> R' x y) -> StronglySorted R l -> StronglySorted R' l.
Proof. intros HR. induction 1 as [|x l Hl IH Hx]; constructor; [done|]. eapply Forall_impl; eauto. Qed.

Section Chains.
Context `{BT : BincodeTx} `{HI : !HashMapIter Address (list Transaction)}.
Definition sent_by (a : Address) (txs : list Transaction) : list Transaction :=
  List.filter (fun tx => bool_decide (tx_from tx = a)) txs.

Lemma sent_by_snoc a txs tx : sent_by a (txs ++ [tx]) = sent_by a txs ++ (if bool_decide (tx_from tx = a) then [tx] else []).
Proof. unfold sent_by. by rewrite List.filter_app. Qed.
Lemma by_address_lookup txs a :
  by_address txs !! a = (if bool_decide (sent_by a txs = []) then None else Some (sent_by a txs)).
Proof.
  unfold by_address. induction txs as [|tx txs IH] using rev_ind; [done|]. rewrite foldl_app, sent_by_snoc. cbn.
  destruct (decide (tx_from tx = a)) as [<-|Hne].
  - rewrite (bool_decide_eq_true_2 (tx_from tx = tx_from tx)), lookup_insert_eq, IH by done.
    rewrite (bool_decide_eq_false_2 (_ ++ [tx] = [])) by (intros Hn; by apply app_eq_nil in Hn as [_ Hn]).
    case_bool_decide as Hn; cbn; [by rewrite Hn|done].
  - rewrite lookup_insert_ne by done. rewrite (bool_decide_eq_false_2 (tx_from tx = a)), app_nil_r by done. exact IH.
Qed.
Lemma sent_by_nonempty a txs : sent_by a txs <> [] <-> exists tx, tx ∈ txs /\ tx_from tx = a.
Proof.
  unfold sent_by. split.
  - destruct (List.filter _ txs) as [|tx l] eqn:Hf; [done|]. intros _.
    assert (Hin : In tx (List.filter (fun tx => bool_decide (tx_from tx = a)) txs)) by (rewrite Hf; by left).
    apply filter_In in Hin as [Hin Ha]. exists tx. rewrite list_elem_of_In. split; [done|]. by apply bool_decide_eq_true in Ha.
  - intros (tx & Hin & Ha) Hf. rewrite list_elem_of_In in Hin.
    assert (Hin' : In tx (List.filter (fun tx => bool_decide (tx_from tx = a)) txs)) by (apply filter_In; split; [done|by apply bool_decide_eq_true]).
    by rewrite Hf in Hin'.
Qed.

(** [resolve_dependencies] returns one chain per sender, in some order of the senders: all
    transactions of the sender, by increasing nonce. *)
Theorem dependency_chains (txs : list Transaction) :
  exists senders, NoDup senders /\ (forall a, a ∈ senders <-> exists tx, tx ∈ txs /\ tx_from tx = a)
    /\ resolve_dependencies txs = map (fun a => sort_nonces (sent_by a txs)) senders
    /\ (forall a, sort_nonces (sent_by a txs) ≡ₚ sent_by a txs
          /\ StronglySorted (fun x y => tx_nonce x <= tx_nonce y) (sort_nonces (sent_by a txs))).
Proof.
  set (m := sort_nonces <$> by_address txs). exists ((entries m).*1).
  assert (Hm : forall a l, m !! a = Some l -> l = sort_nonces (sent_by a txs) /\ sent_by a txs <> []).
  { intros a l. unfold m. rewrite lookup_fmap, by_address_lookup. case_bool_decide as Hn; cbn; [done|]. by intros [= <-]. }
  split_and!.
  - rewrite entries_perm. apply NoDup_fst_map_to_list.
  - intros a. rewrite <- sent_by_nonempty, list_elem_of_fmap. split.
    + intros ([k l] & -> & Hin). apply elem_of_entries in Hin. by apply Hm in Hin as [_ Hn].
    + intros Hn. exists (a, sort_nonces (sent_by a txs)). split; [done|]. apply elem_of_entries. unfold m.
      rewrite lookup_fmap, by_address_lookup. by rewrite bool_decide_eq_false_2.
  - unfold resolve_dependencies. fold m. unfold values.
    assert (Hall : Forall (fun p => p.2 = sort_nonces (sent_by p.1 txs)) (entries m)).
    { apply Forall_forall. intros [a l] Hin. apply elem_of_entries in Hin. by apply Hm in Hin as [-> _]. }
    induction Hall as [|p l Hp Hl IH]; cbn; [done|]. by rewrite Hp, IH.
  - intros a. split; [apply sort_desc_perm|]. eapply sorted_impl, sort_desc_sorted. unfold desc. lia.
Qed.
End Chains.

(** ** The slice by priority *)

(** Order of comparable priorities. *)
Lemma SFcompare_rank x y : is_nan x = false -> is_nan y = false ->
  match SFcompare x y with
  | Some Lt => rank_le (f64_rank x) (f64_rank y) /\ ~ rank_le (f64_rank y) (f64_rank x)
  | Some Eq => rank_le (f64_rank x) (f64_rank y) /\ rank_le (f64_rank y) (f64_rank x)
  | Some Gt => rank_le (f64_rank y) (f64_rank x) /\ ~ rank_le (f64_rank x) (f64_rank y)
  | None => False
  end.
Proof.
  intros Hx Hy. unfold SFcompare.
  destruct x as [sx|sx| |sx mx ex], y as [sy|sy| |sy my ey]; try done; cbn; try (destruct sx); try (destruct sy); cbn; try lia.
  all: change (Pos.compare_cont Eq mx my) with (Pos.compare mx my).
  all: destruct (Z.compare_spec ex ey); try destruct (Pos.compare_spec mx my); cbn; lia.
Qed.

Section SliceProps.
Context `{BT : BincodeTx} (o : TransactionOrdering).
Definition has_priority (tx : Transaction) : Prop := is_nan (fresh_priority o tx) = false.
Definition pays_more (x y : Transaction) : Prop := rank_le (f64_rank (fresh_priority o y)) (f64_rank (fresh_priority o x)).

Lemma goes_first_spec x y : has_priority x -> has_priority y ->
  if goes_first o x y then pays_more x y else pays_more y x.
Proof.
  intros Hx Hy. unfold goes_first. pose proof (SFcompare_rank _ _ Hy Hx) as Hc.
  destruct (SFcompare _ _) as [[]|]; unfold pays_more; tauto.
Qed.
Lemma insert_first_perm x l : insert_first o x l ≡ₚ x :: l.
Proof. induction l as [|y l IH]; cbn; [done|]. destruct (goes_first _ _ _); [done|]. rewrite IH. apply Permutation_swap. Qed.
Lemma sort_by_nonce_perm txs : sort_by_nonce o txs ≡ₚ txs.
Proof. unfold sort_by_nonce. induction txs as [|x l IH]; cbn; [done|]. by rewrite insert_first_perm, IH. Qed.

(** [sort_by_nonce] permutes the slice into decreasing priority, whatever the nonces: among
    transactions of one sender the one that pays more comes first, also with the later nonce. *)
Theorem sort_by_nonce_sorts_by_fee (txs : list Transaction) : Forall has_priority txs ->
  sort_by_nonce o txs ≡ₚ txs /\ StronglySorted pays_more (sort_by_nonce o txs).
Proof.
  intros Htx. split; [apply sort_by_nonce_perm|]. pose proof (sort_by_nonce_perm txs) as Hp. revert Hp. unfold sort_by_nonce.
  induction Htx as [|x l Hx Hl IH]; intros _; cbn [foldr]; [constructor|]. specialize (IH (sort_by_nonce_perm l)).
  assert (Hn : Forall has_priority (foldr (insert_first o) [] l)) by (by rewrite (sort_by_nonce_perm l)).
  revert Hn. induction IH as [|y l' Hl' IH' Hy]; intros Hn; cbn; [by repeat constructor|]. apply Forall_cons in Hn as [Hny Hn].
  pose proof (goes_first_spec x y Hx Hny) as Hg. destruct (goes_first o x y).
  - constructor; [by constructor|]. constructor; [done|]. eapply Forall_impl; [exact Hy|].
    intros z Hz. unfold pays_more in *. by eapply rank_le_trans.
  - constructor; [by apply IH'|]. rewrite insert_first_perm. by constructor.
Qed.
End SliceProps.

(** ** The queue as a bag *)

Definition comparable_tx (x : PriorityTx) : Prop := is_nan (pt_priority x) = false.
Definition pt_below (x y : PriorityTx) : Prop :=
  let '(a, b) := (f64_rank (pt_priority x), f64_rank (pt_priority y)) in
  rank_le a b /\ (rank_le b a -> pt_timestamp x <= pt_timestamp y).
Lemma pt_le_below x y : comparable_tx x -> comparable_tx y -> pt_le x y = true <-> pt_below x y.
Proof.
  intros Hx Hy. unfold pt_le, pt_partial_cmp, pt_cmp, pt_below. pose proof (SFcompare_rank _ _ Hx Hy) as Hc.
  destruct (SFcompare _ _) as [[]|]; [|split; [tauto|done]|split; [done|tauto]|done].
  destruct (Z.compare_spec (pt_timestamp x) (pt_timestamp y)) as [Ht|Ht|Ht];
    [split; [intros _; split; [tauto|lia]|done]..|split; [done|intros [_ Hle]; specialize (Hle (proj2 Hc)); lia]].
Qed.
Lemma pt_le_total x y : comparable_tx x -> comparable_tx y -> pt_le x y = true \/ pt_le y x = true.
Proof.
  intros Hx Hy. rewrite !pt_le_below by done. unfold pt_below.
  destruct (f64_rank (pt_priority x)) as [[a b] c], (f64_rank (pt_priority y)) as [[a' b'] c']. cbn. lia.
Qed.
Lemma pt_le_trans x y z : comparable_tx x -> comparable_tx y -> comparable_tx z ->
  pt_le x y = true -> pt_le y z = true -> pt_le x z = true.
Proof.
  intros Hx Hy Hz. rewrite !pt_le_below by done. unfold pt_below.
  destruct (f64_rank (pt_priority x)) as [[a b] c], (f64_rank (pt_priority y)) as [[a' b'] c'],
    (f64_rank (pt_priority z)) as [[a'' b''] c'']. cbn. lia.
Qed.

Inductive QueueOp : Type := QPush (hash : Hash) (fe size timestamp : Z) | QPop | QPeek | QLen | QIsEmpty | QClear.
Inductive QueueAnswer : Type := QDone | QHash (h : option Hash) | QCount (n : nat) | QBool (b : bool).

Definition queue_exec (op : QueueOp) (q : TransactionQueue) : QueueAnswer * TransactionQueue :=
  match op with
  | QPush h f s t => (QDone, queue_push h f s t q)
  | QPop => let '(r, q') := queue_pop q in (QHash r, q')
  | QPeek => (QHash (queue_peek q), q)
  | QLen => (QCount (queue_len q), q)
  | QIsEmpty => (QBool (queue_is_empty q), q)
  | QClear => (QDone, queue_clear q)
  end.
Fixpoint queue_run (ops : list QueueOp) (q : TransactionQueue) : list QueueAnswer * TransactionQueue :=
  match ops with
  | [] => ([], q)
  | op :: ops => let '(r, q1) := queue_exec op q in let '(rs, q') := queue_run ops q1 in (r :: rs, q')
  end.

(** A bag of entries: popping and peeking choose a greatest one, by priority and then by later timestamp. *)
Definition greatest (x : PriorityTx) (b : list PriorityTx) : Prop := x ∈ b /\ Forall (fun y => pt_below y x) b.
Inductive bag_step (o : TransactionOrdering) : QueueOp -> list PriorityTx -> QueueAnswer -> list PriorityTx -> Prop :=
| bag_push h f s t b : bag_step o (QPush h f s t) b QDone (mkPriorityTx h (calculate_priority f s 0 o) t :: b)
| bag_pop x b b' : greatest x b -> b ≡ₚ x :: b' -> bag_step o QPop b (QHash (Some (pt_hash x))) b'
| bag_pop_empty : bag_step o QPop [] (QHash None) []
| bag_peek x b : greatest x b -> bag_step o QPeek b (QHash (Some (pt_hash x))) b
| bag_peek_empty : bag_step o QPeek [] (QHash None) []
| bag_len b : bag_step o QLen b (QCount (length b)) b
| bag_is_empty b : bag_step o QIsEmpty b (QBool (bool_decide (b = []))) b
| bag_clear b : bag_step o QClear b QDone [].
Inductive bag_run (o : TransactionOrdering) : list QueueOp -> list PriorityTx -> list QueueAnswer -> list PriorityTx -> Prop :=
| bag_run_nil b : bag_run o [] b [] b
| bag_run_cons op ops b r b1 rs b' : bag_step o op b r b1 -> bag_run o ops b1 rs b' -> bag_run o (op :: ops) b (r :: rs) b'.

Definition comparable_op (o : TransactionOrdering) (op : QueueOp) : Prop :=
  match op with QPush _ f s _ => is_nan (calculate_priority f s 0 o) = false | _ => True end.

Record QueueHolds (q : TransactionQueue) (b : list PriorityTx) : Prop := mkQueueHolds {
  qh_heap : heap pt_le (tq_heap q);
  qh_perm : tq_heap q ≡ₚ b;
  qh_comparable : Forall comparable_tx b
}.

Lemma greatest_head x b l : l ≡ₚ b -> Forall comparable_tx b -> head l = Some x -> Forall (fun y => pt_le y x = true) l -> greatest x b.
Proof.
  intros Hp Hc Hx Hl. rewrite Hp in Hl. assert (Hin : x ∈ b) by (rewrite <- Hp; destruct l; simplify_eq/=; constructor).
  split; [done|]. rewrite Forall_forall in Hl, Hc |- *. intros y Hy. apply pt_le_below; auto.
Qed.

Lemma queue_step op q b : comparable_op (tq_ordering q) op -> QueueHolds q b ->
  exists b', bag_step (tq_ordering q) op b (queue_exec op q).1 b' /\ QueueHolds (queue_exec op q).2 b'
    /\ tq_ordering (queue_exec op q).2 = tq_ordering q.
Proof.
  intros Hop [Hh Hp Hc]. assert (Hc' : Forall comparable_tx (tq_heap q)) by by rewrite Hp.
  assert (Hpop : tq_heap q <> [] -> exists x l', heap_pop pt_le (tq_heap q) = (Some x, l') /\ head (tq_heap q) = Some x
    /\ heap pt_le l' /\ tq_heap q ≡ₚ x :: l' /\ greatest x b).
  { intros Hne. destruct (heap_pop_spec pt_le comparable_tx pt_le_total pt_le_trans _ Hc' Hh Hne) as (x & l' & E & Hx & Hh' & Hp' & Hm).
    exists x, l'. split_and!; try done. by eapply greatest_head. }
  destruct op as [h f s t| | | | |]; cbn [queue_exec comparable_op] in *.
  - eexists. split; [constructor|]. split; [|done].
    destruct (heap_push_spec pt_le comparable_tx pt_le_total pt_le_trans (mkPriorityTx h (calculate_priority f s 0 (tq_ordering q)) t) _ Hop Hc' Hh)
      as [H1 H2]. split; cbn; [done|by rewrite H2, Hp|by constructor].
  - unfold queue_pop. destruct (decide (tq_heap q = [])) as [He|Hne].
    + rewrite He in *. apply Permutation_nil in Hp as ->. exists []. split; [constructor|]. by split; [split|].
    + destruct (Hpop Hne) as (x & l' & -> & Hx & Hh' & Hp' & Hg). exists l'. cbn. split; [constructor; [done|by rewrite <- Hp]|].
      split; [|done]. split; cbn; [done|done|]. rewrite Hp' in Hc'. by inv_Forall.
  - exists b. split; [|by split; [split|]]. unfold queue_peek, heap_peek. destruct (decide (tq_heap q = [])) as [He|Hne].
    + rewrite He in *. apply Permutation_nil in Hp as ->. constructor.
    + destruct (Hpop Hne) as (x & l' & _ & Hx & _ & _ & Hg). rewrite Hx. by constructor.
  - exists b. split; [|by split; [split|]]. unfold queue_len. rewrite Hp. constructor.
  - exists b. split; [|by split; [split|]]. unfold queue_is_empty.
    rewrite (bool_decide_ext (tq_heap q = []) (b = [])); [constructor|]. split; intros He; rewrite He in Hp;
      [by apply Permutation_nil in Hp|by apply Permutation_nil_r in Hp].
  - exists []. split; [constructor|]. split; [|done]. split; cbn; [apply heap_nil|done|done].
Qed.

(** C20. The queue is a bag from which [pop] takes, and [peek] shows, an entry of greatest priority, the latest
    among equals: every sequence of operations with comparable priorities answers as the bag does. *)
Theorem queue_refines_bag (ops : list QueueOp) : Forall (comparable_op ordering_default) ops ->
  exists b, bag_run ordering_default ops [] (queue_run ops queue_new).1 b /\ QueueHolds (queue_run ops queue_new).2 b.
Proof.
  assert (Hgen : forall ops q b, Forall (comparable_op ordering_default) ops -> tq_ordering q = ordering_default -> QueueHolds q b ->
    exists b', bag_run ordering_default ops b (queue_run ops q).1 b' /\ QueueHolds (queue_run ops q).2 b').
  { clear. intros ops q b Hops. revert q b. induction Hops as [|op ops Hop Hops IH]; intros q b Ho Hq; cbn.
    { exists b. split; [constructor|done]. }
    rewrite <- Ho in Hop. destruct (queue_step op q b Hop Hq) as (b1 & Hs & Hq1 & Ho1). rewrite Ho in Hs.
    destruct (queue_exec op q) as [r q1]. cbn in *. destruct (IH q1 b1) as (b' & Hr & Hq'); [congruence|done|].
    destruct (queue_run ops q1) as [rs q']. exists b'. split; [by econstructor|done]. }
  intros Hops. apply Hgen; [done|done|]. split; cbn; [apply heap_nil|done|done].
Qed.

(** ** The pooled transaction of src/types/transaction.rs

    The pool keeps entries of its own; this type has the plain fee rate as its priority. *)

Module TxPooled.
Record PooledTransaction : Type := mkPooled { pt_tx : Transaction; pt_added_at : Z; pt_hash : Hash; pt_priority : f64 }.
Definition pooled_transaction_new `{Sha3} `{BincodeTx} (now : Z) (tx : Transaction) : PooledTransaction :=
  mkPooled tx now (tx_hash tx) (f64_div (f64_of (fee tx)) (f64_of (tx_size tx))).
Definition age_secs (now : Z) (p : PooledTransaction) : Z := saturating_sub now (pt_added_at p).
End TxPooled.

(** ** Witnesses *)

Section OrderingWitnesses.
#[local] Instance order_bincode : BincodeTx := fun _ => Some (replicate 250 0).
Definition nonce_tx (n f : Z) : Transaction := mkTx zero_address zero_address 5 f n [] 0.

Lemma sort_by_nonce_sorts_by_fee_witness :
  sort_by_nonce ordering_default [nonce_tx 1 100; nonce_tx 2 900] = [nonce_tx 2 900; nonce_tx 1 100]
  /\ StronglySorted (pays_more ordering_default) (sort_by_nonce ordering_default [nonce_tx 1 100; nonce_tx 2 900]).
Proof.
  split; [vm_compute; reflexivity|]. apply (sort_by_nonce_sorts_by_fee ordering_default [nonce_tx 1 100; nonce_tx 2 900]).
  repeat constructor; vm_compute; reflexivity.
Defined.

Definition three_pushes : list QueueOp :=
  [QPush [1] 1000 250 1; QPush [2] 100 250 2; QPush [3] 500 250 3; QLen; QPop; QPop; QPeek; QPop; QPop].
Lemma queue_refines_bag_witness : exists b, bag_run ordering_default three_pushes []
  [QDone; QDone; QDone; QCount 3; QHash (Some [1]); QHash (Some [3]); QHash (Some [2]); QHash (Some [2]); QHash None] b.
Proof.
  destruct (queue_refines_bag three_pushes) as (b & Hb & _); [repeat constructor; vm_compute; reflexivity|].
  exists b. assert (E : (queue_run three_pushes queue_new).1 =
    [QDone; QDone; QDone; QCount 3; QHash (Some [1]); QHash (Some [3]); QHash (Some [2]); QHash (Some [2]); QHash None])
    by (vm_compute; reflexivity). by rewrite <- E.
Defined.
End OrderingWitnesses.
