(* ===== verification/Json.v ===== *)
(** * JSON values and number texts of the API

    [serde_json::Value] and the texts in which the handlers write and read numbers and hashes: [{:x}],
    [from_str_radix(_, 16)], hexadecimal byte strings.  Objects keep the order in which they are written. *)

From Stdlib Require Import Ascii.
From stdpp Require Import strings.
From S2P Require Import Prelude Hashing Floats State Wal HashHelpers.
Abbreviation length := List.length.

Module Json.
Inductive Number : Type := PosInt (n : Z) | NegInt (n : Z) | Float (x : f64).
Inductive Value : Type :=
| Null
| Bool (b : bool)
| Num (n : Number)
| Str (s : string)
| Array (l : list Value)
| Object (fields : list (string * Value)).

Definition as_bool (v : Value) : option bool := match v with Bool b => Some b | _ => None end.
Definition as_str (v : Value) : option string := match v with Str s => Some s | _ => None end.
Definition as_array (v : Value) : option (list Value) := match v with Array l => Some l | _ => None end.
Definition as_u64 (n : Number) : option Z := match n with PosInt z => Some z | _ => None end.
Definition nat_value (n : Z) : Value := Num (PosInt n).
End Json.
Abbreviation Value := Json.Value.

(** ** Hexadecimal numbers *)

(** The digits, the most significant first; sixteen to the power of the fuel bounds the number. *)
Fixpoint hex_digits (fuel : nat) (z : Z) : string :=
  match fuel with
  | O => EmptyString
  | S fuel => if z <? 16 then hex_digit z else (hex_digits fuel (z / 16) +:+ hex_digit (z mod 16))%string
  end.
(** [format!("0x{:x}", z)] of an integer of at most 128 bits. *)
Definition hex_number (z : Z) : string := ("0x" +:+ hex_digits 32 z)%string.
(** [format!("0x{}", hex::encode(bytes))]. *)
Definition hex_text (b : list Z) : string := ("0x" +:+ hex_encode b)%string.

(** [u64::from_str_radix(s, 16)]: an optional plus sign, at least one digit, no overflow. *)
Fixpoint radix16 (s : string) (acc : Z) : option Z :=
  match s with
  | EmptyString => Some acc
  | String c s =>
      d ← hex_value c;
      let acc' := 16 * acc + d in
      if acc' <? 2 ^ 64 then radix16 s acc' else None
  end.
Definition u64_from_hex (s : string) : option Z :=
  match s with
  | EmptyString => None
  | String c s' =>
      if (Ascii.nat_of_ascii c =? 43)%nat then (if String.eqb s' "" then None else radix16 s' 0) else radix16 s 0
  end.

(** ** Round trip of the numbers *)

Definition hex_string (s : string) : Prop := Forall (fun c => is_Some (hex_value c)) (String.list_ascii_of_string s).
Lemma radix16_app s t acc : radix16 (s +:+ t) acc = (x ← radix16 s acc; radix16 t x).
Proof.
  revert acc. induction s as [|c s IH]; intros acc; [done|]. change (String c s +:+ t) with (String c (s +:+ t)). cbn [radix16].
  destruct (hex_value c) as [d|]; [|done]. cbn [mbind option_bind]. destruct (_ <? _); [apply IH|done].
Qed.
Lemma hex_digit_text d : 0 <= d < 16 -> exists c, hex_digit d = String c EmptyString /\ hex_value c = Some d
  /\ (Ascii.nat_of_ascii c <> 120)%nat /\ (Ascii.nat_of_ascii c <> 43)%nat.
Proof.
  intros Hd. unfold hex_digit. eexists. split; [reflexivity|].
  assert (H : exists n, (n < 16)%nat /\ d = Z.of_nat n) by (exists (Z.to_nat d); lia). destruct H as (n & Hn & ->).
  do 16 (destruct n as [|n]; [split_and!; [reflexivity|done|done]|]). lia.
Qed.

(** Texts of digits: neither the prefix nor a sign occurs in them. *)
Definition plain (s : string) : Prop :=
  Forall (fun c => (Ascii.nat_of_ascii c <> 120)%nat /\ (Ascii.nat_of_ascii c <> 43)%nat) (String.list_ascii_of_string s).
Lemma plain_app s t : plain s -> plain t -> plain (s +:+ t).
Proof.
  unfold plain. intros Hs Ht. induction s as [|c s IH]; [done|]. change (String c s +:+ t) with (String c (s +:+ t)).
  cbn in *. apply Forall_cons in Hs as [Hc Hs]. constructor; auto.
Qed.
Lemma plain_digit d : 0 <= d < 16 -> plain (hex_digit d).
Proof. intros Hd. destruct (hex_digit_text d Hd) as (c & -> & _ & Hx & Hp). by repeat constructor. Qed.
Lemma trim_plain n s : plain s -> trim_start n "0x" s = s.
Proof.
  intros Hs. destruct s as [|c1 [|c2 s]]; [by destruct n|..].
  - destruct n as [|n]; [done|]. cbn [trim_start]. replace (String.prefix "0x" (String c1 EmptyString)) with false; [done|].
    unfold String.prefix. by case_match.
  - unfold plain in Hs. cbn in Hs. apply Forall_cons in Hs as [_ Hs]. apply Forall_cons in Hs as [[Hx _] _].
    by apply trim_0x_digit.
Qed.
Lemma trim_prefixed s : plain s -> trim_start_matches "0x" ("0x" +:+ s) = s.
Proof.
  intros Hs. change ("0x" +:+ s) with (String "0"%char (String "x"%char s)). unfold trim_start_matches. cbn [String.length trim_start].
  replace (String.prefix "0x" (String "0"%char (String "x"%char s))) with true by (cbn; by destruct s).
  change (drop_chars (String.length "0x") (String "0"%char (String "x"%char s))) with (drop_chars 0 s).
  replace (drop_chars 0 s) with s by (by destruct s). exact (trim_plain (S (String.length s)) s Hs).
Qed.

Lemma hex_digits_spec fuel z : 0 <= z < 2 ^ 64 -> z < 16 ^ Z.of_nat (S fuel) ->
  plain (hex_digits (S fuel) z) /\ hex_digits (S fuel) z <> EmptyString /\ radix16 (hex_digits (S fuel) z) 0 = Some z.
Proof.
  revert z. induction fuel as [|fuel IH]; intros z Hz Hf.
  - change (16 ^ Z.of_nat 1) with 16 in Hf. cbn [hex_digits]. rewrite (proj2 (Z.ltb_lt z 16)) by lia.
    split; [apply plain_digit; lia|]. destruct (hex_digit_text z ltac:(lia)) as (c & -> & Hv & _). split; [done|].
    cbn [radix16]. rewrite Hv. cbn [mbind option_bind]. rewrite (proj2 (Z.ltb_lt _ _)) by lia. f_equal; lia.
  - remember (S fuel) as f. cbn [hex_digits]. destruct (Z.ltb_spec z 16) as [Hlt|Hge].
    + split; [apply plain_digit; lia|]. destruct (hex_digit_text z ltac:(lia)) as (c & -> & Hv & _). split; [done|].
      cbn [radix16]. rewrite Hv. cbn [mbind option_bind]. rewrite (proj2 (Z.ltb_lt _ _)) by lia. f_equal; lia.
    + rewrite Nat2Z.inj_succ, Z.pow_succ_r in Hf by lia.
      pose proof (Z.div_mod z 16 ltac:(lia)). pose proof (Z.mod_pos_bound z 16 ltac:(lia)).
      destruct (IH (z / 16)) as (Hp & Hne & Hr); [lia|lia|].
      destruct (hex_digit_text (z mod 16) ltac:(lia)) as (c & Hd & Hv & Hx & Hpl). split_and!.
      * apply plain_app; [done|]. by apply plain_digit.
      * destruct (hex_digits f (z / 16)); [done|]. done.
      * rewrite radix16_app, Hr. cbn [mbind option_bind]. rewrite Hd. cbn [radix16]. rewrite Hv. cbn [mbind option_bind].
        rewrite (proj2 (Z.ltb_lt _ _)) by lia. f_equal; lia.
Qed.
Lemma u64_from_plain s : plain s -> s <> EmptyString -> u64_from_hex s = radix16 s 0.
Proof.
  intros Hs Hne. destruct s as [|c s]; [done|]. unfold u64_from_hex. apply Forall_cons in Hs as [[_ Hc] _].
  by rewrite (proj2 (Nat.eqb_neq _ _) Hc).
Qed.
(** What [{:x}] writes is what [from_str_radix] reads. *)
Lemma hex_number_read z : fits 64 z -> u64_from_hex (trim_start_matches "0x" (hex_number z)) = Some z.
Proof.
  intros Hz. unfold hex_number. change 32%nat with (S 31).
  assert (2 ^ 64 < 16 ^ Z.of_nat 32) by done. unfold fits in Hz.
  destruct (hex_digits_spec 31 z Hz ltac:(lia)) as (Hp & Hne & Hr). rewrite trim_prefixed by done. by rewrite u64_from_plain.
Qed.
Lemma hex_encode_plain b : Forall byte_ok b -> plain (hex_encode b).
Proof.
  induction 1 as [|x b Hx Hb IH]; [constructor|]. rewrite hex_encode_cons. destruct (byte_digits x Hx) as (H1 & H2 & _).
  repeat apply plain_app; auto using plain_digit.
Qed.
(** Byte strings written in hexadecimal are read back. *)
Lemma hex_text_read b : Forall byte_ok b -> hex_decode (trim_start_matches "0x" (hex_text b)) = Some b.
Proof. intros Hb. unfold hex_text. rewrite trim_prefixed by by apply hex_encode_plain. by apply hex_decode_encode. Qed.
