(* ===== verification/ApiService.v ===== *)
(** * The service layer of the API (src/api/mod.rs, the [BlockchainApi] of src/api/rpc.rs and src/api/rest.rs)

    Both servers answer through one set of calls on the storage, the mempool, the consensus engine and
    the network.  These are the class [NodeServices]; a call may change what stands behind it (a cache, the
    pool), so it is a computation on the node's state [W]. *)

From stdpp Require Import strings pretty.
From S2P Require Import Prelude Hashing Errors Types Block Floats Mempool Engine Messages Json.
Abbreviation length := List.length.

(** ** Configuration *)

Record ApiConfig : Type := mkApiConfig {
  api_enabled : bool;
  rest_enabled : bool;
  rpc_enabled : bool;
  ws_enabled : bool;
  rest_addr : string;
  rpc_addr : string;
  ws_addr : string;
  cors_allowed_origins : list string;
  max_request_body_size : Z;
  rate_limit_per_second : Z;
  enable_metrics : bool;
  enable_docs : bool
}.
Definition api_config_default : ApiConfig :=
  mkApiConfig true true true true "127.0.0.1:8080" "127.0.0.1:9332" "127.0.0.1:9334" ["*"%string] (10 * 1024 * 1024) 100 true true.

(** ** Answers *)

Module Info.
Record NetworkInfo : Type := mkNetworkInfo {
  node_id : Z; network_id : Z; peer_count : Z; is_listening : bool; protocol_version : string
}.
Record ConsensusStateInfo : Type := mkConsensusInfo {
  ci_height : Z; ci_round : Z; ci_state : string; ci_is_validator : bool; ci_is_proposer : bool
}.
Record ValidatorInfo : Type := mkValidatorInfo {
  vi_id : Z; vi_address : Address; vi_stake : Z; vi_voting_power : Z; vi_is_active : bool
}.
Record MempoolStats : Type := mkMempoolInfo {
  mi_size : Z; mi_total_size_bytes : Z; mi_avg_fee_per_byte : f64; mi_oldest_tx_age_secs : Z
}.
Record PeerInfo : Type := mkPeerInfo { pe_id : Z; pe_address : string; pe_best_height : Z; pe_latency_ms : Z }.
End Info.

Record ApiError : Type := mkApiError { ae_code : Z; ae_message : string; ae_data : option Value }.
Definition api_error_new (code : Z) (message : string) : ApiError := mkApiError code message None.
Definition with_data (data : Value) (e : ApiError) : ApiError := mkApiError (ae_code e) (ae_message e) (Some data).

Definition PARSE_ERROR : Z := -32700.
Definition INVALID_REQUEST : Z := -32600.
Definition METHOD_NOT_FOUND : Z := -32601.
Definition INVALID_PARAMS : Z := -32602.
Definition INTERNAL_ERROR : Z := -32603.
Definition BLOCK_NOT_FOUND : Z := -32000.
Definition TRANSACTION_NOT_FOUND : Z := -32001.
Definition ACCOUNT_NOT_FOUND : Z := -32002.
Definition INVALID_TRANSACTION : Z := -32003.
Definition MEMPOOL_FULL : Z := -32004.
Definition RATE_LIMITED : Z := -32005.

Record ApiResponse (T : Type) : Type := mkApiResponse {
  ar_jsonrpc : string; ar_id : Value; ar_result : option T; ar_error : option ApiError
}.
Arguments mkApiResponse {T}.
Definition response_success {T} (id : Value) (result : T) : ApiResponse T := mkApiResponse "2.0" id (Some result) None.
Definition response_error {T} (id : Value) (error : ApiError) : ApiResponse T := mkApiResponse "2.0" id None (Some error).

(** ** Pagination *)

Record Pagination : Type := mkPagination { pg_page : option Z; pg_limit : option Z }.
Definition pagination_default : Pagination := mkPagination (Some 1) (Some 20).
(** The offset takes the limit as asked for, the page its first hundred. *)
Definition pagination_offset `{BuildProfile} {E} (p : Pagination) : Outcome E Z :=
  mul_u64 (saturating_sub (default 1 (pg_page p)) 1) (default 20 (pg_limit p)).
Definition pagination_limit (p : Pagination) : Z := Z.min (default 20 (pg_limit p)) 100.

Record PaginatedResponse (T : Type) : Type := mkPaginated {
  pr_items : list T; pr_total : Z; pr_page : Z; pr_limit : Z; pr_has_next : bool
}.
Arguments mkPaginated {T}.
Arguments pr_items {T}.
Arguments pr_total {T}.
Arguments pr_page {T}.
Arguments pr_limit {T}.
Arguments pr_has_next {T}.

(** ** What stands behind the servers *)

Class NodeServices (W : Type) : Type := {
  ns_get_block : Z -> ST W PacyteError (option Block);
  ns_get_block_by_hash : Hash -> ST W PacyteError (option Block);
  ns_get_latest_block : ST W PacyteError (option Block);
  ns_get_block_height : ST W PacyteError Z;
  ns_get_transaction : Hash -> ST W PacyteError (option Transaction);
  ns_get_account : Address -> ST W PacyteError (option Account);
  ns_add_transaction : Transaction -> ST W PacyteError AddTxResult;
  ns_all_transactions : W -> list Transaction;
  ns_mempool_stats : W -> Mempool.MempoolStats;
  ns_current_height : W -> Z;
  ns_current_round : W -> Z;
  ns_state : W -> ConsensusState;
  ns_is_validator : W -> bool;
  ns_is_proposer : Z -> Z -> W -> PacyteResult bool;
  ns_peer_count : W -> Z;
  ns_connected_peers : W -> list Msg.PeerInfo
}.

(** [ConsensusState::to_string] prints the name of the variant. *)
Definition consensus_state_text (s : ConsensusState) : string :=
  match s with
  | Engine.Idle => "Idle" | Engine.Proposing => "Proposing" | Engine.Prevoting => "Prevoting"
  | Engine.Precommitting => "Precommitting" | Engine.Committed => "Committed"
  | Engine.WaitingForBlock => "WaitingForBlock" | Engine.Syncing => "Syncing"
  end.
Definition PROTOCOL_VERSION : string := "25.0.2".

(** The calls of [BlockchainApi], the same in [RpcApiImpl] and [RestApiImpl]. *)
Module BlockchainApi.
Section Calls.
Context {W : Type} `{NS : NodeServices W} `{S3 : Sha3}.
Abbreviation M := (ST W PacyteError).

Definition get_block_by_height (h : Z) : M (option Block) := ns_get_block h.
Definition get_block_by_hash (h : Hash) : M (option Block) := ns_get_block_by_hash h.
Definition get_latest_block : M (option Block) := ns_get_latest_block.
Definition get_block_height : M Z := ns_get_block_height.
Definition get_transaction (h : Hash) : M (option Transaction) := ns_get_transaction h.
(** The answer of the pool is dropped: only an error is reported. *)
Definition send_transaction (tx : Transaction) : M Hash :=
  fun w => match ns_add_transaction tx w with
           | (Ok _, w') => (Ok (tx_hash tx), w')
           | (Err e, w') => (Err (PE.Internal (error_text e)), w')
           | (Panic, w') => (Panic, w')
           | (Deadlock, w') => (Deadlock, w')
           end.
Definition get_pending_transactions : M (list Transaction) := sget ns_all_transactions.
Definition get_balance (a : Address) : M Z :=
  do! o := ns_get_account a in sret (match o with Some x => balance x | None => 0 end).
Definition get_account (a : Address) : M (option Account) := ns_get_account a.
Definition get_nonce (a : Address) : M Z :=
  do! o := ns_get_account a in sret (match o with Some x => acc_nonce x | None => 0 end).
Definition get_network_info : M Info.NetworkInfo :=
  sget (fun w => Info.mkNetworkInfo 1 1 (ns_peer_count w) true PROTOCOL_VERSION).
Definition get_peers : M (list Info.PeerInfo) :=
  sget (fun w => map (fun p => Info.mkPeerInfo (Msg.pi_id p) (Msg.pi_address p) (Msg.pi_best_height p) (Msg.latency_ms p))
                     (ns_connected_peers w)).
Definition get_consensus_state : M Info.ConsensusStateInfo :=
  do! p := fun w => (ns_is_proposer (ns_current_height w) (ns_current_round w) w, w) in
  sget (fun w => Info.mkConsensusInfo (ns_current_height w) (ns_current_round w) (consensus_state_text (ns_state w))
                   (ns_is_validator w) p).
Definition get_validators : M (list Info.ValidatorInfo) := sret [].
Definition get_mempool_stats : M Info.MempoolStats :=
  sget (fun w => let s := ns_mempool_stats w in
    Info.mkMempoolInfo (total_transactions s) (total_size_bytes s) (avg_fee_per_byte s) (oldest_tx_age_secs s)).
End Calls.
End BlockchainApi.

(** ** The servers *)

(** [ApiServer]: which of the three servers exist.  [start] makes them; the calls that would start
    them are commented out, so none listens.  [stop] of a server does nothing but, for the WebSocket server,
    send a shutdown signal that only a started server has. *)
Record ApiServer : Type := mkApiServer { as_config : ApiConfig; rest_server : bool; rpc_server : bool; ws_server : bool }.
Definition api_server_new (c : ApiConfig) : ApiServer := mkApiServer c false false false.
Definition api_server_start (s : ApiServer) : ApiServer :=
  if negb (api_enabled (as_config s)) then s
  else mkApiServer (as_config s) (rest_enabled (as_config s) || rest_server s) (rpc_enabled (as_config s) || rpc_server s)
         (ws_enabled (as_config s) || ws_server s).
