(* ===== verification/Rpc.v ===== *)
(** * JSON-RPC (src/api/rpc.rs)

    One request is checked, dispatched by its method name, and answered with a result or an error.  The web
    framework hands over a parsed request; a request it cannot parse never gets here. *)

From stdpp Require Import strings pretty.
From S2P Require Import Prelude Hashing Errors Types Block Floats Mempool Wal HashHelpers Json ApiService.
Abbreviation length := List.length.
Import BlockchainApi.

Record RpcRequest : Type := mkRpcRequest { rq_jsonrpc : string; rq_method : string; rq_params : option Value; rq_id : Value }.
Definition rpc_validate (r : RpcRequest) : bool := String.eqb (rq_jsonrpc r) "2.0".
Record RpcResponse : Type := mkRpcResponse { rs_jsonrpc : string; rs_id : Value; rs_result : option Value; rs_error : option ApiError }.

(** [bincode::deserialize::<Transaction>], [None] for its error. *)
Class BincodeTxReader : Type := bincode_read_tx : list Z -> option Transaction.

(** ** Reading parameters *)

Abbreviation RpcResult := (Outcome ApiError).
Definition invalid_params {A} (message : string) : RpcResult A := Err (api_error_new INVALID_PARAMS message).
Definition param_list (params : option Value) : RpcResult (list Value) :=
  match params with
  | None => invalid_params "Missing params"
  | Some v => match Json.as_array v with Some l => Ok l | None => invalid_params "Invalid params" end
  end.
(** [params.get(0).and_then(|v| v.as_str()).ok_or_else(..)]. *)
Definition text_param (l : list Value) (missing : string) : RpcResult string :=
  match l !! 0%nat ≫= Json.as_str with Some s => Ok s | None => invalid_params missing end.
Definition include_txs (l : list Value) : bool := default false (l !! 1%nat ≫= Json.as_bool).

Definition parse_block_number (v : Value) : RpcResult Z :=
  match v with
  | Json.Str s =>
      if String.eqb s "latest" || String.eqb s "earliest" || String.eqb s "pending" then Ok 0
      else match u64_from_hex (trim_start_matches "0x" s) with
           | Some h => Ok h
           | None => invalid_params "Invalid block number"
           end
  | Json.Num n => match Json.as_u64 n with Some h => Ok h | None => invalid_params "Invalid block number" end
  | _ => invalid_params "Invalid block number format"
  end.
Definition parse_bytes32 (wrong_length : string) (s : string) : RpcResult (list Z) :=
  match hex_decode (trim_start_matches "0x" s) with
  | None => invalid_params "Invalid hex"
  | Some b => if (length b =? 32)%nat then Ok b else invalid_params wrong_length
  end.
Definition parse_hash : string -> RpcResult Hash := parse_bytes32 "Hash must be 32 bytes".
Definition parse_address : string -> RpcResult Address := parse_bytes32 "Address must be 32 bytes".

(** ** Writing results *)

Section Rpc.
Context {W : Type} `{NS : NodeServices W} `{S3 : Sha3} `{Kc : Keccak} `{BR : BincodeTxReader}.
Abbreviation M := (ST W ApiError).

Definition field (name : string) (text : string) : string * Value := (name, Json.Str text).
Definition tx_to_rpc (tx : Transaction) : Value :=
  Json.Object [
    field "hash" (hex_text (tx_hash tx));
    field "nonce" (hex_number (tx_nonce tx));
    ("blockHash"%string, Json.Null);
    ("blockNumber"%string, Json.Null);
    ("transactionIndex"%string, Json.Null);
    field "from" (hex_text (tx_from tx));
    field "to" (hex_text (tx_to tx));
    field "value" (hex_number (amount tx));
    field "gas" "0x0";
    field "gasPrice" (hex_number (fee tx));
    field "input" "0x";
    field "v" "0x0";
    field "r" "0x0";
    field "s" "0x0";
    field "chainId" "0x1"
  ].
Definition block_to_rpc (b : Block) (with_txs : bool) : Value :=
  Json.Object [
    field "number" (hex_number (height (header b)));
    field "hash" (hex_text (block_hash b));
    field "parentHash" (hex_text (previous_hash (header b)));
    field "transactionsRoot" (hex_text (transactions_root_field (header b)));
    field "stateRoot" (hex_text (state_root (header b)));
    field "timestamp" (hex_number (timestamp (header b)));
    field "miner" (hex_text (proposer (header b)));
    field "size" (hex_number (block_size (header b)));
    field "gasLimit" "0x989680";
    field "gasUsed" "0x0";
    ("transactions"%string, Json.Array (if with_txs then map tx_to_rpc (transactions b)
                                       else map (fun tx => Json.Str (hex_text (tx_hash tx))) (transactions b)));
    ("uncles"%string, Json.Array [])
  ].
Definition receipt (hash : Hash) (tx : Transaction) : Value :=
  Json.Object [
    field "transactionHash" (hex_text hash);
    field "transactionIndex" "0x0";
    ("blockHash"%string, Json.Null);
    ("blockNumber"%string, Json.Null);
    field "from" (hex_text (tx_from tx));
    field "to" (hex_text (tx_to tx));
    field "cumulativeGasUsed" "0x0";
    field "gasUsed" "0x0";
    ("contractAddress"%string, Json.Null);
    ("logs"%string, Json.Array []);
    field "logsBloom" ("0x" +:+ String.concat "" (replicate 512 "0"%string));
    field "status" "0x1"
  ].
Definition network_to_json (i : Info.NetworkInfo) : Value :=
  Json.Object [
    ("node_id"%string, Json.nat_value (Info.node_id i)); ("network_id"%string, Json.nat_value (Info.network_id i));
    ("peer_count"%string, Json.nat_value (Info.peer_count i)); ("is_listening"%string, Json.Bool (Info.is_listening i));
    field "protocol_version" (Info.protocol_version i)
  ].
Definition consensus_to_json (i : Info.ConsensusStateInfo) : Value :=
  Json.Object [
    ("height"%string, Json.nat_value (Info.ci_height i)); ("round"%string, Json.nat_value (Info.ci_round i));
    field "state" (Info.ci_state i); ("is_validator"%string, Json.Bool (Info.ci_is_validator i));
    ("is_proposer"%string, Json.Bool (Info.ci_is_proposer i))
  ].
(** [json!(x)] of a number: one that is not finite becomes null. *)
Definition float_to_json (x : f64) : Value :=
  match x with SpecFloat.S754_nan | SpecFloat.S754_infinity _ => Json.Null | _ => Json.Num (Json.Float x) end.
Definition mempool_to_json (i : Info.MempoolStats) : Value :=
  Json.Object [
    ("size"%string, Json.nat_value (Info.mi_size i)); ("total_size_bytes"%string, Json.nat_value (Info.mi_total_size_bytes i));
    ("avg_fee_per_byte"%string, float_to_json (Info.mi_avg_fee_per_byte i));
    ("oldest_tx_age_secs"%string, Json.nat_value (Info.mi_oldest_tx_age_secs i))
  ].
Definition validator_to_json (v : Info.ValidatorInfo) : Value :=
  Json.Object [
    ("id"%string, Json.nat_value (Info.vi_id v)); ("address"%string, Json.Array (map Json.nat_value (Info.vi_address v)));
    ("stake"%string, Json.nat_value (Info.vi_stake v)); ("voting_power"%string, Json.nat_value (Info.vi_voting_power v));
    ("is_active"%string, Json.Bool (Info.vi_is_active v))
  ].

(** ** Methods *)

(** [map_err(|e| ApiError::new(INTERNAL_ERROR, e.to_string()))?]. *)
Definition internal {A} (c : ST W PacyteError A) : M A :=
  fun w => let '(r, w') := c w in
    (match r with
     | Ok a => Ok a
     | Err e => Err (api_error_new INTERNAL_ERROR (error_text e))
     | Panic => Panic
     | Deadlock => Deadlock
     end, w').
Definition found {A} (code : Z) (message : string) (o : option A) : RpcResult A :=
  match o with Some a => Ok a | None => Err (api_error_new code message) end.

Definition rpc_block_number : M Value := do! h := internal get_block_height in sret (Json.Str (hex_number h)).
Definition rpc_get_block_by_number (params : option Value) : M Value :=
  do! l := slift (param_list params) in
  do! p := slift (match l !! 0%nat with Some v => Ok v | None => invalid_params "Missing block number" end) in
  do! h := slift (parse_block_number p) in
  do! o := internal (get_block_by_height h) in
  do! b := slift (found BLOCK_NOT_FOUND "Block not found" o) in
  sret (block_to_rpc b (include_txs l)).
Definition rpc_get_block_by_hash (params : option Value) : M Value :=
  do! l := slift (param_list params) in
  do! s := slift (text_param l "Missing hash") in
  do! h := slift (parse_hash s) in
  do! o := internal (get_block_by_hash h) in
  do! b := slift (found BLOCK_NOT_FOUND "Block not found" o) in
  sret (block_to_rpc b (include_txs l)).
Definition rpc_get_transaction (params : option Value) : M Value :=
  do! l := slift (param_list params) in
  do! s := slift (text_param l "Missing hash") in
  do! h := slift (parse_hash s) in
  do! o := internal (get_transaction h) in
  do! tx := slift (found TRANSACTION_NOT_FOUND "Transaction not found" o) in
  sret (tx_to_rpc tx).
Definition rpc_send_transaction (params : option Value) : M Value :=
  do! l := slift (param_list params) in
  do! s := slift (text_param l "Missing raw transaction") in
  do! b := slift (match hex_decode (trim_start_matches "0x" s) with Some b => Ok b | None => invalid_params "Invalid hex" end) in
  do! tx := slift (match bincode_read_tx b with
                   | Some tx => Ok tx
                   | None => Err (api_error_new INVALID_TRANSACTION "Invalid transaction format")
                   end) in
  do! hash := internal (send_transaction tx) in
  sret (Json.Str (hex_text hash)).
Definition rpc_get_transaction_receipt (params : option Value) : M Value :=
  do! l := slift (param_list params) in
  do! s := slift (text_param l "Missing hash") in
  do! h := slift (parse_hash s) in
  do! o := internal (get_transaction h) in
  do! tx := slift (found TRANSACTION_NOT_FOUND "Transaction not found" o) in
  sret (receipt h tx).
Definition rpc_get_balance (params : option Value) : M Value :=
  do! l := slift (param_list params) in
  do! s := slift (text_param l "Missing address") in
  do! a := slift (parse_address s) in
  do! b := internal (get_balance a) in
  sret (Json.Str (hex_number b)).
Definition rpc_get_nonce (params : option Value) : M Value :=
  do! l := slift (param_list params) in
  do! s := slift (text_param l "Missing address") in
  do! a := slift (parse_address s) in
  do! n := internal (get_nonce a) in
  sret (Json.Str (hex_number n)).
Definition rpc_accounts : M Value := sret (Json.Array []).
Definition rpc_net_version : M Value := sret (Json.Str "1").
Definition rpc_peer_count : M Value :=
  do! peers := internal get_peers in sret (Json.Str (hex_number (Z.of_nat (length peers)))).
Definition rpc_chain_id : M Value := sret (Json.Str "0x1").
Definition rpc_syncing : M Value := sret (Json.Bool false).
Definition rpc_gas_price : M Value := sret (Json.Str "0x3b9aca00").
(** [crate::VERSION] is the version of the package. *)
Definition rpc_client_version (version : string) : M Value := sret (Json.Str ("PacyteNexus/v" +:+ version)).
Definition rpc_sha3 (params : option Value) : M Value :=
  do! l := slift (param_list params) in
  do! s := slift (text_param l "Missing data") in
  do! b := slift (match hex_decode (trim_start_matches "0x" s) with Some b => Ok b | None => invalid_params "Invalid hex" end) in
  sret (Json.Str (hex_text (keccak256 b))).
Definition rpc_get_validators : M Value :=
  do! l := internal get_validators in sret (Json.Array (map validator_to_json l)).
Definition rpc_get_consensus_state : M Value := do! s := internal get_consensus_state in sret (consensus_to_json s).
Definition rpc_get_mempool_stats : M Value := do! s := internal get_mempool_stats in sret (mempool_to_json s).
Definition rpc_get_network_info : M Value := do! i := internal get_network_info in sret (network_to_json i).

Definition rpc_dispatch (version method : string) (params : option Value) : M Value :=
  if String.eqb method "eth_blockNumber" then rpc_block_number
  else if String.eqb method "eth_getBlockByNumber" then rpc_get_block_by_number params
  else if String.eqb method "eth_getBlockByHash" then rpc_get_block_by_hash params
  else if String.eqb method "eth_getTransactionByHash" then rpc_get_transaction params
  else if String.eqb method "eth_sendRawTransaction" then rpc_send_transaction params
  else if String.eqb method "eth_getTransactionReceipt" then rpc_get_transaction_receipt params
  else if String.eqb method "eth_getBalance" then rpc_get_balance params
  else if String.eqb method "eth_getTransactionCount" then rpc_get_nonce params
  else if String.eqb method "eth_accounts" then rpc_accounts
  else if String.eqb method "net_version" then rpc_net_version
  else if String.eqb method "net_peerCount" then rpc_peer_count
  else if String.eqb method "eth_chainId" then rpc_chain_id
  else if String.eqb method "eth_syncing" then rpc_syncing
  else if String.eqb method "eth_gasPrice" then rpc_gas_price
  else if String.eqb method "web3_clientVersion" then rpc_client_version version
  else if String.eqb method "web3_sha3" then rpc_sha3 params
  else if String.eqb method "pacyte_getValidators" then rpc_get_validators
  else if String.eqb method "pacyte_getConsensusState" then rpc_get_consensus_state
  else if String.eqb method "pacyte_getMempoolStats" then rpc_get_mempool_stats
  else if String.eqb method "pacyte_getNetworkInfo" then rpc_get_network_info
  else sfail (api_error_new METHOD_NOT_FOUND ("Method not found: " +:+ method)).

(** A handler that panics or blocks gives no response. *)
Definition handle_rpc_request (version : string) (r : RpcRequest) (w : W) : option RpcResponse * W :=
  if negb (rpc_validate r) then
    (Some (mkRpcResponse "2.0" (rq_id r) None (Some (api_error_new INVALID_REQUEST "Invalid JSON-RPC request"))), w)
  else
    match rpc_dispatch version (rq_method r) (rq_params r) w with
    | (Ok v, w') => (Some (mkRpcResponse "2.0" (rq_id r) (Some v) None), w')
    | (Err e, w') => (Some (mkRpcResponse "2.0" (rq_id r) None (Some e)), w')
    | (_, w') => (None, w')
    end.
End Rpc.
