(* ===== verification/RpcProps.v ===== *)
(** * JSON-RPC: what every request gets, what handles mean, what changes the node *)

From stdpp Require Import strings pretty.
From S2P Require Import Prelude Hashing Errors Types Merkle Block Floats State Mempool Wal HashHelpers Json ApiService Rpc.
Abbreviation length := List.length.
Import BlockchainApi.

(** ** Every request is answered *)

(** A call that returns, with a value or an error, or panics where [P] holds; it never blocks. *)
Definition returns {W E A} (P : Prop) (c : ST W E A) : Prop :=
  forall w, match (c w).1 with Ok _ | Err _ => True | Panic => P | Deadlock => False end.
(** What the API relies on: reads return, and a submission or the question for the proposer panics where [P] holds only. *)
Class NodeReturns (W : Type) (P : Prop) `{NodeServices W} : Prop := {
  block_returns : forall h, returns False (ns_get_block h);
  block_by_hash_returns : forall h, returns False (ns_get_block_by_hash h);
  latest_returns : returns False ns_get_latest_block;
  height_returns : returns False ns_get_block_height;
  transaction_returns : forall h, returns False (ns_get_transaction h);
  account_returns : forall a, returns False (ns_get_account a);
  add_returns : forall tx, returns P (ns_add_transaction tx);
  proposer_returns : returns P (fun w => (ns_is_proposer (ns_current_height w) (ns_current_round w) w, w))
}.

Definition rpc_codes : list Z :=
  [INVALID_REQUEST; METHOD_NOT_FOUND; INVALID_PARAMS; INTERNAL_ERROR; BLOCK_NOT_FOUND; TRANSACTION_NOT_FOUND; INVALID_TRANSACTION].

Section Answers.
Context {W : Type} (P : Prop).
Definition coded {A} (r : RpcResult A) : Prop :=
  match r with Ok _ => True | Err e => ae_code e ∈ rpc_codes | Panic => P | Deadlock => False end.
Definition answering {A} (c : ST W ApiError A) : Prop := forall w, coded (c w).1.

Lemma answering_bind {A B} (c : ST W ApiError A) (k : A -> ST W ApiError B) :
  answering c -> (forall a, answering (k a)) -> answering (sbind c k).
Proof.
  intros Hc Hk w. unfold sbind. specialize (Hc w). destruct (c w) as [[a|e| |] w']; cbn in *; [apply Hk|done..].
Qed.
Lemma answering_slift {A} (r : RpcResult A) : coded r -> answering (slift r).
Proof. intros Hr w. exact Hr. Qed.
Lemma answering_sret {A} (a : A) : answering (sret a).
Proof. by intros w. Qed.
Lemma answering_internal {A} (c : ST W PacyteError A) : returns P c -> answering (internal c).
Proof.
  intros Hc w. unfold internal. specialize (Hc w). destruct (c w) as [[a|e| |] w']; cbn in *; try done.
  do 3 right. left.
Qed.
Lemma returns_bind {E A B} (c : ST W E A) (k : A -> ST W E B) :
  returns P c -> (forall a, returns P (k a)) -> returns P (sbind c k).
Proof.
  intros Hc Hk w. unfold sbind. specialize (Hc w). destruct (c w) as [[a|e| |] w']; cbn in *; [apply Hk|done..].
Qed.
Lemma sget_returns {A} (f : W -> A) : returns (E := PacyteError) P (sget f).
Proof. by intros w. Qed.
Lemma sret_returns {A} (a : A) : returns (W := W) (E := PacyteError) P (sret a).
Proof. by intros w. Qed.
Lemma returns_False {E A} (c : ST W E A) : returns False c -> returns P c.
Proof. intros Hc w. specialize (Hc w). by destruct (c w).1. Qed.
Lemma coded_invalid {A} m : coded (A := A) (invalid_params m).
Proof. do 2 right. left. Qed.
Lemma coded_params p : coded (param_list p).
Proof. destruct p as [v|]; [|apply coded_invalid]. unfold param_list. destruct (Json.as_array v); [done|apply coded_invalid]. Qed.
Lemma coded_text l m : coded (text_param l m).
Proof. unfold text_param. destruct (_ ≫= _); [done|apply coded_invalid]. Qed.
Lemma coded_bytes m s : coded (parse_bytes32 m s).
Proof. unfold parse_bytes32. destruct (hex_decode _); [|apply coded_invalid]. destruct (_ =? _)%nat; [done|apply coded_invalid]. Qed.
Lemma coded_number v : coded (parse_block_number v).
Proof.
  destruct v as [| |n|s| |]; try apply coded_invalid; unfold parse_block_number.
  - destruct (Json.as_u64 n); [done|apply coded_invalid].
  - destruct (_ || _); [done|]. destruct (u64_from_hex _); [done|apply coded_invalid].
Qed.
Lemma coded_found {A} c m (o : option A) : c ∈ rpc_codes -> coded (found c m o).
Proof. intros Hc. by destruct o. Qed.
Lemma coded_option {A} (o : option A) m : coded (match o with Some b => Ok b | None => invalid_params m end).
Proof. destruct o; [done|apply coded_invalid]. Qed.

End Answers.

Lemma parse_tx_hash `{Sha3} (tx : Transaction) : parse_hash (hex_text (tx_hash tx)) = Ok (tx_hash tx).
Proof.
  unfold parse_hash, parse_bytes32. destruct (sha3_256_ok (sighash tx ++ signature tx)) as [Hlen Hok].
  unfold tx_hash. rewrite hex_text_read by done. by rewrite Hlen.
Qed.

Section RpcProps.
Context {W : Type} `{NS : NodeServices W} `{S3 : Sha3} `{Kc : Keccak} `{BR : BincodeTxReader}.

Create HintDb rpc.
#[local] Hint Resolve answering_bind answering_slift answering_sret answering_internal returns_bind coded_invalid coded_params
  coded_text coded_bytes coded_number coded_option : rpc.

Section Dispatch.
Context (P : Prop) `{NR : !NodeReturns W P}.

Lemma send_returns (tx : Transaction) : returns P (send_transaction tx).
Proof. intros w. unfold send_transaction. pose proof (add_returns (P := P) tx w) as Ha. by destruct (ns_add_transaction tx w) as [[]]. Qed.
Lemma coded_mono {A} (Q : Prop) (r : RpcResult A) : (P -> Q) -> coded P r -> coded Q r.
Proof. destruct r; cbn; tauto. Qed.
#[local] Hint Resolve send_returns sget_returns sret_returns : rpc.
#[local] Hint Extern 1 (returns _ (ns_add_transaction _)) => apply (add_returns (P := P)) : rpc.
#[local] Hint Extern 1 (returns _ (fun w => (ns_is_proposer _ _ w, w))) => apply (proposer_returns (P := P)) : rpc.
#[local] Hint Extern 2 (returns _ _) => apply returns_False;
  first [apply (block_returns (P := P)) | apply (block_by_hash_returns (P := P)) | apply (latest_returns (P := P))
        | apply (height_returns (P := P)) | apply (transaction_returns (P := P)) | apply (account_returns (P := P))] : rpc.
#[local] Hint Extern 1 (coded _ (found _ _ _)) => apply coded_found; unfold rpc_codes; set_solver : rpc.

(** The two calls that compute with what the request or the engine holds. *)
Definition computing_methods : list string := ["eth_sendRawTransaction"; "pacyte_getConsensusState"]%string.
Lemma dispatch_answers version method params : answering (P /\ method ∈ computing_methods) (rpc_dispatch version method params).
Proof.
  unfold rpc_dispatch.
  repeat match goal with |- answering _ (if String.eqb ?m ?n then _ else _) => destruct (String.eqb_spec m n) as [->|_] end;
    lazymatch goal with
    | |- answering _ (rpc_send_transaction _) => intros w; apply (coded_mono (A := Value)); [intros HP; split; [exact HP|set_solver]|revert w; change (answering P (rpc_send_transaction params))]
    | |- answering _ rpc_get_consensus_state => intros w; apply (coded_mono (A := Value)); [intros HP; split; [exact HP|set_solver]|revert w; change (answering P rpc_get_consensus_state)]
    | _ => idtac
    end;
    [unfold rpc_block_number, rpc_get_block_by_number, rpc_get_block_by_hash, rpc_get_transaction, rpc_send_transaction,
       rpc_get_transaction_receipt, rpc_get_balance, rpc_get_nonce, rpc_accounts, rpc_net_version, rpc_peer_count, rpc_chain_id,
       rpc_syncing, rpc_gas_price, rpc_client_version, rpc_sha3, rpc_get_validators, rpc_get_consensus_state, rpc_get_mempool_stats,
       rpc_get_network_info, get_block_height, get_block_by_height, get_block_by_hash, get_transaction, get_balance, get_nonce,
       get_peers, get_validators, get_consensus_state, get_mempool_stats, get_network_info, parse_hash, parse_address;
     repeat (first [apply answering_bind; [|intros] | apply answering_slift | apply answering_sret | apply answering_internal]);
     try exact I; eauto with rpc..|].
  - destruct (bincode_read_tx _); [done|]. cbn. unfold rpc_codes. set_solver.
  - intros w. cbn. unfold rpc_codes. set_solver.
Qed.

(** A proper response to [r]: its id, a result or an error but not both, a documented code; the node untouched when the
    protocol version is another. *)
Definition answers (r : RpcRequest) (w : W) (resp : RpcResponse) (w' : W) : Prop :=
  rs_jsonrpc resp = "2.0"%string /\ rs_id resp = rq_id r
  /\ (is_Some (rs_result resp) <-> rs_error resp = None) /\ (forall e, rs_error resp = Some e -> ae_code e ∈ rpc_codes)
  /\ (rq_jsonrpc r <> "2.0"%string -> w' = w /\ rs_result resp = None).

(** Every request is answered, or one of the two computing methods panicked. *)
Lemma rpc_answers (version : string) (r : RpcRequest) (w : W) :
  match handle_rpc_request version r w with
  | (Some resp, w') => answers r w resp w'
  | (None, _) => P /\ rq_method r ∈ computing_methods
  end.
Proof.
  unfold handle_rpc_request, rpc_validate, answers. destruct (String.eqb_spec (rq_jsonrpc r) "2.0") as [Hv|Hv]; cbn [negb].
  - pose proof (dispatch_answers version (rq_method r) (rq_params r) w) as Hd.
    destruct (rpc_dispatch version (rq_method r) (rq_params r) w) as [[v|e| |] w']; cbn in Hd |- *; try done;
      (split_and!; try done; try (by intros [? ?]); try (by intros e' [= <-]); eauto).
  - cbn. split_and!; try done; try (by intros [? ?]). intros e [= <-]. cbn. unfold rpc_codes. set_solver.
Qed.
End Dispatch.
(** ** Handles *)

(** The texts the node hands out are read back as what they stand for: the height reported by eth_blockNumber selects the
    block of that height, and the hash returned for a sent transaction selects that transaction. *)
Theorem rpc_handles_roundtrip (w w1 w2 : W) (h : Z) (b : option Block) (full : bool) (tx : Transaction) :
  fits 64 h -> get_block_height w = (Ok h, w1) -> get_block_by_height h w1 = (Ok b, w2) ->
  rpc_block_number w = (Ok (Json.Str (hex_number h)), w1)
  /\ rpc_get_block_by_number (Some (Json.Array [Json.Str (hex_number h); Json.Bool full])) w1
     = (match b with Some b => Ok (block_to_rpc b full) | None => Err (api_error_new BLOCK_NOT_FOUND "Block not found") end, w2)
  /\ parse_hash (hex_text (tx_hash tx)) = Ok (tx_hash tx).
Proof.
  intros Hh Hw Hb. split_and!.
  - unfold rpc_block_number, sbind, internal. by rewrite Hw.
  - unfold rpc_get_block_by_number, sbind, slift. cbn -[hex_number].
    assert (Hn : (hex_number h =? "latest")%string || (hex_number h =? "earliest")%string || (hex_number h =? "pending")%string = false) by done.
    rewrite Hn, hex_number_read by done. unfold internal. rewrite Hb. by destruct b.
  - apply parse_tx_hash.
Qed.

(** The block tags do not mean what they say: "latest" and "pending" name block zero, in every state of the node. *)
Theorem rpc_latest_is_block_zero (version : string) (id : Value) (rest : list Value) (w : W) :
  let ask tag := handle_rpc_request version
    (mkRpcRequest "2.0" "eth_getBlockByNumber" (Some (Json.Array (Json.Str tag :: rest))) id) w in
  ask "latest"%string = ask "0x0"%string /\ ask "pending"%string = ask "0x0"%string.
Proof. by split. Qed.

(** ** What changes the node *)

Section Reads.
Context (R : W -> W -> Prop) `{!PreOrder R}.
Context (R_block : forall h, keeps R (ns_get_block h)) (R_block_by_hash : forall h, keeps R (ns_get_block_by_hash h))
  (R_height : keeps R ns_get_block_height) (R_tx : forall h, keeps R (ns_get_transaction h))
  (R_account : forall a, keeps R (ns_get_account a)).

Lemma keeps_internal {A} (c : ST W PacyteError A) : keeps R c -> keeps R (internal c).
Proof. intros Hc s r s'. unfold internal. destruct (c s) as [r0 s0] eqn:E. intros [= <- <-]. by eapply Hc. Qed.

(** Only eth_sendRawTransaction can change more of the node than the reads of the storage do: every relation between
    states that those reads keep is kept by every other request. *)
Theorem rpc_only_send_writes (version : string) (r : RpcRequest) (w w' : W) (resp : option RpcResponse) :
  rq_method r <> "eth_sendRawTransaction"%string -> handle_rpc_request version r w = (resp, w') -> R w w'.
Proof.
  intros Hm. unfold handle_rpc_request. destruct (rpc_validate r); cbn [negb]; [|intros [= <- <-]; reflexivity].
  assert (Hk : keeps R (rpc_dispatch version (rq_method r) (rq_params r))).
  { unfold rpc_dispatch.
    destruct (String.eqb_spec (rq_method r) "eth_sendRawTransaction") as [|_]; [done|].
    repeat match goal with |- keeps R (if ?b then _ else _) => destruct b end.
    all: unfold rpc_block_number, rpc_get_block_by_number, rpc_get_block_by_hash, rpc_get_transaction,
       rpc_get_transaction_receipt, rpc_get_balance, rpc_get_nonce, rpc_peer_count, rpc_sha3, rpc_get_validators, rpc_get_consensus_state,
       rpc_get_mempool_stats, rpc_get_network_info, get_balance, get_nonce.
    all: repeat (first [apply keeps_bind; [apply _| |intros] | apply keeps_internal | keeps_leaf]); auto. }
  destruct (rpc_dispatch version (rq_method r) (rq_params r) w) as [[v|e| |] w1] eqn:E; intros [= <- <-]; by eapply Hk.
Qed.
End Reads.

(** eth_sendRawTransaction answers with the hash whenever the pool returns without an error: a transaction the pool
    rejected is reported like one it added. *)
Theorem rpc_send_ignores_rejection (s : string) (b : list Z) (tx : Transaction) (w w' : W) (r : PacyteResult AddTxResult) :
  hex_decode (trim_start_matches "0x" s) = Some b -> bincode_read_tx b = Some tx -> ns_add_transaction tx w = (r, w') ->
  rpc_send_transaction (Some (Json.Array [Json.Str s])) w =
    (match r with
     | Ok _ => Ok (Json.Str (hex_text (tx_hash tx)))
     | Err e => Err (api_error_new INTERNAL_ERROR ("Internal error: " +:+ error_text e))
     | Panic => Panic
     | Deadlock => Deadlock
     end, w').
Proof.
  intros Hs Hb Ha. unfold rpc_send_transaction, sbind, slift. cbn -[trim_start_matches]. rewrite Hs, Hb.
  unfold internal, send_transaction. rewrite Ha. by destruct r.
Qed.
End RpcProps.

(** ** A node of the memory storage and the mempool *)

Section PoolNode.
Context `{BP : BuildProfile} `{S3 : Sha3} `{Sig : Signatures} `{BT : BincodeTx} `{Bin : Bincode} `{Iter : !HashMapIter Hash PooledTx}.
Definition stored_in {A} (f : MemoryStorage -> A) (w : MempoolImpl MemoryStorage) : PacyteResult A * MempoolImpl MemoryStorage :=
  (Ok (f (sm_storage (mp_state w))), w).
(** The API's storage is the one behind the state manager of the pool; consensus and network are idle. *)
Definition pool_node (now : Z) : NodeServices (MempoolImpl MemoryStorage) := {|
  ns_get_block := fun h => stored_in (ms_get_block h);
  ns_get_block_by_hash := fun h => stored_in (ms_get_block_by_hash h);
  ns_get_latest_block := stored_in ms_get_latest_block;
  ns_get_block_height := stored_in ms_get_block_height;
  ns_get_transaction := fun h => stored_in (ms_get_transaction h);
  ns_get_account := fun a w => (ms_get_account a (sm_storage (mp_state w)), w);
  ns_add_transaction := @pool_add_transaction _ (memory_storage now) BP S3 Sig BT Iter now;
  ns_all_transactions := get_all_transactions;
  ns_mempool_stats := mp_stats;
  ns_current_height := fun w => ms_get_block_height (sm_storage (mp_state w));
  ns_current_round := fun _ => 0;
  ns_state := fun _ => Engine.Idle;
  ns_is_validator := fun _ => false;
  ns_is_proposer := fun _ _ _ => Ok false;
  ns_peer_count := fun _ => 0;
  ns_connected_peers := fun _ => []
|}.
End PoolNode.

(** ** Witnesses *)

Section RpcWitnesses.
#[local] Existing Instance release_profile.
#[local] Existing Instance toy_sha3.
#[local] Existing Instance key_order.
#[local] Instance rpc_no_bincode : Bincode := fun _ => None.
#[local] Instance rpc_bincode_tx : BincodeTx := fun _ => Some (replicate 10 0).
#[local] Instance rpc_signatures : Signatures := {| ed25519_verify _ _ _ := false; dilithium5_verify _ _ _ := false |}.
#[local] Instance rpc_node : NodeServices (MempoolImpl MemoryStorage) := pool_node 100.
Definition forged_tx : Transaction := mkTx (replicate 32 1) (replicate 32 2) 10 20 1 [9] 100.
#[local] Instance forged_reader : BincodeTxReader := fun b => if bool_decide (b = [171]) then Some forged_tx else None.
#[local] Instance toy_keccak : Keccak := {| keccak256 := sha3_256; keccak256_ok := sha3_256_ok |}.

Definition first_block : Block := mkBlock (mkHeader 0 zero_hash zero_hash zero_hash 7 zero_address 0 0 []) [].
Definition rpc_state : MempoolImpl MemoryStorage :=
  mempool_new default_pool_config (state_manager_new (set_ms_blocks [first_block] memory_storage_new)).

Lemma rpc_handles_roundtrip_witness :
  parse_hash (hex_text (tx_hash forged_tx)) = Ok (tx_hash forged_tx)
  /\ rpc_get_block_by_number (Some (Json.Array [Json.Str (hex_number 0); Json.Bool false])) rpc_state
     = (Ok (block_to_rpc first_block false), rpc_state).
Proof.
  destruct (rpc_handles_roundtrip rpc_state rpc_state rpc_state 0 (Some first_block) false forged_tx) as (_ & H2 & H3);
    [by vm_compute|reflexivity|reflexivity|]. by split.
Defined.

(** A transaction without a valid signature: the pool refuses it, the caller gets its hash. *)
Lemma rpc_send_ignores_rejection_witness :
  (ns_add_transaction forged_tx rpc_state).1 = Ok (Rejected "Invalid signature")
  /\ (rpc_send_transaction (Some (Json.Array [Json.Str "0xab"])) rpc_state).1 = Ok (Json.Str (hex_text (tx_hash forged_tx)))
  /\ ns_all_transactions (rpc_send_transaction (Some (Json.Array [Json.Str "0xab"])) rpc_state).2 = [].
Proof.
  assert (Hr : (ns_add_transaction forged_tx rpc_state).1 = Ok (Rejected "Invalid signature")) by (vm_compute; reflexivity).
  assert (Hp : ns_all_transactions (ns_add_transaction forged_tx rpc_state).2 = []) by (vm_compute; reflexivity).
  rewrite (rpc_send_ignores_rejection "0xab" [171] forged_tx rpc_state (ns_add_transaction forged_tx rpc_state).2
    (ns_add_transaction forged_tx rpc_state).1); [|reflexivity|reflexivity|apply surjective_pairing].
  rewrite Hr. by split_and!.
Defined.

Lemma rpc_only_send_writes_witness :
  (handle_rpc_request "1.0" (mkRpcRequest "2.0" "eth_getBalance" (Some (Json.Array [Json.Str "0x00"])) Json.Null) rpc_state).2 = rpc_state.
Proof.
  symmetry. refine (rpc_only_send_writes eq _ _ _ _ _ "1.0" _ rpc_state _ _ _ (surjective_pairing _)); try done;
    intros; intros ? ? ? [= <- <-]; done.
Defined.

End RpcWitnesses.
