(* ===== verification/Rest.v ===== *)
(** * REST (src/api/rest.rs)

    The routes and the handlers behind them.  What the web framework does before a handler runs (parsing a
    height, a query or a body) is either done or ends in a refusal of its own, [Refused]. *)

From stdpp Require Import strings pretty.
From S2P Require Import Prelude Hashing Errors Types Block Floats Mempool Wal HashHelpers Json ApiService.
Abbreviation length := List.length.
Import BlockchainApi.

Inductive StatusCode : Type := OK | BAD_REQUEST | UNAUTHORIZED | NOT_FOUND | METHOD_NOT_ALLOWED | INTERNAL_SERVER_ERROR.

Inductive Body : Type :=
| BText (s : string)
| BBlock (b : Block)
| BBlocks (p : PaginatedResponse Block)
| BTransaction (t : Transaction)
| BTransactions (l : list Transaction)
| BSent (hash : string)
| BAccount (x : Account)
| BBalance (address : string) (balance : Z)
| BNetwork (i : Info.NetworkInfo)
| BPeers (l : list Info.PeerInfo)
| BConsensus (i : Info.ConsensusStateInfo)
| BValidators (l : list Info.ValidatorInfo)
| BMempool (i : Info.MempoolStats)
| BHealth (status version : string) (timestamp : Z)
| BMarkdown
| BError (error : string)
| BEmpty.
Inductive Response : Type := Respond (s : StatusCode) (b : Body) | Refused.

Definition error_status (e : PacyteError) : StatusCode :=
  match e with
  | PE.BlockNotFound _ | PE.AccountNotFound _ => NOT_FOUND
  | PE.InsufficientBalance _ _ => BAD_REQUEST
  | PE.InvalidSignature => UNAUTHORIZED
  | _ => INTERNAL_SERVER_ERROR
  end.
Definition error_response (e : PacyteError) : Response := Respond (error_status e) (BError (error_text e)).

(** ** Routes *)

Inductive Method : Type := GET | POST.
#[export] Instance Method_eq_dec : EqDecision Method.
Proof. solve_decision. Defined.
Inductive Endpoint : Type :=
| ELatestBlock | EBlock (height : string) | EBlockByHash (hash : string) | EBlocks
| ETransaction (hash : string) | ESend | EPending
| EAccount (address : string) | EBalance (address : string)
| ENetworkInfo | EPeers | EConsensus | EValidators | EMempool | EHealth | EDocs.

(** The paths below [/api/v1]; a fixed segment goes before a parameter. *)
Definition route_v1 (path : list string) : option (Method * Endpoint) :=
  match path with
  | [a] =>
      if String.eqb a "blocks" then Some (GET, EBlocks)
      else if String.eqb a "transactions" then Some (POST, ESend)
      else if String.eqb a "health" then Some (GET, EHealth)
      else if String.eqb a "docs" then Some (GET, EDocs)
      else None
  | [a; b] =>
      if String.eqb a "blocks" then Some (GET, if String.eqb b "latest" then ELatestBlock else EBlock b)
      else if String.eqb a "transactions" then Some (GET, if String.eqb b "pending" then EPending else ETransaction b)
      else if String.eqb a "accounts" then Some (GET, EAccount b)
      else if String.eqb a "network" then
        (if String.eqb b "info" then Some (GET, ENetworkInfo) else if String.eqb b "peers" then Some (GET, EPeers) else None)
      else if String.eqb a "consensus" then
        (if String.eqb b "state" then Some (GET, EConsensus) else if String.eqb b "validators" then Some (GET, EValidators) else None)
      else if String.eqb a "mempool" then (if String.eqb b "stats" then Some (GET, EMempool) else None)
      else None
  | [a; b; c] =>
      if String.eqb a "blocks" && String.eqb b "hash" then Some (GET, EBlockByHash c)
      else if String.eqb a "accounts" && String.eqb c "balance" then Some (GET, EBalance b)
      else None
  | _ => None
  end.
Definition create_router (path : list string) : option (Method * Endpoint) :=
  match path with
  | [a] => if String.eqb a "health" then Some (GET, EHealth) else None
  | a :: v :: rest => if String.eqb a "api" && String.eqb v "v1" then route_v1 rest else None
  | [] => None
  end.

(** ** Handlers *)

(** [None] for a query or body the framework could not read. *)
Record Request : Type := mkRequest {
  rq_http_method : Method; rq_path : list string; rq_query : option Pagination; rq_body : option Transaction
}.

Section Rest.
Context {W : Type} `{NS : NodeServices W} `{S3 : Sha3} `{BP : BuildProfile}.
Abbreviation M := (ST W PacyteError).

(** [match api.call().await { Ok(a) => .., Err(e) => error_response(e) }]. *)
Definition respond {A} (c : M A) (f : A -> Response) : M Response :=
  fun w => match c w with
           | (Ok a, w') => (Ok (f a), w')
           | (Err e, w') => (Ok (error_response e), w')
           | (Panic, w') => (Panic, w')
           | (Deadlock, w') => (Deadlock, w')
           end.
Definition json (b : Body) : Response := Respond OK b.
Definition text (s : StatusCode) (t : string) : Response := Respond s (BText t).

Definition hash_param (s : string) : option Hash :=
  match hex_decode (trim_start_matches "0x" s) with
  | Some h => if (length h =? 32)%nat then Some h else None
  | None => None
  end.
Definition rest_parse_address (s : string) : Response + Address :=
  match hex_decode (trim_start_matches "0x" s) with
  | None => inl (text BAD_REQUEST "Invalid hex address")
  | Some b => if (length b =? 32)%nat then inr b else inl (text BAD_REQUEST "Address must be 32 bytes")
  end.

Definition rest_latest_block : M Response :=
  respond get_latest_block (fun o => match o with Some b => json (BBlock b) | None => text NOT_FOUND "No blocks found" end).
Definition rest_block_by_height (h : Z) : M Response :=
  respond (get_block_by_height h) (fun o => match o with
    | Some b => json (BBlock b)
    | None => text NOT_FOUND ("Block " +:+ pretty h +:+ " not found")
    end).
Definition rest_block_by_hash (s : string) : M Response :=
  match hash_param s with
  | Some h => respond (get_block_by_hash h) (fun o => match o with
                | Some b => json (BBlock b) | None => text NOT_FOUND "Block not found" end)
  | None => sret (text BAD_REQUEST "Invalid hash format")
  end.

(** [(0..=height).rev().skip(offset).take(limit)]. *)
Definition page_heights (top offset limit : Z) : list Z :=
  take (Z.to_nat limit) (drop (Z.to_nat offset) (rev (map Z.of_nat (seq 0 (Z.to_nat (top + 1)))))).
(** The blocks that can be read; others are left out. *)
Fixpoint read_blocks (heights : list Z) : M (list Block) :=
  match heights with
  | [] => sret []
  | h :: heights => fun w =>
      match get_block_by_height h w with
      | (Ok (Some b), w') => (do! l := read_blocks heights in sret (b :: l)) w'
      | (Ok None, w') | (Err _, w') => read_blocks heights w'
      | (Panic, w') => (Panic, w')
      | (Deadlock, w') => (Deadlock, w')
      end
  end.
Definition height_or_zero : M Z :=
  fun w => match get_block_height w with (Err _, w') => (Ok 0, w') | r => r end.
Definition rest_blocks (p : Pagination) : M Response :=
  do! top := height_or_zero in
  let limit := pagination_limit p in
  do! offset := slift (pagination_offset p) in
  do! blocks := read_blocks (page_heights top offset limit) in
  do! total := slift (add_u64 top 1) in
  do! last := slift (add_u64 offset limit) in
  sret (json (BBlocks (mkPaginated blocks total (default 1 (pg_page p)) limit (last <=? top)))).

Definition rest_transaction (s : string) : M Response :=
  match hash_param s with
  | Some h => respond (get_transaction h) (fun o => match o with
                | Some t => json (BTransaction t) | None => text NOT_FOUND "Transaction not found" end)
  | None => sret (text BAD_REQUEST "Invalid hash format")
  end.
Definition rest_send (tx : Transaction) : M Response :=
  respond (send_transaction tx) (fun h => json (BSent (hex_text h))).
Definition rest_pending : M Response := respond get_pending_transactions (fun l => json (BTransactions l)).
Definition rest_account (s : string) : M Response :=
  match rest_parse_address s with
  | inr a => respond (get_account a) (fun o => match o with
               | Some x => json (BAccount x) | None => text NOT_FOUND "Account not found" end)
  | inl r => sret r
  end.
Definition rest_balance (s : string) : M Response :=
  match rest_parse_address s with
  | inr a => respond (get_balance a) (fun b => json (BBalance s b))
  | inl r => sret r
  end.
Definition rest_network_info : M Response := respond get_network_info (fun i => json (BNetwork i)).
Definition rest_peers : M Response := respond get_peers (fun l => json (BPeers l)).
Definition rest_consensus_state : M Response := respond get_consensus_state (fun i => json (BConsensus i)).
Definition rest_validators : M Response := respond get_validators (fun l => json (BValidators l)).
Definition rest_mempool_stats : M Response := respond get_mempool_stats (fun i => json (BMempool i)).
Definition health_check (version : string) (now : Z) : M Response := sret (json (BHealth "ok" version now)).
Definition get_docs : M Response := sret (Respond OK BMarkdown).

Definition serve (version : string) (now : Z) (r : Request) (e : Endpoint) : M Response :=
  match e with
  | ELatestBlock => rest_latest_block
  | EBlock s => match parse_u64 s with Some h => rest_block_by_height h | None => sret Refused end
  | EBlockByHash s => rest_block_by_hash s
  | EBlocks => match rq_query r with Some p => rest_blocks p | None => sret Refused end
  | ETransaction s => rest_transaction s
  | ESend => match rq_body r with Some tx => rest_send tx | None => sret Refused end
  | EPending => rest_pending
  | EAccount s => rest_account s
  | EBalance s => rest_balance s
  | ENetworkInfo => rest_network_info
  | EPeers => rest_peers
  | EConsensus => rest_consensus_state
  | EValidators => rest_validators
  | EMempool => rest_mempool_stats
  | EHealth => health_check version now
  | EDocs => get_docs
  end.
Definition rest_handle (version : string) (now : Z) (r : Request) : M Response :=
  match create_router (rq_path r) with
  | None => sret (Respond NOT_FOUND BEmpty)
  | Some (m, e) => if decide (m = rq_http_method r) then serve version now r e else sret (Respond METHOD_NOT_ALLOWED BEmpty)
  end.
End Rest.
