(* ===== verification/RestProps.v ===== *)
(** * REST: pages of blocks, and what changes the node *)

From stdpp Require Import strings pretty.
From S2P Require Import Prelude Hashing Errors Types Merkle Block Floats State Mempool Wal HashHelpers Json ApiService Rpc RpcProps Rest.
Abbreviation length := List.length.
Import BlockchainApi.

(** ** Pages of a list *)

Definition page {A} (l : list A) (size k : nat) : list A := take size (drop (k * size) l).
Lemma pages_concat {A} (l : list A) size k n : (length l <= (k + n) * size)%nat ->
  concat (map (page l size) (seq k n)) = drop (k * size) l.
Proof.
  revert k. induction n as [|n IH]; intros k Hl; cbn.
  - rewrite drop_ge; [done|lia].
  - rewrite IH by lia. unfold page. replace (S k * size)%nat with (k * size + size)%nat by lia.
    rewrite <- drop_drop. apply take_drop.
Qed.

Definition descending (top : Z) : list Z := rev (map Z.of_nat (seq 0 (Z.to_nat (top + 1)))).
Lemma length_descending top : length (descending top) = Z.to_nat (top + 1).
Proof. unfold descending. by rewrite length_rev, length_map, length_seq. Qed.
Lemma descending_lookup top (i : nat) h : 0 <= top -> descending top !! i = Some h -> h = top - Z.of_nat i /\ Z.of_nat i <= top.
Proof.
  intros Ht Hi. pose proof (lookup_lt_Some _ _ _ Hi) as Hlt. rewrite length_descending in Hlt. split; [|lia].
  unfold descending in Hi. rewrite rev_alt in Hi.
  change (reverse (Z.of_nat <$> seq 0 (Z.to_nat (top + 1))) !! i = Some h) in Hi.
  rewrite reverse_lookup in Hi by (rewrite length_fmap, length_seq; lia).
  rewrite length_fmap, length_seq, list_lookup_fmap, lookup_seq_lt in Hi by lia. cbn in Hi. injection Hi as <-. lia.
Qed.
Lemma page_heights_page top limit k : 0 <= k -> 0 <= limit ->
  page_heights top (k * limit) limit = page (descending top) (Z.to_nat limit) (Z.to_nat k).
Proof. intros Hk Hl. unfold page_heights, page, descending. by rewrite Z2Nat.inj_mul. Qed.

(** ** Block pages *)

Section Pages.
Context {W : Type} `{NS : NodeServices W} `{S3 : Sha3} `{BP : BuildProfile}.
(** A storage that holds the blocks [B] and reports the height [top]; reads may fill caches. *)
Context (I : W -> Prop) (B : gmap Z Block) (top : Z).
Context (top_fits : 0 <= top /\ fits 64 (top + 1)).
Context (reads_height : forall w, I w -> exists w', ns_get_block_height w = (Ok top, w') /\ I w').
Context (reads_block : forall h w, I w -> exists w', ns_get_block h w = (Ok (B !! h), w') /\ I w').

Lemma read_blocks_ok hs w : I w -> exists w', read_blocks hs w = (Ok (omap (B !!.) hs), w') /\ I w'.
Proof.
  revert w. induction hs as [|h hs IH]; intros w Hw; cbn; [by exists w|].
  unfold get_block_by_height. destruct (reads_block h w Hw) as (w1 & -> & H1).
  destruct (B !! h) as [b|]; [|by apply IH]. destruct (IH w1 H1) as (w2 & E & H2). exists w2. unfold sbind. by rewrite E.
Qed.

Lemma rest_blocks_ok (k limit : Z) w : I w -> 0 <= k -> 1 <= limit <= 100 -> fits 64 (k * limit + limit) ->
  exists w', rest_blocks (mkPagination (Some (k + 1)) (Some limit)) w
      = (Ok (json (BBlocks (mkPaginated (omap (B !!.) (page (descending top) (Z.to_nat limit) (Z.to_nat k))) (top + 1) (k + 1) limit
               (k * limit + limit <=? top)))), w') /\ I w'.
Proof.
  intros Hw Hk Hl Hfit. destruct top_fits as [Ht0 Ht1]. assert (0 <= k * limit) by nia. unfold rest_blocks. unfold sbind at 1. unfold height_or_zero, get_block_height.
  destruct (reads_height w Hw) as (w1 & -> & H1). cbv zeta. unfold pagination_limit, pagination_offset. cbn [pg_limit pg_page from_option id].
  replace (Z.min limit 100) with limit by lia. replace (saturating_sub (k + 1) 1) with k by (unfold saturating_sub; lia).
  unfold sbind at 1, slift at 1, mul_u64. unfold fits in *. rewrite arith_fits by (unfold fits, id; lia).
  rewrite page_heights_page by lia. unfold sbind at 1.
  destruct (read_blocks_ok (page (descending top) (Z.to_nat limit) (Z.to_nat k)) w1 H1) as (w2 & -> & H2).
  unfold sbind, slift, add_u64. rewrite !arith_fits by (unfold fits; lia). by exists w2.
Qed.

(** Asking for the pages one after the other, from page [k + 1]. *)
Fixpoint browse (limit k : Z) (n : nat) : ST W PacyteError (list Response) :=
  match n with
  | O => sret []
  | S n => do! r := rest_blocks (mkPagination (Some (k + 1)) (Some limit)) in
           do! rs := browse limit (k + 1) n in sret (r :: rs)
  end.
Definition items (r : Response) : list Block := match r with Respond OK (BBlocks p) => pr_items p | _ => [] end.

Lemma browse_ok limit k n w : I w -> 0 <= k -> 1 <= limit <= 100 -> fits 64 ((k + Z.of_nat n) * limit) ->
  exists rs w', browse limit k n w = (Ok rs, w') /\ I w'
    /\ concat (map items rs) = omap (B !!.) (concat (map (page (descending top) (Z.to_nat limit)) (seq (Z.to_nat k) n))).
Proof.
  revert k w. induction n as [|n IH]; intros k w Hw Hk Hl Hfit; cbn [browse]; [by exists [], w|].
  assert (Hfit' : fits 64 (k * limit + limit)) by (unfold fits in *; nia).
  unfold sbind at 1. destruct (rest_blocks_ok k limit w Hw Hk Hl Hfit') as (w1 & -> & H1).
  destruct (IH (k + 1) w1 H1 ltac:(lia) Hl) as (rs & w2 & E & H2 & Hc); [by replace (k + 1 + Z.of_nat n) with (k + Z.of_nat (S n)) by lia|].
  unfold sbind. rewrite E. do 2 eexists. split; [reflexivity|]. split; [done|].
  cbn [map concat items json pr_items]. rewrite Hc. cbn [seq map concat].
  replace (Z.to_nat (k + 1)) with (S (Z.to_nat k)) by lia. by rewrite omap_app.
Qed.

(** C30. With a limit of at most a hundred the pages partition the chain: asked for in turn, they hold every stored block once,
    from the highest height down. *)
Theorem rest_pages_partition (limit : Z) (n : nat) (w : W) :
  I w -> 1 <= limit <= 100 -> fits 64 (Z.of_nat n * limit) -> top < Z.of_nat n * limit ->
  exists rs w', browse limit 0 n w = (Ok rs, w') /\ concat (map items rs) = omap (B !!.) (descending top).
Proof.
  intros Hw Hl Hfit Hn. destruct (browse_ok limit 0 n w Hw ltac:(lia) Hl Hfit) as (rs & w' & E & _ & Hc).
  exists rs, w'. split; [done|]. rewrite Hc. f_equal. rewrite pages_concat; [done|]. rewrite length_descending.
  change (Z.to_nat 0) with 0%nat. rewrite Nat.add_0_l. nia.
Qed.
End Pages.

(** With a larger limit the pages leave blocks out: the page is cut to a hundred blocks but the offset is not, so the
    hundred-and-first block from the top is on no page. *)
Theorem rest_pages_skip `{BuildProfile} (limit top k offset : Z) :
  100 < limit -> 100 <= top -> 1 <= k -> pagination_offset (E := PacyteError) (mkPagination (Some k) (Some limit)) = Ok offset ->
  fits 64 ((k - 1) * limit) ->
  top - 100 ∉ page_heights top offset (pagination_limit (mkPagination (Some k) (Some limit))).
Proof.
  intros Hl Ht Hk Ho Hfit. unfold pagination_offset, pagination_limit in *. cbn [pg_page pg_limit from_option id] in *.
  replace (saturating_sub k 1) with (k - 1) in Ho by (unfold saturating_sub; lia).
  unfold mul_u64 in Ho. rewrite arith_fits in Ho by done. injection Ho as <-. replace (Z.min limit 100) with 100 by lia.
  intros Hin. unfold page_heights in Hin. fold (descending top) in Hin. apply list_elem_of_lookup in Hin as [i Hi].
  apply lookup_take_Some in Hi as [Hi Hlt]. rewrite lookup_drop in Hi. apply descending_lookup in Hi as [Hi _]; [|lia].
  change (Z.to_nat 100) with 100%nat in Hlt. destruct (decide (k = 1)) as [->|]; nia.
Qed.

(** ** What changes the node *)

Section RestReads.
Context {W : Type} `{NS : NodeServices W} `{S3 : Sha3} `{BP : BuildProfile}.
Context (R : W -> W -> Prop) `{!PreOrder R}.
Context (R_block : forall h, keeps R (ns_get_block h)) (R_block_by_hash : forall h, keeps R (ns_get_block_by_hash h))
  (R_latest : keeps R ns_get_latest_block) (R_height : keeps R ns_get_block_height)
  (R_tx : forall h, keeps R (ns_get_transaction h)) (R_account : forall a, keeps R (ns_get_account a)).

Lemma keeps_respond {A} (c : ST W PacyteError A) f : keeps R c -> keeps R (respond c f).
Proof.
  intros Hc s r s'. unfold respond. destruct (c s) as [[a|e| |] s1] eqn:E; intros [= <- <-]; by eapply Hc.
Qed.
Lemma keeps_height_or_zero : keeps R height_or_zero.
Proof.
  intros s r s'. unfold height_or_zero, get_block_height. destruct (ns_get_block_height s) as [[a|e| |] s1] eqn:E;
    intros [= <- <-]; by eapply R_height.
Qed.
Lemma keeps_read_blocks hs : keeps R (read_blocks hs).
Proof.
  induction hs as [|h hs IH]; cbn [read_blocks]; [keeps_leaf|]. intros s r s'. unfold get_block_by_height.
  destruct (ns_get_block h s) as [[[b|]|e| |] s1] eqn:E; pose proof (R_block h _ _ _ E) as H1; intros Hr.
  - etransitivity; [exact H1|]. assert (Hk : keeps R (do! l := read_blocks hs in sret (b :: l))).
    { apply keeps_bind; [apply _|done|intros; keeps_leaf]. } by eapply Hk.
  - etransitivity; [exact H1|by eapply IH].
  - etransitivity; [exact H1|by eapply IH].
  - by injection Hr as <- <-.
  - by injection Hr as <- <-.
Qed.
Lemma keeps_rest_blocks p : keeps R (rest_blocks p).
Proof.
  unfold rest_blocks. repeat (first [apply keeps_bind; [apply _| |intros] | apply keeps_height_or_zero | apply keeps_read_blocks | keeps_leaf]).
Qed.

(** Only a POST to the transactions changes more of the node than the reads of the storage do: every relation that
    those reads keep is kept by every other request. *)
Theorem rest_only_post_writes (version : string) (now : Z) (r : Request) (w w' : W) (resp : PacyteResult Response) :
  rq_http_method r = GET -> rest_handle version now r w = (resp, w') -> R w w'.
Proof.
  intros Hm. unfold rest_handle.
  assert (Hk : forall m e, create_router (rq_path r) = Some (m, e) -> m = GET -> keeps R (serve version now r e)).
  { intros m e Hr ->. assert (Hs : e <> ESend).
    { intros ->. unfold create_router, route_v1 in Hr. repeat case_match; by simplify_eq. }
    destruct e; try done; cbn [serve]; repeat case_match.
    all: unfold rest_latest_block, rest_block_by_height, rest_block_by_hash, rest_transaction, rest_pending, rest_account, rest_balance,
      rest_network_info, rest_peers, rest_consensus_state, rest_validators, rest_mempool_stats, health_check, get_docs; repeat case_match.
    all: first [apply keeps_rest_blocks | keeps_leaf | apply keeps_respond].
    all: unfold get_latest_block, get_block_by_height, get_block_by_hash, get_transaction, get_pending_transactions, get_account,
      get_balance, get_network_info, get_peers, get_consensus_state, get_validators, get_mempool_stats; auto.
    all: repeat (first [apply keeps_bind; [apply _| |intros] | keeps_leaf]); auto. }
  destruct (create_router (rq_path r)) as [[m e]|] eqn:Hr; [|intros [= <- <-]; reflexivity].
  case_decide as Hd; [|intros [= <- <-]; reflexivity]. intros Hw. eapply Hk; [done|congruence|exact Hw].
Qed.
End RestReads.

(** ** Witnesses *)

Section RestWitnesses.
#[local] Existing Instance release_profile.
#[local] Existing Instance toy_sha3.
Definition numbered (h : Z) : Block := mkBlock (mkHeader h zero_hash zero_hash zero_hash 0 zero_address 0 0 []) [].
Definition three_blocks : gmap Z Block := {[0 := numbered 0; 1 := numbered 1; 2 := numbered 2]}.
#[local] Instance three_node : NodeServices unit := {|
  ns_get_block := fun h => sret (three_blocks !! h);
  ns_get_block_by_hash := fun _ => sret None;
  ns_get_latest_block := sret (Some (numbered 2));
  ns_get_block_height := sret 2;
  ns_get_transaction := fun _ => sret None;
  ns_get_account := fun _ => sret None;
  ns_add_transaction := fun _ => sret Added;
  ns_all_transactions := fun _ => [];
  ns_mempool_stats := fun _ => default_pool_stats;
  ns_current_height := fun _ => 2;
  ns_current_round := fun _ => 0;
  ns_state := fun _ => Engine.Idle;
  ns_is_validator := fun _ => false;
  ns_is_proposer := fun _ _ _ => Ok false;
  ns_peer_count := fun _ => 0;
  ns_connected_peers := fun _ => []
|}.
Lemma rest_pages_partition_witness :
  exists rs w', browse 2 0 2 tt = (Ok rs, w') /\ concat (map items rs) = [numbered 2; numbered 1; numbered 0].
Proof.
  destruct (rest_pages_partition (fun _ => True) three_blocks 2 ltac:(split; [lia|by vm_compute]) ltac:(intros []; by exists tt)
    ltac:(intros h [] _; by exists tt) 2 2 tt I ltac:(lia) ltac:(by vm_compute) ltac:(lia)) as (rs & w' & E & Hc).
  exists rs, w'. split; [exact E|]. rewrite Hc. vm_compute. reflexivity.
Defined.
Lemma rest_pages_skip_witness : 100 ∉ page_heights 200 150 (pagination_limit (mkPagination (Some 2) (Some 150))).
Proof. apply (rest_pages_skip 150 200 2 150); [lia|lia|lia|reflexivity|by vm_compute]. Defined.
Lemma rest_only_post_writes_witness :
  tt = (rest_handle "1.0" 5 (mkRequest GET ["api"; "v1"; "blocks"; "latest"]%string None None) tt).2.
Proof.
  refine (rest_only_post_writes eq _ _ _ _ _ _ "1.0" 5 _ tt _ _ _ (surjective_pairing _)); try done; intros; intros [] ? [] _; done.
Defined.
End RestWitnesses.
