(* ===== verification/WebSocket.v ===== *)
(** * WebSocket (src/api/websocket.rs)

    A connection has a receiving loop, a channel and a task that writes the channel to the socket; a further task
    turns events of the consensus and the network into messages for every connection.  The tasks are cut at
    their awaits into steps, and theorems quantify over every order of the steps.  Reading and writing sockets and
    JSON are parameters of the steps. *)

From stdpp Require Import strings pretty.
From S2P Require Import Prelude Hashing Errors Types Block Votes Engine Messages Json ApiService.
Abbreviation length := List.length.

Module Ws.
Inductive WsMessage : Type :=
| Subscribe (topics : list string)
| Unsubscribe (topics : list string)
| Ping
| Subscribed (topics : list string)
| Unsubscribed (topics : list string)
| Pong
| NewBlock (b : Block)
| NewTransaction (t : Transaction)
| ConsensusNews (event : string) (data : Value)
| PeerNews (event : string) (peer_id : Z)
| Error (message : string).

(** The channel of a connection: what waits in it, what its task wrote to the socket, and whether the task
    still takes from it. *)
Record Channel : Type := mkChannel { ch_queue : list WsMessage; ch_written : list WsMessage; ch_open : bool }.

(** [connections] holds the senders by connection; the channels live as long as a task or a sender does. *)
Record WebSocketServer : Type := mkServer { connections : gset Z; channels : gmap Z Channel; next_conn_id : Z }.
Definition server_new : WebSocketServer := mkServer ∅ ∅ 1.

Definition channel_send (m : WsMessage) (c : Channel) : Channel :=
  if ch_open c then mkChannel (ch_queue c ++ [m]) (ch_written c) true else c.
Definition set_channels (x : gmap Z Channel) (s : WebSocketServer) := mkServer (connections s) x (next_conn_id s).
(** [send_to]: the error of a closed channel is dropped. *)
Definition send_to (id : Z) (m : WsMessage) (s : WebSocketServer) : WebSocketServer :=
  if decide (id ∈ connections s) then set_channels (alter (channel_send m) id (channels s)) s else s.
Definition broadcast (m : WsMessage) (s : WebSocketServer) : WebSocketServer :=
  set_channels (map_imap (fun id c => Some (if decide (id ∈ connections s) then channel_send m c else c)) (channels s)) s.

(** The topics are repeated to the client and then forgotten. *)
Definition reply (m : WsMessage) : option WsMessage :=
  match m with
  | Subscribe topics => Some (Subscribed topics)
  | Unsubscribe topics => Some (Unsubscribed topics)
  | Ping => Some Pong
  | _ => None
  end.
Definition handle_message (id : Z) (m : WsMessage) (s : WebSocketServer) : WebSocketServer :=
  match reply m with Some r => send_to id r s | None => s end.

Definition vote_type_text (t : VoteType) : string := match t with Prevote => "Prevote" | Precommit => "Precommit" end.
Definition consensus_news (e : ConsensusEvent) : option WsMessage :=
  match e with
  | EvBlockCommitted b _ => Some (NewBlock b)
  | EvNewRound h r => Some (ConsensusNews "new_round" (Json.Object [("height"%string, Json.nat_value h); ("round"%string, Json.nat_value r)]))
  | EvQuorumReached h r t =>
      Some (ConsensusNews "quorum_reached" (Json.Object [("height"%string, Json.nat_value h); ("round"%string, Json.nat_value r);
              ("vote_type"%string, Json.Str (vote_type_text t))]))
  | _ => None
  end.
Definition network_news (m : Msg.NetworkMessage) : option WsMessage :=
  match m with
  | Msg.NewTransaction t => Some (NewTransaction t)
  | Msg.PeerConnected i => Some (PeerNews "connected" (Msg.pi_id i))
  | Msg.PeerDisconnected id => Some (PeerNews "disconnected" id)
  | _ => None
  end.
Definition publish (o : option WsMessage) (s : WebSocketServer) : WebSocketServer :=
  match o with Some m => broadcast m s | None => s end.

Section Steps.
Context `{BP : BuildProfile}.

(** [handle_connection] up to its loop, after the handshake of the socket. *)
Definition accept : ST WebSocketServer PacyteError Z :=
  do! id := sget next_conn_id in
  do! next := slift (add_u64 id 1) in
  run! smod (fun s => mkServer (connections s) (channels s) next) in
  run! smod (fun s => mkServer ({[id]} ∪ connections s) (<[id := mkChannel [] [] true]> (channels s)) (next_conn_id s)) in
  sret id.

(** One turn of the sending task: the first message goes to the socket, or the socket fails and the task ends. *)
Definition write_one (ok : bool) (c : Channel) : Channel :=
  if ch_open c then
    match ch_queue c with
    | m :: q => if ok then mkChannel q (ch_written c ++ [m]) true else mkChannel [] (ch_written c) false
    | [] => c
    end
  else c.

Inductive Step : Type :=
| Accept
| Receive (id : Z) (m : WsMessage)
| WriteOne (id : Z) (ok : bool)
| Abort (id : Z)
| Remove (id : Z)
| OnConsensus (e : ConsensusEvent)
| OnNetwork (m : Msg.NetworkMessage).

Definition ws_step (t : Step) (s : WebSocketServer) : WebSocketServer :=
  match t with
  | Accept => (accept s).2
  | Receive id m => handle_message id m s
  | WriteOne id ok => set_channels (alter (write_one ok) id (channels s)) s
  | Abort id => set_channels (alter (fun c => mkChannel [] (ch_written c) false) id (channels s)) s
  | Remove id => mkServer (connections s ∖ {[id]}) (channels s) (next_conn_id s)
  | OnConsensus e => publish (consensus_news e) s
  | OnNetwork m => publish (network_news m) s
  end.
Definition ws_run (l : list Step) (s : WebSocketServer) : WebSocketServer := foldl (fun s t => ws_step t s) s l.

(** ** Identities *)

(** Connections have channels, and no identity is given out twice. *)
Record WsOk (s : WebSocketServer) : Prop := mkWsOk {
  ok_channel : forall id, id ∈ connections s -> is_Some (channels s !! id);
  ok_below : forall id, is_Some (channels s !! id) -> 1 <= id < next_conn_id s
}.

Lemma alter_is_Some {A} (f : A -> A) (m : gmap Z A) i k : is_Some (alter f i m !! k) <-> is_Some (m !! k).
Proof. rewrite lookup_alter. case_decide; [|done]. subst. destruct (m !! k); cbn; split; intros [? ?]; by eauto. Qed.
Lemma WsOk_channels s x : (forall k, is_Some (x !! k) <-> is_Some (channels s !! k)) -> WsOk s -> WsOk (set_channels x s).
Proof. intros Hx [H1 H2]. split; cbn; intros id Hid; [rewrite Hx; auto|rewrite Hx in Hid; auto]. Qed.
Lemma WsOk_broadcast m s : WsOk s -> WsOk (broadcast m s).
Proof.
  apply WsOk_channels. intros k. rewrite map_lookup_imap. destruct (channels s !! k); cbn; split; intros [? ?]; by eauto.
Qed.
Lemma WsOk_step t s : 1 <= next_conn_id s < 2 ^ 64 - 1 -> WsOk s -> WsOk (ws_step t s) /\ next_conn_id s <= next_conn_id (ws_step t s) <= next_conn_id s + 1.
Proof.
  intros Hn Hok. destruct t as [|id m|id ok|id|id|e|m]; cbn.
  - unfold accept, sbind, sget, slift, smod, add_u64. rewrite arith_fits by (unfold fits; lia). cbn. split; [|lia].
    destruct Hok as [H1 H2]. split; cbn; intros id.
    + intros [->%elem_of_singleton|Hid]%elem_of_union; [by rewrite lookup_insert_eq|].
      destruct (decide (id = next_conn_id s)) as [->|]; [by rewrite lookup_insert_eq|]. rewrite lookup_insert_ne by done. auto.
    + destruct (decide (id = next_conn_id s)) as [->|]; [lia|]. rewrite lookup_insert_ne by done. intros Hid. specialize (H2 id Hid). lia.
  - unfold handle_message, send_to. destruct (reply m); [case_decide|]; cbn; split; try lia; try done.
    apply WsOk_channels; [|done]. intros k. apply alter_is_Some.
  - split; [|lia]. apply WsOk_channels; [|done]. intros k. apply alter_is_Some.
  - split; [|lia]. apply WsOk_channels; [|done]. intros k. apply alter_is_Some.
  - split; [|lia]. destruct Hok as [H1 H2]. split; cbn; [|done]. intros k [Hk _]%elem_of_difference. auto.
  - unfold publish. destruct (consensus_news e); cbn; (split; [|lia]); [by apply WsOk_broadcast|done].
  - unfold publish. destruct (network_news m); cbn; (split; [|lia]); [by apply WsOk_broadcast|done].
Qed.

(** ** Delivery *)

(** What the client of [id] is to hear of a step, arm by arm: three events of the consensus and three messages of the
    network are announced to everyone, the others to nobody. *)
Definition asks (m : WsMessage) : bool := match m with Subscribe _ | Unsubscribe _ | Ping => true | _ => false end.
Definition announced (m : Msg.NetworkMessage) : bool :=
  match m with Msg.NewTransaction _ | Msg.PeerConnected _ | Msg.PeerDisconnected _ => true | _ => false end.
Inductive heard (id : Z) : Step -> list WsMessage -> Prop :=
| heard_subscribe topics : heard id (Receive id (Subscribe topics)) [Subscribed topics]
| heard_unsubscribe topics : heard id (Receive id (Unsubscribe topics)) [Unsubscribed topics]
| heard_ping : heard id (Receive id Ping) [Pong]
| heard_other m : asks m = false -> heard id (Receive id m) []
| heard_elsewhere k m : k <> id -> heard id (Receive k m) []
| heard_committed b h : heard id (OnConsensus (EvBlockCommitted b h)) [NewBlock b]
| heard_round h r :
    heard id (OnConsensus (EvNewRound h r))
      [ConsensusNews "new_round" (Json.Object [("height"%string, Json.nat_value h); ("round"%string, Json.nat_value r)])]
| heard_quorum h r t :
    heard id (OnConsensus (EvQuorumReached h r t))
      [ConsensusNews "quorum_reached" (Json.Object [("height"%string, Json.nat_value h); ("round"%string, Json.nat_value r);
         ("vote_type"%string, Json.Str (match t with Prevote => "Prevote" | Precommit => "Precommit" end))])]
| heard_proposal_sent h r : heard id (OnConsensus (EvProposalSent h r)) []
| heard_vote_sent h r t : heard id (OnConsensus (EvVoteSent h r t)) []
| heard_timeout h r : heard id (OnConsensus (EvTimeout h r)) []
| heard_error e : heard id (OnConsensus (EvError e)) []
| heard_transaction t : heard id (OnNetwork (Msg.NewTransaction t)) [NewTransaction t]
| heard_connected i : heard id (OnNetwork (Msg.PeerConnected i)) [PeerNews "connected" (Msg.pi_id i)]
| heard_disconnected p : heard id (OnNetwork (Msg.PeerDisconnected p)) [PeerNews "disconnected" p]
| heard_unannounced m : announced m = false -> heard id (OnNetwork m) []
| heard_accept : heard id Accept []
| heard_write k ok : heard id (WriteOne k ok) []
| heard_abort k : heard id (Abort k) []
| heard_remove k : heard id (Remove k) [].

(** What a step adds to the channel of [id]. *)
Definition news_for (id : Z) (t : Step) : list WsMessage :=
  match t with
  | Receive k m => if decide (k = id) then option_list (reply m) else []
  | OnConsensus e => option_list (consensus_news e)
  | OnNetwork m => option_list (network_news m)
  | _ => []
  end.
Lemma news_heard id t : heard id t (news_for id t).
Proof.
  destruct t as [|k m|k ok|k|k|e|m]; cbn; try constructor.
  - destruct (decide (k = id)) as [->|]; [|by constructor]. destruct m; by constructor.
  - destruct e as [| | | |h r []| |]; constructor.
  - destruct m; by constructor.
Qed.
Lemma heard_news id t l : heard id t l -> l = news_for id t.
Proof. intros []; cbn; try done; rewrite ?decide_True by done; try done; [by destruct m|by rewrite decide_False|by destruct m]. Qed.
(** Steps that leave the connection alone. *)
Definition keeps_open (id : Z) (t : Step) : Prop :=
  match t with WriteOne k ok => k = id -> ok = true | Abort k | Remove k => k <> id | _ => True end.
Definition client (id : Z) (s : WebSocketServer) (l : list WsMessage) : Prop :=
  id ∈ connections s /\ exists c, channels s !! id = Some c /\ ch_open c = true /\ ch_written c ++ ch_queue c = l.

Lemma client_send id k m s l : client id s l -> client id (send_to k m s) (l ++ if decide (k = id) then [m] else []).
Proof.
  intros (Hid & c & Hc & Ho & Hl). unfold send_to. destruct (decide (k = id)) as [->|Hne].
  - rewrite decide_True by done. split; [done|]. cbn. rewrite lookup_alter_eq, Hc. cbn. eexists. split; [reflexivity|].
    unfold channel_send. rewrite Ho. cbn. split; [done|]. rewrite <- Hl. by rewrite app_assoc.
  - rewrite app_nil_r. case_decide; [|by split; [|exists c]]. split; [done|]. cbn. rewrite lookup_alter_ne by done. by exists c.
Qed.
Lemma client_publish id o s l : client id s l -> client id (publish o s) (l ++ option_list o).
Proof.
  intros (Hid & c & Hc & Ho & Hl). destruct o as [m|]; cbn; [|rewrite app_nil_r; by split; [|exists c]].
  split; [done|]. cbn. rewrite map_lookup_imap, Hc. cbn. rewrite decide_True by done. eexists. split; [reflexivity|].
  unfold channel_send. rewrite Ho. cbn. split; [done|]. rewrite <- Hl. by rewrite app_assoc.
Qed.
Lemma client_step id t s l : WsOk s -> 1 <= next_conn_id s < 2 ^ 64 - 1 -> keeps_open id t -> client id s l ->
  client id (ws_step t s) (l ++ news_for id t).
Proof.
  intros Hok Hn Ht Hc. destruct t as [|k m|k ok|k|k|e|m]; cbn [ws_step news_for keeps_open] in *; try rewrite app_nil_r.
  - destruct Hc as (Hid & c & Hc & Ho & Hl). unfold accept, sbind, sget, slift, smod, add_u64.
    rewrite arith_fits by (unfold fits; lia). cbn. split; [set_solver|].
    assert (id <> next_conn_id s) by (intros ->; pose proof (ok_below _ Hok _ (mk_is_Some _ _ Hc)); lia).
    cbn. rewrite lookup_insert_ne by done. by exists c.
  - unfold handle_message. destruct (reply m) as [r|]; cbn.
    + apply (client_send id k r) in Hc. by destruct (decide (k = id)).
    + by destruct (decide (k = id)); rewrite app_nil_r.
  - destruct Hc as (Hid & c & Hc & Ho & Hl). split; [done|]. cbn. destruct (decide (k = id)) as [->|Hne].
    + rewrite lookup_alter_eq, Hc. cbn. eexists. split; [reflexivity|]. unfold write_one. rewrite Ho, (Ht eq_refl).
      destruct (ch_queue c) as [|x q] eqn:Hq; [by rewrite Hq|]. cbn. split; [done|]. rewrite <- Hl. by rewrite <- app_assoc.
    + rewrite lookup_alter_ne by done. by exists c.
  - destruct Hc as (Hid & c & Hc & Ho & Hl). split; [done|]. cbn. rewrite lookup_alter_ne by done. by exists c.
  - destruct Hc as (Hid & c & Hc & Ho & Hl). split; [set_solver|]. by exists c.
  - by apply client_publish.
  - by apply client_publish.
Qed.

Lemma client_run (id : Z) (steps : list Step) (s : WebSocketServer) (l : list WsMessage) :
  WsOk s -> 1 <= next_conn_id s -> next_conn_id s + Z.of_nat (length steps) < 2 ^ 64 - 1 -> Forall (keeps_open id) steps -> client id s l ->
  client id (ws_run steps s) (l ++ flat_map (news_for id) steps).
Proof.
  intros Hok Hn Hlen Hsteps. revert s l Hok Hn Hlen. induction Hsteps as [|t steps Ht Hsteps IH]; intros s l Hok Hn Hlen Hc; cbn.
  - by rewrite app_nil_r.
  - cbn [length] in Hlen. destruct (WsOk_step t s ltac:(lia) Hok) as [Hok1 Hn1]. rewrite app_assoc.
    apply (IH (ws_step t s)); [done|lia|lia|]. apply client_step; done || lia.
Qed.

(** C34. While its connection lasts and its socket takes what is written, a client is sent exactly what the table
    [heard] says of each step, in order and under every interleaving: the answers to its own subscriptions,
    unsubscriptions and pings; every committed block, new round and reached quorum of the consensus; every new
    transaction and every connected or disconnected peer the network reports.  Sent proposals, sent votes, timeouts
    and errors of the consensus and all other network messages are announced to nobody, and the topics a client
    subscribed to select nothing. *)
Theorem ws_client_gets_everything (id : Z) (steps : list Step) (s : WebSocketServer) (l : list WsMessage) :
  WsOk s -> 1 <= next_conn_id s -> next_conn_id s + Z.of_nat (length steps) < 2 ^ 64 - 1 -> Forall (keeps_open id) steps -> client id s l ->
  (exists news, Forall2 (heard id) steps news) /\
  forall news, Forall2 (heard id) steps news -> client id (ws_run steps s) (l ++ concat news).
Proof.
  intros Hok Hn Hlen Hsteps Hc. split.
  - exists (news_for id <$> steps). apply Forall2_fmap_r. apply Forall_Forall2_diag. apply Forall_true. intros t. apply news_heard.
  - intros news Hnews. assert (Hall : news = news_for id <$> steps).
    { clear -Hnews. induction Hnews as [|t n steps news Ht _ IH]; [done|]. cbn. by rewrite IH, (heard_news id t n Ht). }
    rewrite Hall, <- flat_map_concat_map. by apply client_run.
Qed.
End Steps.

Section WsWitnesses.
#[local] Existing Instance release_profile.
Definition two_clients : WebSocketServer := ws_run [Accept; Accept] server_new.
Lemma two_clients_ok : WsOk two_clients.
Proof.
  assert (Hb : Forall (fun x => is_Some (channels two_clients !! x)) (elements (connections two_clients))).
  { apply (bool_decide_unpack _). vm_compute. exact Logic.I. }
  assert (Hm : map_Forall (fun id _ => 1 <= id < next_conn_id two_clients) (channels two_clients)).
  { apply (bool_decide_unpack _). vm_compute. exact Logic.I. }
  split.
  - intros id Hid. rewrite Forall_forall in Hb. apply Hb. by apply elem_of_elements.
  - intros id [c Hc]. exact (Hm id c Hc).
Qed.
Definition some_steps : list Step :=
  [Receive 2 (Subscribe ["blocks"%string]); OnConsensus (EvNewRound 3 1); OnConsensus (EvTimeout 3 1); OnNetwork (Msg.PeerDisconnected 9); Receive 1 Ping; WriteOne 2 true].
Definition some_news : list (list WsMessage) :=
  [[Subscribed ["blocks"%string]]; [ConsensusNews "new_round" (Json.Object [("height"%string, Json.nat_value 3); ("round"%string, Json.nat_value 1)])];
   []; [PeerNews "disconnected" 9]; []; []].
Lemma ws_client_gets_everything_witness : client 2 (ws_run some_steps two_clients) (concat some_news).
Proof.
  apply (ws_client_gets_everything 2 some_steps two_clients []).
  - exact two_clients_ok.
  - by vm_compute.
  - by vm_compute.
  - repeat constructor; done.
  - split; [apply (bool_decide_unpack _); vm_compute; exact Logic.I|]. exists (mkChannel [] [] true). by vm_compute.
  - repeat constructor. done.
Defined.
End WsWitnesses.
End Ws.
