(* ===== verification/Wasm.v ===== *)
(** * The WASM runtime (src/execution/wasm_runtime.rs)

    Loaded modules, the cache of instances and the one gas meter that all calls of a runtime
    share.  The host functions are the constants the source returns.  [validate] accepts
    everything and no byte code runs: [execute_function] answers by the name of the function. *)

From stdpp Require Import strings pretty.
From S2P Require Import Prelude Hashing Errors Types Gas VM Executor.
Abbreviation length := List.length.

Module Wasm.

(** ** Modules and instances *)

Record WasmModule : Type := mkModule {
  code : list Z;
  code_hash : Hash;
  exports : list string;
  imports : list string;
  memory_pages : Z;
  max_memory_pages : Z
}.
Definition module_new `{Sha3} (code : list Z) : WasmModule := mkModule code (sha3_256 code) [] [] 1 16.
Definition validate (m : WasmModule) : bool := true.

Record WasmInstance : Type := mkInstance {
  module_hash : Hash;
  memory : list Z;
  globals : gmap string (list Z)
}.

Record WasmRuntime : Type := mkRuntime {
  modules : gmap Hash WasmModule;
  instance_cache : gmap Hash WasmInstance;
  gas_meter : option GasMeter
}.
Definition runtime_new : WasmRuntime := mkRuntime ∅ ∅ None.
Definition with_modules f (r : WasmRuntime) := mkRuntime (f (modules r)) (instance_cache r) (gas_meter r).
Definition with_cache f (r : WasmRuntime) := mkRuntime (modules r) (f (instance_cache r)) (gas_meter r).
Definition with_meter g (r : WasmRuntime) := mkRuntime (modules r) (instance_cache r) g.

Section Runtime.
Context `{BP : BuildProfile} `{H3 : Sha3}.
Abbreviation M := (ST WasmRuntime PacyteError).

Definition load_module (code : list Z) : M Hash :=
  let module := module_new code in
  if negb (validate module) then sfail PE.InvalidWasmModule
  else
    let hash := code_hash module in
    run! smod (with_modules (insert hash module)) in
    sret hash.

(** [let base_gas = 10_000; let per_byte_gas = args_len as u64 * 10; base_gas + per_byte_gas]. *)
Definition wasm_estimate_gas {E} (args_len : Z) : Outcome E Z :=
  let? per_byte_gas := mul_u64 args_len 10 in
  add_u64 10000 per_byte_gas.

Definition get_or_create_instance (module : WasmModule) : M WasmInstance :=
  do! cached := sget (fun r => instance_cache r !! code_hash module) in
  match cached with
  | Some instance => sret instance
  | None =>
      do! bytes := slift (mul_u64 (memory_pages module) 65536) in
      let instance := mkInstance (code_hash module) (replicate (Z.to_nat bytes) 0) ∅ in
      run! smod (with_cache (insert (code_hash module) instance)) in
      sret instance
  end.

(** The block that holds the write guard of the meter. *)
Definition wasm_charge (gas_cost : Z) : M unit :=
  do! meter := sget gas_meter in
  match meter with
  | None => sret tt
  | Some m =>
      match use_gas (E := PacyteError) gas_cost m with
      | (Ok true, m') => smod (with_meter (Some m'))
      | (Ok false, m') =>
          run! smod (with_meter (Some m')) in
          sfail (PE.ExecutionError (error_to_string (OutOfGas (used m') (gas_limit m'))))
      | (Err e, m') => run! smod (with_meter (Some m')) in sfail e
      | (Panic, m') => run! smod (with_meter (Some m')) in slift Panic
      | (Deadlock, m') => run! smod (with_meter (Some m')) in slift Deadlock
      end
  end.

Definition wasm_dispatch (function : string) : Outcome PacyteError (list Z) :=
  if bool_decide (function = "add") then Ok [0]
  else if bool_decide (function = "transfer") then Ok [1]
  else Err (PE.WasmFunctionNotFound function).

Definition execute_function (instance : WasmInstance) (module : WasmModule) (function : string) (args : list Z) : M (list Z) :=
  do! gas_cost := slift (wasm_estimate_gas (Z.of_nat (length args))) in
  run! wasm_charge gas_cost in
  slift (wasm_dispatch function).

(** [call] in the pieces between which other threads may take the locks. *)
Definition fetch_module (h : Hash) : M WasmModule :=
  do! m := sget (fun r => modules r !! h) in
  slift (ok_or m PE.WasmModuleNotFound).
Definition set_meter (gas_limit : Z) : M unit := smod (with_meter (Some (meter_new gas_limit))).
Definition call_rest (module : WasmModule) (function : string) (args : list Z) : M (list Z) :=
  do! instance := get_or_create_instance module in
  execute_function instance module function args.
Definition wasm_call (h : Hash) (function : string) (args : list Z) (gas_limit : Z) : M (list Z) :=
  do! module := fetch_module h in
  run! set_meter gas_limit in
  call_rest module function args.

Definition memory_usage (h : Hash) (r : WasmRuntime) : Outcome PacyteError Z :=
  match instance_cache r !! h with
  | Some instance => Ok (Z.of_nat (length (memory instance)))
  | None => Ok 0
  end.
Definition clear_cache (r : WasmRuntime) : WasmRuntime := with_cache (fun _ => ∅) r.
End Runtime.

(** ** Host functions *)

Definition host_get_balance (address : Address) : Z := 0.
Definition host_transfer (from to : Address) (amount : Z) : bool := true.
Definition host_get_block_number : Z := 0.
Definition host_get_block_timestamp : Z := 0.
Definition host_get_tx_origin : Address := zero_address.
Definition host_sha3 `{Keccak} (data : list Z) : Hash := keccak256 data.
Definition host_keccak256 `{Keccak} (data : list Z) : Hash := host_sha3 data.
Definition host_ecrecover (hash : Hash) (signature : list Z) : Address := zero_address.

(** ** Operations and their invariant *)

Inductive WasmOp : Type :=
| Load (code : list Z)
| Call (h : Hash) (function : string) (args : list Z) (limit : Z)
| ClearCache.
Definition run_wasm `{BuildProfile} `{Sha3} (op : WasmOp) (r : WasmRuntime) : WasmRuntime :=
  match op with
  | Load code => (load_module code r).2
  | Call h f args limit => (wasm_call h f args limit r).2
  | ClearCache => clear_cache r
  end.
Definition run_wasms `{BuildProfile} `{Sha3} (ops : list WasmOp) (r : WasmRuntime) : WasmRuntime :=
  foldl (fun r op => run_wasm op r) r ops.

(** Modules are filed under their own hash; an instance is the blank page of a loaded module. *)
Definition wasm_inv `{Sha3} (r : WasmRuntime) : Prop :=
  (forall h m, modules r !! h = Some m -> m = module_new (code m) /\ h = sha3_256 (code m)) /\
  (forall h i, instance_cache r !! h = Some i -> is_Some (modules r !! h) /\ i = mkInstance h (replicate (Z.to_nat 65536) 0) ∅).

Section Facts.
Context `{BP : BuildProfile} `{H3 : Sha3}.

Lemma page_bytes : mul_u64 (E := PacyteError) 1 65536 = Ok 65536.
Proof. unfold mul_u64. by rewrite arith_fits by (by vm_compute). Qed.

(** The charge of a call, for arguments whose cost is a [u64]. *)
Definition call_cost (args : list Z) : Z := 10000 + 10 * Z.of_nat (length args).
Lemma wasm_estimate_exact {E} args : fits 64 (call_cost args) -> wasm_estimate_gas (E := E) (Z.of_nat (length args)) = Ok (call_cost args).
Proof.
  intros Ha. unfold wasm_estimate_gas, mul_u64, add_u64. unfold call_cost in *.
  rewrite arith_fits by (unfold fits in *; lia). cbn [obind]. rewrite arith_fits by (unfold fits in *; lia). f_equal. lia.
Qed.

Lemma wasm_charge_meter cost m r : gas_meter r = Some m -> meter_ok m -> 0 <= cost -> gas_limit m + cost < 2 ^ 64 ->
  wasm_charge cost r =
  if gas_used m + cost <=? gas_limit m
  then (Ok tt, with_meter (Some (mkMeter (gas_limit m) (gas_used m + cost) (gas_refund m))) r)
  else (Err (PE.ExecutionError (error_to_string (OutOfGas (gas_used m) (gas_limit m)))), with_meter (Some m) r).
Proof.
  intros Hm Hok Hc Hr. unfold wasm_charge, sbind, sget. rewrite Hm. rewrite use_gas_spec by done. by destruct (_ <=? _).
Qed.

(** The instance of a module under the invariant: cached or fresh, it is blank. *)
Definition blank (h : Hash) : WasmInstance := mkInstance h (replicate (Z.to_nat 65536) 0) ∅.
Arguments blank : simpl never.
Lemma instance_of m r : wasm_inv r -> modules r !! code_hash m = Some m ->
  get_or_create_instance m r = (Ok (blank (code_hash m)), with_cache (insert (code_hash m) (blank (code_hash m))) r).
Proof.
  intros [Hmod Hinst] Hm. unfold get_or_create_instance, sbind, sget. destruct (instance_cache r !! code_hash m) as [i|] eqn:Hi.
  - destruct (Hinst _ _ Hi) as [_ ->]. fold (blank (code_hash m)) in *. unfold sret. f_equal. unfold with_cache. rewrite (insert_id (instance_cache r)) by done. by destruct r.
  - destruct (Hmod _ _ Hm) as [Hn _]. unfold slift. assert (memory_pages m = 1) as -> by (by rewrite Hn). by rewrite page_bytes.
Qed.

(** The calls of a runtime, as their result. *)
Definition call_result (function : string) (args : list Z) (limit : Z) : Outcome PacyteError (list Z) :=
  if call_cost args <=? limit then wasm_dispatch function
  else Err (PE.ExecutionError (error_to_string (OutOfGas 0 limit))).
Definition call_used (args : list Z) (limit : Z) : Z := if call_cost args <=? limit then call_cost args else 0.

Lemma call_rest_spec m function args limit r :
  wasm_inv r -> modules r !! code_hash m = Some m -> gas_meter r = Some (meter_new limit) ->
  0 <= limit -> limit + call_cost args < 2 ^ 64 ->
  call_rest m function args r =
  (call_result function args limit,
   with_meter (Some (mkMeter limit (call_used args limit) 0)) (with_cache (insert (code_hash m) (blank (code_hash m))) r)).
Proof.
  intros Hinv Hm Hg Hl Hc. unfold call_rest, sbind. rewrite instance_of by done. unfold execute_function, sbind, slift.
  assert (0 <= call_cost args) by (unfold call_cost; lia).
  rewrite wasm_estimate_exact by (unfold fits; lia).
  rewrite (wasm_charge_meter _ (meter_new limit)); [|done| |lia|cbn; lia].
  - unfold call_result, call_used. cbn [meter_new gas_limit gas_used gas_refund]. rewrite Z.add_0_l.
    destruct (call_cost args <=? limit); [|done]. by destruct (wasm_dispatch function).
  - repeat split; cbn; lia.
Qed.

Lemma load_spec code r : load_module code r = (Ok (sha3_256 code), with_modules (insert (sha3_256 code) (module_new code)) r).
Proof. done. Qed.

Lemma call_spec h m function args limit r :
  wasm_inv r -> modules r !! h = Some m -> 0 <= limit -> limit + call_cost args < 2 ^ 64 ->
  wasm_call h function args limit r =
  (call_result function args limit,
   with_meter (Some (mkMeter limit (call_used args limit) 0)) (with_cache (insert h (blank h)) r)).
Proof.
  intros Hinv Hm Hl Hc. destruct (proj1 Hinv _ _ Hm) as [Hn Hh]. assert (Hhm : code_hash m = h) by (by rewrite Hn, Hh).
  unfold wasm_call, fetch_module, set_meter, sbind, sget, slift, smod. rewrite Hm. cbn [ok_or].
  rewrite (call_rest_spec m function args limit) by (cbn; by rewrite ?Hhm). by rewrite Hhm.
Qed.

(** The meter of any call on any state: the invariant does not depend on the charge. *)
Lemma wasm_inv_meter g r : wasm_inv r -> wasm_inv (with_meter g r).
Proof. done. Qed.
Lemma wasm_inv_cache h r : wasm_inv r -> is_Some (modules r !! h) -> wasm_inv (with_cache (insert h (blank h)) r).
Proof.
  intros [H1 H2] Hs. split; [done|]. intros h' i. cbn. rewrite lookup_insert_Some. intros [[<- <-]|[_ Hi]]; [done|by apply H2].
Qed.
Lemma wasm_inv_load code r : wasm_inv r -> wasm_inv (with_modules (insert (sha3_256 code) (module_new code)) r).
Proof.
  intros [H1 H2]. split; cbn.
  - intros h m. rewrite lookup_insert_Some. intros [[<- <-]|[_ Hm]]; [done|by apply H1].
  - intros h i Hi. destruct (H2 _ _ Hi) as [Hs ->]. split; [|done]. rewrite lookup_insert_is_Some'. auto.
Qed.
Lemma wasm_charge_inv cost r : wasm_inv r -> wasm_inv (wasm_charge cost r).2.
Proof.
  intros Hinv. unfold wasm_charge, sbind, sget. destruct (gas_meter r) as [m|]; [|done].
  destruct (use_gas cost m) as [[[]|e| |] m']; apply (wasm_inv_meter (Some m')), Hinv.
Qed.
Lemma call_inv h function args limit r : wasm_inv r -> wasm_inv (wasm_call h function args limit r).2.
Proof.
  intros Hinv. unfold wasm_call, fetch_module, set_meter, sbind, sget, slift, smod. destruct (modules r !! h) as [m|] eqn:Hm; [|done]. cbn [ok_or].
  destruct (proj1 Hinv _ _ Hm) as [Hn Hh]. assert (Hhm : code_hash m = h) by (by rewrite Hn, Hh).
  set (r1 := with_meter _ r). assert (Hr1 : wasm_inv r1) by (by apply wasm_inv_meter).
  unfold call_rest, sbind. rewrite (instance_of m r1) by (cbn; by rewrite ?Hhm). rewrite Hhm.
  assert (Hr2 : wasm_inv (with_cache (insert h (blank h)) r1)) by (apply wasm_inv_cache; [done|by exists m]).
  unfold execute_function, sbind, slift. destruct (wasm_estimate_gas _) as [c|e| |]; try done.
  pose proof (wasm_charge_inv c _ Hr2) as Hch. by destruct (wasm_charge c _) as [[[]|e| |] r3]; cbn in *.
Qed.
Lemma run_wasm_inv op r : wasm_inv r -> wasm_inv (run_wasm op r).
Proof.
  intros Hinv. destruct op as [code|h f args limit|]; [by apply wasm_inv_load|by apply call_inv|].
  split; [apply Hinv|]. by intros h i.
Qed.
Lemma wasm_inv_new : wasm_inv runtime_new.
Proof. by split. Qed.
Lemma wasm_inv_reached ops : wasm_inv (run_wasms ops runtime_new).
Proof.
  unfold run_wasms. generalize wasm_inv_new. generalize runtime_new. induction ops as [|op ops IH]; intros r Hr; [done|].
  cbn [foldl]. apply IH. by apply run_wasm_inv.
Qed.

(** Whatever modules were loaded and functions called before, in any order: modules are filed
    under the digest of their code, every instance is the blank 64 KiB page it was created as (no
    call ever writes memory or globals), and its memory usage is reported as 65536 or, without
    instance, as 0. *)
Theorem wasm_runtime_invariant (ops : list WasmOp) :
  let r := run_wasms ops runtime_new in
  wasm_inv r /\
  forall h, memory_usage h r = Ok (if bool_decide (is_Some (instance_cache r !! h)) then 65536 else 0).
Proof.
  cbn zeta. pose proof (wasm_inv_reached ops) as Hinv.
  split; [done|]. intros h. unfold memory_usage. case_bool_decide as Hs.
  - destruct Hs as [i Hi]. rewrite Hi. destruct (proj2 Hinv _ _ Hi) as [_ ->]. cbn [memory]. rewrite length_replicate. by rewrite Z2Nat.id by lia.
  - destruct (_ !! h); [|done]. destruct Hs. eauto.
Qed.

(** A call on a loaded module, in every case: with a limit below 10000 plus 10 per argument byte
    it runs out of gas with nothing used; otherwise [add] and [transfer] return one byte whatever the
    module and the arguments are, and any other name is an unknown function.  The module is instantiated
    and the meter holds the charge in every case; a call on an unknown module changes nothing. *)
Theorem wasm_call_spec (ops : list WasmOp) (h : Hash) (function : string) (args : list Z) (limit : Z) :
  0 <= limit -> limit + call_cost args < 2 ^ 64 ->
  let r := run_wasms ops runtime_new in
  let '(result, r') := wasm_call h function args limit r in
  if bool_decide (is_Some (modules r !! h))
  then result = call_result function args limit /\
       gas_meter r' = Some (mkMeter limit (call_used args limit) 0) /\
       memory_usage h r' = Ok 65536 /\ modules r' = modules r
  else result = Err PE.WasmModuleNotFound /\ r' = r.
Proof.
  intros Hl Hc r. pose proof (wasm_inv_reached ops : wasm_inv r) as Hinv.
  case_bool_decide as Hs.
  - destruct Hs as [m Hm]. rewrite (call_spec h m) by done. repeat split; try done. unfold memory_usage. cbn [with_meter with_cache instance_cache].
    rewrite lookup_insert_eq. unfold blank. cbn [memory]. rewrite length_replicate. by rewrite Z2Nat.id by lia.
  - unfold wasm_call, fetch_module, sbind, sget, slift. destruct (modules r !! h) eqn:Hm; [|done]. destruct Hs. eauto.
Qed.

(** The meter belongs to the runtime, not to the call: when another thread starts a call between the
    moment a call sets the meter and the moment it charges it, the first call is charged against the
    limit of the second.  A call with too little gas then succeeds. *)
Theorem wasm_calls_share_meter (m : WasmModule) (function : string) (args : list Z) (limit limit' : Z) (r : WasmRuntime) :
  wasm_inv r -> modules r !! code_hash m = Some m ->
  0 <= limit < call_cost args -> call_cost args <= limit' -> limit' + call_cost args < 2 ^ 64 ->
  ((run! set_meter limit in call_rest m function args) r).1 = call_result function args limit /\
  is_ok (call_result function args limit) = false /\
  ((run! set_meter limit in run! set_meter limit' in call_rest m function args) r).1 = wasm_dispatch function.
Proof.
  intros Hinv Hm Hl Hl' Hc. unfold set_meter, sbind, smod.
  rewrite (call_rest_spec m function args limit); [|done..|lia|lia]. rewrite (call_rest_spec m function args limit'); [|done..|lia|lia].
  unfold call_result. rewrite (proj2 (Z.leb_gt _ _)) by lia. rewrite (proj2 (Z.leb_le _ _)) by lia. by cbn.
Qed.
End Facts.

Lemma wasm_call_spec_witness :
  let '(result, r') := wasm_call (BP := debug_profile) (toy_digest 32 [1; 2]) "add" [7] 10010
    (run_wasms (H := debug_profile) (H0 := toy_sha3) [Load [1; 2]] runtime_new) in result = Ok [0].
Proof.
  pose proof (wasm_call_spec (BP := debug_profile) (H3 := toy_sha3) [Load [1; 2]] (toy_digest 32 [1; 2]) "add" [7] 10010 ltac:(lia) ltac:(by vm_compute)) as H.
  cbv zeta in H. destruct (wasm_call _ _ _ _ _) as [result r']. rewrite bool_decide_eq_true_2 in H by (eexists; reflexivity).
  destruct H as [-> _]. reflexivity.
Defined.

Lemma wasm_calls_share_meter_witness :
  let m := module_new (H := toy_sha3) [1] in
  ((run! set_meter 5 in run! set_meter 20000 in call_rest (BP := debug_profile) m "add" [])
     (load_module (H3 := toy_sha3) [1] runtime_new).2).1 = Ok [0].
Proof.
  cbv zeta. refine (proj2 (proj2 (wasm_calls_share_meter (BP := debug_profile) (H3 := toy_sha3) _ "add" [] 5 20000 _ _ _ _ _ _))).
  - apply (wasm_inv_load (H3 := toy_sha3)), wasm_inv_new.
  - reflexivity.
  - vm_compute. split; congruence.
  - by vm_compute.
  - by vm_compute.
Defined.
End Wasm.
