(* ===== verification/Derivation.v ===== *)
(** * Digests and key derivation (src/crypto/hash.rs)

    The functions of the module that wrap other crates: SHA-2, SHA-3, Keccak and Blake3 digests, HMAC, HKDF and
    PBKDF2.  The crates are a class that promises lengths and, for HKDF, the bound of RFC 5869. *)

From stdpp Require Import strings.
From S2P Require Import Prelude Hashing.
Abbreviation length := List.length.

Class HashCrates : Type := {
  sha512_digest : list Z -> list Z;
  sha3_512_digest : list Z -> list Z;
  blake3_digest : list Z -> Hash;
  blake3_keyed_digest : list Z -> list Z -> Hash;
  blake3_derive_digest : string -> list Z -> Hash;
  hmac_sha256_mac : list Z -> list Z -> Hash;
  (** [Hkdf::<Sha256>::new(Some(salt), ikm)] and [expand(info, okm)] for an [okm] of the given length. *)
  hkdf_expand : list Z -> list Z -> list Z -> Z -> option (list Z);
  pbkdf2_hmac_array_32 : list Z -> list Z -> Z -> Hash
}.
Class HashCratesLaws `(HashCrates) : Prop := {
  sha512_length : forall m, length (sha512_digest m) = 64%nat;
  sha3_512_length : forall m, length (sha3_512_digest m) = 64%nat;
  hkdf_bound : forall salt ikm info n, 0 <= n ->
    if n <=? 255 * 32 then exists okm, hkdf_expand salt ikm info n = Some okm /\ Z.of_nat (length okm) = n
    else hkdf_expand salt ikm info n = None;
  pbkdf2_length : forall pw salt n, length (pbkdf2_hmac_array_32 pw salt n) = 32%nat
}.

Section Derivation.
Context `{D : Digests} `{K : Keccak} `{Hc : HashCrates}.

Definition hash_sha256 (data : list Z) : Hash := sha256 data.
Definition hash_sha512 (data : list Z) : list Z := sha512_digest data.
Definition hash256 (data : list Z) : Hash := let first := hash_sha256 data in hash_sha256 first.
Definition hash_sha3_512 (data : list Z) : list Z := sha3_512_digest data.
Definition hash_keccak256 (data : list Z) : Hash := keccak256 data.
Definition hash_blake3 (data : list Z) : Hash := blake3_digest data.
Definition blake3_keyed (key data : list Z) : Hash := blake3_keyed_digest key data.
Definition blake3_derive_key (context : string) (key_material : list Z) : Hash := blake3_derive_digest context key_material.

(** HMAC takes keys of every length. *)
Definition hmac_sha256 (key data : list Z) : Hash := hmac_sha256_mac key data.
Definition hkdf_sha256 {E} (ikm salt info : list Z) (len : Z) : Outcome E (list Z) :=
  match hkdf_expand salt ikm info len with Some okm => Ok okm | None => Panic end.
Definition pbkdf2_sha256 (password salt : list Z) (iterations len : Z) : list Z :=
  take (Z.to_nat len) (pbkdf2_hmac_array_32 password salt iterations).

(** How many bytes the derivation functions give: HKDF exactly what is asked for up to 8160 and a panic above,
    PBKDF2 never more than 32, so a longer key that is asked for is silently cut. *)
Theorem derived_lengths `{HL : !HashCratesLaws Hc} {E} (ikm salt info password : list Z) (iterations len : Z) :
  0 <= len ->
  (match hkdf_sha256 (E := E) ikm salt info len with
   | Ok okm => len <= 8160 /\ Z.of_nat (length okm) = len
   | Panic => 8160 < len
   | _ => False
   end) /\
  Z.of_nat (length (pbkdf2_sha256 password salt iterations len)) = Z.min len 32.
Proof.
  intros Hl. split.
  - unfold hkdf_sha256. pose proof (hkdf_bound salt ikm info len Hl) as H. change (255 * 32) with 8160 in H. destruct (Z.leb_spec len 8160).
    + destruct H as (okm & -> & Hn). done.
    + by rewrite H.
  - unfold pbkdf2_sha256. rewrite length_take, pbkdf2_length. lia.
Qed.

(** Two messages that clash under the double digest clash under the single one, or their digests do. *)
Theorem hash256_collision m1 m2 : clash hash256 m1 m2 -> clash sha256 m1 m2 \/ clash sha256 (sha256 m1) (sha256 m2).
Proof.
  intros [Hne Heq]. unfold hash256, hash_sha256 in Heq. destruct (decide (sha256 m1 = sha256 m2)); [by left|by right].
Qed.
End Derivation.

Definition toy_hash_crates : HashCrates := {|
  sha512_digest := toy_digest 64; sha3_512_digest := toy_digest 64; blake3_digest := toy_digest 32;
  blake3_keyed_digest k m := toy_digest 32 (k ++ m); blake3_derive_digest c m := toy_digest 32 m;
  hmac_sha256_mac k m := toy_digest 32 (k ++ m);
  hkdf_expand salt ikm info n := if n <=? 255 * 32 then Some (toy_digest (Z.to_nat n) (salt ++ ikm ++ info)) else None;
  pbkdf2_hmac_array_32 pw salt n := toy_digest 32 (pw ++ salt)
|}.
#[export] Instance toy_hash_crates_laws : HashCratesLaws toy_hash_crates.
Proof.
  split; cbn [sha512_digest sha3_512_digest hkdf_expand pbkdf2_hmac_array_32 toy_hash_crates]; intros; try apply toy_digest_ok.
  destruct (_ <=? _); [|done]. eexists. split; [done|]. rewrite (proj1 (toy_digest_ok _ _)). lia.
Qed.
Lemma derived_lengths_witness : Z.of_nat (length (pbkdf2_sha256 (Hc := toy_hash_crates) [1] [2] 1000 64)) = 32.
Proof. exact (proj2 (derived_lengths (HL := toy_hash_crates_laws) (E := Empty_set) [] [2] [] [1] 1000 64 ltac:(lia))). Defined.
