(* ===== verification/Keys.v ===== *)
(** * Signature schemes (src/crypto/ed25519.rs, src/crypto/dilithium5.rs)

    The signers and verifiers of the node around the crates ed25519-dalek and pqcrypto-dilithium,
    which are classes here with the behaviour their documentation promises; the M-of-N scheme.
    The wrappers discharge the [Signer] interface that the hybrid keys of [HashHelpers] rely on. *)

From stdpp Require Import strings pretty.
From S2P Require Import Prelude Hashing Errors Wal HashHelpers.
Abbreviation length := List.length.

(** ** The crates *)

(** ed25519-dalek 1.0: keys and signatures are opaque, parsing fails with the text of the crate's error. *)
Class Ed25519Crate : Type := {
  EdPublic : Type;
  EdSecret : Type;
  EdSig : Type;
  pk_from_bytes : list Z -> Outcome string EdPublic;
  pk_as_bytes : EdPublic -> list Z;
  sk_from_bytes : list Z -> Outcome string EdSecret;
  sk_to_bytes : EdSecret -> list Z;
  pk_from_secret : EdSecret -> EdPublic;
  sig_from_bytes : list Z -> Outcome string EdSig;
  sig_to_bytes : EdSig -> list Z;
  kp_to_bytes : EdSecret -> EdPublic -> list Z;
  kp_from_bytes : list Z -> Outcome string (EdSecret * EdPublic);
  dalek_sign : EdSecret -> EdPublic -> list Z -> EdSig;
  dalek_verify : EdPublic -> list Z -> EdSig -> bool
}.
Class Ed25519Laws `(Ed25519Crate) : Prop := {
  pk_roundtrip : forall pk, pk_from_bytes (pk_as_bytes pk) = Ok pk;
  sk_length : forall sk, length (sk_to_bytes sk) = 32%nat;
  sk_roundtrip : forall sk, sk_from_bytes (sk_to_bytes sk) = Ok sk;
  sk_any_seed : forall seed, length seed = 32%nat -> exists sk, sk_from_bytes seed = Ok sk /\ sk_to_bytes sk = seed;
  sig_roundtrip : forall s, sig_from_bytes (sig_to_bytes s) = Ok s;
  kp_roundtrip : forall sk, kp_from_bytes (kp_to_bytes sk (pk_from_secret sk)) = Ok (sk, pk_from_secret sk);
  dalek_law : forall sk m, dalek_verify (pk_from_secret sk) m (dalek_sign sk (pk_from_secret sk) m) = true
}.

(** pqcrypto-dilithium 0.4: signing may draw coins. *)
Class DilithiumCrate : Type := {
  DiPublic : Type;
  DiSecret : Type;
  DiSig : Type;
  DiCoins : Type;
  di_keypair : DiCoins -> DiPublic * DiSecret;
  dpk_from_bytes : list Z -> option DiPublic;
  dpk_as_bytes : DiPublic -> list Z;
  dsk_as_bytes : DiSecret -> list Z;
  dsig_from_bytes : list Z -> option DiSig;
  dsig_as_bytes : DiSig -> list Z;
  detached_sign : DiCoins -> list Z -> DiSecret -> DiSig;
  verify_detached_signature : DiSig -> list Z -> DiPublic -> bool
}.
Class DilithiumLaws `(DilithiumCrate) : Prop := {
  dpk_roundtrip : forall pk, dpk_from_bytes (dpk_as_bytes pk) = Some pk;
  dsig_roundtrip : forall s, dsig_from_bytes (dsig_as_bytes s) = Some s;
  dilithium_law : forall c c' m, verify_detached_signature (detached_sign c' m (di_keypair c).2) m (di_keypair c).1 = true
}.

(** ** Ed25519Signer and Ed25519Verifier *)

Module Ed25519.
Section Ed25519.
Context `{Ed : Ed25519Crate} `{H3 : Sha3}.

(** The crate's [Keypair], whose fields the code fills. *)
Record Keypair : Type := mkKeypair { secret : EdSecret; public : EdPublic }.
Record Ed25519Signer : Type := mkEdSigner { keypair : Keypair }.

Definition SECRET_KEY_LENGTH : nat := 32.
(** [generate]: the secret key comes from the system's generator. *)
Definition generate (drawn : EdSecret) : Ed25519Signer := mkEdSigner (mkKeypair drawn (pk_from_secret drawn)).
Definition from_seed {E} (seed : list Z) : Outcome E Ed25519Signer :=
  match sk_from_bytes seed with
  | Ok secret => Ok (mkEdSigner (mkKeypair secret (pk_from_secret secret)))
  | _ => Panic
  end.
Definition from_secret_bytes (bytes : list Z) : Outcome PacyteError Ed25519Signer :=
  if negb (bool_decide (length bytes = SECRET_KEY_LENGTH))
  then Err (PE.CryptoError ("Invalid secret key length: " +:+ pretty (length bytes)))
  else
    let? secret := match sk_from_bytes bytes with
                   | Ok s => Ok s | Err e => Err (PE.CryptoError e) | Panic => Panic | Deadlock => Deadlock end in
    Ok (mkEdSigner (mkKeypair secret (pk_from_secret secret))).
(** [Clone]: through the bytes of the pair, [unwrap]ped. *)
Definition clone {E} (s : Ed25519Signer) : Outcome E Ed25519Signer :=
  match kp_from_bytes (kp_to_bytes (secret (keypair s)) (public (keypair s))) with
  | Ok (sk, pk) => Ok (mkEdSigner (mkKeypair sk pk))
  | _ => Panic
  end.
Definition sign (s : Ed25519Signer) (message : list Z) : list Z :=
  sig_to_bytes (dalek_sign (secret (keypair s)) (public (keypair s)) message).
Definition public_key_bytes (s : Ed25519Signer) : list Z := pk_as_bytes (public (keypair s)).
Definition secret_key_bytes (s : Ed25519Signer) : list Z := sk_to_bytes (secret (keypair s)).
Definition address (s : Ed25519Signer) : Address := sha3_256 (pk_as_bytes (public (keypair s))).
Definition sign_detached (s : Ed25519Signer) (message : list Z) : list Z := sign s message.

Definition verify (message signature public_key : list Z) : bool :=
  match pk_from_bytes public_key with
  | Ok pk =>
      match sig_from_bytes signature with
      | Ok sig => dalek_verify pk message sig
      | _ => false
      end
  | _ => false
  end.
Definition address_from_pk (public_key : list Z) : Address := sha3_256 public_key.

(** [for i in 0..messages.len() { if !verify(..[i]) { return false } }]. *)
Fixpoint verify_each {E} (n i : nat) (messages signatures public_keys : list (list Z)) : Outcome E bool :=
  match n with
  | O => Ok true
  | S n =>
      let? m := index messages i in
      let? s := index signatures i in
      let? k := index public_keys i in
      if negb (verify m s k) then Ok false else verify_each n (S i) messages signatures public_keys
  end.
Definition verify_batch {E} (messages signatures public_keys : list (list Z)) : Outcome E bool :=
  if negb (bool_decide (length messages = length signatures)) || negb (bool_decide (length messages = length public_keys))
  then Ok false
  else verify_each (length messages) 0 messages signatures public_keys.

(** ** MultiSigEd25519; [usize] counters never pass the number of keys *)

Record MultiSigEd25519 : Type := mkMulti { threshold : nat; multi_keys : list EdPublic }.

(** [iter().map(from_bytes).collect::<Result<Vec<_>, _>>()]: the first error. *)
Fixpoint parse_keys (l : list (list Z)) : Outcome PacyteError (list EdPublic) :=
  match l with
  | [] => Ok []
  | b :: l =>
      match pk_from_bytes b with
      | Ok pk => let? rest := parse_keys l in Ok (pk :: rest)
      | Err e => Err (PE.CryptoError e)
      | Panic => Panic
      | Deadlock => Deadlock
      end
  end.
Definition multi_new (threshold : nat) (public_keys : list (list Z)) : Outcome PacyteError MultiSigEd25519 :=
  if bool_decide (threshold = 0%nat) || bool_decide (length public_keys < threshold)%nat
  then Err (PE.CryptoError ("Invalid threshold: " +:+ pretty threshold +:+ "/" +:+ pretty (length public_keys)))
  else let? pks := parse_keys public_keys in Ok (mkMulti threshold pks).

(** The inner loop: the first unused key under which the signature verifies. *)
Fixpoint find_key (message : list Z) (sig : EdSig) (used_keys : gset nat) (idx : nat) (keys : list EdPublic) : option nat :=
  match keys with
  | [] => None
  | pk :: keys =>
      if bool_decide (idx ∈ used_keys) then find_key message sig used_keys (S idx) keys
      else if dalek_verify pk message sig then Some idx
      else find_key message sig used_keys (S idx) keys
  end.
Fixpoint multi_loop (ms : MultiSigEd25519) (message : list Z) (signatures : list (list Z)) (valid_count : nat) (used_keys : gset nat) : bool :=
  match signatures with
  | [] => false
  | sig_bytes :: rest =>
      match sig_from_bytes sig_bytes with
      | Ok sig =>
          let '(valid_count, used_keys) :=
            match find_key message sig used_keys 0 (multi_keys ms) with
            | Some idx => (S valid_count, {[ idx ]} ∪ used_keys)
            | None => (valid_count, used_keys)
            end in
          if bool_decide (threshold ms <= valid_count)%nat then true
          else multi_loop ms message rest valid_count used_keys
      | _ => multi_loop ms message rest valid_count used_keys
      end
  end.
Definition multi_verify (ms : MultiSigEd25519) (message : list Z) (signatures : list (list Z)) : bool :=
  if bool_decide (length signatures < threshold ms)%nat then false
  else multi_loop ms message signatures 0 ∅.
End Ed25519.
End Ed25519.

(** ** Dilithium5Signer and Dilithium5Verifier *)

Module Dilithium5.
Section Dilithium5.
Context `{Di : DilithiumCrate} `{H3 : Sha3}.

Record Dilithium5Signer : Type := mkDiSigner { public_key : DiPublic; secret_key : DiSecret }.
Definition generate (c : DiCoins) : Dilithium5Signer := let '(pk, sk) := di_keypair c in mkDiSigner pk sk.
(** The seed is not used. *)
Definition from_seed (c : DiCoins) (seed : list Z) : Outcome PacyteError Dilithium5Signer :=
  let '(pk, sk) := di_keypair c in Ok (mkDiSigner pk sk).
Definition sign (c : DiCoins) (s : Dilithium5Signer) (message : list Z) : list Z :=
  dsig_as_bytes (detached_sign c message (secret_key s)).
Definition public_key_bytes (s : Dilithium5Signer) : list Z := dpk_as_bytes (public_key s).
Definition secret_key_bytes (s : Dilithium5Signer) : list Z := dsk_as_bytes (secret_key s).
Definition address (s : Dilithium5Signer) : Address := sha3_256 (dpk_as_bytes (public_key s)).
Definition verify (message signature public_key : list Z) : bool :=
  match dpk_from_bytes public_key with
  | None => false
  | Some pk =>
      match dsig_from_bytes signature with
      | None => false
      | Some sig => verify_detached_signature sig message pk
      end
  end.
Definition address_from_pk (public_key : list Z) : Address := sha3_256 public_key.
End Dilithium5.

Definition PUBLIC_KEY_SIZE : Z := 2592.
Definition SECRET_KEY_SIZE : Z := 4864.
Definition SIGNATURE_SIZE : Z := 4595.
Definition SECURITY_LEVEL : Z := 256.
Definition NIST_CATEGORY : Z := 5.
Definition verify_sizes (pk_len sk_len sig_len : Z) : bool :=
  (pk_len =? PUBLIC_KEY_SIZE) && (sk_len =? SECRET_KEY_SIZE) && (sig_len =? SIGNATURE_SIZE).
End Dilithium5.
