(* ===== verification/KeysProps.v ===== *)
(** * Properties of the signature schemes

    Signers keep their pair consistent and discharge the [Signer] interface; the batch check; what
    the M-of-N check counts. *)

From stdpp Require Import strings pretty.
From S2P Require Import Prelude Hashing Errors Wal HashHelpers Keys.
Abbreviation length := List.length.
Import Ed25519.

(** ** Signers *)

Section Signers.
Context `{Ed : Ed25519Crate} `{EL : !Ed25519Laws Ed} `{Di : DilithiumCrate} `{DL : !DilithiumLaws Di} `{H3 : Sha3}.

(** The field [keypair] is private: every constructor derives the public half from the secret one. *)
Definition signer_ok (s : Ed25519Signer) : Prop := public (keypair s) = pk_from_secret (secret (keypair s)).
Definition di_signer_ok (s : Dilithium5.Dilithium5Signer) : Prop :=
  exists c, s = Dilithium5.mkDiSigner (di_keypair c).1 (di_keypair c).2.

#[export] Instance wrapper_signatures : Signatures :=
  {| ed25519_verify := Ed25519.verify; dilithium5_verify := Dilithium5.verify |}.

Lemma ed_sign_verifies s m : signer_ok s -> Ed25519.verify m (sign s m) (public_key_bytes s) = true.
Proof.
  intros Hs. unfold verify, sign, public_key_bytes. rewrite pk_roundtrip, sig_roundtrip. unfold signer_ok in Hs. rewrite Hs. apply dalek_law.
Qed.
Lemma di_sign_verifies c s m : di_signer_ok s -> Dilithium5.verify m (Dilithium5.sign c s m) (Dilithium5.public_key_bytes s) = true.
Proof.
  intros [c' ->]. unfold Dilithium5.verify, Dilithium5.sign, Dilithium5.public_key_bytes. cbn [Dilithium5.public_key Dilithium5.secret_key].
  rewrite dpk_roundtrip, dsig_roundtrip. apply dilithium_law.
Qed.

#[export] Program Instance ed25519_signer : Signer {s : Ed25519Signer | signer_ok s} ed25519_verify := {|
  signer_sign s := sign (proj1_sig s);
  signer_key s := public_key_bytes (proj1_sig s);
  signer_address s := address (proj1_sig s)
|}.
Next Obligation. intros [s Hs] m. by apply ed_sign_verifies. Qed.

#[export] Program Instance dilithium5_signer (c : DiCoins) : Signer {s : Dilithium5.Dilithium5Signer | di_signer_ok s} dilithium5_verify := {|
  signer_sign s := Dilithium5.sign c (proj1_sig s);
  signer_key s := Dilithium5.public_key_bytes (proj1_sig s);
  signer_address s := Dilithium5.address (proj1_sig s)
|}.
Next Obligation. intros c [s Hs] m. by apply di_sign_verifies. Qed.

(** The constructors of [HybridSigner] on these signers. *)
Abbreviation HybridSigner := (Hybrid {s : Ed25519Signer | signer_ok s} {s : Dilithium5.Dilithium5Signer | di_signer_ok s}).
Lemma generate_ok drawn : signer_ok (generate drawn).
Proof. done. Qed.
Lemma di_generate_ok c : di_signer_ok (Dilithium5.generate c).
Proof. exists c. unfold Dilithium5.generate. by destruct (di_keypair c). Qed.
Definition new_ed25519 (drawn : EdSecret) : HybridSigner := HybEd25519 (generate drawn ↾ generate_ok drawn).
Definition new_dilithium5 (c : DiCoins) : HybridSigner := HybDilithium5 (Dilithium5.generate c ↾ di_generate_ok c).
Definition new_both (drawn : EdSecret) (c : DiCoins) : HybridSigner :=
  HybBoth (generate drawn ↾ generate_ok drawn) (Dilithium5.generate c ↾ di_generate_ok c).

(** What a generated hybrid signer signs verifies under its public keys, and the address of a signer with
    both keys is the one of its Ed25519 key. *)
Theorem hybrid_generated_verifies (drawn : EdSecret) (c coins : DiCoins) (m : list Z) :
  Forall (fun s : HybridSigner => hybrid_verify (hybrid_sign (DiS := dilithium5_signer coins) s m) m (public_keys (DiS := dilithium5_signer coins) s) = true)
    [new_ed25519 drawn; new_dilithium5 c; new_both drawn c] /\
  hybrid_address (DiS := dilithium5_signer coins) (new_both drawn c) = hybrid_address (DiS := dilithium5_signer coins) (new_ed25519 drawn).
Proof.
  split; [|done]. repeat constructor; cbn.
  - by apply ed_sign_verifies.
  - apply di_sign_verifies, di_generate_ok.
  - rewrite ed_sign_verifies by done. apply di_sign_verifies, di_generate_ok.
Qed.

(** Every way to obtain an Ed25519 signer gives a consistent one: drawn, from any 32-byte seed (which
    never panics), from secret bytes, or cloned.  It reads its secret back, signs what verifies under its
    public key, and its address is the one a verifier derives from that key. *)
Theorem ed25519_signers_sound (drawn : EdSecret) (seed m : list Z) :
  length seed = 32%nat ->
  exists s, from_seed (E := Empty_set) seed = Ok s /\ from_secret_bytes seed = Ok s /\ secret_key_bytes s = seed /\
  forall t, t ∈ [generate drawn; s] ->
    signer_ok t /\ clone (E := Empty_set) t = Ok t /\
    from_secret_bytes (secret_key_bytes t) = Ok t /\
    verify m (sign t m) (public_key_bytes t) = true /\
    address t = address_from_pk (public_key_bytes t).
Proof.
  intros Hl. destruct (sk_any_seed seed Hl) as (sk & Hsk & Hb). exists (generate sk). unfold from_seed, from_secret_bytes, SECRET_KEY_LENGTH. rewrite Hsk.
  rewrite (bool_decide_eq_true_2 (length seed = 32%nat)) by done. split_and!; [done..|].
  assert (Hgen : forall sk, let t := generate sk in signer_ok t /\ clone (E := Empty_set) t = Ok t /\
    from_secret_bytes (secret_key_bytes t) = Ok t /\ verify m (sign t m) (public_key_bytes t) = true /\ address t = address_from_pk (public_key_bytes t)).
  { intros k. cbn zeta. split_and!; [done| | |by apply ed_sign_verifies|done].
    - unfold clone. cbn [generate keypair secret public]. by rewrite kp_roundtrip.
    - unfold from_secret_bytes, secret_key_bytes. cbn [generate keypair secret]. rewrite bool_decide_eq_true_2 by apply sk_length.
      cbn [negb]. by rewrite sk_roundtrip. }
  intros t Ht. rewrite !elem_of_cons in Ht. destruct Ht as [->|[->|Ht]]; [apply Hgen..|by apply elem_of_nil in Ht].
Qed.

(** The batch check is the conjunction of the single checks, and its indexing never panics. *)
Lemma verify_each_spec {E} ms : forall ss ks pm ps pk,
  length ms = length ss -> length ms = length ks -> length pm = length ps -> length pm = length pk ->
  verify_each (E := E) (length ms) (length pm) (pm ++ ms) (ps ++ ss) (pk ++ ks)
  = Ok (forallb (fun t => verify t.1 t.2.1 t.2.2) (zip ms (zip ss ks))).
Proof.
  induction ms as [|m ms IH]; intros [|s ss] [|k ks] pm ps pk H1 H2 H3' H4; try done.
  cbn [length verify_each]. unfold index. rewrite list_lookup_middle by done. cbn [obind].
  rewrite (list_lookup_middle ps ss s (length pm)) by done. cbn [obind]. rewrite (list_lookup_middle pk ks k (length pm)) by done. cbn [obind].
  cbn [zip zip_with forallb fst snd]. destruct (verify m s k); cbn [negb andb]; [|done].
  specialize (IH ss ks (pm ++ [m]) (ps ++ [s]) (pk ++ [k])). rewrite !length_app in IH. cbn [length] in IH. rewrite <-!app_assoc in IH. cbn [app] in IH.
  rewrite Nat.add_1_r in IH. apply IH; cbn in *; lia.
Qed.
Theorem verify_batch_all {E} (ms ss ks : list (list Z)) :
  verify_batch (E := E) ms ss ks =
  Ok (bool_decide (length ms = length ss) && bool_decide (length ms = length ks) && forallb (fun t => verify t.1 t.2.1 t.2.2) (zip ms (zip ss ks))).
Proof.
  unfold verify_batch. case_bool_decide as H1; cbn [negb orb andb]; [|done]. case_bool_decide as H2; cbn [negb orb andb]; [|done].
  exact (verify_each_spec ms ss ks [] [] [] H1 H2 eq_refl eq_refl).
Qed.
End Signers.

(** ** The M-of-N check *)

Section Multi.
Context `{Ed : Ed25519Crate}.

(** The bytes are a signature of [message] under [pk]. *)
Definition signs (message : list Z) (pk : EdPublic) (bytes : list Z) : bool :=
  match sig_from_bytes bytes with Ok sig => dalek_verify pk message sig | _ => false end.

Lemma find_key_Some m sig U idx keys i : find_key m sig U idx keys = Some i ->
  i ∉ U /\ exists j pk, i = (idx + j)%nat /\ keys !! j = Some pk /\ dalek_verify pk m sig = true.
Proof.
  revert idx. induction keys as [|pk keys IH]; intros idx; cbn; [done|]. case_bool_decide as Hu; [|destruct (dalek_verify pk m sig) eqn:Hv].
  - intros (Hi & j & pk' & -> & Hk & Hv)%IH. split; [done|]. exists (S j), pk'. split_and!; [lia|done|done].
  - intros [= <-]. split; [done|]. exists 0%nat, pk. split_and!; [lia|done|done].
  - intros (Hi & j & pk' & -> & Hk & Hv')%IH. split; [done|]. exists (S j), pk'. split_and!; [lia|done|done].
Qed.
Lemma find_key_None m sig U idx keys j pk : find_key m sig U idx keys = None -> keys !! j = Some pk ->
  dalek_verify pk m sig = true -> (idx + j)%nat ∈ U.
Proof.
  revert idx j. induction keys as [|pk' keys IH]; intros idx j; cbn; [done|]. case_bool_decide as Hu; [|destruct (dalek_verify pk' m sig) eqn:Hv'; [done|]].
  - intros Hf Hj Hv. destruct j as [|j]; [by rewrite Nat.add_0_r|]. rewrite Nat.add_succ_r. by apply (IH (S idx)).
  - intros Hf Hj Hv. destruct j as [|j]; [cbn in Hj; congruence|]. rewrite Nat.add_succ_r. by apply (IH (S idx)).
Qed.

(** A set of key positions with pairwise different positions of valid signatures. *)
Definition matched (ms : MultiSigEd25519) (m : list Z) (sigs : list (list Z)) (pairs : list (nat * nat)) : Prop :=
  NoDup pairs.*1 /\ NoDup pairs.*2 /\
  Forall (fun p => exists pk b, multi_keys ms !! p.1 = Some pk /\ sigs !! p.2 = Some b /\ signs m pk b = true) pairs.

Lemma matched_app ms m sigs l pairs : matched ms m sigs pairs -> matched ms m (sigs ++ l) pairs.
Proof.
  intros (Hn1 & Hn2 & Hf). split_and!; [done..|]. eapply Forall_impl; [exact Hf|]. intros p (pk & b & ? & Hl & ?).
  exists pk, b. split_and!; [done| |done]. by apply lookup_app_l_Some.
Qed.

Lemma multi_loop_sound ms m : forall rest dn pairs,
  matched ms m dn pairs -> Forall (fun p => (p.2 < length dn)%nat) pairs ->
  multi_loop ms m rest (length pairs) (list_to_set pairs.*1) = true ->
  exists pairs', matched ms m (dn ++ rest) pairs' /\ (threshold ms <= length pairs')%nat.
Proof.
  induction rest as [|b rest IH]; intros dn pairs Hm Hb; [done|]. cbn [multi_loop].
  replace (dn ++ b :: rest) with ((dn ++ [b]) ++ rest) by (by rewrite <-app_assoc).
  assert (Hlt : Forall (fun p => (p.2 < length (dn ++ [b]))%nat) pairs)
    by (eapply Forall_impl; [exact Hb|]; intros p Hp; rewrite length_app; cbn in *; lia).
  pose proof (IH (dn ++ [b]) pairs (matched_app _ _ _ _ _ Hm) Hlt) as Hskip.
  destruct (sig_from_bytes b) as [sig|e| |] eqn:Hs; [|by apply Hskip..].
  destruct (find_key m sig _ 0 _) as [i|] eqn:Hf.
  2:{ case_bool_decide as Ht; [intros _|by apply Hskip]. exists pairs. split; [|done]. by do 2 apply matched_app. }
  apply find_key_Some in Hf as (Hi & j & pk & -> & Hk & Hv). cbn [Nat.add] in *. rewrite elem_of_list_to_set in Hi.
  assert (Hnew : matched ms m (dn ++ [b]) ((j, length dn) :: pairs)).
  { destruct (matched_app _ _ _ [b] _ Hm) as (Hn1 & Hn2 & Hg). split_and!; cbn [fmap list_fmap fst snd]; constructor; try done.
    - intros Hin. apply list_elem_of_fmap in Hin as (p & Hp & Hin). rewrite Forall_forall in Hb. specialize (Hb _ Hin). rewrite <-Hp in Hb. lia.
    - exists pk, b. cbn. split_and!; [done|by apply list_lookup_middle|]. unfold signs. by rewrite Hs. }
  case_bool_decide as Ht.
  - intros _. exists ((j, length dn) :: pairs). split; [|done]. by apply matched_app.
  - apply (IH (dn ++ [b]) ((j, length dn) :: pairs)); [done|]. constructor; [cbn; rewrite length_app; cbn; lia|done].
Qed.

(** An accepted M-of-N check is backed by at least [threshold] signatures at different places of the
    list, each valid under its own key position: no signature and no key position counts twice. *)
Lemma multi_verify_sound (ms : MultiSigEd25519) (m : list Z) (signatures : list (list Z)) :
  multi_verify ms m signatures = true ->
  exists pairs, matched ms m signatures pairs /\ (threshold ms <= length pairs)%nat.
Proof.
  unfold multi_verify. case_bool_decide; [done|]. apply (multi_loop_sound ms m signatures [] []); [|constructor].
  split_and!; constructor.
Qed.

(** ** Where each signature fits one key position, the check is exact *)

(** The bytes verify at one position of the keys at most. *)
Definition fits_once (ms : MultiSigEd25519) (m b : list Z) : Prop :=
  forall i j pk pk', multi_keys ms !! i = Some pk -> multi_keys ms !! j = Some pk' -> signs m pk b = true -> signs m pk' b = true -> i = j.

Definition signed_by (m : list Z) (sigs : list (list Z)) (pk : EdPublic) : bool := existsb (signs m pk) sigs.
Definition signers (ms : MultiSigEd25519) (m : list Z) (sigs : list (list Z)) : list EdPublic :=
  filter (fun pk => signed_by m sigs pk = true) (multi_keys ms).

Fixpoint positions (P : EdPublic -> bool) (idx : nat) (keys : list EdPublic) : list nat :=
  match keys with
  | [] => []
  | k :: ks => if P k then idx :: positions P (S idx) ks else positions P (S idx) ks
  end.
Lemma elem_of_positions P keys idx i : i ∈ positions P idx keys <-> exists j pk, i = (idx + j)%nat /\ keys !! j = Some pk /\ P pk = true.
Proof.
  revert idx. induction keys as [|k ks IH]; intros idx; cbn [positions]; [rewrite elem_of_nil; naive_solver|].
  assert (Htail : (exists j pk, i = (S idx + j)%nat /\ ks !! j = Some pk /\ P pk = true) <->
                  (exists j pk, i = (idx + S j)%nat /\ (k :: ks) !! S j = Some pk /\ P pk = true)).
  { split; intros (j & pk & -> & H); exists j, pk; (split; [lia|exact H]). }
  destruct (P k) eqn:Hk; [rewrite elem_of_cons|]; rewrite IH, Htail; split.
  - intros [->|(j & H)]; [exists 0%nat, k|exists (S j); exact H]. split_and!; [lia|done|done].
  - intros ([|j] & pk & -> & H); [left; lia|right]. exists j, pk. split; [lia|exact (proj2 (conj I H))].
  - intros (j & H). by exists (S j).
  - intros ([|j] & pk & -> & Hj & Hp); [cbn in Hj; congruence|]. by exists j, pk.
Qed.
Lemma NoDup_positions P keys idx : NoDup (positions P idx keys).
Proof.
  revert idx. induction keys as [|k ks IH]; intros idx; cbn [positions]; [constructor|]. destruct (P k); [|done].
  constructor; [|done]. rewrite elem_of_positions. intros (j & pk & ? & _). lia.
Qed.
Lemma length_positions (P : EdPublic -> bool) keys idx : length (positions P idx keys) = length (filter (fun pk => P pk = true) keys).
Proof.
  revert idx. induction keys as [|k ks IH]; intros idx; [done|]. cbn [positions]. rewrite filter_cons.
  destruct (P k); [rewrite decide_True by done; cbn [length]; by rewrite IH|by rewrite decide_False by done].
Qed.

Lemma filter_or_length (P Q : EdPublic -> bool) keys :
  (length (filter (fun pk => P pk || Q pk = true) keys) <= length (filter (fun pk => P pk = true) keys) + length (filter (fun pk => Q pk = true) keys))%nat.
Proof.
  induction keys as [|k ks IH]; [done|]. rewrite !filter_cons. destruct (P k), (Q k); cbn [orb]; repeat case_decide; cbn [length]; try done; lia.
Qed.
Lemma one_signer ms m b : fits_once ms m b -> (length (filter (fun pk => signs m pk b = true) (multi_keys ms)) <= 1)%nat.
Proof.
  intros Hb. rewrite <-(length_positions _ _ 0). pose proof (NoDup_positions (fun pk => signs m pk b) (multi_keys ms) 0) as Hn.
  pose proof (elem_of_positions (fun pk => signs m pk b) (multi_keys ms) 0) as He.
  destruct (positions _ 0 (multi_keys ms)) as [|i [|j l]]; [cbn; lia..|]. exfalso.
  destruct (proj1 (He i) ltac:(set_solver)) as (i' & pk & -> & Hi & Hsi). destruct (proj1 (He j) ltac:(set_solver)) as (j' & pk' & -> & Hj & Hsj).
  rewrite (Hb i' j' pk pk' Hi Hj Hsi Hsj) in Hn. apply NoDup_cons in Hn. set_solver.
Qed.
Lemma signers_nil ms m : signers ms m [] = [].
Proof. unfold signers. induction (multi_keys ms) as [|k ks IH]; [done|]. rewrite filter_cons. by rewrite decide_False by done. Qed.
Lemma signers_bound ms m sigs : Forall (fits_once ms m) sigs -> (length (signers ms m sigs) <= length sigs)%nat.
Proof.
  induction 1 as [|b sigs Hb _ IH]; [by rewrite signers_nil|]. unfold signers, signed_by in *. cbn [existsb length].
  etrans; [apply (filter_or_length (fun pk => signs m pk b))|]. pose proof (one_signer ms m b Hb). lia.
Qed.

Lemma signed_by_app m l1 l2 pk : signed_by m (l1 ++ l2) pk = signed_by m l1 pk || signed_by m l2 pk.
Proof. apply existsb_app. Qed.
Lemma signers_mono ms m l1 l2 : (length (signers ms m l1) <= length (signers ms m (l1 ++ l2)))%nat.
Proof.
  unfold signers. induction (multi_keys ms) as [|k ks IH]; [done|]. rewrite !filter_cons, signed_by_app.
  destruct (signed_by m l1 k), (signed_by m l2 k); cbn [orb]; repeat case_decide; cbn [length]; try done; lia.
Qed.

(** The state of the loop after the signatures [dn]. *)
Definition used_after (ms : MultiSigEd25519) (m : list Z) (dn : list (list Z)) : gset nat :=
  list_to_set (positions (signed_by m dn) 0 (multi_keys ms)).
Lemma elem_of_used ms m dn i : i ∈ used_after ms m dn <-> exists pk, multi_keys ms !! i = Some pk /\ signed_by m dn pk = true.
Proof.
  unfold used_after. rewrite elem_of_list_to_set, elem_of_positions. split; [by intros (j & pk & -> & ?); exists pk|by intros (pk & ?); exists i, pk].
Qed.
Lemma size_used ms m dn : size (used_after ms m dn) = length (signers ms m dn).
Proof. unfold used_after. rewrite size_list_to_set by apply NoDup_positions. apply length_positions. Qed.

(** A signature that fits no unused key adds no signer; one that fits the unused position [i] adds that one. *)
Lemma used_skip ms m dn b : (forall j pk, multi_keys ms !! j = Some pk -> signs m pk b = true -> j ∈ used_after ms m dn) ->
  used_after ms m (dn ++ [b]) = used_after ms m dn.
Proof.
  intros H. apply set_eq. intros i. rewrite !elem_of_used. split; intros (pk & Hk & Hs); [|exists pk; by rewrite signed_by_app, Hs].
  rewrite signed_by_app in Hs. apply orb_prop in Hs as [Hs|Hs]; [by exists pk|]. cbn in Hs. rewrite orb_false_r in Hs.
  by apply elem_of_used, (H i pk).
Qed.
Lemma used_add ms m dn b i pk : fits_once ms m b -> multi_keys ms !! i = Some pk -> signs m pk b = true ->
  used_after ms m (dn ++ [b]) = {[ i ]} ∪ used_after ms m dn.
Proof.
  intros Hn Hi Hs. apply set_eq. intros j. rewrite elem_of_union, elem_of_singleton, !elem_of_used. setoid_rewrite signed_by_app. split.
  - intros (pk' & Hj & Hs'). apply orb_prop in Hs' as [Hs'|Hs']; [right; by exists pk'|left]. cbn in Hs'. rewrite orb_false_r in Hs'.
    by apply (Hn j i pk' pk).
  - intros [->|(pk' & Hj & Hs')]; [exists pk|exists pk'; by rewrite Hs']. split; [done|]. cbn. rewrite Hs. by destruct (signed_by m dn pk).
Qed.

Lemma multi_loop_exact ms m : forall rest dn,
  Forall (fits_once ms m) rest -> (length (signers ms m dn) < threshold ms)%nat ->
  multi_loop ms m rest (length (signers ms m dn)) (used_after ms m dn) = bool_decide (threshold ms <= length (signers ms m (dn ++ rest)))%nat.
Proof.
  induction rest as [|b rest IH]; intros dn Hall Hlt; cbn [multi_loop].
  { rewrite app_nil_r, bool_decide_eq_false_2; [done|lia]. }
  replace (dn ++ b :: rest) with ((dn ++ [b]) ++ rest) by (by rewrite <-app_assoc). apply Forall_cons in Hall as [Hn Hall]. specialize (IH (dn ++ [b]) Hall).
  assert (Hskip : (forall j pk, multi_keys ms !! j = Some pk -> signs m pk b = true -> j ∈ used_after ms m dn) ->
     multi_loop ms m rest (length (signers ms m dn)) (used_after ms m dn) = bool_decide (threshold ms <= length (signers ms m ((dn ++ [b]) ++ rest)))%nat).
  { intros H. rewrite <-!size_used, <-(used_skip ms m dn b H) in *. rewrite size_used in *. by apply IH. }
  destruct (sig_from_bytes b) as [sig|e| |] eqn:Hb; [|apply Hskip; intros j pk _; unfold signs; by rewrite Hb..].
  destruct (find_key m sig (used_after ms m dn) 0 (multi_keys ms)) as [i|] eqn:Hf.
  - apply find_key_Some in Hf as (Hi & j & pk & -> & Hk & Hv). cbn [Nat.add] in *.
    assert (Hs : signs m pk b = true) by (unfold signs; by rewrite Hb). pose proof (used_add ms m dn b j pk Hn Hk Hs) as Hu. rewrite <-Hu.
    assert (Hc : S (length (signers ms m dn)) = length (signers ms m (dn ++ [b]))).
    { rewrite <-!size_used, Hu, size_union, size_singleton by set_solver. done. }
    rewrite Hc. destruct (decide (threshold ms <= length (signers ms m (dn ++ [b])))%nat) as [Ht|Ht].
    + rewrite (bool_decide_eq_true_2 (threshold ms <= length (signers ms m (dn ++ [b])))%nat Ht), bool_decide_eq_true_2; [done|]. etrans; [exact Ht|apply signers_mono].
    + rewrite (bool_decide_eq_false_2 (threshold ms <= length (signers ms m (dn ++ [b])))%nat Ht). apply IH. lia.
  - rewrite (bool_decide_eq_false_2 (threshold ms <= length (signers ms m dn))%nat) by lia. apply Hskip. intros j pk Hj Hs. unfold signs in Hs. rewrite Hb in Hs. exact (find_key_None _ _ _ _ _ _ _ Hf Hj Hs).
Qed.

(** C24. An accepted M-of-N check is backed by at least [threshold] signatures at different places of the list, each
    valid under a key position of its own, for all keys and signatures.  It is complete where each of the given
    signatures verifies, for this message, at one of the listed key positions at most: there, with a positive
    threshold, it accepts if and only if at least [threshold] of the keys signed the message, in whatever order the
    signatures come and whatever else is among them.  (The crate does not promise that a signature verifies under one
    key only, so this is asked of the input and not of the crate.) *)
Theorem multisig_exact (ms : MultiSigEd25519) (m : list Z) (signatures : list (list Z)) :
  (multi_verify ms m signatures = true -> exists pairs, matched ms m signatures pairs /\ (threshold ms <= length pairs)%nat) /\
  (Forall (fits_once ms m) signatures -> (0 < threshold ms)%nat ->
   multi_verify ms m signatures = bool_decide (threshold ms <= length (signers ms m signatures))%nat).
Proof.
  split; [apply multi_verify_sound|]. intros Hn Ht. unfold multi_verify. pose proof (signers_bound ms m signatures Hn).
  case_bool_decide; [by rewrite bool_decide_eq_false_2 by lia|].
  pose proof (multi_loop_exact ms m signatures [] Hn) as Hl. rewrite signers_nil in Hl. cbn [length app] in Hl. rewrite <-Hl by done. f_equal.
  apply leibniz_equiv. symmetry. apply size_empty_inv. by rewrite size_used, signers_nil.
Qed.
End Multi.

(** ** A key listed twice *)

Lemma parse_keys_as_bytes `{Ed25519Laws} pks : parse_keys (pk_as_bytes <$> pks) = Ok pks.
Proof. induction pks as [|pk pks IH]; [done|]. cbn [fmap list_fmap parse_keys]. rewrite pk_roundtrip. by setoid_rewrite IH. Qed.

(** The constructor does not reject repeated keys, and then one signer is enough: with a key listed
    twice a 2-of-2 check accepts the single signature of its holder, sent twice. *)
Theorem multisig_repeated_key `{EL : Ed25519Laws} (s : Ed25519Signer) (m : list Z) :
  signer_ok s ->
  exists ms, multi_new 2 [public_key_bytes s; public_key_bytes s] = Ok ms /\ multi_verify ms m [sign s m; sign s m] = true.
Proof.
  intros Hs. exists (mkMulti 2 [public (keypair s); public (keypair s)]). split.
  - unfold multi_new. cbn [length]. rewrite (bool_decide_eq_false_2 (2 = 0)%nat), bool_decide_eq_false_2 by lia. cbn [orb].
    change [public_key_bytes s; public_key_bytes s] with (pk_as_bytes <$> [public (keypair s); public (keypair s)]). by rewrite parse_keys_as_bytes.
  - unfold multi_verify. cbn [threshold length]. rewrite bool_decide_eq_false_2 by lia. unfold sign. cbn [multi_loop]. rewrite !sig_roundtrip.
    unfold signer_ok in Hs. rewrite Hs. cbn [multi_keys find_key]. rewrite !dalek_law. rewrite (bool_decide_eq_false_2 (0%nat ∈ ∅)) by set_solver.
    cbn [threshold]. rewrite bool_decide_eq_false_2 by lia. rewrite (bool_decide_eq_true_2 (0%nat ∈ _)) by set_solver.
    rewrite (bool_decide_eq_false_2 (1%nat ∈ _)) by set_solver. by rewrite bool_decide_eq_true_2 by lia.
Qed.

(** ** A concrete scheme for the witnesses *)

(** Keys are their 32 bytes, a signature is the key followed by the message. *)
Definition ToyKey : Type := {b : list Z | bool_decide (length b = 32%nat)}.
Definition toy_parse (b : list Z) : Outcome string ToyKey :=
  match decide (bool_decide (length b = 32%nat)) with left H => Ok (b ↾ H) | right _ => Err "key"%string end.
Definition toy_dalek : Ed25519Crate := {|
  EdPublic := ToyKey;
  EdSecret := ToyKey;
  EdSig := list Z;
  pk_from_bytes := toy_parse;
  pk_as_bytes := proj1_sig;
  sk_from_bytes := toy_parse;
  sk_to_bytes := proj1_sig;
  pk_from_secret sk := sk;
  sig_from_bytes := Ok;
  sig_to_bytes s := s;
  kp_to_bytes sk pk := `sk ++ `pk;
  kp_from_bytes b := let? sk := toy_parse (take 32 b) in let? pk := toy_parse (drop 32 b) in Ok (sk, pk);
  dalek_sign sk pk m := `sk ++ m;
  dalek_verify pk m s := bool_decide (s = `pk ++ m)
|}.
Lemma toy_parse_ok (b : list Z) (H : bool_decide (length b = 32%nat)) : toy_parse b = Ok (b ↾ H).
Proof. unfold toy_parse. case_decide as Hd; [|done]. f_equal. by apply (sig_eq_pi _). Qed.
#[export] Instance toy_dalek_laws : Ed25519Laws toy_dalek.
Proof.
  split; cbn.
  - intros [b H]. apply toy_parse_ok.
  - intros [b H]. cbn. by apply (bool_decide_unpack _ H).
  - intros [b H]. apply toy_parse_ok.
  - intros b Hb. exists (b ↾ bool_decide_pack _ Hb). split; [apply toy_parse_ok|done].
  - done.
  - intros [b H]. cbn. pose proof (bool_decide_unpack _ H) as Hl. rewrite take_app_length', drop_app_length' by done.
    by rewrite !(toy_parse_ok b H).
  - intros sk m. by apply bool_decide_eq_true_2.
Qed.
Definition toy_key (z : Z) : EdSecret (Ed25519Crate := toy_dalek) := replicate 32 z ↾ I.

Lemma ed25519_signers_sound_witness :
  exists s, from_seed (Ed := toy_dalek) (E := Empty_set) (replicate 32 7) = Ok s /\
  verify (Ed := toy_dalek) [1; 2] (sign s [1; 2]) (public_key_bytes s) = true.
Proof.
  destruct (ed25519_signers_sound (EL := toy_dalek_laws) (H3 := toy_sha3) (toy_key 9) (replicate 32 7) [1; 2] eq_refl) as (s & H1 & _ & _ & H4).
  exists s. split; [exact H1|]. apply (H4 s). right. left.
Defined.

Definition toy_multi : MultiSigEd25519 (Ed := toy_dalek) := mkMulti (Ed := toy_dalek) 2 [toy_key 1; toy_key 2; toy_key 3].
Definition toy_signatures : list (list Z) := [replicate 32 3 ++ [9]; replicate 32 3 ++ [9]; replicate 32 8].
Lemma toy_fits_once : Forall (fits_once (Ed := toy_dalek) toy_multi [9]) toy_signatures.
Proof.
  apply Forall_forall. intros b _ i j pk pk' Hi Hj H1 H2. unfold signs in *. cbn in H1, H2.
  apply bool_decide_eq_true in H1, H2. subst b. apply app_inj_2 in H2 as [H2 _]; [|done].
  assert (Hnd : NoDup ((proj1_sig (P := fun b => bool_decide (length b = 32%nat))) <$> [toy_key 1; toy_key 2; toy_key 3]))
    by (apply (bool_decide_eq_true_1 _); vm_compute; reflexivity).
  change (multi_keys toy_multi) with [toy_key 1; toy_key 2; toy_key 3] in Hi, Hj.
  apply (NoDup_lookup _ i j (`pk) Hnd); rewrite list_lookup_fmap.
  - exact (f_equal (fmap (M := option) proj1_sig) Hi).
  - rewrite H2. exact (f_equal (fmap (M := option) proj1_sig) Hj).
Qed.
Lemma multisig_exact_witness :
  multi_verify (Ed := toy_dalek) toy_multi [9] toy_signatures = false /\
  exists pairs, matched (Ed := toy_dalek) toy_multi [9] [replicate 32 3 ++ [9]; replicate 32 8; replicate 32 1 ++ [9]] pairs /\ (2 <= length pairs)%nat.
Proof.
  split; [|apply (multisig_exact (Ed := toy_dalek) toy_multi); vm_compute; reflexivity].
  rewrite (proj2 (multisig_exact (Ed := toy_dalek) toy_multi [9] toy_signatures) toy_fits_once ltac:(cbn; lia)). vm_compute. reflexivity.
Defined.

Lemma multisig_repeated_key_witness :
  exists ms, multi_new (Ed := toy_dalek) 2 [replicate 32 7; replicate 32 7] = Ok ms /\
  multi_verify (Ed := toy_dalek) ms [9] [replicate 32 7 ++ [9]; replicate 32 7 ++ [9]] = true.
Proof.
  apply (multisig_repeated_key (EL := toy_dalek_laws) (generate (Ed := toy_dalek) (toy_key 7)) [9]). reflexivity.
Defined.
