(* ===== verification/Time.v ===== *)
(** * Time (src/utils/time.rs)

    Conversions and texts of times, the block-time helpers, timers, intervals and deadlines.
    [SystemTime]s are nanoseconds from the epoch, possibly before it; [Instant]s and [Duration]s
    are nanoseconds of the monotonic clock.  The calendar of the chrono crate is a class. *)

From stdpp Require Import strings pretty.
From S2P Require Import Prelude Floats Rounds Peers WalProps.
Abbreviation length := List.length.

Module Time.

Definition from_secs (s : Z) : Z := s * 1000000000.
Definition as_secs (d : Z) : Z := d / 1000000000.
(** [a.duration_since(b)] of instants saturates at zero. *)
Definition since (a b : Z) : Z := Z.max 0 (a - b).

(** ** Timestamps *)

(** [t.duration_since(UNIX_EPOCH).unwrap_or_default()]. *)
Definition since_epoch (t : Z) : Z := if t <? 0 then 0 else t.
Definition current_timestamp (now : Z) : Z := as_secs (since_epoch now).
Definition current_timestamp_ms (now : Z) : Z := cast 64 (as_millis (since_epoch now)).
Definition current_timestamp_us (now : Z) : Z := cast 64 (since_epoch now / 1000).
(** [UNIX_EPOCH + Duration]: panics past the seconds of an [i64]. *)
Definition timestamp_to_system_time {E} (ts : Z) : Outcome E Z := if ts <? 2 ^ 63 then Ok (from_secs ts) else Panic.
Definition system_time_to_timestamp (t : Z) : Z := as_secs (since_epoch t).

(** [secs] as text; [format_duration] and [human_readable_duration] share the cases. *)
Definition format_duration (d : Z) : string :=
  let secs := as_secs d in
  if secs <? 60 then (pretty secs +:+ "s")%string
  else if secs <? 3600 then (pretty (secs / 60) +:+ "m " +:+ pretty (secs mod 60) +:+ "s")%string
  else if secs <? 86400 then (pretty (secs / 3600) +:+ "h " +:+ pretty ((secs mod 3600) / 60) +:+ "m")%string
  else (pretty (secs / 86400) +:+ "d " +:+ pretty ((secs mod 86400) / 3600) +:+ "h")%string.

(** chrono's [DateTime<Utc>], for whole seconds. *)
Class Chrono : Type := {
  DateTime : Type;
  dt_from_timestamp : Z -> option DateTime;
  dt_default : DateTime;
  dt_timestamp : DateTime -> Z;
  dt_format : DateTime -> string;
  dt_to_rfc3339 : DateTime -> string;
  dt_parse : string -> option DateTime
}.
Class ChronoLaws `(Chrono) : Prop := {
  chrono_timestamp : forall s d, dt_from_timestamp s = Some d -> dt_timestamp d = s;
  chrono_rfc3339 : forall s d, dt_from_timestamp s = Some d -> dt_parse (dt_to_rfc3339 d) = Some d;
  chrono_default : dt_from_timestamp 0 = Some dt_default
}.
(** [ts as i64] and back. *)
Definition as_i64 (z : Z) : Z := let r := z mod 2 ^ 64 in if r <? 2 ^ 63 then r else r - 2 ^ 64.
Section Chrono.
Context `{Ch : Chrono}.
Definition to_datetime (ts : Z) : DateTime := default dt_default (dt_from_timestamp (as_i64 ts)).
Definition format_timestamp (ts : Z) : string := dt_format (to_datetime ts).
Definition timestamp_to_iso8601 (ts : Z) : string := dt_to_rfc3339 (to_datetime ts).
Definition iso8601_to_timestamp (s : string) : option Z := d ← dt_parse s; Some (cast 64 (dt_timestamp d)).
End Chrono.

(** ** Block time *)

Definition TARGET_BLOCK_TIME_MS : Z := 1000.
Definition expected_block_time `{BuildProfile} {E} (previous_time target_ms : Z) : Outcome E Z :=
  add_u64 previous_time (target_ms / 1000).
Definition calculate_difficulty_adjustment (actual_time expected_time current_difficulty : Z) : Z :=
  let ratio := f64_div (f64_of actual_time) (f64_of expected_time) in
  if f64_lt (literal 3 2) ratio then f64_to_uint 64 (f64_mul (f64_of current_difficulty) (literal 9 10))
  else if f64_lt ratio (literal 1 2) then f64_to_uint 64 (f64_mul (f64_of current_difficulty) (literal 11 10))
  else current_difficulty.

(** ** Timer *)

Record Timer : Type := mkTimer { start : Z }.
Definition new_timer (now : Z) : Timer := mkTimer now.
Definition timer_start (now : Z) : Timer := new_timer now.
Definition elapsed (now : Z) (t : Timer) : Z := since now (start t).
Definition elapsed_millis (now : Z) (t : Timer) : Z := cast 64 (as_millis (elapsed now t)).
(** [as_secs_f64]. *)
Definition as_secs_f64 (d : Z) : f64 := f64_add (f64_of (as_secs d)) (f64_div (f64_of (d mod 1000000000)) (f64_of 1000000000)).
Definition elapsed_secs (now : Z) (t : Timer) : f64 := as_secs_f64 (elapsed now t).
Definition reset_timer (now : Z) (t : Timer) : Timer := mkTimer now.
Definition has_elapsed (now duration : Z) (t : Timer) : bool := duration <=? elapsed now t.

(** ** Interval *)

Record Interval : Type := mkInterval { period : Z; last_tick : Z }.
Definition interval_new (now period : Z) : Interval := mkInterval period now.
Definition interval_from_millis (now millis : Z) : Interval := interval_new now (from_millis millis).
Definition interval_from_secs (now secs : Z) : Interval := interval_new now (from_secs secs).
Definition tick {E} (now : Z) : ST Interval E bool :=
  do! last := sget last_tick in
  do! p := sget period in
  if p <=? since now last
  then run! smod (fun i => mkInterval (period i) now) in sret true
  else sret false.
Definition interval_reset (now : Z) (i : Interval) : Interval := mkInterval (period i) now.
Definition interval_remaining (now : Z) (i : Interval) : Z :=
  let elapsed := since now (last_tick i) in if period i <=? elapsed then 0 else period i - elapsed.

(** ** Deadline *)

Record Deadline : Type := mkDeadline { deadline : Z }.
Definition deadline_new {E} (now timeout : Z) : Outcome E Deadline := let? d := instant_add now timeout in Ok (mkDeadline d).
Definition deadline_from_millis {E} (now millis : Z) : Outcome E Deadline := deadline_new now (from_millis millis).
Definition deadline_from_secs {E} (now secs : Z) : Outcome E Deadline := deadline_new now (from_secs secs).
Definition deadline_expired (now : Z) (d : Deadline) : bool := deadline d <=? now.
Definition deadline_remaining (now : Z) (d : Deadline) : Z := if deadline d <=? now then 0 else deadline d - now.
Definition remaining_millis (now : Z) (d : Deadline) : Z := cast 64 (as_millis (deadline_remaining now d)).

(** ** Round trips *)

(** Seconds survive the way through [SystemTime]; past [i64] the conversion panics. *)
Theorem system_time_roundtrip {E} (ts : Z) :
  fits 64 ts ->
  (ts < 2 ^ 63 -> exists t, timestamp_to_system_time (E := E) ts = Ok t /\ system_time_to_timestamp t = ts) /\
  (2 ^ 63 <= ts -> timestamp_to_system_time (E := E) ts = Panic).
Proof.
  intros Hf. unfold timestamp_to_system_time. split; intros H.
  - rewrite (proj2 (Z.ltb_lt _ _)) by done. eexists; split; [done|]. unfold system_time_to_timestamp, since_epoch, as_secs, from_secs.
    unfold fits in Hf. rewrite (proj2 (Z.ltb_ge _ _)) by lia. by rewrite Z.div_mul by lia.
  - by rewrite (proj2 (Z.ltb_ge _ _)) by done.
Qed.

(** A timestamp inside chrono's calendar is read back from its ISO 8601 text; one outside of it is
    printed as the epoch and reads back as zero. *)
Theorem iso8601_roundtrip `{ChronoLaws} (ts : Z) :
  fits 64 ts ->
  iso8601_to_timestamp (timestamp_to_iso8601 ts) =
  Some (if bool_decide (is_Some (dt_from_timestamp (as_i64 ts))) then ts else 0).
Proof.
  intros Hf. unfold timestamp_to_iso8601, to_datetime. unfold fits in Hf. destruct (dt_from_timestamp (as_i64 ts)) as [d|] eqn:Hd; cbn [default from_option id].
  - rewrite bool_decide_eq_true_2 by eauto. unfold iso8601_to_timestamp. rewrite (chrono_rfc3339 _ _ Hd). cbn [mbind option_bind].
    rewrite (chrono_timestamp _ _ Hd). f_equal. unfold cast, as_i64. rewrite (Z.mod_small ts) by lia.
    destruct (Z.ltb_spec ts (2 ^ 63)); [by rewrite Z.mod_small by lia|]. rewrite <-(Z.mod_small ts (2 ^ 64)) at 2 by lia.
    replace (ts - 2 ^ 64) with (ts + -1 * 2 ^ 64) by lia. apply Z.mod_add. lia.
  - rewrite bool_decide_eq_false_2 by (by intros []). unfold iso8601_to_timestamp. rewrite (chrono_rfc3339 _ _ chrono_default). cbn [mbind option_bind].
    by rewrite (chrono_timestamp _ _ chrono_default).
Qed.

(** ** Difficulty *)

(** What the comparison at the end of the file expects at the exact ratios 1.5 and 0.5 is not what the
    strict comparisons give: both leave the difficulty as it is. *)
Theorem difficulty_strict_bounds :
  calculate_difficulty_adjustment 1500 1000 100 = 100 /\ calculate_difficulty_adjustment 500 1000 100 = 100
  /\ calculate_difficulty_adjustment 1501 1000 100 = 90 /\ calculate_difficulty_adjustment 499 1000 100 = 110.
Proof. by vm_compute. Qed.

Lemma small_difficulty d : 0 <= d < 10 ->
  f64_to_uint 64 (f64_mul (f64_of d) (literal 9 10)) <= d /\ f64_to_uint 64 (f64_mul (f64_of d) (literal 11 10)) <= d.
Proof.
  apply (check_below (fun d => f64_to_uint 64 (f64_mul (f64_of d) (literal 9 10)) <= d /\ f64_to_uint 64 (f64_mul (f64_of d) (literal 11 10)) <= d) 10).
  repeat constructor; by vm_compute.
Qed.

(** A difficulty below ten never rises again, whatever the block times are, since the ten percent are
    truncated; at zero it stays zero. *)
Theorem difficulty_trapped (times : list (Z * Z)) (d : Z) :
  0 <= d < 10 ->
  let after := foldl (fun d t => calculate_difficulty_adjustment t.1 t.2 d) d times in
  0 <= after <= d.
Proof.
  cbn zeta. revert d. induction times as [|t times IH]; intros d Hd; [cbn; lia|]. cbn [foldl].
  assert (Hs : 0 <= calculate_difficulty_adjustment t.1 t.2 d <= d).
  { unfold calculate_difficulty_adjustment. pose proof (small_difficulty d Hd) as [H1 H2].
    pose proof (f64_to_uint_fits 64 (f64_mul (f64_of d) (literal 9 10)) ltac:(lia)) as [H3 _].
    pose proof (f64_to_uint_fits 64 (f64_mul (f64_of d) (literal 11 10)) ltac:(lia)) as [H4 _].
    destruct (f64_lt _ _); [lia|]. destruct (f64_lt _ _); lia. }
  pose proof (IH (calculate_difficulty_adjustment t.1 t.2 d)) as Hi. lia.
Qed.

(** ** Intervals *)

Fixpoint ticks (times : list Z) (i : Interval) : list bool * Interval :=
  match times with
  | [] => ([], i)
  | t :: times =>
      let '(r, i1) := tick (E := Empty_set) t i in
      let '(l, i2) := ticks times i1 in
      (match r with Ok b => b | _ => false end :: l, i2)
  end.
Definition fired (l : list bool) : Z := Z.of_nat (length (List.filter id l)).

Lemma tick_spec {E} now i : tick (E := E) now i =
  if period i <=? since now (last_tick i) then (Ok true, mkInterval (period i) now) else (Ok false, i).
Proof. unfold tick, sbind, sget, smod, sret. by destruct (_ <=? _). Qed.

Lemma ticks_rate times : forall i l i',
  0 < period i -> last_tick i <= List.hd (last_tick i) times -> StronglySorted Z.le times -> ticks times i = (l, i') ->
  fired l * period i <= last_tick i' - last_tick i /\ period i' = period i /\ last_tick i' <= List.last times (last_tick i).
Proof.
  induction times as [|t times IH]; intros i l i' Hp Hh Hs; cbn [ticks List.last]; [intros [= <- <-]; unfold fired; cbn [List.filter length]; split_and!; lia|].
  rewrite tick_spec. cbn [List.hd] in Hh. apply StronglySorted_inv in Hs as [Hs Hall].
  assert (Hhd : t <= List.hd t times) by (destruct times; [cbn; lia|by apply Forall_cons in Hall as [? _]]).
  assert (Hlast : List.last times t = match times with [] => t | _ => List.last times (last_tick i) end).
  { clear. destruct times as [|x times]; [done|]. revert x. induction times as [|y times IH]; intros x; [done|]. exact (IH y). }
  unfold since. destruct (Z.leb_spec (period i) (Z.max 0 (t - last_tick i))).
  - destruct (ticks times (mkInterval (period i) t)) as [l1 i2] eqn:Ht. intros [= <- <-].
    apply IH in Ht as (H1 & H2 & H3); cbn [period last_tick] in *; [|done..]. rewrite Hlast in H3. unfold fired in *. cbn [List.filter id length].
    split_and!; [lia|done|done].
  - destruct (ticks times i) as [l1 i2] eqn:Ht. intros [= <- <-].
    assert (Hh' : last_tick i <= List.hd (last_tick i) times) by (destruct times; [cbn; lia|cbn in *; lia]).
    apply IH in Ht as (H1 & H2 & H3); [|done..]. unfold fired in *. cbn [List.filter id length]. split_and!; [done|done|].
    destruct times; [cbn in *; lia|done].
Qed.

(** An interval polled at any times of the monotonic clock fires at most once per period: the number
    of ticks that fire, times the period, is at most the time that passed since it was created; and
    a poll fires exactly when nothing remains to wait. *)
Theorem interval_rate (now p : Z) (times : list Z) :
  0 < p -> StronglySorted Z.le (now :: times) ->
  let '(l, i) := ticks times (interval_new now p) in
  fired l * p <= List.last times now - now /\
  forall t, (tick (E := Empty_set) t i).1 = Ok (interval_remaining t i =? 0).
Proof.
  intros Hp Hs. destruct (ticks times (interval_new now p)) as [l i] eqn:Ht. apply StronglySorted_inv in Hs as [Hs Hall].
  assert (Hh : now <= List.hd now times) by (destruct times; [cbn; lia|by apply Forall_cons in Hall as [? _]]).
  destruct (ticks_rate times (interval_new now p) l i Hp Hh Hs Ht) as (H1 & H2 & H3). cbn [interval_new period last_tick] in *. split; [lia|].
  intros t. rewrite tick_spec. unfold interval_remaining. destruct (Z.leb_spec (period i) (since t (last_tick i))); [done|].
  cbn [fst]. by rewrite (proj2 (Z.eqb_neq _ _)) by lia.
Qed.

(** ** Deadlines *)

(** A deadline is expired exactly when nothing remains, and until then the remaining time leads to it. *)
Theorem deadline_remaining_exact {E} (now timeout t : Z) (d : Deadline) :
  0 <= timeout -> deadline_new (E := E) now timeout = Ok d ->
  deadline_expired t d = (deadline_remaining t d =? 0) /\
  (deadline_expired t d = false -> t + deadline_remaining t d = now + timeout) /\
  (t <= now -> deadline_remaining t d = now + timeout - t).
Proof.
  intros Ht. unfold deadline_new, instant_add. destruct (_ <? _); [|done]. intros [= <-]. unfold deadline_expired, deadline_remaining. cbn [deadline].
  destruct (Z.leb_spec (now + timeout) t); [split_and!; [done|done|lia]|]. split_and!; [|lia|lia]. by rewrite (proj2 (Z.eqb_neq _ _)) by lia.
Qed.

(** ** Witnesses *)

(** A calendar of two dates. *)
Definition toy_chrono : Chrono := {|
  DateTime := bool;
  dt_from_timestamp z := if z =? 0 then Some false else if z =? 5 then Some true else None;
  dt_default := false;
  dt_timestamp d := if d then 5 else 0;
  dt_format d := if d then "later"%string else "epoch"%string;
  dt_to_rfc3339 d := if d then "later"%string else "epoch"%string;
  dt_parse s := if bool_decide (s = "later"%string) then Some true else if bool_decide (s = "epoch"%string) then Some false else None
|}.
#[export] Instance toy_chrono_laws : ChronoLaws toy_chrono.
Proof. split; cbn; intros; repeat case_match; naive_solver lia. Qed.
Lemma iso8601_roundtrip_witness : iso8601_to_timestamp (Ch := toy_chrono) (timestamp_to_iso8601 (Ch := toy_chrono) 5) = Some 5.
Proof. rewrite (iso8601_roundtrip (H := toy_chrono) (H0 := toy_chrono_laws) 5) by (by vm_compute). reflexivity. Defined.
Lemma difficulty_trapped_witness : calculate_difficulty_adjustment 1 1000 9 <= 9.
Proof. exact (proj2 (difficulty_trapped [(1, 1000)] 9 ltac:(lia))). Defined.
Lemma interval_rate_witness : fired (ticks [3; 10; 12; 25] (interval_new 0 10)).1 * 10 <= 25.
Proof.
  refine (proj1 (interval_rate 0 10 [3; 10; 12; 25] _ _)); [lia|]. repeat constructor; lia.
Defined.
End Time.
