(* ===== verification/Text.v ===== *)
(** * Text operations of the standard library that start-up and reports use

    [split], [trim] with the white space of Unicode in UTF-8, decimal numbers and IPv4 socket addresses
    as the standard parser reads them, and fixed-point formatting of [f64]. *)

From Stdlib Require Import SpecFloat.
From stdpp Require Import strings pretty.
From S2P Require Import Prelude Floats Peers.
Abbreviation length := List.length.

Module Text.

(** ** [split(',')], [trim] *)

(** The pieces between the commas; the text has one more piece than commas. *)
Fixpoint split_comma (s : string) : list string :=
  match s with
  | EmptyString => [""%string]
  | String c s =>
      if (Ascii.nat_of_ascii c =? 44)%nat then ""%string :: split_comma s
      else match split_comma s with
           | p :: l => String c p :: l
           | [] => [String c EmptyString]
           end
  end.

Definition bytes_text (l : list nat) : string := fold_right (fun n s => String (Ascii.ascii_of_nat n) s) EmptyString l.
(** The characters of Unicode's White_Space, in UTF-8. *)
Definition WHITE_SPACE : list string := map bytes_text
  (([[9]; [10]; [11]; [12]; [13]; [32]; [194; 133]; [194; 160]; [225; 154; 128]]
    ++ map (fun n => [226; 128; 128 + n]) (seq 0 11)
    ++ [[226; 128; 168]; [226; 128; 169]; [226; 128; 175]; [226; 129; 159]; [227; 128; 128]])%nat).
Fixpoint strip_prefix (p s : string) : option string :=
  match p, s with
  | EmptyString, s => Some s
  | String a p, String b s => if Ascii.eqb a b then strip_prefix p s else None
  | String _ _, EmptyString => None
  end.
Definition strip_any (pats : list string) (s : string) : option string :=
  List.find (fun _ => true) (omap (fun p => strip_prefix p s) pats).
Fixpoint strip_all (fuel : nat) (pats : list string) (s : string) : string :=
  match fuel with
  | O => s
  | S fuel => match strip_any pats s with Some s' => strip_all fuel pats s' | None => s end
  end.
Fixpoint string_rev_app (s acc : string) : string :=
  match s with EmptyString => acc | String c s => string_rev_app s (String c acc) end.
Definition string_rev (s : string) : string := string_rev_app s EmptyString.
(** Every stripped character is at least one byte, so the length is fuel enough. *)
Definition trim (s : string) : string :=
  let s1 := strip_all (String.length s) WHITE_SPACE s in
  string_rev (strip_all (String.length s1) (string_rev <$> WHITE_SPACE) (string_rev s1)).

(** ** [str::parse::<SocketAddr>] *)

Definition decimal_digit (c : Ascii.ascii) : option Z :=
  let n := Z.of_nat (Ascii.nat_of_ascii c) in if (48 <=? n) && (n <=? 57) then Some (n - 48) else None.
(** [read_number] of the standard parser: the digits there are, at most [max], no overflow of [bound],
    no leading zero unless allowed. *)
Fixpoint read_digits (bound acc : Z) (count : nat) (s : string) : option (Z * nat * string) :=
  match s with
  | String c s' =>
      match decimal_digit c with
      | Some d => if acc * 10 + d <=? bound then read_digits bound (acc * 10 + d) (S count) s' else None
      | None => Some (acc, count, s)
      end
  | EmptyString => Some (acc, count, s)
  end.
Definition leading_zero (s : string) : bool := match s with String c _ => (Ascii.nat_of_ascii c =? 48)%nat | _ => false end.
Definition read_number (bound : Z) (max : option nat) (allow_zero_prefix : bool) (s : string) : option (Z * string) :=
  '(v, count, rest) ← read_digits bound 0 0 s;
  if bool_decide (count = 0%nat) then None
  else if match max with Some m => bool_decide (m < count)%nat | None => false end then None
  else if negb allow_zero_prefix && leading_zero s && bool_decide (1 < count)%nat then None
  else Some (v, rest).
Definition read_char (code : nat) (s : string) : option string :=
  match s with String c s => if (Ascii.nat_of_ascii c =? code)%nat then Some s else None | EmptyString => None end.
Definition read_octet (s : string) : option (Z * string) := read_number 255 (Some 3%nat) false s.
Definition read_v4 (s : string) : option (list Z * string) :=
  '(a, s) ← read_octet s; s ← read_char 46 s;
  '(b, s) ← read_octet s; s ← read_char 46 s;
  '(c, s) ← read_octet s; s ← read_char 46 s;
  '(d, s) ← read_octet s;
  Some ([a; b; c; d], s).
Definition parse_v4 (s : string) : option SocketAddr :=
  '(o, s) ← read_v4 s;
  s ← read_char 58 s;
  '(p, s) ← read_number 65535 None true s;
  if bool_decide (s = ""%string) then Some (V4 o p) else None.

(** ** [{:.d}] of an [f64] *)

(** The exact value times a power of ten, to the nearest integer with ties to even. *)
Definition scaled (digits : nat) (m e : Z) : Z :=
  if 0 <=? e then Z.shiftl m e * 10 ^ Z.of_nat digits
  else
    let q := Z.shiftl 1 (- e) in
    let n := m * 10 ^ Z.of_nat digits in
    let lo := n / q in
    match (2 * (n mod q) ?= q) with
    | Lt => lo
    | Gt => lo + 1
    | Eq => if Z.even lo then lo else lo + 1
    end.
(** [z] with at least [n] digits. *)
Fixpoint padded (n : nat) (z : Z) : string :=
  match n with
  | O => EmptyString
  | S n => padded n (z / 10) +:+ pretty (z mod 10)
  end.
Definition format_fixed (digits : nat) (x : f64) : string :=
  let text (z : Z) := pretty (z / 10 ^ Z.of_nat digits) +:+ "." +:+ padded digits (z mod 10 ^ Z.of_nat digits) in
  let signed (s : bool) (t : string) := if s then "-" +:+ t else t in
  match x with
  | S754_zero s => signed s (text 0)
  | S754_finite s m e => signed s (text (scaled digits (Zpos m) e))
  | S754_infinity s => signed s "inf"%string
  | S754_nan => "NaN"%string
  end.
End Text.
