(* ===== verification/Titan.v ===== *)
(** * Titan nodes and processor information (src/consensus/validator.rs)

    [TitanNode] with its merit, and what it reads from the processor.  CPUID is a function from leaves to
    the four registers. *)

From Stdlib Require Import SpecFloat.
From stdpp Require Import strings pretty.
From S2P Require Import Prelude Hashing Floats Validators VM Wal Text.
Abbreviation length := List.length.

Module Titan.
Import Text.

(** ** The processor *)

Record Registers : Type := mkRegisters { eax : Z; ebx : Z; ecx : Z; edx : Z }.
(** The target of the build, with CPUID where there is one. *)
Inductive Cpu : Type := CpuX86_64 (cpuid : Z -> Registers) | CpuAarch64 | CpuOther.
(** What the hardware check of [Validators] sees of it. *)
Definition arch_of (c : Cpu) : Arch :=
  match c with CpuX86_64 cpuid => X86_64 (ebx (cpuid 7)) | CpuAarch64 => Aarch64 | CpuOther => OtherArch end.

Definition cpu_has_avx512 (c : Cpu) : bool :=
  match c with
  | CpuX86_64 cpuid => let b := ebx (cpuid 7) in
      negb (Z.land b (Z.shiftl 1 16) =? 0) && negb (Z.land b (Z.shiftl 1 30) =? 0)
  | _ => false
  end.

Definition register_bytes (r : Registers) : list Z := to_le_bytes 4 (eax r) ++ to_le_bytes 4 (ebx r) ++ to_le_bytes 4 (ecx r) ++ to_le_bytes 4 (edx r).
Definition utf8_text (l : list Z) : string := bytes_text (map Z.to_nat l).
Definition NUL : string := String (Ascii.ascii_of_nat 0) EmptyString.
Definition get_cpu_info (c : Cpu) : string :=
  match c with
  | CpuX86_64 cpuid =>
      if 2147483652 <=? eax (cpuid 2147483648) then
        let brand := register_bytes (cpuid 2147483650) ++ register_bytes (cpuid 2147483651) ++ register_bytes (cpuid 2147483652) in
        trim (trim_end_matches NUL (utf8_text (from_utf8_lossy brand)))
      else "Unknown x86_64 CPU"%string
  | CpuAarch64 => "ARM64 Processor"%string
  | CpuOther => "Unknown CPU Architecture"%string
  end.

(** ** The node *)

Record TitanNode : Type := mkTitan {
  t_id : Z;
  t_address : Address;
  t_public_key : list Z;
  merit_score : f64;
  last_latency_ms : Z;
  consecutive_fails : Z;
  t_is_active : bool;
  stake_amount : Z;
  joined_at : Z;
  t_cpu_info : string;
  avx512_supported : bool;
  core_count : Z
}.
(** [public_key] is the serialized key of a fresh hybrid signer, [cores] what num_cpus counts. *)
Definition titan_new (now : Z) (cpu : Cpu) (cores : Z) (public_key : list Z) (id : Z) (a : Address) (stake : Z) : TitanNode :=
  mkTitan id a public_key (f64_of 100) 0 0 true stake now (get_cpu_info cpu) (cpu_has_avx512 cpu) cores.
Definition is_titan_grade (t : TitanNode) : bool := avx512_supported t && (32 <=? core_count t).

Definition ZK_LATENCY_LIMIT_MS : Z := 800.
(** [x.min(y)]: the other operand when one is NaN. *)
Definition f64_min_nan (x y : f64) : f64 :=
  match x, y with S754_nan, y => y | x, S754_nan => x | x, y => if f64_lt y x then y else x end.
Definition set_merit (m : f64) (latency fails : Z) (active : bool) (t : TitanNode) : TitanNode :=
  mkTitan (t_id t) (t_address t) (t_public_key t) m latency fails active (stake_amount t) (joined_at t) (t_cpu_info t) (avx512_supported t) (core_count t).

Section Titan.
Context `{BP : BuildProfile} {E : Type}.
Definition update_merit (zk_latency_ms : Z) : ST TitanNode E unit :=
  run! smod (fun t => set_merit (merit_score t) zk_latency_ms (consecutive_fails t) (t_is_active t) t) in
  run! (if ZK_LATENCY_LIMIT_MS <? zk_latency_ms then
          do! fails := sget consecutive_fails in
          do! fails' := slift (arith 32 (fails + 1)) in
          smod (fun t => set_merit (f64_mul (merit_score t) (literal 95 100)) (last_latency_ms t) fails' (t_is_active t) t)
        else
          let reward_factor := if zk_latency_ms <? 500 then literal 102 100 else f64_of 1 in
          smod (fun t => set_merit (f64_min_nan (f64_mul (merit_score t) reward_factor) (f64_of 200)) (last_latency_ms t) 0 (t_is_active t) t)) in
  do! fails := sget consecutive_fails in
  if 10 <=? fails then smod (fun t => set_merit (merit_score t) (last_latency_ms t) (consecutive_fails t) false t) else sret tt.
End Titan.

Definition reward_weight (t : TitanNode) : f64 :=
  if negb (t_is_active t) || negb (avx512_supported t) then f64_of 0
  else f64_mul (merit_score t) (SFsqrt 53 1024 (f64_of (stake_amount t))).
Definition mark (b : bool) : string := utf8_text (if b then [226; 156; 133] else [226; 157; 140]).
Definition hardware_report (t : TitanNode) : string :=
  ("CPU: " +:+ t_cpu_info t +:+ ", Cores: " +:+ pretty (core_count t) +:+ ", AVX-512: " +:+ mark (avx512_supported t)
   +:+ ", Titan Grade: " +:+ mark (is_titan_grade t))%string.

(** ** The two hardware checks *)

Lemma testbit_land b n : 0 <= n -> negb (Z.land b (Z.shiftl 1 n) =? 0) = Z.testbit b n.
Proof.
  intros Hn. rewrite Z.shiftl_1_l. destruct (Z.testbit b n) eqn:Hb.
  - apply negb_true_iff, Z.eqb_neq. intros H0. assert (H : Z.testbit (Z.land b (2 ^ n)) n = false) by (by rewrite H0, Z.bits_0).
    rewrite Z.land_spec, Hb, Z.pow2_bits_true in H by done. done.
  - apply negb_false_iff, Z.eqb_eq, Z.bits_inj'. intros k Hk. rewrite Z.bits_0, Z.land_spec, Z.pow2_bits_eqb by done.
    destruct (Z.eqb_spec n k) as [<-|]; [by rewrite Hb|apply andb_false_r].
Qed.
(** What makes a titan is less than what makes a validator: a processor the registration accepts
    has AVX-512 here, and one with the foundation and byte instructions only counts as AVX-512 here
    while the registration refuses it. *)
Theorem hardware_checks_differ (c : Cpu) :
  ((check_hardware_features (arch_of c)).2 = true -> cpu_has_avx512 c = true) /\
  (exists c', cpu_has_avx512 c' = true /\ (check_hardware_features (arch_of c')).2 = false).
Proof.
  split.
  - destruct c as [cpuid| |]; [|done..]. cbn [arch_of check_hardware_features snd cpu_has_avx512]. rewrite !testbit_land by lia. destruct (Z.testbit _ 16), (Z.testbit _ 30); done.
  - exists (CpuX86_64 (fun _ => mkRegisters 0 (Z.shiftl 1 16 + Z.shiftl 1 30) 0 0)). by vm_compute.
Qed.

(** ** Deactivation *)

Definition slow (l : Z) : Prop := ZK_LATENCY_LIMIT_MS < l.
(** Ten slow proofs in a row, somewhere. *)
Definition ten_slow (l : list Z) : Prop := exists l1 l2 l3, l = l1 ++ l2 ++ l3 /\ length l2 = 10%nat /\ Forall slow l2.
Definition merits `{BuildProfile} (l : list Z) (t : TitanNode) : TitanNode := foldl (fun t x => (update_merit (E := Empty_set) x t).2) t l.

(** The run of slow proofs the node is in. *)
Record tracks (l : list Z) (t : TitanNode) : Prop := {
  tr_run : exists a s, l = a ++ s /\ Forall slow s /\ Z.of_nat (length s) = consecutive_fails t /\ (forall x, last a = Some x -> ~ slow x);
  tr_active : t_is_active t = false <-> ten_slow l
}.
Lemma ten_slow_snoc l x : ten_slow (l ++ [x]) <-> ten_slow l \/ (exists p s, l ++ [x] = p ++ s /\ length s = 10%nat /\ Forall slow s).
Proof.
  split.
  - intros (l1 & l2 & l3 & Heq & Hlen & Hs). destruct l3 as [|y l3 _] using rev_ind.
    + right. exists l1, l2. by rewrite app_nil_r in Heq.
    + left. rewrite !app_assoc in Heq. apply app_inj_tail in Heq as [-> ->]. exists l1, l2, l3. by rewrite <-app_assoc.
  - intros [(l1 & l2 & l3 & -> & Hlen & Hs)|(p & s & Heq & Hlen & Hs)].
    + exists l1, l2, (l3 ++ [x]). by rewrite <-!app_assoc.
    + exists p, s, []. by rewrite app_nil_r.
Qed.

Lemma update_slow `{BuildProfile} x t : slow x -> 0 <= consecutive_fails t < 2 ^ 32 - 1 ->
  let t' := (update_merit (E := Empty_set) x t).2 in
  consecutive_fails t' = consecutive_fails t + 1 /\ t_is_active t' = t_is_active t && negb (10 <=? consecutive_fails t + 1).
Proof.
  intros Hx Hf. unfold update_merit, sbind, smod, sget, slift, sret. cbn [consecutive_fails set_merit t_is_active].
  rewrite (proj2 (Z.ltb_lt _ _)) by exact Hx. cbn [consecutive_fails set_merit]. rewrite arith_fits by (unfold fits; lia). cbn [consecutive_fails set_merit].
  destruct (10 <=? consecutive_fails t + 1); cbn; [by rewrite andb_false_r|by rewrite andb_true_r].
Qed.
Lemma update_fast `{BuildProfile} x t : ~ slow x ->
  let t' := (update_merit (E := Empty_set) x t).2 in consecutive_fails t' = 0 /\ t_is_active t' = t_is_active t.
Proof.
  intros Hx. unfold update_merit, sbind, smod, sget, slift, sret. unfold slow in Hx. rewrite (proj2 (Z.ltb_ge _ _)) by lia. done.
Qed.

Lemma tracks_step `{BuildProfile} l x t : Z.of_nat (length l) < 2 ^ 32 - 1 -> tracks l t -> tracks (l ++ [x]) (update_merit (E := Empty_set) x t).2.
Proof.
  intros Hl [(a & s & -> & Hs & Hk & Ha) Hact]. rewrite length_app in Hl. destruct (decide (ZK_LATENCY_LIMIT_MS < x)) as [Hx|Hx].
  - destruct (update_slow x t Hx) as [H1 H2]; [lia|]. split.
    + exists a, (s ++ [x]). rewrite H1, length_app. cbn [length]. split_and!; [by rewrite app_assoc|by apply Forall_app_2; [|constructor]|lia|done].
    + rewrite H2, ten_slow_snoc, <-Hact. destruct (Z.leb_spec 10 (consecutive_fails t + 1)).
      * rewrite andb_false_r. split; [intros _; right|done]. exists (a ++ take (length s - 9) s), (drop (length s - 9) s ++ [x]).
        split_and!; [rewrite <-!app_assoc; f_equal; by rewrite (app_assoc (take _ s)), take_drop|rewrite length_app, length_drop; cbn; lia|].
        apply Forall_app_2; [by apply Forall_drop|by constructor].
      * rewrite andb_true_r. split; [by left|]. intros [?|(p & q & Heq & Hlen & Hq)]; [done|exfalso].
        destruct a as [|y a' _] using rev_ind.
        { apply (f_equal length) in Heq. rewrite !length_app in Heq. cbn in Heq. lia. }
        rewrite last_snoc in Ha. specialize (Ha y eq_refl). assert (Hin : y ∈ q); [|rewrite Forall_forall in Hq; by apply Ha, Hq].
        assert (Hd : drop (length p) ((a' ++ [y]) ++ s ++ [x]) = q) by (rewrite app_assoc, Heq; apply drop_app_length).
        apply (f_equal length) in Heq. rewrite !length_app in Heq. cbn in Heq. assert (Hpa : (length p <= length a')%nat) by lia.
        rewrite <-Hd, drop_app_le by (rewrite length_app; cbn; lia). rewrite drop_app_le by lia. set_solver.
  - destruct (update_fast x t Hx) as [H1 H2]. split.
    + exists (a ++ s ++ [x]), []. rewrite H1. split_and!; [by rewrite app_nil_r, app_assoc|done|done|]. intros y Hy. rewrite app_assoc, last_snoc in Hy. by injection Hy as <-.
    + rewrite H2, ten_slow_snoc, <-Hact. split; [by left|]. intros [?|(p & q & Heq & Hlen & Hq)]; [done|exfalso].
      destruct q as [|y q _] using rev_ind; [done|]. rewrite app_assoc in Heq. apply app_inj_tail in Heq as [_ <-].
      apply Forall_app in Hq as [_ Hq]. apply Forall_cons in Hq as [Hq _]. done.
Qed.

(** A node is deactivated exactly when ten proofs in a row were slower than 800 ms, anywhere in its history: a fast
    proof clears the count but nothing reactivates the node. *)
Theorem titan_deactivated `{BuildProfile} (now : Z) (cpu : Cpu) (cores : Z) (key : list Z) (id : Z) (a : Address) (stake : Z) (l : list Z) :
  Z.of_nat (length l) < 2 ^ 32 - 1 ->
  t_is_active (merits l (titan_new now cpu cores key id a stake)) = false <-> ten_slow l.
Proof.
  intros Hl. enough (Ht : tracks l (merits l (titan_new now cpu cores key id a stake))) by apply Ht. revert Hl. induction l as [|x l IH] using rev_ind; intros Hl.
  - split; [by exists [], []|]. split; [done|]. intros (l1 & l2 & l3 & Heq & Hlen & _). apply (f_equal length) in Heq. rewrite !length_app in Heq. cbn in Heq. lia.
  - unfold merits. rewrite foldl_app. rewrite length_app in Hl. cbn [length] in Hl. apply (tracks_step l x); [lia|apply IH; lia].
Qed.

Lemma titan_deactivated_witness : ~ ten_slow (replicate 9 900 ++ [100] ++ replicate 9 900).
Proof.
  intros Ht. pose proof (proj2 (titan_deactivated (H := debug_profile) 0 CpuOther 4 [] 1 zero_address 5 (replicate 9 900 ++ [100] ++ replicate 9 900) ltac:(by vm_compute)) Ht) as E.
  vm_compute in E. discriminate E.
Defined.
End Titan.
