(* ===== verification/BurnReports.v ===== *)
(** * Reports of the burn manager (src/vault/burn.rs)

    Percentages, the annual deflation rate, the estimate of the days to a target and the statistics, in
    the [f64] arithmetic of the source. *)

From stdpp Require Import strings pretty.
From S2P Require Import Prelude Hashing Errors Floats Burn Text.
Abbreviation length := List.length.

Module BurnReports.
Import Text.

Definition get_total_burned (m : BurnManager) : Z := total_burned m.
Definition get_current_supply (m : BurnManager) : Z := current_supply m.

Definition burn_percentage (m : BurnManager) : f64 :=
  if TOTAL_SUPPLY =? 0 then f64_of 0
  else f64_mul (f64_div (f64_of (get_total_burned m)) (f64_of TOTAL_SUPPLY)) (f64_of 100).

(** [history[0]] and [history[len - 1]] exist once there are two records. *)
Definition annual_deflation_rate {E} (m : BurnManager) : Outcome E f64 :=
  let history := burn_history m in
  if (length history <? 2)%nat then Ok (f64_of 0)
  else
    let? first := index history 0 in
    let? last := index history (length history - 1) in
    let time_diff_secs := saturating_sub (burn_timestamp last) (burn_timestamp first) in
    if time_diff_secs =? 0 then Ok (f64_of 0)
    else
      let supply_diff := saturating_sub (remaining_supply first) (remaining_supply last) in
      let annual_factor := f64_div (f64_mul (f64_mul (f64_of 365) (f64_of 24)) (f64_of 3600)) (f64_of time_diff_secs) in
      Ok (f64_mul (f64_mul (f64_div (f64_of supply_diff) (f64_of (remaining_supply first))) annual_factor) (f64_of 100)).

(** The ten latest records, the latest first. *)
Definition recent (m : BurnManager) : list BurnRecord := take 10 (reverse (burn_history m)).
Definition estimate_days_to_target `{BuildProfile} {E} (target_supply : Z) (m : BurnManager) : Outcome E (option Z) :=
  let current := get_current_supply m in
  if current <=? target_supply then Ok (Some 0)
  else if (length (burn_history m) <? 10)%nat then Ok None
  else
    let? burned := sum_u128 (map burn_amount (recent m)) in
    let? newest := index (recent m) 0 in
    let? oldest := index (recent m) (length (recent m) - 1) in
    let? time_span := sub_u64 (burn_timestamp newest) (burn_timestamp oldest) in
    if (time_span =? 0) || (burned =? 0) then Ok None
    else
      let burn_per_second := f64_div (f64_of burned) (f64_of time_span) in
      let? rest := sub_u128 current target_supply in
      Ok (Some (f64_to_uint 64 (f64_div (f64_div (f64_of rest) burn_per_second) (f64_of 86400)))).

Record BurnStats : Type := mkBurnStats {
  bs_total_burned : Z;
  bs_total_burn_events : Z;
  bs_current_supply : Z;
  bs_burn_percentage : f64;
  bs_deflation_rate : f64;
  bs_largest_burn : Z;
  bs_average_burn : f64;
  bs_phase : SupplyPhase
}.
(** The read guard of the history is held while [annual_deflation_rate] takes it again. *)
Definition stats {E} (m : BurnManager) : Outcome E BurnStats :=
  let? held := acquire_read NoGuard in
  let? again := acquire_read held in
  let? rate := annual_deflation_rate m in
  Ok (mkBurnStats (get_total_burned m) (Z.of_nat (length (burn_history m))) (get_current_supply m) (burn_percentage m) rate (largest_burn m)
        (if bool_decide (burn_history m = []) then f64_of 0 else f64_div (f64_of (get_total_burned m)) (f64_of (Z.of_nat (length (burn_history m)))))
        (from_supply (get_current_supply m))).
Definition stats_text (s : BurnStats) : string :=
  ("Burn Stats: total=" +:+ pretty (bs_total_burned s) +:+ " PAC (" +:+ format_fixed 2 (bs_burn_percentage s) +:+ "%), events="
   +:+ pretty (bs_total_burn_events s) +:+ ", supply=" +:+ pretty (bs_current_supply s) +:+ " PAC, deflation=" +:+ format_fixed 2 (bs_deflation_rate s) +:+ "%/year")%string.

(** ** Properties *)

Lemma sum_u128_exact `{BuildProfile} {E} l : Forall (fun x => 0 <= x) l -> list_sum l < 2 ^ 128 -> sum_u128 (E := E) l = Ok (list_sum l).
Proof.
  intros Hl Hs. unfold sum_u128. assert (Hacc : forall a, 0 <= a -> a + list_sum l < 2 ^ 128 ->
    foldl (fun acc x => let? a := acc in add_u128 a x) (Ok a) l = Ok (E := E) (a + list_sum l)); [|rewrite Hacc by lia; done].
  clear Hs. induction Hl as [|x l Hx Hl IH]; intros a Ha Hs; cbn [foldl]; [f_equal; change (list_sum []) with 0; lia|].
  pose proof (list_sum_nonneg _ Hl) as Hn. change (list_sum (x :: l)) with (x + list_sum l) in *. cbn [obind]. unfold add_u128. rewrite arith_fits by (unfold fits; lia).
  rewrite IH by lia. f_equal. lia.
Qed.
Lemma list_sum_reverse l : list_sum (reverse l) = list_sum l.
Proof. induction l as [|x l IH]; [done|]. rewrite reverse_cons, list_sum_app, IH. unfold list_sum; cbn [foldr]; lia. Qed.
Lemma burns_take n l : Forall (fun x => 0 <= x) l -> list_sum (take n l) <= list_sum l.
Proof.
  intros Hl. rewrite <-(take_drop n l) at 2. rewrite list_sum_app. pose proof (list_sum_nonneg _ (Forall_drop _ n _ Hl)). lia.
Qed.
Lemma history_amounts initial h : history_ok initial h -> Forall (fun x => 0 < x) (map burn_amount h).
Proof. revert initial. induction h as [|r h IH]; intros i; cbn; [constructor|]. intros (H1 & _ & _ & H2). constructor; [lia|by eapply IH]. Qed.
Lemma largest_bound l : Forall (fun x => 0 < x) l -> 0 <= foldr Z.max 0 l <= list_sum l.
Proof.
  induction 1 as [|x l Hx Hl IH]; [done|]. cbn [foldr]. change (list_sum (x :: l)) with (x + list_sum l). lia.
Qed.

(** In every state the burn manager can reach, [stats] returns and its integers agree: burned plus supply is
    the initial supply, the number of events is that of the history, the largest burn is at most
    all that was burned, and the phase is that of the supply. *)
Theorem burn_stats_agree `{BuildProfile} (initial : Z) (m : BurnManager) :
  fits 128 initial -> burn_reachable initial m ->
  exists s, stats (E := Empty_set) m = Ok s
    /\ bs_total_burned s + bs_current_supply s = initial /\ 0 <= bs_largest_burn s <= bs_total_burned s
    /\ bs_total_burn_events s = Z.of_nat (length (burn_history m)) /\ bs_phase s = from_supply (bs_current_supply s).
Proof.
  intros Hi Hm. destruct (burn_reachable_inv initial m Hi Hm) as (Hs & Hb & Hsum & Hh). unfold stats. cbn [acquire_read obind].
  assert (Hr : exists rate, annual_deflation_rate (E := Empty_set) m = Ok rate).
  { unfold annual_deflation_rate. destruct (Nat.ltb_spec (length (burn_history m)) 2) as [|Hlen]; [by eexists|].
    unfold index. destruct (lookup_lt_is_Some_2 (burn_history m) 0) as [x ->]; [lia|]. destruct (lookup_lt_is_Some_2 (burn_history m) (length (burn_history m) - 1)) as [y ->]; [lia|].
    cbn [obind]. destruct (_ =? 0); by eexists. }
  destruct Hr as [rate ->]. cbn [obind]. eexists. split; [done|]. cbn. pose proof (largest_bound _ (history_amounts _ _ Hh)) as Hl.
  split_and!; [unfold get_total_burned, get_current_supply; lia|apply Hl| |done|done]. unfold largest_burn, get_total_burned. rewrite Hb. apply Hl.
Qed.

(** The estimate of the days to a target, in every reachable state: zero when the target is reached, none with
    fewer than ten burns or all ten at one time, and otherwise a number; only when the clock ran
    backwards between the oldest and the newest of the ten does a checked build panic. *)
Theorem estimate_cases `{BP : BuildProfile} (initial target : Z) (m : BurnManager) :
  fits 128 initial -> burn_reachable initial m -> 0 <= target ->
  Forall (fun r => fits 64 (burn_timestamp r)) (burn_history m) ->
  match estimate_days_to_target (E := Empty_set) target m with
  | Ok (Some d) => fits 64 d
  | Ok None => target < current_supply m /\ ((length (burn_history m) < 10)%nat \/ exists x, (head (recent m)) = Some x /\ burn_timestamp x = burn_timestamp (List.last (recent m) x))
  | Panic => overflow_checks = true /\ exists x, head (recent m) = Some x /\ burn_timestamp x < burn_timestamp (List.last (recent m) x)
  | _ => False
  end.
Proof.
  intros Hi Hm Ht Hts. destruct (burn_reachable_inv initial m Hi Hm) as (Hs & Hb & Hsum & Hh). unfold estimate_days_to_target, get_current_supply.
  destruct (Z.leb_spec (current_supply m) target) as [|Hgt]; [by vm_compute|]. destruct (Nat.ltb_spec (length (burn_history m)) 10) as [Hlen|Hlen]; [split; [done|by left]|].
  assert (Hlr : length (recent m) = 10%nat) by (unfold recent; rewrite length_take, length_reverse; lia).
  pose proof (history_amounts _ _ Hh) as Hpos. assert (Hmap : map burn_amount (recent m) = take 10 (reverse (map burn_amount (burn_history m)))) by (unfold recent; by rewrite <-fmap_reverse, fmap_take).
  assert (Hnn : Forall (fun x => 0 <= x) (reverse (map burn_amount (burn_history m)))) by (apply Forall_reverse; eapply Forall_impl; [exact Hpos|]; cbn; lia).
  pose proof (burns_take 10 _ Hnn) as Hst. rewrite list_sum_reverse in Hst. unfold fits in Hi. unfold burned_sum in Hb.
  assert (Hb0 : 0 <= total_burned m) by (rewrite Hb; apply list_sum_nonneg; eapply Forall_impl; [exact Hpos|]; cbn; lia).
  rewrite sum_u128_exact; [|rewrite Hmap; by apply Forall_take|rewrite Hmap; lia]. cbn [obind].
  assert (Hbp : list_sum (map burn_amount (recent m)) <> 0).
  { rewrite Hmap. apply Forall_reverse, (Forall_take _ 10) in Hpos. assert (Hln : length (take 10 (reverse (map burn_amount (burn_history m)))) = 10%nat) by (by rewrite <-Hmap, length_map).
    destruct Hpos as [|x l Hx Hl]; [done|]. change (list_sum (x :: l)) with (x + list_sum l). assert (0 <= list_sum l) by (apply list_sum_nonneg; eapply Forall_impl; [exact Hl|]; cbn; lia). lia. }
  assert (Hrts : Forall (fun r => fits 64 (burn_timestamp r)) (recent m)) by (by apply Forall_take, Forall_reverse).
  destruct (recent m) as [|x rs] eqn:Hrec; [done|]. unfold index. cbn [lookup list_lookup obind]. rewrite Hlr. cbn [Nat.sub].
  assert (Hy : (x :: rs) !! 9%nat = Some (List.last (x :: rs) x)).
  { cbn in Hlr. destruct rs as [|? [|? [|? [|? [|? [|? [|? [|? [|? [|? rs]]]]]]]]]]; try done. }
  rewrite Hy. cbn [obind]. set (y := List.last (x :: rs) x) in *. assert (Hyt : fits 64 (burn_timestamp y)) by (rewrite Forall_lookup in Hrts; by eapply Hrts).
  assert (Hxt : fits 64 (burn_timestamp x)) by (by apply Forall_cons in Hrts as [? _]). cbn [head]. unfold sub_u64, fits in *.
  destruct (decide (burn_timestamp y <= burn_timestamp x)) as [Hle|Hle].
  - rewrite arith_fits by (unfold fits; lia). cbn [obind]. rewrite (proj2 (Z.eqb_neq (list_sum _) 0)) by done. rewrite orb_false_r.
    destruct (Z.eqb_spec (burn_timestamp x - burn_timestamp y) 0) as [Hz|Hz]; [split; [done|right; exists x; split; [done|fold y; lia]]|].
    unfold sub_u128. rewrite arith_fits by (unfold fits; lia). cbn [obind]. apply f64_to_uint_fits. lia.
  - unfold arith. rewrite decide_False by (unfold fits; lia). destruct overflow_checks; [split; [done|exists x; split; [done|fold y; lia]]|]. cbn [obind].
    rewrite (proj2 (Z.eqb_neq (list_sum _) 0)) by done. rewrite orb_false_r. destruct (Z.eqb_spec ((burn_timestamp x - burn_timestamp y) mod 2 ^ 64) 0) as [Hz|Hz].
    { exfalso. assert (H64 : (burn_timestamp x - burn_timestamp y) mod 2 ^ 64 = burn_timestamp x - burn_timestamp y + 2 ^ 64) by (rewrite <-(Z.mod_add _ 1) by lia; rewrite Z.mod_small; lia). lia. }
    unfold sub_u128. rewrite arith_fits by (unfold fits; lia). cbn [obind]. apply f64_to_uint_fits. lia.
Qed.

Lemma burn_stats_agree_witness : exists s, stats (E := Empty_set) (burn_manager_new 1000) = Ok s /\ bs_total_burned s + bs_current_supply s = 1000.
Proof.
  destruct (burn_stats_agree (H := debug_profile) 1000 (burn_manager_new 1000)) as (s & H1 & H2 & _); [by vm_compute|constructor|]. exists s. split; [exact H1|exact H2].
Defined.
Lemma estimate_cases_witness :
  match estimate_days_to_target (H := debug_profile) (E := Empty_set) 10 (burn_manager_new 1000) with
  | Ok None => 10 < 1000 | Ok (Some d) => fits 64 d | Panic => True | _ => False end.
Proof.
  pose proof (estimate_cases (BP := debug_profile) 1000 10 (burn_manager_new 1000) ltac:(by vm_compute) ltac:(constructor) ltac:(lia) ltac:(constructor)) as H.
  destruct (estimate_days_to_target 10 (burn_manager_new 1000)) as [[d|]| | |]; [exact H|exact (proj1 H)|exact H|exact I|exact H].
Defined.
End BurnReports.
