(* ===== verification/Utils.v ===== *)
(** * General helpers (src/utils/mod.rs)

    Hexadecimal text, sizes and durations for people, the two retry loops, weighted choice, the
    generator of identifiers and the stopwatch.  A retried operation is a computation on some state;
    the sleeps between attempts are collected, in milliseconds. *)

From Stdlib Require Import SpecFloat.
From stdpp Require Import strings pretty.
From S2P Require Import Prelude Hashing Floats State Wal HashHelpers Rounds Time Text.
Abbreviation length := List.length.

Module Utils.

(** ** Hexadecimal *)

Definition bytes_to_hex (bytes : list Z) : string := ("0x" +:+ hex_encode bytes)%string.
Definition hex_to_bytes (hex : string) : option (list Z) := hex_decode (trim_start_matches "0x" hex).

(** Bytes are read back from their text, with and without the prefix. *)
Theorem bytes_hex_roundtrip (bytes : list Z) :
  Forall byte_ok bytes -> hex_to_bytes (bytes_to_hex bytes) = Some bytes /\ hex_decode (hex_encode bytes) = Some bytes.
Proof. intros H. unfold hex_to_bytes, bytes_to_hex. by rewrite trim_hex_encode, hex_decode_encode. Qed.

(** ** Sizes *)

(** [x] is at least [y], as [>=] on [f64]: false on NaN. *)
Definition f64_ge (x y : f64) : bool := SFleb y x.

Definition UNITS : list string := ["B"; "KB"; "MB"; "GB"; "TB"]%string.
(** [while size >= 1024.0 && unit_idx < UNITS.len() - 1]: at most [fuel] = 4 more units. *)
Fixpoint scale (fuel : nat) (size : f64) (unit_idx : nat) : f64 * nat :=
  match fuel with
  | O => (size, unit_idx)
  | S fuel => if f64_ge size (f64_of 1024) then scale fuel (f64_div size (f64_of 1024)) (S unit_idx) else (size, unit_idx)
  end.
Definition human_readable_size {E} (bytes : Z) : Outcome E string :=
  let '(size, unit_idx) := scale (length UNITS - 1) (f64_of bytes) 0 in
  let? u := index UNITS unit_idx in
  Ok (Text.format_fixed 2 size +:+ " " +:+ u)%string.

Definition human_readable_duration (secs : Z) : string :=
  if secs <? 60 then (pretty secs +:+ "s")%string
  else if secs <? 3600 then (pretty (secs / 60) +:+ "m " +:+ pretty (secs mod 60) +:+ "s")%string
  else if secs <? 86400 then (pretty (secs / 3600) +:+ "h " +:+ pretty ((secs mod 3600) / 60) +:+ "m")%string
  else (pretty (secs / 86400) +:+ "d " +:+ pretty ((secs mod 86400) / 3600) +:+ "h")%string.

(** ** Retrying *)

Section Retry.
Context `{BP : BuildProfile} {W E T : Type}.
(** One call of the closure and its future. *)
Context (f : W -> (T + E) * W).

(** The result, the final state and the sleeps.  [sleep] is the wait after attempt [attempt]; [more] is
    the number of attempts still allowed after this one, so the loop runs at most [more + 1] times. *)
Fixpoint retry_loop (sleep : nat -> Outcome E Z) (more attempt : nat) (w : W) : Outcome E T * W * list Z :=
  match f w with
  | (inl t, w1) => (Ok t, w1, [])
  | (inr e, w1) =>
      match more with
      | O => (Err e, w1, [])
      | S more =>
          match sleep attempt with
          | Ok ms => let '(r, w2, l) := retry_loop sleep more (S attempt) w1 in (r, w2, ms :: l)
          | _ => (Panic, w1, [])
          end
      end
  end.
Definition retry (max_retries : nat) (delay_ms : Z) : W -> Outcome E T * W * list Z :=
  retry_loop (fun _ => Ok delay_ms) max_retries 0.
(** [base_delay_ms * 2u64.pow(attempt as u32)]. *)
Definition backoff_delay (base_delay_ms : Z) (attempt : nat) : Outcome E Z :=
  let? p := arith 64 (2 ^ cast 32 (Z.of_nat attempt)) in mul_u64 base_delay_ms p.
Definition retry_with_backoff (max_retries : nat) (base_delay_ms : Z) : W -> Outcome E T * W * list Z :=
  retry_loop (backoff_delay base_delay_ms) max_retries 0.

(** The state after [n] calls, and the answer of the next one. *)
Definition after (n : nat) (w : W) : W := Nat.iter n (fun w => (f w).2) w.
Definition answer (n : nat) (w : W) : T + E := (f (after n w)).1.
Lemma after_S n w : after (S n) w = after n (f w).2.
Proof. unfold after. by rewrite Nat.iter_succ_r. Qed.

(** The loop stops at the first success or after the last attempt. *)
Lemma retry_loop_spec sleep (d : nat -> Z) : forall more attempt w,
  (forall i, (i < more)%nat -> sleep (attempt + i)%nat = Ok (d (attempt + i)%nat)) ->
  exists n, (n <= more)%nat /\
    (forall i, (i < n)%nat -> exists e, answer i w = inr e) /\
    retry_loop sleep more attempt w =
      (match answer n w with inl t => Ok t | inr e => Err e end, after (S n) w, map (fun i => d (attempt + i)%nat) (seq 0 n)) /\
    ((exists t, answer n w = inl t) \/ n = more).
Proof.
  induction more as [|more IH]; intros attempt w Hsleep; cbn [retry_loop].
  - exists 0%nat. unfold answer. cbn. destruct (f w) as [[t|e] w1]; cbn; (split_and!; [lia|intros; lia|done|auto]).
  - destruct (f w) as [[t|e] w1] eqn:Hf.
    + exists 0%nat. unfold answer. cbn. rewrite Hf. split_and!; [lia|intros; lia|done|left; by exists t].
    + pose proof (Hsleep 0%nat ltac:(lia)) as H0. rewrite Nat.add_0_r in H0. rewrite H0.
      destruct (IH (S attempt) w1) as (n & Hn & Hfail & Hrun & Hend).
      { intros i Hi. pose proof (Hsleep (S i) ltac:(lia)) as Hs. by rewrite Nat.add_succ_r in Hs. }
      assert (Hw : (f w).2 = w1) by (by rewrite Hf). assert (Hshift : forall i, answer (S i) w = answer i w1) by (intros i; unfold answer; by rewrite after_S, Hw).
      exists (S n). split_and!; [lia| | |].
      * intros [|i] Hi; [exists e; unfold answer; cbn; by rewrite Hf|]. rewrite Hshift. apply Hfail. lia.
      * rewrite Hrun, Hshift, (after_S (S n)), Hw. cbn [seq map]. rewrite Nat.add_0_r. do 2 f_equal.
        rewrite <-seq_shift, map_map. apply map_ext. intros i. by rewrite Nat.add_succ_r.
      * rewrite Hshift. destruct Hend as [?| ->]; auto.
Qed.

(** The outcome of a loop: [n] failed attempts, then the one whose answer is returned. *)
Definition retried (max_retries : nat) (w : W) (d : nat -> Z) (out : Outcome E T * W * list Z) : Prop :=
  exists n, (n <= max_retries)%nat /\
    (forall i, (i < n)%nat -> exists e, answer i w = inr e) /\
    out = (match answer n w with inl t => Ok t | inr e => Err e end, after (S n) w, map d (seq 0 n)) /\
    ((exists t, answer n w = inl t) \/ n = max_retries).

(** [retry] calls the operation until it succeeds or [max_retries + 1] calls have failed, sleeps the
    same time between two calls and never after the last, and returns the first success or the last
    error; the [unwrap] of that error never panics. *)
Theorem retry_spec (max_retries : nat) (delay_ms : Z) (w : W) :
  retried max_retries w (fun _ => delay_ms) (retry max_retries delay_ms w).
Proof. apply (retry_loop_spec (fun _ => Ok delay_ms) (fun _ => delay_ms)). done. Qed.

(** [retry_with_backoff] does the same and doubles the sleep each time, as long as the largest delay fits
    in a [u64]. *)
Theorem retry_backoff_spec (max_retries : nat) (base_delay_ms : Z) (w : W) :
  0 <= base_delay_ms -> (0 < max_retries)%nat -> Z.of_nat max_retries <= 64 -> base_delay_ms * 2 ^ Z.of_nat (max_retries - 1) < 2 ^ 64 ->
  retried max_retries w (fun i => base_delay_ms * 2 ^ Z.of_nat i) (retry_with_backoff max_retries base_delay_ms w).
Proof.
  intros Hb Hm H64 Hfit. apply (retry_loop_spec (backoff_delay base_delay_ms) (fun i => base_delay_ms * 2 ^ Z.of_nat i)). intros i Hi. cbn [Nat.add].
  unfold backoff_delay, mul_u64, cast. rewrite Z.mod_small by lia.
  assert (0 < 2 ^ Z.of_nat i) by (apply Z.pow_pos_nonneg; lia). assert (2 ^ Z.of_nat i <= 2 ^ Z.of_nat (max_retries - 1)) by (apply Z.pow_le_mono_r; lia).
  assert (2 ^ Z.of_nat i < 2 ^ 64) by (apply Z.pow_lt_mono_r; lia). rewrite arith_fits by (unfold fits; lia). cbn [obind].
  apply arith_fits. unfold fits. nia.
Qed.
End Retry.

(** From the 65th failure on the power of two no longer fits: a checked build panics, a release build
    waits zero milliseconds, so the loop hammers what it was meant to spare. *)
Theorem retry_backoff_wraps {E} (base_delay_ms : Z) (attempt : nat) :
  64 <= Z.of_nat attempt < 2 ^ 32 ->
  backoff_delay (BP := debug_profile) (E := E) base_delay_ms attempt = Panic /\
  (0 <= base_delay_ms -> backoff_delay (BP := release_profile) (E := E) base_delay_ms attempt = Ok 0).
Proof.
  intros Ha. unfold backoff_delay, cast. rewrite Z.mod_small by lia.
  assert (Hp : 2 ^ Z.of_nat attempt = 2 ^ (Z.of_nat attempt - 64) * 2 ^ 64) by (rewrite <-Z.pow_add_r by lia; f_equal; lia).
  assert (0 < 2 ^ (Z.of_nat attempt - 64)) by (apply Z.pow_pos_nonneg; lia).
  assert (Hf : ~ fits 64 (2 ^ Z.of_nat attempt)) by (rewrite Hp; unfold fits; nia).
  unfold arith. split; [by rewrite decide_False by exact Hf|]. intros Hb. rewrite decide_False by exact Hf.
  change (mul_u64 (BP := release_profile) (E := E) base_delay_ms (2 ^ Z.of_nat attempt mod 2 ^ 64) = Ok 0).
  rewrite Hp, Z.mod_mul by lia. unfold mul_u64. rewrite Z.mul_0_r. by rewrite arith_fits by (by vm_compute).
Qed.

(** ** Weighted choice *)

Section Weighted.
Context {T : Type}.
Definition total_weight (items : list (T * f64)) : f64 := foldl (fun acc p => f64_add acc p.2) (f64_of 0) items.
(** The loop that takes the weights off the drawn number. *)
Fixpoint choose_from (random : f64) (items : list (T * f64)) : option T :=
  match items with
  | [] => None
  | (item, weight) :: items =>
      let random := f64_sub random weight in
      if SFleb random (f64_of 0) then Some item else choose_from random items
  end.
(** [drawn] is [rng.gen::<f64>()]. *)
Definition weighted_random (drawn : f64) (items : list (T * f64)) : option T :=
  let total := total_weight items in
  if SFeqb total (f64_of 0) then None
  else
    match choose_from (f64_mul drawn total) items with
    | Some item => Some item
    | None => fst <$> last items
    end.

Lemma choose_from_elem random items t : choose_from random items = Some t -> t ∈ items.*1.
Proof.
  revert random. induction items as [|[item weight] items IH]; intros random; cbn; [done|]. destruct (SFleb _ _); [intros [= <-]; left|]. intros H%IH. by right.
Qed.
(** An item of the list is chosen, whatever is drawn, unless the weights add up to zero. *)
Theorem weighted_random_total (drawn : f64) (items : list (T * f64)) :
  if SFeqb (total_weight items) (f64_of 0) then weighted_random drawn items = None
  else exists t, weighted_random drawn items = Some t /\ t ∈ items.*1.
Proof.
  unfold weighted_random. destruct (SFeqb _ _) eqn:Hz; [done|]. destruct (choose_from _ items) as [t|] eqn:Hc; [exists t; split; [done|by eapply choose_from_elem]|].
  destruct items as [|p items] using rev_ind; [by vm_compute in Hz|]. rewrite last_snoc. exists p.1. split; [done|]. rewrite fmap_app. set_solver.
Qed.
End Weighted.

(** ** Identifiers: [fetch_add] is atomic and wraps *)

Record IdGenerator : Type := mkIds { next_id : Z }.
Definition ids_new : IdGenerator := mkIds 1.
Definition ids_next {E} : ST IdGenerator E Z := fun g => (Ok (next_id g), mkIds (cast 64 (next_id g + 1))).
Definition ids_current (g : IdGenerator) : Z := next_id g.
(** [n] calls, from whatever threads. *)
Fixpoint ids_take (n : nat) (g : IdGenerator) : list Z * IdGenerator :=
  match n with
  | O => ([], g)
  | S n =>
      match ids_next (E := Empty_set) g with
      | (Ok i, g1) => let '(l, g2) := ids_take n g1 in (i :: l, g2)
      | (_, g1) => ([], g1)
      end
  end.
Lemma ids_take_spec n : forall k, 0 <= k < 2 ^ 64 ->
  (ids_take n (mkIds k)).1 = map (fun i => cast 64 (k + Z.of_nat i)) (seq 0 n).
Proof.
  induction n as [|n IH]; intros k Hk; [done|]. cbn [ids_take ids_next next_id seq map]. 
  destruct (ids_take n (mkIds (cast 64 (k + 1)))) as [l g2] eqn:Ht. cbn [fst]. rewrite Z.add_0_r. unfold cast at 1. rewrite Z.mod_small by lia. f_equal.
  assert (Hr : 0 <= cast 64 (k + 1) < 2 ^ 64) by (apply Z.mod_pos_bound; lia). pose proof (IH _ Hr) as Hi. rewrite Ht in Hi. cbn in Hi. rewrite Hi, <-seq_shift, map_map.
  apply map_ext. intros i. unfold cast. rewrite Zplus_mod_idemp_l. f_equal. lia.
Qed.

(** Identifiers are handed out without repetition as long as fewer than 2^64 calls are made,
    counting from one; the call after that starts again at zero. *)
Theorem ids_distinct (n : nat) :
  Z.of_nat n < 2 ^ 64 -> (ids_take n ids_new).1 = map (fun i => Z.of_nat (S i)) (seq 0 n) /\ NoDup (ids_take n ids_new).1.
Proof.
  intros Hn. assert (He : (ids_take n ids_new).1 = map (fun i => Z.of_nat (S i)) (seq 0 n)).
  { unfold ids_new. rewrite ids_take_spec by lia. apply map_ext_in. intros i Hi%in_seq. unfold cast. rewrite Z.mod_small by lia. lia. }
  split; [done|]. rewrite He. assert (Hinj : Inj eq eq (fun i => Z.of_nat (S i))) by (intros x y Hxy; lia). apply (NoDup_fmap_2 (fun i => Z.of_nat (S i))), NoDup_seq.
Qed.

(** ** Stopwatch *)

Record Stopwatch : Type := mkStopwatch { sw_start : Z }.
Definition stopwatch_new (now : Z) : Stopwatch := mkStopwatch now.
Definition stopwatch_ms (now : Z) (s : Stopwatch) : Z := cast 64 (as_millis (Time.since now (sw_start s))).
Definition stopwatch_secs (now : Z) (s : Stopwatch) : f64 := Time.as_secs_f64 (Time.since now (sw_start s)).
Definition stopwatch_reset (now : Z) (s : Stopwatch) : Stopwatch := mkStopwatch now.

(** ** Texts *)

(** The two texts of a duration are the same function. *)
Theorem duration_texts_agree (secs : Z) : Time.format_duration (Time.from_secs secs) = human_readable_duration secs.
Proof. unfold Time.format_duration, Time.as_secs, Time.from_secs. by rewrite Z.div_mul by lia. Qed.

(** The examples in the file: sizes always carry two decimals, also bytes. *)
Theorem size_texts :
  human_readable_size (E := Empty_set) 500 = Ok "500.00 B"%string /\ human_readable_size (E := Empty_set) 1500 = Ok "1.46 KB"%string
  /\ human_readable_size (E := Empty_set) 1500000 = Ok "1.43 MB"%string /\ human_readable_size (E := Empty_set) 1152 = Ok "1.12 KB"%string.
Proof. by vm_compute. Qed.

(** The unit index stays inside the table. *)
Theorem size_never_panics {E} (bytes : Z) : is_ok (human_readable_size (E := E) bytes) = true.
Proof.
  unfold human_readable_size. assert (Hs : forall fuel x i, ((scale fuel x i).2 <= i + fuel)%nat).
  { induction fuel as [|fuel IH]; intros x i; cbn [scale snd]; [lia|]. destruct (f64_ge _ _); [|cbn [snd]; lia].
    pose proof (IH (f64_div x (f64_of 1024)) (S i)). lia. }
  specialize (Hs 4%nat (f64_of bytes) 0%nat). cbn [length UNITS Nat.sub]. destruct (scale 4 (f64_of bytes) 0) as [x i]. cbn [snd] in Hs. unfold index.
  destruct (UNITS !! i) as [u|] eqn:Hu; [done|]. apply lookup_ge_None in Hu. cbn in Hu. lia.
Qed.

(** ** Witnesses *)

Lemma bytes_hex_roundtrip_witness : hex_to_bytes (bytes_to_hex [222; 173; 190; 239]) = Some [222; 173; 190; 239].
Proof. apply (bytes_hex_roundtrip [222; 173; 190; 239]), (bool_decide_eq_true_1 _). vm_compute. reflexivity. Defined.
(** An operation that succeeds at its third call. *)
Definition third (w : Z) : (Z + string) * Z := (if 2 <=? w then inl 7 else inr "busy"%string, w + 1).
Lemma retry_backoff_spec_witness :
  retried third 5 0 (fun i => 10 * 2 ^ Z.of_nat i) (retry_with_backoff (BP := debug_profile) third 5 10 0).
Proof. apply (retry_backoff_spec (BP := debug_profile) third 5 10 0); [lia|lia|by vm_compute|by vm_compute]. Defined.
Lemma retry_backoff_wraps_witness : backoff_delay (BP := debug_profile) (E := string) 10 64 = Panic.
Proof. apply (retry_backoff_wraps 10 64). lia. Defined.
Lemma ids_distinct_witness : NoDup (ids_take 3 ids_new).1.
Proof. apply (ids_distinct 3). lia. Defined.
End Utils.
