(* ===== verification/Logger.v ===== *)
(** * Logging (src/utils/logger.rs)

    Which layers [init_logger] installs, and the progress logger.  tracing itself is not modelled:
    a layer is its format, its writer and its switches, and a line of the progress logger is its text. *)

From stdpp Require Import strings pretty.
From S2P Require Import Prelude Floats Rounds Time Text.
Abbreviation length := List.length.

Module Logger.
Import Text.

Inductive LogFormat : Type := Pretty | Json | Compact.
Inductive LogOutput : Type := Stdout | Stderr | File | All.
Record LoggerConfig : Type := mkLogger {
  level : string;
  format : LogFormat;
  output : LogOutput;
  file_path : option string;
  enable_ansi : bool;
  show_target : bool;
  show_thread_ids : bool;
  show_file_line : bool
}.
Definition default_logger : LoggerConfig := mkLogger "info" Pretty Stdout None true true true false.

(** [fmt::layer()] writes to the standard output unless it is given a writer; [json()] drops the colours. *)
Inductive Writer : Type := ToStdout | ToStderr | ToFile (path : string).
Record Layer : Type := mkLayer {
  l_format : LogFormat; l_writer : Writer; l_ansi : option bool; l_target : bool; l_thread_ids : bool; l_file : bool; l_line : bool; l_span_close : bool
}.
Definition layer_of (c : LoggerConfig) (w : Writer) : Layer :=
  mkLayer (format c) w (match format c with Json => None | _ => Some (enable_ansi c) end) (show_target c) (show_thread_ids c)
    (show_file_line c) (show_file_line c) (match format c with Compact => false | _ => true end).

Section Init.
(** [OpenOptions::new().create(true).append(true).open(path)]. *)
Context (open_file : string -> Outcome string unit).
(** The subscriber that is installed: the filter and the layers; [None] when [init] is not reached. *)
Definition init_logger (env : option string) (c : LoggerConfig) : Outcome string (option (string * list Layer)) :=
  let filter := default (level c) env in
  match format c with
  | Pretty =>
      match output c with
      | Stdout => Ok (Some (filter, [layer_of c ToStdout]))
      | Stderr => Ok (Some (filter, [layer_of c ToStderr]))
      | File =>
          match file_path c with
          | Some path => let? _ := open_file path in Ok (Some (filter, [layer_of c (ToFile path)]))
          | None => Ok None
          end
      | All =>
          let? file_layer := match file_path c with
                             | Some path => let? _ := open_file path in Ok (Some (layer_of c (ToFile path)))
                             | None => Ok None
                             end in
          match file_layer with
          | Some file_layer => Ok (Some (filter, [layer_of c ToStdout; file_layer]))
          | None => Ok (Some (filter, [layer_of c ToStdout]))
          end
      end
  | Json => Ok (Some (filter, [layer_of c ToStdout]))
  | Compact => Ok (Some (filter, [layer_of c ToStdout]))
  end.

(** Where the configuration asks the lines to go. *)
Definition asked (c : LoggerConfig) : list Writer :=
  match output c, file_path c with
  | Stdout, _ => [ToStdout]
  | Stderr, _ => [ToStderr]
  | File, Some p => [ToFile p]
  | File, None => []
  | All, Some p => [ToStdout; ToFile p]
  | All, None => [ToStdout]
  end.
Definition installed (r : option (string * list Layer)) : list Writer := match r with Some (_, l) => map l_writer l | None => [] end.

(** The pretty format writes where the configuration asks, or fails to open the file, and without a path for its
    file no subscriber is installed at all; the other two formats write to the standard output whatever the
    configuration asks. *)
Theorem logger_writers (env : option string) (c : LoggerConfig) :
  match init_logger env c with
  | Ok r => installed r = (match format c with Pretty => asked c | _ => [ToStdout] end)
            /\ (r = None <-> format c = Pretty /\ output c = File /\ file_path c = None)
  | Err _ | Panic | Deadlock => format c = Pretty /\ exists p, file_path c = Some p /\ is_ok (open_file p) = false
  end.
Proof.
  unfold init_logger, asked. destruct (format c), (output c); try (split; [done|]; split; [done|]; by intros (? & ? & ?));
    (destruct (file_path c) as [p|]; [destruct (open_file p) as [[]| | |] eqn:Ho; cbn [obind]|]); try (split; [done|]; exists p; by rewrite Ho);
    (split; [done|]; split; [done|]; try (by intros (? & ? & ?)); done).
Qed.
End Init.

(** ** ProgressLogger *)

Record ProgressLogger : Type := mkProgress { total : Z; current : Z; last_log : Z; log_interval_ms : Z; prefix : string }.
Definition progress_new (now total : Z) (prefix : string) : ProgressLogger := mkProgress total 0 now 1000 prefix.
Definition with_interval (ms : Z) (p : ProgressLogger) : ProgressLogger := mkProgress (total p) (current p) (last_log p) ms (prefix p).
Definition progress_text (p : ProgressLogger) : string :=
  let percentage := if 0 <? total p then f64_mul (f64_div (f64_of (current p)) (f64_of (total p))) (f64_of 100) else f64_of 0 in
  (prefix p +:+ ": " +:+ pretty (current p) +:+ "/" +:+ pretty (total p) +:+ " (" +:+ format_fixed 1 percentage +:+ "%)")%string.
(** The lines a call writes. *)
Definition log_when_due (now : Z) (p : ProgressLogger) : list string * ProgressLogger :=
  if log_interval_ms p <=? as_millis (Time.since now (last_log p))
  then ([progress_text p], mkProgress (total p) (current p) now (log_interval_ms p) (prefix p))
  else ([], p).
Definition set_current (v : Z) (p : ProgressLogger) : ProgressLogger := mkProgress (total p) v (last_log p) (log_interval_ms p) (prefix p).
Definition progress_update `{BuildProfile} {E} (now delta : Z) (p : ProgressLogger) : Outcome E (list string) * ProgressLogger :=
  match add_u64 (current p) delta with
  | Ok c => let '(l, p) := log_when_due now (set_current c p) in (Ok l, p)
  | Err e => (Err e, p)
  | Panic => (Panic, p)
  | Deadlock => (Deadlock, p)
  end.
Definition progress_set (now value : Z) (p : ProgressLogger) : list string * ProgressLogger := log_when_due now (set_current value p).
Definition progress_finish (p : ProgressLogger) : list string := [progress_text p; (prefix p +:+ ": Completed!")%string].

(** A series of [set] calls at the given times. *)
Fixpoint progress_sets (l : list (Z * Z)) (p : ProgressLogger) : list string * ProgressLogger :=
  match l with
  | [] => ([], p)
  | (now, v) :: l => let '(a, p) := progress_set now v p in let '(b, p) := progress_sets l p in (a ++ b, p)
  end.

Lemma set_spec now v p : last_log p <= now -> 0 <= log_interval_ms p ->
  let '(a, p') := progress_set now v p in
  log_interval_ms p' = log_interval_ms p /\ last_log p <= last_log p' <= now /\
  Z.of_nat (length a) * (log_interval_ms p * 1000000) <= last_log p' - last_log p.
Proof.
  intros Hn Hi. unfold progress_set, log_when_due. cbn [log_interval_ms set_current last_log]. unfold as_millis, Time.since.
  pose proof (Z.mul_div_le (Z.max 0 (now - last_log p)) 1000000 ltac:(lia)).
  destruct (Z.leb_spec (log_interval_ms p) (Z.max 0 (now - last_log p) / 1000000)); cbn; split_and!; try done; lia.
Qed.

(** A progress logger that is updated at any times writes at most one line per interval: the lines, times the
    interval, take no more than the time since its last line; finishing writes two more. *)
Theorem progress_rate (now tot ms : Z) (name : string) (l : list (Z * Z)) :
  0 <= ms -> StronglySorted Z.le (now :: map fst l) ->
  let '(lines, p) := progress_sets l (with_interval ms (progress_new now tot name)) in
  Z.of_nat (length lines) * (ms * 1000000) <= List.last (map fst l) now - now /\ length (progress_finish p) = 2%nat.
Proof.
  intros Hm Hs. assert (Hgen : forall l p, 0 <= log_interval_ms p -> StronglySorted Z.le (last_log p :: map fst l) ->
    let '(lines, p') := progress_sets l p in
    Z.of_nat (length lines) * (log_interval_ms p * 1000000) <= last_log p' - last_log p /\ last_log p' <= List.last (map fst l) (last_log p)).
  { clear. induction l as [|[t v] l IH]; intros p Hi Hs; [cbn; lia|]. cbn [map fst progress_sets] in *. apply StronglySorted_inv in Hs as [Hs Hall]. apply Forall_cons in Hall as [Ht Hall].
    pose proof (set_spec t v p Ht Hi) as H1. destruct (progress_set t v p) as [a p1]. destruct H1 as (Hi1 & Hl1 & Hc1).
    assert (Hs1 : StronglySorted Z.le (last_log p1 :: map fst l)).
    { apply StronglySorted_inv in Hs as [Hs Hall']. constructor; [done|]. eapply Forall_impl; [exact Hall'|]. cbn. lia. }
    specialize (IH p1 ltac:(lia) Hs1). destruct (progress_sets l p1) as [b p2]. destruct IH as [H2 H3]. rewrite length_app, Hi1 in *. split; [lia|].
    destruct l as [|[t' v'] l]; [cbn in *; lia|]. cbn [map fst List.last] in *. clear -H3. revert H3. generalize (map fst l). intros ts. destruct ts; [done|].
    assert (Hd : forall (x y : Z) q, List.last (z :: q) x = List.last (z :: q) y) by (clear; intros x y q; revert z; induction q as [|w q IHq]; intros z; [done|exact (IHq w)]).
    by rewrite (Hd (last_log p1) (last_log p)). }
  specialize (Hgen l (with_interval ms (progress_new now tot name)) Hm Hs). destruct (progress_sets l _) as [lines p]. cbn [log_interval_ms with_interval last_log progress_new] in Hgen.
  split; [lia|done].
Qed.

Lemma progress_rate_witness :
  let '(lines, _) := progress_sets [(500000000, 1); (1200000000, 2); (1300000000, 3); (2300000000, 4)] (with_interval 1000 (progress_new 0 10 "sync")) in
  Z.of_nat (length lines) * 1000000000 <= 2300000000.
Proof.
  pose proof (progress_rate 0 10 1000 "sync" [(500000000, 1); (1200000000, 2); (1300000000, 3); (2300000000, 4)] ltac:(lia)
    ltac:(repeat constructor; cbn; lia)) as H. destruct (progress_sets _ _) as [lines p]. exact (proj1 H).
Defined.
End Logger.
