(* ===== verification/Middleware.v ===== *)
(** * The layers around a request (src/api/middleware.rs)

    Logging, request identifiers and the request counters as functions from the next handler to the
    handler around it, over requests and responses with the parts the layers look at. *)

From stdpp Require Import strings pretty.
From S2P Require Import Prelude Floats Time Text Json Api.
Abbreviation length := List.length.

Module Middleware.

Record HttpRequest : Type := mkRequest { rq_method : string; rq_uri : string; rq_path : string; rq_headers : gmap string string }.
Record HttpResponse : Type := mkResponse { rs_status : Z; rs_headers : gmap string string; rs_body : string }.

Section Layers.
Context {W E : Type}.
Abbreviation M := (ST W E).
(** [next.run(request)]. *)
Abbreviation Next := (HttpRequest -> M HttpResponse).

(** The line that is logged, with the response. *)
Definition logging_middleware (start finish : Z) (next : Next) (request : HttpRequest) : M (string * HttpResponse) :=
  do! response := next request in
  let duration := Time.since finish start in
  sret ((rq_method request +:+ " " +:+ rq_uri request +:+ " -> " +:+ pretty (rs_status response) +:+ " ("
         +:+ Text.format_fixed 2 (f64_mul (Time.as_secs_f64 duration) (f64_of 1000)) +:+ "ms)")%string, response).

(** Header names are compared without case: [X-Request-Id] is stored in lower case. *)
Definition request_id_middleware (request_id : string) (next : Next) (request : HttpRequest) : M HttpResponse :=
  let request := mkRequest (rq_method request) (rq_uri request) (rq_path request) (<["x-request-id"%string := request_id]> (rq_headers request)) in
  do! response := next request in
  sret (mkResponse (rs_status response) (<["x-request-id"%string := request_id]> (rs_headers response)) (rs_body response)).

(** The counters are state of their own next to that of the handler. *)
Definition metrics_middleware `{BuildProfile} (next : Next) (request : HttpRequest) : ST (W * Metrics) E HttpResponse :=
  fun s => match next request s.1 with
           | (Ok response, w) =>
               match metrics_record (rq_method request) (rq_path request) (rs_status response) s.2 with
               | (Ok _, m) => (Ok response, (w, m))
               | (Err e, m) => (Err e, (w, m))
               | (Panic, m) => (Panic, (w, m))
               | (Deadlock, m) => (Deadlock, (w, m))
               end
           | (Err e, w) => (Err e, (w, s.2))
           | (Panic, w) => (Panic, (w, s.2))
           | (Deadlock, w) => (Deadlock, (w, s.2))
           end.
End Layers.

(** [json!] of the counters; keys of a JSON object are text. *)
Definition counts_json {K} `{Countable K} (text : K -> string) (m : gmap K Z) : Json.Value := Json.Object ((fun p => (text p.1, Json.nat_value p.2)) <$> map_to_list m).
Definition get_stats (m : Metrics) : Json.Value :=
  Json.Object [("total_requests", Json.nat_value (total_requests m)); ("requests_by_method", counts_json id (requests_by_method m));
    ("requests_by_path", counts_json id (requests_by_path m)); ("response_codes", counts_json pretty (response_codes m))]%string.

(** ** The counters agree with the traffic *)

(** Requests served one after the other; the answers so far in order. *)
Fixpoint serve {W E} `{BuildProfile} (next : HttpRequest -> ST W E HttpResponse) (l : list HttpRequest) : ST (W * Metrics) E (list HttpResponse) :=
  match l with
  | [] => sret []
  | rq :: l => do! r := metrics_middleware next rq in do! rs := serve next l in sret (r :: rs)
  end.

(** [m] holds exactly how often each key occurs in [ks]. *)
Definition occurrences {K} `{EqDecision K} (k : K) (ks : list K) : Z := Z.of_nat (length (List.filter (fun x => bool_decide (x = k)) ks)).
Definition counts {K} `{Countable K} (m : gmap K Z) (ks : list K) : Prop :=
  forall k, m !! k = (if occurrences k ks =? 0 then None else Some (occurrences k ks)).
Definition counted (m : Metrics) (methods paths : list string) (codes : list Z) : Prop :=
  total_requests m = Z.of_nat (length methods)
  /\ counts (requests_by_method m) methods /\ counts (requests_by_path m) paths /\ counts (response_codes m) codes.

Lemma occurrences_snoc {K} `{EqDecision K} (k x : K) ks : occurrences k (ks ++ [x]) = occurrences k ks + (if bool_decide (x = k) then 1 else 0).
Proof. unfold occurrences. rewrite List.filter_app, length_app. cbn. case_bool_decide; cbn; lia. Qed.

Lemma occurrences_bound {K} `{EqDecision K} (k : K) ks : 0 <= occurrences k ks <= Z.of_nat (length ks).
Proof. unfold occurrences. pose proof (List.filter_length_le (fun x => bool_decide (x = k)) ks). lia. Qed.

Lemma bump_counts {K E} `{Countable K} `{BuildProfile} (k : K) m ks :
  counts m ks -> Z.of_nat (length ks) + 1 < 2 ^ 64 -> exists m', bump (E := E) k m = Ok m' /\ counts m' (ks ++ [k]).
Proof.
  intros Hm Hn. pose proof (occurrences_bound k ks). unfold bump. rewrite (Hm k).
  assert (Hother : forall v k', v = occurrences k (ks ++ [k]) -> <[k := v]> m !! k' = (if occurrences k' (ks ++ [k]) =? 0 then None else Some (occurrences k' (ks ++ [k])))).
  { intros v k' ->. destruct (decide (k = k')) as [<-|Hne].
    - rewrite lookup_insert_eq, (proj2 (Z.eqb_neq _ _)); [done|]. rewrite occurrences_snoc, bool_decide_true by done. lia.
    - rewrite lookup_insert_ne by done. rewrite (Hm k'). by rewrite occurrences_snoc, bool_decide_false, Z.add_0_r by done. }
  rewrite occurrences_snoc, bool_decide_true in Hother by done.
  destruct (Z.eqb_spec (occurrences k ks) 0) as [Hz|Hz].
  - eexists. split; [done|]. intros k'. apply Hother. lia.
  - unfold add_u64. rewrite arith_fits by (unfold fits; lia). cbn. eexists. split; [done|]. intros k'. by apply Hother.
Qed.

Lemma record_counted {E} `{BuildProfile} m rq status methods paths codes :
  counted m methods paths codes -> length paths = length methods -> length codes = length methods -> Z.of_nat (length methods) + 1 < 2 ^ 64 ->
  exists m', metrics_record (E := E) (rq_method rq) (rq_path rq) status m = (Ok tt, m')
    /\ counted m' (methods ++ [rq_method rq]) (paths ++ [rq_path rq]) (codes ++ [status]).
Proof.
  intros (Ht & Hm & Hp & Hc) Lp Lc Hn.
  destruct (bump_counts (E := E) (rq_method rq) _ _ Hm) as (ms & Ems & Hms); [done|].
  destruct (bump_counts (E := E) (rq_path rq) _ _ Hp) as (ps & Eps & Hps); [by rewrite Lp|].
  destruct (bump_counts (E := E) status _ _ Hc) as (cs & Ecs & Hcs); [by rewrite Lc|].
  exists (mkMetrics (total_requests m + 1) ms ps cs). unfold metrics_record, sbind, sget, smod, slift; cbn. unfold add_u64.
  rewrite arith_fits by (unfold fits; lia). cbn. rewrite Ems; cbn. rewrite Eps; cbn. rewrite Ecs; cbn.
  split; [done|]. repeat split; cbn; [|done..]. rewrite length_app; cbn. lia.
Qed.

Lemma serve_counted {W E} `{BuildProfile} (next : HttpRequest -> ST W E HttpResponse) :
  (forall rq w, exists r w', next rq w = (Ok r, w')) ->
  forall l w m methods paths codes,
    counted m methods paths codes -> length paths = length methods -> length codes = length methods ->
    Z.of_nat (length methods + length l) < 2 ^ 64 ->
    exists rs w' m', serve next l (w, m) = (Ok rs, (w', m'))
      /\ counted m' (methods ++ map rq_method l) (paths ++ map rq_path l) (codes ++ map rs_status rs).
Proof.
  intros Hnext l. induction l as [|rq l IH]; intros w m methods paths codes Hm Lp Lc Hn.
  { exists [], w, m. split; [done|]. by rewrite !app_nil_r. }
  destruct (Hnext rq w) as (r & w1 & E1).
  destruct (record_counted (E := E) m rq (rs_status r) _ _ _ Hm Lp Lc) as (m1 & E2 & H1); [cbn in Hn; lia|].
  destruct (IH w1 m1 _ _ _ H1) as (rs & w' & m' & E3 & H3); [rewrite !length_app; cbn; lia..|rewrite length_app; cbn in *; lia|].
  exists (r :: rs), w', m'. split.
  - cbn [serve]. unfold sbind, metrics_middleware. cbn [fst snd]. rewrite E1, E2. by rewrite E3.
  - cbn. by rewrite <- !app_assoc in H3.
Qed.

(** Serving fewer than 2^64 requests behind the counting layer with a handler that always answers
    succeeds, and the counters then hold exactly the traffic: the total is the number of requests, and
    each method, path and status code is counted as often as it occurred, the absent ones not at all. *)
Theorem request_counters_exact {W E} `{BuildProfile} (next : HttpRequest -> ST W E HttpResponse) l w :
  (forall rq w, exists r w', next rq w = (Ok r, w')) -> Z.of_nat (length l) < 2 ^ 64 ->
  exists rs w' m, serve next l (w, metrics_new) = (Ok rs, (w', m))
    /\ total_requests m = Z.of_nat (length l) /\ counts (requests_by_method m) (map rq_method l)
    /\ counts (requests_by_path m) (map rq_path l) /\ counts (response_codes m) (map rs_status rs).
Proof.
  intros Hnext Hl. destruct (serve_counted next Hnext l w metrics_new [] [] []) as (rs & w' & m & E1 & Ht & Hm); [|done..|].
  { repeat split; intros k; cbn; apply lookup_empty. }
  exists rs, w', m. split; [done|]. rewrite Ht. cbn. by rewrite length_map.
Qed.

Definition echo (rq : HttpRequest) : ST Z False HttpResponse :=
  fun n => (Ok (mkResponse (if String.eqb (rq_path rq) "/missing" then 404 else 200) ∅ (rq_uri rq)), n + 1).
Definition echo_request (path : string) : HttpRequest := mkRequest "GET" path path ∅.

Lemma request_counters_exact_witness : exists rs w' m,
  @serve _ _ release_profile echo [echo_request "/a"; echo_request "/missing"; echo_request "/a"] (0, metrics_new) = (Ok rs, (w', m))
  /\ requests_by_path m !! "/a"%string = Some 2 /\ response_codes m !! 404 = Some 1 /\ response_codes m !! 500 = None.
Proof.
  destruct (@request_counters_exact _ _ release_profile echo [echo_request "/a"; echo_request "/missing"; echo_request "/a"] 0)
    as (rs & w' & m & E1 & _ & _ & Hp & Hc); [intros rq w; by eexists _, _|done|].
  exists rs, w', m. split; [done|]. rewrite (Hp "/a"%string), (Hc 404), (Hc 500). vm_compute in E1. injection E1 as <- <- <-. done.
Defined.
End Middleware.
