(* ===== verification/Config.v ===== *)
(** * Configuration (src/types/config.rs)

    [NodeConfig] with its defaults, its files and directories.  The file system and serde_yaml are
    classes: reading returns what was written, and a configuration is read back from its text. *)

From stdpp Require Import strings pretty.
From S2P Require Import Prelude Errors Peers.
Abbreviation length := List.length.

Module Cfg.

Record NodeConfig : Type := mkNodeConfig {
  node_id : Z;
  node_name : string;
  validator_key_path : string;
  listen_addr : SocketAddr;
  public_addr : option SocketAddr;
  bootstrap_peers : list string;
  max_peers : Z;
  min_peers : Z;
  handshake_timeout_ms : Z;
  ping_interval_ms : Z;
  is_validator : bool;
  validator_stake : Z;
  block_time_target_ms : Z;
  consensus_timeout_ms : Z;
  max_block_size : Z;
  data_dir : string;
  rocksdb_max_open_files : Z;
  rocksdb_cache_size_mb : Z;
  wal_enabled : bool;
  wal_sync_interval_ms : Z;
  mempool_max_size : Z;
  mempool_max_tx_age_secs : Z;
  min_fee_per_byte : Z;
  api_enabled : bool;
  api_listen_addr : SocketAddr;
  rpc_enabled : bool;
  rpc_listen_addr : SocketAddr;
  ws_enabled : bool;
  ws_listen_addr : SocketAddr;
  metrics_enabled : bool;
  metrics_listen_addr : SocketAddr;
  log_level : string;
  dev_mode : bool;
  unsafe_rpc : bool
}.

Definition default_node_config : NodeConfig := {|
  node_id := 1;
  node_name := "pacyte-titan";
  validator_key_path := "./keys/validator.json";
  listen_addr := V4 [0; 0; 0; 0] 9333;
  public_addr := None;
  bootstrap_peers := [];
  max_peers := 50;
  min_peers := 3;
  handshake_timeout_ms := 5000;
  ping_interval_ms := 30000;
  is_validator := false;
  validator_stake := 0;
  block_time_target_ms := 1000;
  consensus_timeout_ms := 3000;
  max_block_size := 4 * 1024 * 1024;
  data_dir := "./data";
  rocksdb_max_open_files := 1000;
  rocksdb_cache_size_mb := 512;
  wal_enabled := true;
  wal_sync_interval_ms := 100;
  mempool_max_size := 10000;
  mempool_max_tx_age_secs := 3600;
  min_fee_per_byte := 1;
  api_enabled := true;
  api_listen_addr := V4 [127; 0; 0; 1] 8080;
  rpc_enabled := true;
  rpc_listen_addr := V4 [127; 0; 0; 1] 9332;
  ws_enabled := false;
  ws_listen_addr := V4 [127; 0; 0; 1] 9334;
  metrics_enabled := true;
  metrics_listen_addr := V4 [127; 0; 0; 1] 9090;
  log_level := "info";
  dev_mode := false;
  unsafe_rpc := false
|}%string.

(** Assignments to the fields that start-up changes. *)
Definition set_identity (id : Z) (dir : string) (addr : SocketAddr) (c : NodeConfig) : NodeConfig :=
  mkNodeConfig id (node_name c) (validator_key_path c) addr (public_addr c) (bootstrap_peers c) (max_peers c) (min_peers c)
    (handshake_timeout_ms c) (ping_interval_ms c) (is_validator c) (validator_stake c) (block_time_target_ms c) (consensus_timeout_ms c)
    (max_block_size c) dir (rocksdb_max_open_files c) (rocksdb_cache_size_mb c) (wal_enabled c) (wal_sync_interval_ms c)
    (mempool_max_size c) (mempool_max_tx_age_secs c) (min_fee_per_byte c) (api_enabled c) (api_listen_addr c) (rpc_enabled c)
    (rpc_listen_addr c) (ws_enabled c) (ws_listen_addr c) (metrics_enabled c) (metrics_listen_addr c) (log_level c) (dev_mode c) (unsafe_rpc c).
Definition set_validator_mode (v : bool) (stake : Z) (peers : list string) (c : NodeConfig) : NodeConfig :=
  mkNodeConfig (node_id c) (node_name c) (validator_key_path c) (listen_addr c) (public_addr c) peers (max_peers c) (min_peers c)
    (handshake_timeout_ms c) (ping_interval_ms c) v stake (block_time_target_ms c) (consensus_timeout_ms c)
    (max_block_size c) (data_dir c) (rocksdb_max_open_files c) (rocksdb_cache_size_mb c) (wal_enabled c) (wal_sync_interval_ms c)
    (mempool_max_size c) (mempool_max_tx_age_secs c) (min_fee_per_byte c) (api_enabled c) (api_listen_addr c) (rpc_enabled c)
    (rpc_listen_addr c) (ws_enabled c) (ws_listen_addr c) (metrics_enabled c) (metrics_listen_addr c) (log_level c) (dev_mode c) (unsafe_rpc c).

Definition enable_validator (stake : Z) (c : NodeConfig) : NodeConfig := set_validator_mode true stake (bootstrap_peers c) c.
Definition add_bootstrap_peer (addr : string) (c : NodeConfig) : NodeConfig :=
  if bool_decide (addr ∈ bootstrap_peers c) then c
  else set_validator_mode (is_validator c) (validator_stake c) (bootstrap_peers c ++ [addr]) c.

(** [PathBuf::join] with a relative component. *)
Fixpoint ends_with_slash (s : string) : bool :=
  match s with
  | EmptyString => false
  | String c EmptyString => (Ascii.nat_of_ascii c =? 47)%nat
  | String _ s => ends_with_slash s
  end.
Definition path_join (base component : string) : string :=
  if bool_decide (base = ""%string) then component
  else if ends_with_slash base then (base +:+ component)%string
  else (base +:+ "/" +:+ component)%string.
Definition db_path (c : NodeConfig) : string := path_join (data_dir c) "db".
Definition wal_path (c : NodeConfig) : string := path_join (data_dir c) "wal".
Definition keys_dir (c : NodeConfig) : string := path_join (data_dir c) "keys".

(** ** Files *)

Class FileSystem (F : Type) : Type := {
  fs_read_to_string : string -> F -> Outcome string string;
  fs_write : string -> string -> ST F string unit;
  fs_create_dir_all : string -> ST F string unit
}.
Class FileSystemLaws (F : Type) `{FileSystem F} : Prop := {
  fs_read_written : forall p t f f', fs_write p t f = (Ok tt, f') -> fs_read_to_string p f' = Ok t
}.
Class Yaml : Type := { yaml_to_string : NodeConfig -> Outcome string string; yaml_from_str : string -> Outcome string NodeConfig }.
Class YamlLaws `(Yaml) : Prop := { yaml_roundtrip : forall c t, yaml_to_string c = Ok t -> yaml_from_str t = Ok c }.

(** [.map_err(|e| ConfigError(e.to_string()))]. *)
Definition config_err {A} (r : Outcome string A) : PacyteResult A :=
  match r with Ok a => Ok a | Err e => Err (PE.ConfigError e) | Panic => Panic | Deadlock => Deadlock end.
Definition on_fs {F A} (m : ST F string A) : ST F PacyteError A := fun f => let '(r, f) := m f in (config_err r, f).

Section Files.
Context {F : Type} `{Fs : FileSystem F} `{Ym : Yaml}.
Definition from_file (path : string) (f : F) : PacyteResult NodeConfig :=
  let? contents := config_err (fs_read_to_string path f) in
  config_err (yaml_from_str contents).
Definition save_to_file (path : string) (c : NodeConfig) : ST F PacyteError unit :=
  do! contents := slift (config_err (yaml_to_string c)) in
  run! on_fs (fs_write path contents) in
  sret tt.
(** [create_dir_all(..).ok()]: a failure is dropped. *)
Definition create_ignoring (path : string) : ST F PacyteError unit :=
  fun f => let '(r, f) := fs_create_dir_all path f in (match r with Panic => Panic | Deadlock => Deadlock | _ => Ok tt end, f).
Definition ensure_data_dir (c : NodeConfig) : ST F PacyteError unit :=
  run! on_fs (fs_create_dir_all (data_dir c)) in
  run! create_ignoring (path_join (data_dir c) "db") in
  run! create_ignoring (path_join (data_dir c) "wal") in
  run! create_ignoring (path_join (data_dir c) "keys") in
  sret tt.

(** A configuration that was saved is the one that is loaded, and loading or saving fails only with a
    configuration error. *)
Theorem config_roundtrip `{FL : !FileSystemLaws F} `{YL : !YamlLaws Ym} (path : string) (c : NodeConfig) (f f' : F) :
  save_to_file path c f = (Ok tt, f') -> from_file path f' = Ok c.
Proof.
  unfold save_to_file, sbind, slift, on_fs. destruct (yaml_to_string c) as [t|e| |] eqn:Ht; try done. cbn [config_err].
  destruct (fs_write path t f) as [[[]|e| |] f1] eqn:Hw; try done. intros [= <-].
  unfold from_file. rewrite (fs_read_written _ _ _ _ Hw). cbn [config_err obind]. by rewrite (yaml_roundtrip _ _ Ht).
Qed.
End Files.

(** Peers are kept in the order they were given, each once. *)
Lemma bootstrap_added (l : list string) (c : NodeConfig) :
  NoDup (bootstrap_peers c) ->
  let c' := foldl (fun c a => add_bootstrap_peer a c) c l in
  NoDup (bootstrap_peers c') /\ (forall a, a ∈ bootstrap_peers c' <-> a ∈ bootstrap_peers c \/ a ∈ l) /\ (bootstrap_peers c) `prefix_of` (bootstrap_peers c').
Proof.
  cbn zeta. revert c. induction l as [|a l IH]; intros c Hn; cbn [foldl]; [split_and!; [done|set_solver|done]|].
  assert (Ha : NoDup (bootstrap_peers (add_bootstrap_peer a c)) /\ (forall x, x ∈ bootstrap_peers (add_bootstrap_peer a c) <-> x ∈ bootstrap_peers c \/ x = a) /\
               bootstrap_peers c `prefix_of` bootstrap_peers (add_bootstrap_peer a c)).
  { unfold add_bootstrap_peer. case_bool_decide as Hin; [split_and!; [done|set_solver|done]|]. cbn [set_validator_mode bootstrap_peers].
    split_and!; [|set_solver|by apply prefix_app_r]. apply NoDup_app. split_and!; [done|set_solver|apply NoDup_singleton]. }
  destruct Ha as (H1 & H2 & H3). destruct (IH _ H1) as (H4 & H5 & H6). split_and!; [done| |by etrans]. intros x. rewrite H5, H2. set_solver.
Qed.
End Cfg.
