(* ===== verification/Node.v ===== *)
(** * Start-up (src/main.rs)

    How [main] builds the node: the configuration from the command line, the directories, the
    storage, the genesis accounts, the configurations of the parts, the engine, the registration of a
    validator, the API server and the watcher.  What clap parsed is [Args]; logging, signal handling
    and the sleeping are left out.  The storage is any that [open_storage] returns; the text of an
    IPv6 address is read by a parameter. *)

From stdpp Require Import strings pretty.
From S2P Require Import Prelude Hashing Errors Types Merkle Block Validators Votes Safety Engine EngineProps EngineLoop Burn State Floats Mempool Vault Messages Peers P2P Sentinel RocksDB ApiService Config HashHelpers Text.
Abbreviation length := List.length.

Module Node.
Import Cfg Text.

(** ** The command line *)

Record Args : Type := mkArgs {
  a_node_id : Z;
  a_port : Z;
  a_bootstrap : option string;
  a_data_dir : string;
  a_validator : bool;
  a_stake : Z;
  a_log_level : string
}.
Definition default_args : Args := mkArgs 1 9333 None "./data" false 1000000 "info".

Inductive Level : Type := TRACE | DEBUG | INFO | WARN | ERROR.
Definition max_level (log_level : string) : Level :=
  if bool_decide (log_level = "trace"%string) then TRACE
  else if bool_decide (log_level = "debug"%string) then DEBUG
  else if bool_decide (log_level = "warn"%string) then WARN
  else if bool_decide (log_level = "error"%string) then ERROR
  else INFO.

Section Start.
Context (parse_v6 : string -> option SocketAddr).
Definition parse_addr (s : string) : option SocketAddr :=
  match parse_v4 s with Some a => Some a | None => parse_v6 s end.

(** ** From the command line to the configurations *)

(** The errors [main] boxes. *)
Inductive StartError : Type := Failed (e : PacyteError) | AddrParse.
Definition boxed {A} (r : PacyteResult A) : Outcome StartError A :=
  match r with Ok a => Ok a | Err e => Err (Failed e) | Panic => Panic | Deadlock => Deadlock end.

Definition with_bootstrap (bootstrap : option string) (c : NodeConfig) : NodeConfig :=
  match bootstrap with
  | Some b => foldl (fun c peer => add_bootstrap_peer (trim peer) c) c (split_comma b)
  | None => c
  end.
Definition config_from_args `{BuildProfile} (args : Args) : Outcome StartError NodeConfig :=
  let? addr := ok_or (parse_addr ("0.0.0.0:" +:+ pretty (a_port args))) AddrParse in
  let c := set_identity (a_node_id args) (a_data_dir args) addr default_node_config in
  let? c := (if a_validator args
             then let? stake := mul_u128 (a_stake args) 1000000 in Ok (enable_validator stake c)
             else Ok c) in
  Ok (with_bootstrap (a_bootstrap args) c).

Definition mempool_config_of (c : NodeConfig) : MempoolConfig :=
  let d := default_pool_config in
  mkPoolConfig (mempool_max_size c) (mempool_max_tx_age_secs c) (Cfg.min_fee_per_byte c)
    (max_tx_per_address d) (enable_fee_priority d) (enable_nonce_gap_filling d) (max_nonce_gap d).
Definition network_config_of (c : NodeConfig) : NetworkConfig :=
  mkNetConfig (node_id c) (listen_addr c) (public_addr c) (omap parse_addr (bootstrap_peers c)) (max_peers c) (min_peers c)
    (handshake_timeout_ms c) (ping_interval_ms c) (16 * 1024 * 1024).
Definition consensus_config_of (c : NodeConfig) : ConsensusConfig :=
  let d := default_config in
  mkConfig (Validators.max_block_size d) 21 (quorum_size_field d) (Cfg.block_time_target_ms c) (proposal_timeout_ms d) (vote_timeout_ms d)
    (round_timeout_ms d) (max_rounds d) (sync_timeout_ms d).
Definition api_config_of (c : NodeConfig) : ApiConfig :=
  let d := api_config_default in
  mkApiConfig true true (Cfg.rpc_enabled c) (Cfg.ws_enabled c) (addr_text (api_listen_addr c)) (addr_text (rpc_listen_addr c))
    (addr_text (ws_listen_addr c)) (cors_allowed_origins d) (max_request_body_size d) (rate_limit_per_second d) (enable_metrics d) (enable_docs d).

(** ** Building the node *)

Section Build.
Context {F W : Type} `{Fs : FileSystem F} `{St : Storage W} `{BP : BuildProfile} `{S3 : Sha3} `{BA : BincodeAccount}
  `{Iter : !HashMapIter Address Account} `{OrdI : !HashMapIter Z ValidatorRecord} `{Lru : LruCrate}.
(** [RocksDBStorage::new] and [Storage::get_block] of the opened storage. *)
Context (open_storage : string -> StorageConfig -> F -> PacyteResult W) (st_get_block : Z -> ST W PacyteError (option Block)).

Record NodeParts : Type := mkNode {
  n_config : NodeConfig;
  n_vault : VaultManager W;
  n_mempool : MempoolConfig;
  n_network : P2PNetwork;
  n_consensus : ConsensusConfig;
  n_registration : option (PacyteResult Z);
  n_api : option ApiServer;
  n_sentinel : option SentinelNode
}.

(** The genesis accounts, unless the vault's is there. *)
Definition init_genesis (now : Z) : ST (VaultManager W) PacyteError unit :=
  do! genesis_exists := on_state (account_exists GENESIS_VAULT_ADDRESS) in
  if genesis_exists : bool then sret tt else initialize_genesis now.
Definition genesis_hash_of (b : option Block) : Hash := match b with Some b => block_hash b | None => zero_hash end.

(** A manager of its own, dropped after the registration. *)
Definition register_self (now : Z) (cpu : Arch) (address : Address) (keys : list Z) (c : NodeConfig) : option (PacyteResult Z) :=
  if is_validator c then Some (register_validator now cpu address keys (validator_stake c) validator_manager_new).1 else None.
Definition start_sentinel (c : NodeConfig) : Outcome StartError (option SentinelNode) :=
  if is_validator c then Ok None else let? s := sentinel_new default_sentinel_config in Ok (Some s).

Definition start_node (now : Z) (cpu : Arch) (address : Address) (keys : list Z) (args : Args) : ST F StartError NodeParts :=
  do! c := slift (config_from_args args) in
  run! (fun f => let '(r, f) := ensure_data_dir c f in (boxed r, f)) in
  do! w := (fun f => (boxed (open_storage (db_path c) storage_config_default f), f)) in
  slift (
    match init_genesis now (vault_new (state_manager_new w)) with
    | (Ok _, v) =>
        match on_storage (st_get_block 0) (v_state v) with
        | (Ok b, s) =>
            let? sentinel := start_sentinel c in
            Ok (mkNode c (set_v_state s v) (mempool_config_of c) (p2p_new (network_config_of c) (genesis_hash_of b)) (consensus_config_of c)
                  (register_self now cpu address keys c)
                  (if Cfg.api_enabled c then Some (api_server_start (api_server_new (api_config_of c))) else None) sentinel)
        | (Err e, _) => Err (Failed e)
        | (Panic, _) => Panic
        | (Deadlock, _) => Deadlock
        end
    | (Err e, _) => Err (Failed e)
    | (Panic, _) => Panic
    | (Deadlock, _) => Deadlock
    end).
End Build.

(** The engine of a node: [HotStuffEngine::new], then [consensus.start()], whose thread reads the height of the storage,
    starts a round, reads the height again and takes the events.  Nothing between the two gives it validators, an
    identifier or a signer. *)
Definition start_engine {V Msg : Type} `{Env : !NodeEnv V} `{BP : BuildProfile} `{S3 : Sha3} `{Bin : Bincode}
    (now : Z) (saved saved' : PacyteResult Z) (c : NodeConfig) (services : V) (evs : list (Loop.LoopEvent Msg)) : PacyteResult unit * Loop.Runtime V :=
  Loop.engine_start now saved saved' evs (Loop.runtime_new (consensus_config_of c) services).
End Start.
End Node.
