(* ===== verification/NodeProps.v ===== *)
(** * Properties of start-up

    Addresses are read back from their text; which configuration the command line gives; what
    start-up does to the accounts; what a restarted node refuses; what its engine can do. *)

From stdpp Require Import strings pretty.
From S2P Require Import Prelude Hashing Errors Types Merkle Block Validators Votes Safety Engine EngineProps EngineLoop Burn State StateProps Floats Mempool Vault VaultProps WalProps Messages Peers P2P Sentinel SentinelProps RocksDB ApiService Config HashHelpers Text Node.
Abbreviation length := List.length.
Import Cfg Text Node.

(** ** Addresses *)

Lemma append_assoc (s t u : string) : (s +:+ t) +:+ u = s +:+ (t +:+ u).
Proof. induction s as [|c s IH]; [done|]. exact (f_equal (String c) IH). Qed.
Lemma append_nil (s : string) : s +:+ ""%string = s.
Proof. induction s as [|c s IH]; [done|]. exact (f_equal (String c) IH). Qed.
Lemma pretty_go_app x s t : pretty_N_go x s +:+ t = pretty_N_go x (s +:+ t).
Proof.
  revert s. induction (N.lt_wf_0 x) as [x _ IH]; intros s. assert (x = 0 \/ 0 < x)%N as [->|Hx] by lia; [done|].
  rewrite !(pretty_N_go_step x) by done. by rewrite IH by (by apply N.div_lt).
Qed.
Lemma pretty_char_digit d : (d < 10)%N -> decimal_digit (pretty_N_char d) = Some (Z.of_N d).
Proof. intros Hd. assert (d = 0 \/ d = 1 \/ d = 2 \/ d = 3 \/ d = 4 \/ d = 5 \/ d = 6 \/ d = 7 \/ d = 8 \/ d = 9)%N by lia. naive_solver. Qed.

(** The reader takes the digits of a printed number, of which there are no more than needed. *)
Lemma read_pretty_go bound x : (0 < x)%N -> exists k, (0 < k)%nat /\ 10 ^ Z.of_nat (k - 1) <= Z.of_N x /\
  forall acc count s, 0 <= acc -> acc * 10 ^ Z.of_nat k + Z.of_N x <= bound ->
    read_digits bound acc count (pretty_N_go x s) = read_digits bound (acc * 10 ^ Z.of_nat k + Z.of_N x) (count + k) s.
Proof.
  induction (N.lt_wf_0 x) as [x _ IH]. intros Hx. assert (x < 10 \/ 10 <= x)%N as [H10|H10] by lia.
  - exists 1%nat. split_and!; [lia|cbn; lia|]. intros acc count s Ha Hb. rewrite pretty_N_go_step by done. rewrite (N.div_small x 10), (N.mod_small x 10) by done.
    rewrite pretty_N_go_0. cbn [read_digits]. rewrite pretty_char_digit by done. change (10 ^ Z.of_nat 1) with 10 in *. rewrite (proj2 (Z.leb_le _ _)) by lia. by rewrite Nat.add_1_r.
  - destruct (IH (x / 10)%N) as (k & Hk & Hlow & Hread); [by apply N.div_lt|apply N.div_str_pos; lia|].
    pose proof (N.div_mod x 10 ltac:(lia)) as Hdm. pose proof (N.mod_lt x 10 ltac:(lia)) as Hm.
    assert (HZ : Z.of_N x = 10 * Z.of_N (x / 10) + Z.of_N (x mod 10)) by (rewrite Hdm at 1; rewrite N2Z.inj_add, N2Z.inj_mul; done).
    clear Hdm. set (q := Z.of_N (x / 10)) in *. assert (Hr : 0 <= Z.of_N (x mod 10)) by apply N2Z.is_nonneg. set (r := Z.of_N (x mod 10)) in *.
    exists (S k). assert (Hp : 10 ^ Z.of_nat (S k) = 10 * 10 ^ Z.of_nat k) by (rewrite Nat2Z.inj_succ, Z.pow_succ_r by lia; done).
    split_and!; [lia| |].
    + replace (S k - 1)%nat with (S (k - 1)) by lia. rewrite Nat2Z.inj_succ, Z.pow_succ_r by lia. generalize dependent (10 ^ Z.of_nat (k - 1)). lia.
    + intros acc count s Ha Hb. rewrite pretty_N_go_step by done. rewrite Hp in *. assert (0 < 10 ^ Z.of_nat k) by (apply Z.pow_pos_nonneg; lia).
      rewrite Hread by nia. cbn [read_digits]. rewrite pretty_char_digit by done.
      fold r. replace ((acc * 10 ^ Z.of_nat k + q) * 10 + r) with (acc * (10 * 10 ^ Z.of_nat k) + Z.of_N x) by lia.
      rewrite (proj2 (Z.leb_le _ _)) by lia. by rewrite Nat.add_succ_r.
Qed.
Lemma pretty_go_no_zero x s : (0 < x)%N -> leading_zero (pretty_N_go x s) = false.
Proof.
  revert s. induction (N.lt_wf_0 x) as [x _ IH]; intros s Hx. assert (x < 10 \/ 10 <= x)%N as [H10|H10] by lia.
  - rewrite pretty_N_go_step by done. rewrite (N.div_small x 10), (N.mod_small x 10) by done. rewrite pretty_N_go_0.
    assert (x = 1 \/ x = 2 \/ x = 3 \/ x = 4 \/ x = 5 \/ x = 6 \/ x = 7 \/ x = 8 \/ x = 9)%N by lia. naive_solver.
  - rewrite pretty_N_go_step by done. apply IH; [by apply N.div_lt|apply N.div_str_pos; lia].
Qed.

(** What stops the reader: the end of the text or a character that is no digit. *)
Definition stops (s : string) : Prop := match s with EmptyString => True | String c _ => decimal_digit c = None end.
Lemma read_stops bound acc count s : stops s -> read_digits bound acc count s = Some (acc, count, s).
Proof. destruct s as [|c s]; cbn; [done|]. by intros ->. Qed.
Lemma read_number_text bound max z s : 0 <= z <= bound -> stops s ->
  match max with Some m => z < 10 ^ Z.of_nat m /\ (0 < m)%nat | None => True end ->
  forall allow, read_number bound max allow (pretty z +:+ s) = Some (z, s).
Proof.
  intros Hz Hs Hm allow. unfold read_number. destruct (decide (z = 0)) as [->|Hn].
  - change (pretty 0 +:+ s) with (String (Ascii.ascii_of_nat 48) s). cbn [read_digits]. change (decimal_digit (Ascii.ascii_of_nat 48)) with (Some 0). cbv iota beta.
    rewrite (proj2 (Z.leb_le _ _)) by lia. rewrite read_stops by done. cbn [mbind option_bind]. change (0 * 10 + 0) with 0.
    rewrite (bool_decide_eq_false_2 (1 < 1)%nat), (bool_decide_eq_false_2 (1 = 0)%nat) by lia. rewrite andb_false_r.
    destruct max as [m|]; [|done]. by rewrite bool_decide_eq_false_2 by lia.
  - destruct z as [|p|p]; try lia. change (pretty (Zpos p)) with (pretty_N_go (Npos p) "").
    rewrite pretty_go_app. cbn [String.append]. destruct (read_pretty_go bound (Npos p) ltac:(lia)) as (k & Hk & Hlow & Hread).
    rewrite Hread by lia. rewrite read_stops by done. cbn [mbind option_bind]. rewrite pretty_go_no_zero by lia. rewrite !Z.mul_0_l, !Z.add_0_l, !Nat.add_0_l.
    rewrite (bool_decide_eq_false_2 (k = 0%nat)) by lia. rewrite andb_false_r. cbn [andb].
    destruct max as [m|]; [|done]. destruct Hm as [Hm Hm0]. rewrite bool_decide_eq_false_2; [done|]. intros Hlt.
    assert (10 ^ Z.of_nat m <= 10 ^ Z.of_nat (k - 1)) by (apply Z.pow_le_mono_r; lia). lia.
Qed.

(** The text of an IPv4 socket address is read back as that address; so the address [main] makes of
    the port always parses. *)
Lemma socket_addr_text (parse_v6 : string -> option SocketAddr) (a b c d port : Z) :
  byte_ok a -> byte_ok b -> byte_ok c -> byte_ok d -> fits 16 port ->
  parse_addr parse_v6 (addr_text (V4 [a; b; c; d] port)) = Some (V4 [a; b; c; d] port).
Proof.
  intros Ha Hb Hc Hd Hp. unfold byte_ok, fits in *. unfold parse_addr.
  set (dot := Ascii.ascii_of_nat 46). set (colon := Ascii.ascii_of_nat 58).
  assert (Htext : addr_text (V4 [a; b; c; d] port) = pretty a +:+ String dot (pretty b +:+ String dot (pretty c +:+ String dot (pretty d +:+ String colon (pretty port +:+ ""%string))))).
  { unfold addr_text, v4_text. cbn [map String.concat]. rewrite !append_assoc, append_nil. done. }
  assert (Hr : parse_v4 (addr_text (V4 [a; b; c; d] port)) = Some (V4 [a; b; c; d] port)).
  { rewrite Htext. unfold parse_v4, read_v4, read_octet. change (10 ^ Z.of_nat 3) with 1000 in *.
    do 3 (rewrite read_number_text by (try split; cbn; try done; lia); cbn [mbind option_bind]; change (read_char 46 (String dot ?x)) with (Some x); cbn [mbind option_bind]).
    rewrite read_number_text by (try split; cbn; try done; lia). cbn [mbind option_bind]. change (read_char 58 (String colon ?x)) with (Some x). cbn [mbind option_bind].
    rewrite read_number_text by (cbn; try done; lia). done. }
  by rewrite Hr.
Qed.

(** ** The configuration *)

Lemma with_bootstrap_peers b c : NoDup (bootstrap_peers c) ->
  NoDup (bootstrap_peers (with_bootstrap b c)) /\
  forall a, a ∈ bootstrap_peers (with_bootstrap b c) <-> a ∈ bootstrap_peers c \/ exists t piece, b = Some t /\ piece ∈ split_comma t /\ a = trim piece.
Proof.
  intros Hn. destruct b as [t|]; cbn [with_bootstrap]; [|split; [done|]; intros a; naive_solver].
  assert (Hm : forall l c, foldl (fun c peer => add_bootstrap_peer (trim peer) c) c l = foldl (fun c a => add_bootstrap_peer a c) c (map trim l)).
  { clear. induction l as [|x l IH]; intros c; [done|]. cbn [foldl map]. apply IH. }
  rewrite Hm. destruct (bootstrap_added (map trim (split_comma t)) c Hn) as (H1 & H2 & _). split; [done|]. intros a. rewrite H2.
  split; (intros [?|Hx]; [by left|right]).
  - apply list_elem_of_fmap in Hx as (p & -> & Hp). by exists t, p.
  - destruct Hx as (t' & p & [= <-] & Hp & ->). apply list_elem_of_fmap. by exists p.
Qed.
Lemma with_bootstrap_rest b c : let c' := with_bootstrap b c in
  listen_addr c' = listen_addr c /\ is_validator c' = is_validator c /\ validator_stake c' = validator_stake c /\ data_dir c' = data_dir c
  /\ max_block_size c' = max_block_size c /\ node_id c' = node_id c.
Proof.
  cbn zeta. destruct b as [t|]; [|done]. cbn [with_bootstrap]. revert c. induction (split_comma t) as [|p l IH]; intros c; [done|]. cbn [foldl].
  destruct (IH (add_bootstrap_peer (trim p) c)) as (H1 & H2 & H3 & H4 & H5 & H6). unfold add_bootstrap_peer in *. by case_bool_decide.
Qed.

(** What the command line decides: the node listens on the given port of every interface, its
    bootstrap peers are the distinct trimmed pieces of the list, it has the stake in micro units only
    when it is a validator; and the block size of the configuration does not reach the engine. *)
Theorem startup_config `{BP : BuildProfile} (parse_v6 : string -> option SocketAddr) (args : Args) :
  fits 16 (a_port args) -> fits 128 (a_stake args * 1000000) ->
  exists c, config_from_args parse_v6 args = Ok c
    /\ listen_addr c = V4 [0; 0; 0; 0] (a_port args) /\ node_id c = a_node_id args /\ db_path c = path_join (a_data_dir args) "db"
    /\ is_validator c = a_validator args /\ validator_stake c = (if a_validator args then a_stake args * 1000000 else 0)
    /\ NoDup (bootstrap_peers c)
    /\ (forall a, a ∈ bootstrap_peers c <-> exists t piece, a_bootstrap args = Some t /\ piece ∈ split_comma t /\ a = trim piece)
    /\ max_block_size c = 4194304 /\ Validators.max_block_size (consensus_config_of c) = 1000000.
Proof.
  intros Hp Hs. unfold config_from_args.
  change ("0.0.0.0:" +:+ pretty (a_port args)) with (addr_text (V4 [0; 0; 0; 0] (a_port args))).
  rewrite socket_addr_text by (done || (unfold byte_ok; lia)). cbn [ok_or obind].
  set (c0 := set_identity _ _ _ _).
  assert (Hv : exists c1, (if a_validator args then let? stake := mul_u128 (a_stake args) 1000000 in Ok (enable_validator stake c0) else Ok c0) = Ok (E := StartError) c1
    /\ bootstrap_peers c1 = [] /\ is_validator c1 = a_validator args /\ validator_stake c1 = (if a_validator args then a_stake args * 1000000 else 0)
    /\ listen_addr c1 = V4 [0; 0; 0; 0] (a_port args) /\ data_dir c1 = a_data_dir args /\ max_block_size c1 = 4194304 /\ node_id c1 = a_node_id args).
  { destruct (a_validator args); [|by exists c0]. unfold mul_u128. rewrite arith_fits by done. cbn [obind]. by exists (enable_validator (a_stake args * 1000000) c0). }
  destruct Hv as (c1 & -> & Hb & Hiv & Hst & Hl & Hd & Hm & Hi). cbn [obind]. exists (with_bootstrap (a_bootstrap args) c1).
  destruct (with_bootstrap_peers (a_bootstrap args) c1) as [Hn Hx]; [rewrite Hb; constructor|].
  destruct (with_bootstrap_rest (a_bootstrap args) c1) as (H1 & H2 & H3 & H4 & H5 & H6).
  split_and!; try done; try congruence.
  - unfold db_path. congruence.
  - intros a. rewrite Hx, Hb, elem_of_nil. naive_solver.
Qed.

(** ** The accounts *)

Section Startup.
Context {F W : Type} `{Fs : FileSystem F} `{St : Storage W} `{Laws : !StorageLaws W} `{BP : BuildProfile} `{S3 : Sha3} `{BA : BincodeAccount}
  `{Iter : !HashMapIter Address Account} `{OrdI : !HashMapIter Z ValidatorRecord} `{Lru : LruCrate}.
Context (parse_v6 : string -> option SocketAddr) (open_storage : string -> StorageConfig -> F -> PacyteResult W)
  (st_get_block : Z -> ST W PacyteError (option Block)).
(** Reading a block of the storage succeeds and leaves the accounts as they are. *)
Context (get_block_law : forall h w, exists b w', st_get_block h w = (Ok b, w') /\ st_accounts w' = st_accounts w).

(** The ledger a started node sees over a storage with the accounts [L]. *)
Definition genesis_ledger (now : Z) (L : Ledger) : Ledger :=
  if bool_decide (is_Some (L !! GENESIS_VAULT_ADDRESS)) then L
  else <[FOUNDER_VESTING_ADDRESS := with_type System (account_new now FOUNDER_VESTING_ADDRESS FOUNDER_ALLOCATION)]>
         (<[GENESIS_VAULT_ADDRESS := genesis_sovereign now GENESIS_BALANCE]> L).

Lemma fresh_state_ok (w : W) : state_ok (state_manager_new w) /\ view (state_manager_new w) = st_accounts w.
Proof.
  split; [split; cbn; [done|]; intros a x Hx; by rewrite lookup_empty in Hx|]. unfold view. cbn. apply (left_id_L ∅ (∪)).
Qed.

Lemma init_genesis_spec now w : exists m,
  init_genesis now (vault_new (state_manager_new w)) = (Ok tt, set_v_state m (vault_new (state_manager_new w)))
  /\ state_ok m /\ view m = genesis_ledger now (st_accounts w) /\ same_chain_state (state_manager_new w) m.
Proof.
  destruct (fresh_state_ok w) as [Hok Hview]. unfold init_genesis, account_exists, on_state, sbind. cbn [v_state vault_new].
  destruct (get_account_spec GENESIS_VAULT_ADDRESS _ Hok) as (m1 & E1 & V1 & O1 & C1). rewrite E1, Hview. unfold genesis_ledger, sret.
  case_bool_decide as Hg; [exists m1; rewrite V1; by split_and!|].
  unfold initialize_genesis, on_state, sbind. cbn [v_state set_v_state].
  destruct (set_account_spec GENESIS_VAULT_ADDRESS (genesis_sovereign now GENESIS_BALANCE) m1 O1) as (m2 & E2 & V2 & O2 & C2). rewrite E2. cbn [v_state set_v_state].
  destruct (set_account_spec FOUNDER_VESTING_ADDRESS (with_type System (account_new now FOUNDER_VESTING_ADDRESS FOUNDER_ALLOCATION)) m2 O2) as (m3 & E3 & V3 & O3 & C3).
  rewrite E3. exists m3. split_and!; [done|done|by rewrite V3, V2, V1, Hview|].
  destruct C1 as (? & ? & ? & ?), C2 as (? & ? & ? & ?), C3 as (? & ? & ? & ?). split_and!; congruence.
Qed.

Lemma start_node_spec (now : Z) (cpu : Arch) (address : Address) (keys : list Z) (args : Args) (c : NodeConfig) (f f1 : F) (w : W) :
  config_from_args parse_v6 args = Ok c -> ensure_data_dir c f = (Ok tt, f1) -> open_storage (db_path c) storage_config_default f1 = Ok w ->
  exists n, start_node parse_v6 open_storage st_get_block now cpu address keys args f = (Ok n, f1)
    /\ n_config n = c
    /\ view (v_state (n_vault n)) = genesis_ledger now (st_accounts w) /\ state_ok (v_state (n_vault n))
    /\ st_accounts (sm_storage (v_state (n_vault n))) = st_accounts w
    /\ current_height (v_state (n_vault n)) = 0
    /\ v_total_supply (n_vault n) = TOTAL_SUPPLY /\ v_total_burned (n_vault n) = 0.
Proof.
  intros Hc Hd Ho. unfold start_node, sbind, slift. rewrite Hc, Hd. cbn [boxed]. rewrite Ho. cbn [boxed].
  destruct (init_genesis_spec now w) as (m & E & Hok & Hview & Hsame). rewrite E. cbn [v_state set_v_state].
  destruct (get_block_law 0 (sm_storage m)) as (b & w' & Eb & Hacc). unfold on_storage. rewrite Eb. cbn [set_v_state].
  assert (Hsen : exists s, start_sentinel c = Ok s) by (unfold start_sentinel; destruct (is_validator c); [by eexists|cbn; by eexists]).
  destruct Hsen as [s ->]. cbn [obind]. eexists. split; [done|]. cbn [n_config n_vault v_state set_v_state]. destruct Hsame as (Hst & _ & Hh & _).
  assert (Hacc' : st_accounts w' = st_accounts w) by (by rewrite Hacc, Hst).
  split_and!; [done| | |done|by cbn|done|done].
  - unfold view in *. cbn [account_cache set_sm_storage sm_storage]. rewrite Hacc'. by rewrite Hst in Hview.
  - destruct Hok as [Ho1 Ho2]. split; [done|]. cbn [account_cache dirty_accounts set_sm_storage sm_storage]. intros a x Ha Hdirty.
    rewrite Hacc. by apply Ho2.
Qed.

(** C17. Start-up on any storage: the node comes up and sees the accounts of the storage, with the two genesis
    accounts added when the vault's account is missing.  But these are not written: the storage
    holds the accounts it held, so a node that stops before its first block creates them anew.  The
    height is zero and the counters are those of a new chain (the whole supply, nothing burned),
    whatever the chain in the storage is. *)
Theorem startup_genesis (now : Z) (cpu : Arch) (address : Address) (keys : list Z) (args : Args) (c : NodeConfig) (f f1 : F) (w : W) :
  config_from_args parse_v6 args = Ok c -> ensure_data_dir c f = (Ok tt, f1) -> open_storage (db_path c) storage_config_default f1 = Ok w ->
  exists n, start_node parse_v6 open_storage st_get_block now cpu address keys args f = (Ok n, f1)
    /\ n_config n = c
    /\ view (v_state (n_vault n)) = genesis_ledger now (st_accounts w) /\ state_ok (v_state (n_vault n))
    /\ st_accounts (sm_storage (v_state (n_vault n))) = st_accounts w
    /\ current_height (v_state (n_vault n)) = 0
    /\ v_total_supply (n_vault n) = TOTAL_SUPPLY /\ v_total_burned (n_vault n) = 0.
Proof. apply start_node_spec. Qed.

(** A restarted node does not continue its chain: over whatever storage it comes up, the state manager
    refuses every block but one of height one, so the successor of any stored block is
    refused and nothing changes. *)
Theorem restart_refuses_next_block (now later : Z) (cpu : Arch) (address : Address) (keys : list Z) (args : Args) (f f1 : F) (n : NodeParts) (b : Block) :
  start_node parse_v6 open_storage st_get_block now cpu address keys args f = (Ok n, f1) ->
  height (header b) <> 1 ->
  apply_block later b (v_state (n_vault n)) =
  (Err (PE.InvalidProposal ("Invalid height: " +:+ pretty (height (header b)) +:+ " != 1")%string), v_state (n_vault n)).
Proof.
  intros Hs Hh. assert (H0 : current_height (v_state (n_vault n)) = 0).
  { unfold start_node, sbind, slift in Hs. destruct (config_from_args parse_v6 args) as [c| | |]; try done. destruct (ensure_data_dir c f) as [[[]| | |] f2]; try done. cbn [boxed] in Hs.
    destruct (open_storage _ _ f2) as [w| | |]; try done. cbn [boxed] in Hs. destruct (init_genesis_spec now w) as (m & E & _ & _ & _ & _ & Hhm & _). rewrite E in Hs. cbn [v_state set_v_state] in Hs.
    destruct (get_block_law 0 (sm_storage m)) as (b0 & w' & Eb & _). unfold on_storage in Hs. rewrite Eb in Hs.
    destruct (start_sentinel c); try done. cbn [obind] in Hs. injection Hs as <- <-. cbn. by rewrite Hhm. }
  unfold apply_block, sbind, sget, slift. rewrite H0. change (add_u64 0 1) with (arith (E := PacyteError) 64 1). rewrite arith_fits by (by vm_compute).
  by rewrite (proj2 (Z.eqb_neq _ _)) by done.
Qed.
End Startup.

(** ** The engine *)

Section Idle.
Context {V : Type} `{Env : !NodeEnv V} `{BP : BuildProfile} `{S3 : Sha3} `{Bin : Bincode}.
Implicit Types e : Engine V.

(** No validators, no identity, no proposal. *)
Record idle e : Prop := {
  id_none : my_validator_id e = None;
  id_set : validator_set e = validator_set_new;
  id_proposal : current_proposal e = None
}.
(** Idle before and after, with the services, the chain and the height untouched. *)
Definition idles e e' : Prop :=
  idle e -> idle e' /\ world e' = world e /\ committed_blocks e' = committed_blocks e /\ e_height e' = e_height e.
#[local] Hint Extern 0 (idle _) => (split; cbn; assumption) : core.

Lemma idle_round now h r e res e' : start_new_round now h r e = (res, e') -> idles e e'.
Proof.
  unfold start_new_round, sbind, smod. intros H [Hi Hs Hp]. cbn in H. unfold am_i_proposer in H. cbn [my_validator_id set_height_round set_start set_cstate send_event] in H.
  rewrite Hi in H. injection H as <- <-. split_and!; [split|..]; by cbn.
Qed.
Lemma idle_proposal now p e res e' : handle_proposal now p e = (res, e') -> idles e e'.
Proof.
  unfold handle_proposal, sbind, sget. intros H [Hi Hs Hp]. destruct (negb _ || negb _); [by injection H as <- <-|].
  unfold engine_get_proposer, set_get_proposer in H. rewrite Hs in H. cbn in H. by injection H as <- <-.
Qed.
Lemma idle_quorum : two_thirds (E := PacyteError) (set_active_count validator_set_new) = Ok 1.
Proof. unfold two_thirds, mul_u64, add_u64. change (set_active_count validator_set_new) with 0. rewrite arith_fits by (by vm_compute). cbn [obind]. by rewrite arith_fits by (by vm_compute). Qed.
Lemma idle_add_vote v e : exists e', engine_add_vote v e = (Ok tt, e') /\ idles e e'.
Proof. unfold engine_add_vote, smod. destruct (vote_type v); (eexists; split; [done|]; intros [Hi Hs Hp]; split_and!; [split|..]; by cbn). Qed.
Lemma idle_precommit now h r bh e res e' : check_precommit_quorum now h r bh e = (res, e') -> idles e e'.
Proof.
  unfold check_precommit_quorum, engine_commit_block, sbind, sget, smod, sret. intros H [Hi Hs Hp]. rewrite Hs, idle_quorum in H.
  destruct (1 <=? _); [|by injection H as <- <-]. cbn [current_proposal send_event] in H. rewrite Hp in H. injection H as <- <-. split_and!; [split|..]; by cbn.
Qed.
Lemma idle_prevote now h r bh e res e' : check_prevote_quorum now h r bh e = (res, e') -> idles e e'.
Proof.
  unfold check_prevote_quorum, send_precommit, sbind, sget, smod, sret. intros H [Hi Hs Hp]. rewrite Hs, idle_quorum in H.
  destruct (1 <=? _); [|by injection H as <- <-]. cbn [my_validator_id send_event] in H. rewrite Hi in H. injection H as <- <-. split_and!; [split|..]; by cbn.
Qed.
Lemma idle_vote now v e res e' : handle_vote now v e = (res, e') -> idles e e'.
Proof.
  unfold handle_vote, sbind, sget. intros H Hidle. destruct (negb _ || negb _); [by injection H as <- <-|].
  destruct (idle_add_vote v e) as (e1 & E1 & H1). rewrite E1 in H. destruct (H1 Hidle) as (Hid1 & Hw & Hc & Hh).
  assert (H2 : idles e1 e') by (destruct (vote_type v); [by eapply idle_prevote|by eapply idle_precommit]).
  destruct (H2 Hid1) as (? & ? & ? & ?). split_and!; [done|congruence..].
Qed.
Lemma idle_command now c e res e' : handle_command now c e = (res, e') -> idles e e'.
Proof.
  assert (Hign : forall (m : ST (Engine V) PacyteError unit) e res e', (forall r e1, m e = (r, e1) -> idles e e1) ->
    (run! ignore_err m in sret (Some tt)) e = (res, e') -> idles e e').
  { intros m e0 r0 e0' Hm. unfold sbind. destruct (ignore_err m e0) as [o e1] eqn:Hi. apply ignore_err_state in Hi as [r Hr].
    destruct o; intros [= _ <-]; by eapply Hm. }
  destruct c; cbn [handle_command].
  - intros H. eapply Hign; [|exact H]. intros. by eapply idle_round.
  - intros H. eapply Hign; [|exact H]. intros. by eapply idle_proposal.
  - intros H. eapply Hign; [|exact H]. intros. by eapply idle_vote.
  - intros H. unfold sbind, sget, slift in H. destruct (_ && _); [|by injection H as _ <-]. destruct (_ <? _); [|by injection H as _ <-].
    destruct (add_u64 _ 1); [|by injection H as _ <-..]. eapply (Hign (start_new_round now _ _)); [|exact H]. intros. by eapply idle_round.
  - by intros [= _ <-].
  - by intros [= _ <-].
  - by intros [= _ <-].
Qed.

(** The prologue of [run] only raises the height. *)
Lemma idle_raised h e : idle e -> idle (Loop.raised h e) /\ world (Loop.raised h e) = world e /\ committed_blocks (Loop.raised h e) = committed_blocks e.
Proof. intros [? ? ?]. unfold Loop.raised. destruct (_ <? _); by split_and!; [split|..]. Qed.
Lemma take_saved_eq saved (r : Loop.Runtime V) (o : PacyteResult unit) r' : Loop.take_saved saved r = (o, r') ->
  r' = r /\ (forall x, saved <> Ok x)
  \/ exists h, (saved = Ok h \/ h = 0 /\ forall x, saved <> Ok x)
       /\ o = Ok tt /\ r' = Loop.mkRuntime (Loop.raised h (Loop.rt_engine r)) (Loop.rt_cmd_rx r) (Loop.rt_event_rx r) (Loop.rt_shutdown r).
Proof.
  unfold Loop.take_saved, sbind, slift, Loop.on_engine, smod. destruct saved as [h|x| |]; cbn [Loop.saved_height]; intros [= <- <-];
    [right; exists h; by split_and!; [left|..]|right; exists 0; by split_and!; [right|..]|by left|by left].
Qed.

(** Idle, with the given services and no commits, at a height of [heights]. *)
Record dormant (services : V) (heights : Z -> Prop) e : Prop := {
  do_idle : idle e;
  do_world : world e = services;
  do_committed : committed_blocks e = [];
  do_height : heights (e_height e)
}.
Lemma dormant_idles services heights e e' : dormant services heights e -> idles e e' -> dormant services heights e'.
Proof. intros [Hi Hw Hc Hh] He. destruct (He Hi) as (? & ? & ? & He'). split; [done|congruence|congruence|by rewrite He']. Qed.
Lemma dormant_raised services heights h e : dormant services heights e -> heights h -> dormant services heights (Loop.raised h e).
Proof.
  intros [Hi Hw Hc Hh] Hn. destruct (idle_raised h e Hi) as (? & ? & ?). split; [done|congruence|congruence|].
  rewrite Loop.raised_height. destruct (Z.max_spec (e_height e) h) as [[_ ->]|[_ ->]]; done.
Qed.
Lemma dormant_loop {Msg} services heights (evs : list (Loop.LoopEvent Msg)) r o r' :
  dormant services heights (Loop.rt_engine r) -> Loop.run_loop evs r = (o, r') -> dormant services heights (Loop.rt_engine r').
Proof.
  revert r. induction evs as [|[now c|m|] evs IH]; intros r Hd; cbn [Loop.run_loop]; [by intros [= <- <-]| |by apply IH|by intros [= <- <-]].
  unfold sbind, Loop.on_engine. destruct (handle_command now c (Loop.rt_engine r)) as [res e1] eqn:Hc.
  pose proof (dormant_idles _ _ _ _ Hd (idle_command _ _ _ _ _ Hc)) as H1.
  destruct res as [[[]|]| | |]; [by apply IH|by intros [= <- <-]..].
Qed.
Lemma dormant_start {Msg} services heights now saved saved' (evs : list (Loop.LoopEvent Msg)) r o r' :
  dormant services heights (Loop.rt_engine r) -> heights 0 -> (forall h, saved = Ok h \/ saved' = Ok h -> heights h) ->
  Loop.engine_start now saved saved' evs r = (o, r') -> dormant services heights (Loop.rt_engine r').
Proof.
  intros Hd H0 Hsaved. unfold Loop.engine_start. unfold sbind at 1, Loop.on_engine at 1, smod at 1. cbv zeta beta iota.
  set (r0 := Loop.mkRuntime _ _ _ _). assert (Hd0 : dormant services heights (Loop.rt_engine r0)) by (destruct Hd as [[? ? ?] ? ? ?]; by split; [split|..]).
  destruct (Loop.engine_main now saved saved' evs r0) as [o1 r1] eqn:E. intros Hr. assert (r' = r1) as -> by congruence. clear Hr o.
  assert (Htake : forall s r o r', (s = saved \/ s = saved') -> dormant services heights (Loop.rt_engine r) -> Loop.take_saved s r = (o, r') ->
    dormant services heights (Loop.rt_engine r')).
  { intros s x ox x' Hs Hx [[-> _]|(h & Hh & _ & ->)]%take_saved_eq; [done|]. apply dormant_raised; [done|].
    destruct Hh as [Hh|[-> _]]; [|done]. apply Hsaved. destruct Hs as [<-|<-]; [by left|by right]. }
  revert E. unfold Loop.engine_main, Loop.run_prologue. unfold sbind at 1 2. destruct (Loop.take_saved saved r0) as [o2 r2] eqn:E2.
  pose proof (Htake _ _ _ _ (or_introl eq_refl) Hd0 E2) as Hd2. destruct o2 as [[]| | |]; [|by intros [= <- <-]..].
  unfold sbind at 1, sget at 1, sbind at 1, smod at 1. destruct (negb _); [by intros [= <- <-]|]. unfold sbind at 1, sget at 1. cbn [Loop.rt_engine].
  unfold sbind at 1, Loop.on_engine at 1. cbn [Loop.rt_engine]. destruct (start_new_round _ _ _ _) as [o3 e3] eqn:E3.
  pose proof (dormant_idles _ _ _ _ Hd2 (idle_round _ _ _ _ _ _ E3)) as Hd3. destruct o3 as [[]| | |]; [|by intros [= <- <-]..].
  destruct (Loop.take_saved saved' _) as [o4 r4] eqn:E4. assert (Hd4 : dormant services heights (Loop.rt_engine r4)) by (by eapply Htake; [right|..|exact E4]).
  destruct o4 as [[]| | |]; [|by intros [= <- <-]..]. by apply dormant_loop.
Qed.

(** C11. The engine of a node as [main] builds and starts it never commits anything: no call gives it a validator set, an
    identifier or a signer (the validator [main] registers goes into a manager of its own), so whatever heights the
    storage answers at the start and whatever events arrive at the loop, it holds no proposal, commits nothing and changes
    none of the node's services; its height is zero or one the storage answered, and the stored one when both answers
    agree. *)
Theorem started_engine_never_commits {Msg} (now : Z) (saved saved' : PacyteResult Z) (c : NodeConfig) (services : V)
    (evs : list (Loop.LoopEvent Msg)) :
  let e := Loop.rt_engine (start_engine now saved saved' c services evs).2 in
  committed_blocks e = [] /\ current_proposal e = None /\ world e = services
  /\ (e_height e = 0 \/ saved = Ok (e_height e) \/ saved' = Ok (e_height e))
  /\ forall h, saved = Ok h -> saved' = Ok h -> 0 <= h -> e_height e = h.
Proof.
  cbv zeta. unfold start_engine. destruct (Loop.engine_start _ _ _ _ _) as [o r'] eqn:E. cbn [snd].
  assert (Hnew : forall P : Z -> Prop, P 0 -> dormant services P (Loop.rt_engine (Loop.runtime_new (consensus_config_of c) services))) by (intros P HP; by split).
  destruct (dormant_start services (fun h => h = 0 \/ saved = Ok h \/ saved' = Ok h) _ _ _ _ _ _ _ (Hnew _ (or_introl eq_refl)) (or_introl eq_refl) (fun h H => or_intror H) E)
    as [[_ _ Hp] Hw Hc Hh].
  split_and!; [done|done|done|done|]. intros h -> -> Hpos. clear Hh.
  revert E. unfold Loop.engine_start. unfold sbind at 1, Loop.on_engine at 1, smod at 1. cbv zeta beta iota. unfold Loop.engine_main. unfold sbind at 1.
  rewrite Loop.prologue_spec by done. cbv zeta. set (e0 := Loop.raised h _).
  assert (He : idle e0 /\ e_height e0 = h) by (split; [by apply idle_raised|]; unfold e0; rewrite Loop.raised_height; cbn; lia). destruct He as [Hi He].
  destruct (start_new_round now (e_height e0) 0 e0) as [o3 e3] eqn:E3. destruct (idle_round _ _ _ _ _ _ E3 Hi) as (Hi3 & Hw3 & Hc3 & Hh3).
  destruct o3 as [[]| | |]; [|intros [= <- <-]; cbn; congruence..].
  set (r3 := Loop.mkRuntime _ _ _ _). destruct (Loop.run_loop evs r3) as [o4 r4] eqn:E4.
  assert (H3 : dormant (world e3) (fun x => x = h) (Loop.rt_engine r3)).
  { unfold r3. cbn [Loop.rt_engine]. apply dormant_raised; [|done]. split; [done|done| |congruence]. rewrite Hc3. unfold e0, Loop.raised. by destruct (_ <? _). }
  pose proof (dormant_loop _ _ _ _ _ _ H3 E4) as [_ _ _ H4]. intros Hr. assert (r' = r4) as -> by congruence. exact H4.
Qed.
End Idle.

(** ** Concrete runs *)

Section NodeWitnesses.
#[local] Existing Instance release_profile.
#[local] Existing Instance toy_sha3.
#[local] Existing Instance key_order.
#[local] Existing Instance toy_lru.
#[local] Instance node_bincode : Bincode := fun _ => None.
#[local] Instance node_account_bincode : BincodeAccount := fun x => Some (to_le_bytes 16 (balance x)).
#[local] Instance node_storage : Storage MemoryStorage := memory_storage 100.
#[local] Instance node_storage_laws : StorageLaws MemoryStorage := memory_storage_laws 100.
#[local] Instance map_files : FileSystem (gmap string string) := {|
  fs_read_to_string p f := match f !! p with Some t => Ok t | None => Err "No such file"%string end;
  fs_write p t := smod (insert p t);
  fs_create_dir_all p := sret tt
|}.

Definition no_v6 (_ : string) : option SocketAddr := None.
Definition open_empty (_ : string) (_ : StorageConfig) (_ : gmap string string) : PacyteResult MemoryStorage := Ok memory_storage_new.
Definition read_block (h : Z) : ST MemoryStorage PacyteError (option Block) := sget (ms_get_block h).
Lemma read_block_law h w : exists b w', read_block h w = (Ok b, w') /\ st_accounts w' = st_accounts w.
Proof. by exists (ms_get_block h w), w. Qed.
Definition demo_args : Args := mkArgs 7 9444 (Some "10.0.0.1:9333, 10.0.0.2:9333,10.0.0.1:9333"%string) "./data" true 1000 "info".

Lemma startup_config_witness :
  exists c, config_from_args no_v6 demo_args = Ok c /\ listen_addr c = V4 [0; 0; 0; 0] 9444 /\ validator_stake c = 1000000000.
Proof.
  destruct (startup_config no_v6 demo_args) as (c & H1 & H2 & _ & _ & _ & H3 & _); [by vm_compute|by vm_compute|]. exists c. split_and!; [exact H1|exact H2|exact H3].
Defined.

Lemma startup_genesis_witness :
  exists n, start_node no_v6 open_empty read_block 5 OtherArch zero_address [] default_args ∅ = (Ok n, ∅)
    /\ st_accounts (sm_storage (v_state (n_vault n))) = ∅.
Proof.
  destruct (startup_genesis no_v6 open_empty read_block read_block_law 5 OtherArch zero_address [] default_args
    (set_identity 1 "./data" (V4 [0; 0; 0; 0] 9333) default_node_config) ∅ ∅ memory_storage_new) as (n & H1 & _ & _ & _ & H2 & _); [reflexivity..|].
  exists n. split; [exact H1|exact H2].
Defined.

Definition second_block : Block := mkBlock (mkHeader 2 zero_hash zero_hash zero_hash 100 zero_address 1 0 []) [].
Lemma restart_refuses_next_block_witness :
  exists n, start_node no_v6 open_empty read_block 5 OtherArch zero_address [] default_args ∅ = (Ok n, ∅)
    /\ (State.apply_block 200 second_block (v_state (n_vault n))).1 = Err (PE.InvalidProposal "Invalid height: 2 != 1").
Proof.
  destruct (start_node_spec no_v6 open_empty read_block read_block_law 5 OtherArch zero_address [] default_args
    (set_identity 1 "./data" (V4 [0; 0; 0; 0] 9333) default_node_config) ∅ ∅ memory_storage_new) as (n & E & _); [reflexivity..|].
  exists n. split; [exact E|].
  rewrite (restart_refuses_next_block no_v6 open_empty read_block read_block_law 5 200 OtherArch zero_address [] default_args ∅ ∅ n second_block E) by done. reflexivity.
Defined.

(** A node restarted at height 7 gets a vote and a proposal. *)
Lemma started_engine_never_commits_witness :
  let e := Loop.rt_engine (start_engine (Env := chain_env) (Msg := unit) 5 (Ok 7) (Ok 7) default_node_config []
    [Loop.Command 6 (CmdVoteReceived stray_vote); Loop.PeerMessage tt; Loop.Command 7 (CmdProposalReceived demo_proposal)]).2 in
  committed_blocks e = [] /\ e_height e = 7.
Proof.
  destruct (started_engine_never_commits (Env := chain_env) (Msg := unit) 5 (Ok 7) (Ok 7) default_node_config []
    [Loop.Command 6 (CmdVoteReceived stray_vote); Loop.PeerMessage tt; Loop.Command 7 (CmdProposalReceived demo_proposal)]) as (Hc & _ & _ & _ & Hh).
  split; [exact Hc|]. exact (Hh 7 eq_refl eq_refl ltac:(lia)).
Defined.
End NodeWitnesses.
