(* ===== verification/Metrics.v ===== *)
(** * Metrics (src/utils/metrics.rs)

    The metric families of the node, the recorder that updates them and the server that is to
    publish them.  The prometheus crate is a class: registries, registration, updates of a labelled
    metric, gathering and encoding, with the behaviour it documents.  The [register_..._vec!] macros use
    the one default registry of the process, which is the state here. *)

From stdpp Require Import strings pretty.
From S2P Require Import Prelude Floats.
Abbreviation length := List.length.

Module Metrics.

(** ** Families *)

Inductive Kind : Type := CounterKind | GaugeKind | HistogramKind (buckets : list f64).
Record Family : Type := mkFamily { fam_name : string; fam_help : string; fam_labels : list string; fam_kind : Kind }.
#[local] Open Scope string_scope.

Definition block_height : Family := mkFamily "pacyte_block_height" "Current block height" ["node_id"] GaugeKind.
Definition block_time_seconds : Family := mkFamily "pacyte_block_time_seconds" "Block production time in seconds" ["node_id"] (HistogramKind [literal 1 10; literal 25 100; literal 5 10; f64_of 1; f64_of 2; f64_of 5; f64_of 10]).
Definition blocks_produced_total : Family := mkFamily "pacyte_blocks_produced_total" "Total number of blocks produced" ["node_id"; "validator"] CounterKind.
Definition block_size_bytes : Family := mkFamily "pacyte_block_size_bytes" "Block size in bytes" ["node_id"] (HistogramKind [f64_of 1024; f64_of 10240; f64_of 102400; f64_of 1048576; f64_of 4194304]).
Definition transactions_total : Family := mkFamily "pacyte_transactions_total" "Total number of transactions" ["node_id"; "type"] CounterKind.
Definition transactions_pending : Family := mkFamily "pacyte_transactions_pending" "Number of pending transactions" ["node_id"] GaugeKind.
Definition transaction_size_bytes : Family := mkFamily "pacyte_transaction_size_bytes" "Transaction size in bytes" ["node_id"] (HistogramKind [f64_of 100; f64_of 250; f64_of 500; f64_of 1000; f64_of 5000]).
Definition transaction_gas_used : Family := mkFamily "pacyte_transaction_gas_used" "Gas used per transaction" ["node_id"] (HistogramKind [f64_of 21000; f64_of 50000; f64_of 100000; f64_of 500000; f64_of 1000000]).
Definition transaction_fee : Family := mkFamily "pacyte_transaction_fee" "Transaction fee in PAC" ["node_id"] (HistogramKind [literal 1 1000; literal 1 100; literal 1 10; f64_of 1; f64_of 10; f64_of 100]).
Definition peers_connected : Family := mkFamily "pacyte_peers_connected" "Number of connected peers" ["node_id"] GaugeKind.
Definition peer_messages_total : Family := mkFamily "pacyte_peer_messages_total" "Total peer messages" ["node_id"; "direction"; "type"] CounterKind.
Definition peer_latency_ms : Family := mkFamily "pacyte_peer_latency_ms" "Peer latency in milliseconds" ["node_id"; "peer_id"] (HistogramKind [f64_of 10; f64_of 50; f64_of 100; f64_of 250; f64_of 500; f64_of 1000]).
Definition consensus_round : Family := mkFamily "pacyte_consensus_round" "Current consensus round" ["node_id"; "height"] GaugeKind.
Definition consensus_proposals_total : Family := mkFamily "pacyte_consensus_proposals_total" "Total consensus proposals" ["node_id"; "result"] CounterKind.
Definition consensus_votes_total : Family := mkFamily "pacyte_consensus_votes_total" "Total consensus votes" ["node_id"; "type"] CounterKind.
Definition consensus_timeouts_total : Family := mkFamily "pacyte_consensus_timeouts_total" "Total consensus timeouts" ["node_id"; "phase"] CounterKind.
Definition mempool_size : Family := mkFamily "pacyte_mempool_size" "Number of transactions in mempool" ["node_id"] GaugeKind.
Definition mempool_bytes : Family := mkFamily "pacyte_mempool_bytes" "Total size of mempool in bytes" ["node_id"] GaugeKind.
Definition storage_disk_bytes : Family := mkFamily "pacyte_storage_disk_bytes" "Disk usage in bytes" ["node_id"; "type"] GaugeKind.
Definition storage_read_latency : Family := mkFamily "pacyte_storage_read_latency_seconds" "Storage read latency" ["node_id"] (HistogramKind [literal 1 10000; literal 5 10000; literal 1 1000; literal 5 1000; literal 1 100; literal 5 100]).
Definition storage_write_latency : Family := mkFamily "pacyte_storage_write_latency_seconds" "Storage write latency" ["node_id"] (HistogramKind [literal 1 10000; literal 5 10000; literal 1 1000; literal 5 1000; literal 1 100; literal 5 100]).
Definition api_requests_total : Family := mkFamily "pacyte_api_requests_total" "Total API requests" ["node_id"; "method"; "path"; "status"] CounterKind.
Definition api_request_duration : Family := mkFamily "pacyte_api_request_duration_seconds" "API request duration" ["node_id"; "method"; "path"] (HistogramKind [literal 1 1000; literal 1 100; literal 1 10; literal 5 10; f64_of 1; f64_of 5]).
Definition system_cpu_percent : Family := mkFamily "pacyte_system_cpu_percent" "CPU usage percentage" ["node_id"] GaugeKind.
Definition system_memory_bytes : Family := mkFamily "pacyte_system_memory_bytes" "Memory usage in bytes" ["node_id"; "type"] GaugeKind.
Definition system_uptime_seconds : Family := mkFamily "pacyte_system_uptime_seconds" "Node uptime in seconds" ["node_id"] GaugeKind.

(** In the order of registration. *)
Definition FAMILIES : list Family := [block_height; block_time_seconds; blocks_produced_total; block_size_bytes; transactions_total; transactions_pending; transaction_size_bytes; transaction_gas_used; transaction_fee; peers_connected; peer_messages_total; peer_latency_ms; consensus_round; consensus_proposals_total; consensus_votes_total; consensus_timeouts_total; mempool_size; mempool_bytes; storage_disk_bytes; storage_read_latency; storage_write_latency; api_requests_total; api_request_duration; system_cpu_percent; system_memory_bytes; system_uptime_seconds].
#[local] Close Scope string_scope.

(** ** The crate *)

(** [with_label_values(labels)] followed by [inc], [set] or [observe]. *)
Inductive Update : Type := Inc | Set_ (v : f64) | Observe (v : f64).
Record MetricCall : Type := mkCall { on_family : Family; label_values : list string; update : Update }.

Class Prometheus : Type := {
  Registry : Type;
  MetricFamily : Type;
  registry_new : Registry;
  register : Family -> ST Registry string unit;
  perform : MetricCall -> ST Registry string unit;
  gather : Registry -> list MetricFamily;
  encode_to_string : list MetricFamily -> option string
}.
(** Names are registered once; a call with as many values as the family has labels succeeds; a new registry
    has nothing to gather, and nothing is encoded as the empty text. *)
Class PrometheusLaws `(Prometheus) : Type := {
  registered : Registry -> list Family;
  register_fresh : forall f r, fam_name f ∉ map fam_name (registered r) ->
    exists r', register f r = (Ok tt, r') /\ registered r' = registered r ++ [f];
  register_again : forall f r, fam_name f ∈ map fam_name (registered r) -> exists e, register f r = (Err e, r);
  perform_matching : forall c r, on_family c ∈ registered r -> length (label_values c) = length (fam_labels (on_family c)) ->
    exists r', perform c r = (Ok tt, r') /\ registered r' = registered r;
  gather_new : gather registry_new = [];
  encode_nothing : encode_to_string [] = Some ""%string
}.

Section Metrics.
Context `{Pr : Prometheus}.
Abbreviation M := (ST Registry string).

(** ** PacyteMetrics: handles to the families, once they are registered *)

Fixpoint register_all (l : list Family) : M unit :=
  match l with
  | [] => sret tt
  | f :: l => run! register f in register_all l
  end.
Definition pacyte_metrics_new : M unit := register_all FAMILIES.

(** ** MetricsServer *)

Record MetricsServer : Type := mkServer { server_node_id : string; server_registry : Registry }.
Definition server_new (node_id : Z) : M MetricsServer :=
  run! pacyte_metrics_new in
  let registry := registry_new in
  sret (mkServer (pretty node_id) registry).
Definition metrics_handler (registry : Registry) : string := default ""%string (encode_to_string (gather registry)).
(** The answer of the route [/metrics]. *)
Definition server_answer (s : MetricsServer) : string := metrics_handler (server_registry s).

(** ** MetricsRecorder *)

Record MetricsRecorder : Type := mkRecorder { node_id : string }.
Definition recorder_new (node_id : Z) : MetricsRecorder := mkRecorder (pretty node_id).
Definition on (f : Family) (labels : list string) (u : Update) : M unit := perform (mkCall f labels u).

Section Recorder.
Context (r : MetricsRecorder).
Definition record_block (height : Z) (time_secs : f64) (size_bytes : Z) (is_validator : bool) : M unit :=
  run! on block_height [node_id r] (Set_ (f64_of height)) in
  run! on block_time_seconds [node_id r] (Observe time_secs) in
  run! on block_size_bytes [node_id r] (Observe (f64_of size_bytes)) in
  if is_validator then on blocks_produced_total [node_id r; "true"%string] Inc else sret tt.
Definition record_transaction (tx_type : string) (size_bytes gas_used fee : Z) : M unit :=
  run! on transactions_total [node_id r; tx_type] Inc in
  run! on transaction_size_bytes [node_id r] (Observe (f64_of size_bytes)) in
  run! on transaction_gas_used [node_id r] (Observe (f64_of gas_used)) in
  on transaction_fee [node_id r] (Observe (f64_div (f64_of fee) (f64_of 1000000))).
Definition record_peer (count : Z) : M unit := on peers_connected [node_id r] (Set_ (f64_of count)).
Definition record_peer_message (direction msg_type : string) : M unit := on peer_messages_total [node_id r; direction; msg_type] Inc.
Definition record_consensus_round (height round : Z) : M unit := on consensus_round [node_id r; pretty height] (Set_ (f64_of round)).
Definition record_consensus_proposal (accepted : bool) : M unit :=
  let result := if accepted then "accepted"%string else "rejected"%string in
  on consensus_proposals_total [node_id r; result] Inc.
Definition record_consensus_vote (vote_type : string) : M unit := on consensus_votes_total [node_id r; vote_type] Inc.
Definition record_consensus_timeout (phase : string) : M unit := on consensus_timeouts_total [node_id r; phase] Inc.
Definition record_mempool (size bytes : Z) : M unit :=
  run! on mempool_size [node_id r] (Set_ (f64_of size)) in
  on mempool_bytes [node_id r] (Set_ (f64_of bytes)).
Definition record_api_request (method path : string) (status : Z) (duration_secs : f64) : M unit :=
  run! on api_requests_total [node_id r; method; path; pretty status] Inc in
  on api_request_duration [node_id r; method; path] (Observe duration_secs).
End Recorder.

Inductive RecordOp : Type :=
| RBlock (height : Z) (time_secs : f64) (size_bytes : Z) (is_validator : bool)
| RTransaction (tx_type : string) (size_bytes gas_used fee : Z)
| RPeer (count : Z)
| RPeerMessage (direction msg_type : string)
| RRound (height round : Z)
| RProposal (accepted : bool)
| RVote (vote_type : string)
| RTimeout (phase : string)
| RMempool (size bytes : Z)
| RApi (method path : string) (status : Z) (duration_secs : f64).
Definition run_record (r : MetricsRecorder) (op : RecordOp) : M unit :=
  match op with
  | RBlock h t s v => record_block r h t s v
  | RTransaction t s g f => record_transaction r t s g f
  | RPeer n => record_peer r n
  | RPeerMessage d t => record_peer_message r d t
  | RRound h n => record_consensus_round r h n
  | RProposal a => record_consensus_proposal r a
  | RVote t => record_consensus_vote r t
  | RTimeout p => record_consensus_timeout r p
  | RMempool s b => record_mempool r s b
  | RApi m p s d => record_api_request r m p s d
  end.
Fixpoint run_records (r : MetricsRecorder) (ops : list RecordOp) : M unit :=
  match ops with [] => sret tt | op :: ops => run! run_record r op in run_records r ops end.
End Metrics.

(** ** Properties *)

Section Properties.
Context `{Pr : Prometheus} `{PL : !PrometheusLaws Pr}.

Lemma families_distinct : NoDup (map fam_name FAMILIES).
Proof. apply (bool_decide_eq_true_1 _). by vm_compute. Qed.

Lemma register_all_spec l : forall g, NoDup (map fam_name l) -> (forall f, f ∈ l -> fam_name f ∉ map fam_name (registered g)) ->
  exists g', register_all l g = (Ok tt, g') /\ registered g' = registered g ++ l.
Proof.
  induction l as [|f l IH]; intros g Hn Hf; cbn [register_all]; [exists g; by rewrite app_nil_r|]. cbn [map] in Hn. apply NoDup_cons in Hn as [Hnin Hn].
  destruct (register_fresh f g) as (g1 & E1 & R1); [apply Hf; left|]. unfold sbind. rewrite E1.
  destruct (IH g1 Hn) as (g2 & E2 & R2); [|exists g2; split; [done|]; by rewrite R2, R1, <-app_assoc].
  intros f' Hf'. rewrite R1, map_app. cbn [map]. rewrite elem_of_app, list_elem_of_singleton. intros [H|H]; [apply (Hf f'); [by right|done]|].
  apply Hnin. rewrite <-H. by apply (list_elem_of_fmap_2 fam_name).
Qed.

(** A call on a registered family with the right number of values. *)
Lemma on_ok f labels u g : f ∈ registered g -> length labels = length (fam_labels f) ->
  exists g', on f labels u g = (Ok tt, g') /\ registered g' = registered g.
Proof. intros Hf Hl. exact (perform_matching (mkCall f labels u) g Hf Hl). Qed.

Definition complete (g : Registry) : Prop := FAMILIES ⊆ registered g.
Lemma on_complete f labels u g : complete g -> f ∈ FAMILIES -> length labels = length (fam_labels f) ->
  exists g', on f labels u g = (Ok tt, g') /\ complete g'.
Proof.
  intros Hg Hf Hl. destruct (on_ok f labels u g) as (g' & E & R); [by apply Hg|done|]. exists g'. split; [done|]. unfold complete. by rewrite R.
Qed.
(** Two computations that succeed on a complete registry and keep it so, in sequence. *)
Definition records (m : ST Registry string unit) : Prop := forall g, complete g -> exists g', m g = (Ok tt, g') /\ complete g'.
Lemma records_seq m1 m2 : records m1 -> records m2 -> records (run! m1 in m2).
Proof. intros H1 H2 g Hg. destruct (H1 g Hg) as (g1 & E1 & C1). destruct (H2 g1 C1) as (g2 & E2 & C2). exists g2. unfold sbind. by rewrite E1. Qed.
Lemma records_on f labels u : f ∈ FAMILIES -> length labels = length (fam_labels f) -> records (on f labels u).
Proof. intros Hf Hl g Hg. by apply on_complete. Qed.
Lemma records_ret : records (sret tt).
Proof. intros g Hg. by exists g. Qed.
#[local] Ltac recorded := repeat first [apply records_ret | apply records_seq | (apply records_on; [set_solver|reflexivity])].

Lemma run_record_ok r op : records (run_record r op).
Proof.
  destruct op as [h t s v|t s gu f|n|d t|h n|a|t|p|s b|m p s d]; cbn [run_record];
    unfold record_block, record_transaction, record_peer, record_peer_message, record_consensus_round, record_consensus_proposal,
      record_consensus_vote, record_consensus_timeout, record_mempool, record_api_request; try (destruct v); recorded.
Qed.
Lemma run_records_ok r ops : records (run_records r ops).
Proof. induction ops as [|op ops IH]; cbn [run_records]; [apply records_ret|apply records_seq; [apply run_record_ok|done]]. Qed.
Lemma pacyte_metrics_new_spec g : registered g = [] -> exists g', pacyte_metrics_new g = (Ok tt, g') /\ registered g' = FAMILIES.
Proof. intros Hg. pose proof (register_all_spec FAMILIES g families_distinct) as H. rewrite Hg in H. apply H. intros f _ Hin. by apply elem_of_nil in Hin. Qed.

(** In a process with nothing registered yet, the metrics can be created once and then every record of
    the recorder succeeds: each call names a registered family and gives a value to each of its
    labels, so none panics.  Creating the metrics a second time fails, also in a second test of the process. *)
Theorem metrics_recorded (g : Registry) (node : Z) (ops : list RecordOp) :
  registered g = [] ->
  exists g1 g2, pacyte_metrics_new g = (Ok tt, g1) /\ registered g1 = FAMILIES /\
    run_records (recorder_new node) ops g1 = (Ok tt, g2) /\
    exists e, pacyte_metrics_new g1 = (Err e, g1).
Proof.
  intros Hg. destruct (pacyte_metrics_new_spec g Hg) as (g1 & E1 & R1). destruct (run_records_ok (recorder_new node) ops g1) as (g2 & E2 & _); [unfold complete; by rewrite R1|].
  exists g1, g2. split_and!; [done..|]. destruct (register_again block_height g1) as [e He]; [rewrite R1; by left|].
  exists e. unfold pacyte_metrics_new, FAMILIES. cbn [register_all]. unfold sbind. by rewrite He.
Qed.

(** The server publishes nothing: it answers from a registry of its own in which nothing is ever
    registered, so whatever is recorded before the request, the page is empty. *)
Theorem metrics_page_empty (g g1 g2 : Registry) (node : Z) (s : MetricsServer) (ops : list RecordOp) :
  server_new node g = (Ok s, g1) -> run_records (recorder_new node) ops g1 = (Ok tt, g2) -> server_answer s = ""%string.
Proof.
  unfold server_new, sbind, sret. intros Hs _. destruct (pacyte_metrics_new g) as [[[]|e| |] g']; try done. injection Hs as <- <-.
  unfold server_answer, metrics_handler. cbn [server_registry]. by rewrite gather_new, encode_nothing.
Qed.
End Properties.

(** ** Witnesses *)

(** A registry that keeps families and calls. *)
Definition toy_prometheus : Prometheus := {|
  Registry := list Family * list MetricCall;
  MetricFamily := string;
  registry_new := ([], []);
  register f := fun r => if bool_decide (fam_name f ∈ map fam_name r.1) then (Err "AlreadyReg"%string, r) else (Ok tt, (r.1 ++ [f], r.2));
  perform c := fun r => if bool_decide (length (label_values c) = length (fam_labels (on_family c))) then (Ok tt, (r.1, r.2 ++ [c])) else (Panic, r);
  gather r := map fam_name r.1;
  encode_to_string l := Some (String.concat " " l)
|}.
Definition toy_prometheus_laws : PrometheusLaws toy_prometheus.
Proof.
  refine {| registered (r : Registry (Prometheus := toy_prometheus)) := r.1 |}.
  - intros f [l c] Hf. cbn in *. rewrite bool_decide_eq_false_2 by done. eexists. by split.
  - intros f [l c] Hf. cbn in *. rewrite bool_decide_eq_true_2 by done. by eexists.
  - intros c [l cs] Hf Hl. cbn in *. rewrite bool_decide_eq_true_2 by done. eexists. by split.
  - done.
  - done.
Defined.
Definition demo_records : list RecordOp := [RBlock 100 (literal 15 10) 50000 true; RTransaction "transfer" 250 21000 1000; RPeer 5; RMempool 100 50000].
Lemma metrics_recorded_witness :
  exists g1 g2, pacyte_metrics_new (Pr := toy_prometheus) ([], []) = (Ok tt, g1) /\ run_records (recorder_new 1) demo_records g1 = (Ok tt, g2).
Proof.
  destruct (metrics_recorded (PL := toy_prometheus_laws) ([], []) 1 demo_records eq_refl) as (g1 & g2 & H1 & _ & H2 & _).
  exists g1, g2. split; [exact H1|exact H2].
Defined.
Lemma metrics_page_empty_witness :
  exists s g1, server_new (Pr := toy_prometheus) 1 ([], []) = (Ok s, g1) /\ server_answer (Pr := toy_prometheus) s = ""%string.
Proof.
  destruct (pacyte_metrics_new_spec (PL := toy_prometheus_laws) ([], []) eq_refl) as (g1 & E1 & R1).
  destruct (run_records_ok (PL := toy_prometheus_laws) (recorder_new 1) demo_records g1) as (g2 & E2 & _); [unfold complete; by rewrite R1|].
  assert (Es : server_new (Pr := toy_prometheus) 1 ([], []) = (Ok (mkServer (pretty 1) registry_new), g1)) by (unfold server_new, sbind; by rewrite E1).
  eexists _, g1. split; [exact Es|]. exact (metrics_page_empty (PL := toy_prometheus_laws) ([], []) g1 g2 1 _ demo_records Es E2).
Defined.
End Metrics.
