(* ===== verification/FullNode.v ===== *)
(** * The node put together

    The services behind the engine and behind the API, from the components themselves: blocks and
    accounts of one storage, which the state manager shares; the pool over that state manager; the network.
    [node_env] gives the engine its environment, [node_services] gives the API servers theirs.  What else
    happens to a running node (a transaction handed in, a tick of the pruner, the network) comes between
    the commands of the engine as events. *)

From stdpp Require Import strings.
From S2P Require Import Prelude Hashing Errors Types Merkle Block Validators Votes Safety Engine EngineLoop State Floats Mempool Messages Peers P2P ApiService.
Abbreviation length := List.length.

Module FullNode.

(** ** The blocks of a storage *)

(** The part of the [Storage] trait that the state manager does not use. *)
Class ChainStorage (W : Type) : Type := {
  cst_save_block : Block -> ST W PacyteError unit;
  cst_get_block : Z -> ST W PacyteError (option Block);
  cst_get_block_by_hash : Hash -> ST W PacyteError (option Block);
  cst_get_latest_block : ST W PacyteError (option Block);
  cst_get_block_height : ST W PacyteError Z;
  cst_get_transaction : Hash -> ST W PacyteError (option Transaction);
  cst_close : ST W PacyteError unit
}.

(** ** The world of the engine *)

Record World (W : Type) : Type := mkWorld { fw_pool : MempoolImpl W; fw_net : P2PNetwork }.
Arguments mkWorld {W}.
Arguments fw_pool {W}.
Arguments fw_net {W}.

(** [From<Proposal>] and [From<Vote>]. *)
Definition wire_message (m : ConsensusMessage) : Msg.NetworkMessage :=
  match m with
  | MsgProposal h r b p s => Msg.Proposal (Msg.mkProposal h r b p s)
  | MsgVote h r bh v t s => Msg.Vote (Msg.mkVote h r bh v t s)
  end.

Section Wiring.
Context {W : Type} `{St : Storage W} `{Cs : ChainStorage W} `{BP : BuildProfile} `{S3 : Sha3} `{Sig : Signatures}
  `{BT : BincodeTx} `{BA : BincodeAccount} `{Bin : Bincode} `{BM : Msg.BincodeMsg}
  `{IterP : !HashMapIter Hash PooledTx} `{IterA : !HashMapIter Address Account} `{IterN : !HashMapIter Z Peer}.

Definition on_pool {A} (c : ST (MempoolImpl W) PacyteError A) : ST (World W) PacyteError A :=
  fun w => let '(r, m) := c (fw_pool w) in (r, mkWorld m (fw_net w)).
Definition on_net {A} (c : ST P2PNetwork PacyteError A) : ST (World W) PacyteError A :=
  fun w => let '(r, n) := c (fw_net w) in (r, mkWorld (fw_pool w) n).
Definition on_manager {A} (c : ST (StateManager W) PacyteError A) : ST (World W) PacyteError A := on_pool (Mempool.on_state c).
Definition on_chain {A} (c : ST W PacyteError A) : ST (World W) PacyteError A := on_manager (State.on_storage c).

(** [storage], [state_manager], [mempool] and [network] of [HotStuffEngine::new] at one time of the clock. *)
Definition node_env (now : Z) : NodeEnv (World W) := {|
  Engine.get_latest_block := on_chain cst_get_latest_block;
  Engine.save_block := fun b => on_chain (cst_save_block b);
  Engine.apply_block := fun b => on_manager (do! _ := State.apply_block now b in sret tt);
  Engine.select_for_block := fun n size w => (pool_select_for_block n size (fw_pool w), w);
  Engine.cleanup := fun l => on_pool (pool_cleanup now l);
  Engine.broadcast := fun m => on_net (P2P.broadcast (wire_message m))
|}.

Abbreviation Node := (Engine (World W)).

Definition in_world {A} (c : ST (World W) PacyteError A) : ST Node PacyteError A :=
  fun e => let '(r, w) := c (world e) in (r, set_world w e).

(** The same services, and the engine, as the API servers hold them. *)
Definition node_services (now : Z) : NodeServices Node := {|
  ns_get_block := fun h => in_world (on_chain (cst_get_block h));
  ns_get_block_by_hash := fun h => in_world (on_chain (cst_get_block_by_hash h));
  ns_get_latest_block := in_world (on_chain cst_get_latest_block);
  ns_get_block_height := in_world (on_chain cst_get_block_height);
  ns_get_transaction := fun h => in_world (on_chain (cst_get_transaction h));
  ns_get_account := fun a e => (st_get_account a (sm_storage (mp_state (fw_pool (world e)))), e);
  ns_add_transaction := fun tx => in_world (on_pool (pool_add_transaction now tx));
  ns_all_transactions := fun e => get_all_transactions (fw_pool (world e));
  ns_mempool_stats := fun e => mp_stats (fw_pool (world e));
  ns_current_height := e_height;
  ns_current_round := e_round;
  ns_state := cstate;
  ns_is_validator := Loop.is_validator;
  ns_is_proposer := am_i_proposer;
  ns_peer_count := fun e => net_peer_count (fw_net (world e));
  ns_connected_peers := fun e => connected_peers (fw_net (world e))
|}.

(** ** Running *)

(** One tick of [BackgroundPruner]. *)
Definition pruner_tick (now : Z) : ST (MempoolImpl W) PacyteError Z := prune_expired now now.

Inductive NodeEvent : Type :=
| NCommand (c : ConsensusCommand)
| NSubmit (tx : Transaction)
| NPrune
| NNet (ev : NetEvent).

Definition node_action (now : Z) (ev : NodeEvent) : ST Node PacyteError unit :=
  match ev with
  | NCommand c => do! _ := handle_command (Env := node_env now) now c in sret tt
  | NSubmit tx => do! _ := BlockchainApi.send_transaction (NS := node_services now) tx in sret tt
  | NPrune => do! _ := in_world (on_pool (pruner_tick now)) in sret tt
  | NNet ev => in_world (on_net (net_action ev))
  end.
Definition node_step (e : Node) (p : Z * NodeEvent) : Node := (node_action p.1 p.2 e).2.
Definition node_run (l : list (Z * NodeEvent)) (e : Node) : Node := foldl node_step e l.

(** ** The end of [main] *)

(** The line of status two seconds after the start: height, peers, size of the pool, supply in whole coins.  The supply is
    the vault's counter, in micro units. *)
Record Status : Type := mkStatus { status_height : Z; status_peers : Z; status_mempool : Z; status_supply : Z }.
Definition node_status (total_supply : PacyteResult Z) : ST Node PacyteError Status :=
  do! h := in_world (on_chain cst_get_block_height) in
  do! peers := sget (fun e => net_peer_count (fw_net (world e))) in
  do! n := sget (fun e => pool_size (fw_pool (world e))) in
  do! supply := slift total_supply in
  sret (mkStatus h peers n (supply / 1000000)).

(** After the signal: the engine, the network and the storage, in this order; the first failure ends it. *)
Definition shut_down : ST (Loop.Runtime (World W)) PacyteError unit :=
  run! Loop.engine_stop in
  run! Loop.on_engine (in_world (on_net stop_network)) in
  Loop.on_engine (in_world (on_chain cst_close)).
End Wiring.
End FullNode.
