(* ===== verification/FullNodeProps.v ===== *)
(** * The node put together: no minting, what a commit does, what the API sees of it

    A small program logic for computations of the node, the laws of the blocks of a storage, the invariant
    of the running node and its preservation by every event; status and shut-down; then a commit from end to
    end.  The RocksDB storage keeps the laws, the node over it answers every JSON-RPC request, and a node of one
    validator runs over it. *)

From stdpp Require Import strings.
From S2P Require Import Prelude Hashing Errors Types Merkle Block Validators Votes Safety Engine EngineProps EngineLoop State StateProps Floats Mempool MempoolProps Messages Peers P2P Json ApiService Rpc RpcProps RocksDB RocksDBProps FullNode.
Abbreviation length := List.length.

Module NodeRun.
Import FullNode.

(** ** Postconditions under an invariant *)

(** From a state with the invariant, [c] ends in one, whatever it returns; a returned value satisfies [Q]. *)
Definition sound {S E A} (I : S -> Prop) (c : ST S E A) (Q : A -> Prop) : Prop :=
  forall s r s', I s -> c s = (r, s') -> I s' /\ forall a, r = Ok a -> Q a.

Section Sound.
Context {S E : Type} (I : S -> Prop).

Lemma sound_bind {A B} (c : ST S E A) (k : A -> ST S E B) (P : A -> Prop) (Q : B -> Prop) :
  sound I c P -> (forall a, P a -> sound I (k a) Q) -> sound I (sbind c k) Q.
Proof.
  intros Hc Hk s r s' Hs. unfold sbind. destruct (c s) as [o s1] eqn:Ec. destruct (Hc _ _ _ Hs Ec) as [H1 HP].
  destruct o as [a|e| |]; [|intros [= <- <-]; by split..]. apply Hk; [by apply HP|done].
Qed.
Lemma sound_pure {A} (f : S -> Outcome E A) (Q : A -> Prop) :
  (forall s a, I s -> f s = Ok a -> Q a) -> sound I (fun s => (f s, s)) Q.
Proof. intros Hf s r s' Hs [= <- <-]. split; [done|]. intros a. by apply Hf. Qed.
Lemma sound_sret {A} (a : A) (Q : A -> Prop) : Q a -> sound I (sret (E := E) a) Q.
Proof. intros Ha. apply (sound_pure (fun _ => Ok a)). by intros s b _ [= <-]. Qed.
Lemma sound_sfail {A} (e : E) (Q : A -> Prop) : sound I (sfail e) Q.
Proof. by apply (sound_pure (fun _ => Err e)). Qed.
Lemma sound_slift {A} (o : Outcome E A) (Q : A -> Prop) : (forall a, o = Ok a -> Q a) -> sound I (slift o) Q.
Proof. intros Ho. apply (sound_pure (fun _ => o)). intros s a _. apply Ho. Qed.
Lemma sound_sget {A} (f : S -> A) (Q : A -> Prop) : (forall s, I s -> Q (f s)) -> sound I (sget (E := E) f) Q.
Proof. intros Hf. apply (sound_pure (fun s => Ok (f s))). intros s a Hs [= <-]. by apply Hf. Qed.
Lemma sound_smod (f : S -> S) (Q : unit -> Prop) : (forall s, I s -> I (f s)) -> Q tt -> sound I (smod (E := E) f) Q.
Proof. intros Hf HQ s r s' Hs [= <- <-]. split; [by apply Hf|]. by intros [] _. Qed.
Lemma sound_weaken {A} (c : ST S E A) (P Q : A -> Prop) : (forall a, P a -> Q a) -> sound I c P -> sound I c Q.
Proof. intros HPQ Hc s r s' Hs Ec. destruct (Hc _ _ _ Hs Ec) as [? HP]. split; [done|]. intros a Ha. by apply HPQ, HP. Qed.
Lemma sound_any {A} (c : ST S E A) (P : A -> Prop) : sound I c P -> sound I c (fun _ => True).
Proof. by apply sound_weaken. Qed.
End Sound.

(** ** The blocks of a storage *)

Record Chain : Type := mkChain { ch_blocks : gmap Z Block; ch_height : Z; ch_txs : gmap Hash Transaction }.
Definition chain_add (b : Block) (C : Chain) : Chain :=
  mkChain (<[height (header b) := b]> (ch_blocks C)) (height (header b)) (ch_txs C).

(** A storage without failures, seen as blocks by height, the height of the last one saved and transactions.  Blocks and
    accounts are kept apart; saving a block saves none of its transactions; at height zero the latest block may be
    withheld. *)
Class ChainLaws (W : Type) `{St : Storage W} `{Laws : !StorageLaws W} `{Cs : ChainStorage W} `{BP : BuildProfile} : Type := {
  holds_chain : W -> Chain -> Prop;
  save_block_accounts : forall b w, st_accounts (cst_save_block b w).2 = st_accounts w;
  latest_block_accounts : forall w, st_accounts (cst_get_latest_block w).2 = st_accounts w;
  save_block_law : forall b w C, fits 64 (height (header b)) -> holds_chain w C ->
    holds_chain (cst_save_block b w).2 (chain_add b C)
    /\ ((cst_save_block b w).1 = Ok tt \/ debug_panic (cst_save_block b w).1);
  latest_block_law : forall w C, holds_chain w C ->
    holds_chain (cst_get_latest_block w).2 C
    /\ exists o, (cst_get_latest_block w).1 = Ok o /\ (0 < ch_height C -> o = ch_blocks C !! ch_height C);
  get_block_law : forall h w C, fits 64 h -> holds_chain w C -> (cst_get_block h w).1 = Ok (ch_blocks C !! h);
  get_transaction_law : forall h w C, holds_chain w C -> (cst_get_transaction h w).1 = Ok (ch_txs C !! h);
  write_batch_chain : forall b w C, wb_blocks b = [] -> wb_transactions b = [] -> holds_chain w C -> holds_chain (st_write_batch b w).2 C;
  save_root_chain : forall h r w C, holds_chain w C -> holds_chain (st_save_state_root h r w).2 C;
  get_height_law : forall w C, holds_chain w C -> (cst_get_block_height w).1 = Ok (ch_height C);
  close_law : forall w, exists w', cst_close w = (Ok tt, w') /\ st_accounts w' = st_accounts w /\ forall C, holds_chain w C -> holds_chain w' C
}.

(** ** The invariant *)

(** The types of Rust ([u128] amounts, [u64] heights) for what comes from outside. *)
Definition typed_tx (tx : Transaction) : Prop := 0 <= amount tx /\ 0 <= fee tx.
Definition typed_command (c : ConsensusCommand) : Prop :=
  match c with
  | CmdPropose h _ | CmdTimeout h _ => fits 64 h
  | CmdProposalReceived p => fits 64 (height (header (p_block p))) /\ Forall typed_tx (transactions (p_block p))
  | _ => True
  end.
Definition typed_event (ev : NodeEvent) : Prop :=
  match ev with NCommand c => typed_command c | NSubmit tx => typed_tx tx | _ => True end.

Definition proper_tx (tx : Transaction) : Prop :=
  tx_from tx <> tx_to tx /\ 0 <= amount tx /\ 0 <= fee tx /\ fits 128 (amount tx + fee tx).
Definition block_ok (b : Block) : Prop := fits 64 (height (header b)) /\ proper_txs (transactions b).

Lemma validated_proper `{BuildProfile} now age tx :
  typed_tx tx -> validate_basic (E := PacyteError) now age tx = Ok true -> proper_tx tx.
Proof.
  intros [Ha Hf]. unfold validate_basic, checked_add_none. destruct (bool_decide (tx_from tx = tx_to tx)) eqn:Hft; [by rewrite !orb_true_r|].
  apply bool_decide_eq_false in Hft. destruct (_ || _ || false); [done|]. destruct (bool_decide (~ fits 128 _)) eqn:Hs; [by rewrite orb_true_r|].
  apply bool_decide_eq_false in Hs. intros _. split_and!; try done. by apply dec_stable.
Qed.

Section Run.
Context {W : Type} `{St : Storage W} `{Laws : !StorageLaws W} `{Cs : ChainStorage W} `{BP : BuildProfile} `{CL : !ChainLaws W}
  `{S3 : Sha3} `{Sig : Signatures} `{BT : BincodeTx} `{BA : BincodeAccount} `{Bin : Bincode} `{BM : Msg.BincodeMsg}
  `{IterP : !HashMapIter Hash PooledTx} `{IterA : !HashMapIter Address Account} `{IterN : !HashMapIter Z Peer}.
Abbreviation Node := (Engine (World W)).

Definition manager_of (w : World W) : StateManager W := mp_state (fw_pool w).
Definition storage_of (w : World W) : W := sm_storage (manager_of w).
Definition ledger_of (w : World W) : Ledger := view (manager_of w).

(** At most [M] in all accounts, and [T] the transactions of the storage. *)
Record world_ok (M : Z) (T : gmap Hash Transaction) (w : World W) : Prop := {
  wo_state : state_ok (manager_of w);
  wo_ledger : ledger_ok (ledger_of w);
  wo_money : money (ledger_of w) <= M;
  wo_pool : pool_ok (fw_pool w);
  wo_proper : pooled proper_tx (fw_pool w);
  wo_chain : exists C, holds_chain (storage_of w) C /\ ch_txs C = T
}.
Record node_ok (M : Z) (T : gmap Hash Transaction) (e : Node) : Prop := {
  no_world : world_ok M T (world e);
  no_held : forall p, current_proposal e = Some p -> block_ok (p_block p)
}.

Lemma world_ok_parts M T w : world_ok M T w -> state_ok (manager_of w) /\ ledger_ok (view (manager_of w)) /\ pool_ok (fw_pool w)
  /\ exists C, holds_chain (sm_storage (manager_of w)) C.
Proof. intros [? ? ? ? _ (C & ? & _)]. eauto. Qed.

(** ** The services keep the invariant *)

Section Services.
Context (M : Z) (T : gmap Hash Transaction) (M_bound : M < 2 ^ 128).

Lemma world_ok_manager s w :
  state_ok s -> ledger_ok (view s) -> money (view s) <= M -> (exists C, holds_chain (sm_storage s) C /\ ch_txs C = T) ->
  world_ok M T w -> world_ok M T (mkWorld (set_mp_state s (fw_pool w)) (fw_net w)).
Proof.
  intros Hs Hl Hm Hc [_ _ _ Hp Hq _]. split; try done. by eapply (same_core_ok (fw_pool w)).
Qed.

Lemma same_accounts_view (m : StateManager W) wd :
  st_accounts wd = st_accounts (sm_storage m) -> state_ok m -> view (set_sm_storage wd m) = view m /\ state_ok (set_sm_storage wd m).
Proof. intros Ha [Hd Hc]. unfold view. cbn. rewrite Ha. split; [done|]. split; cbn; [done|by rewrite Ha]. Qed.

(** A call of the storage that leaves the accounts alone. *)
Lemma sound_on_chain {A} (c : ST W PacyteError A) :
  (forall w, st_accounts (c w).2 = st_accounts w) ->
  (forall w C, holds_chain w C -> exists C', holds_chain (c w).2 C' /\ ch_txs C' = ch_txs C) ->
  sound (world_ok M T) (on_chain c) (fun _ => True).
Proof.
  intros Hacc Hchain w r w' Hw. unfold on_chain, on_manager, on_pool, Mempool.on_state, on_storage.
  specialize (Hacc (storage_of w)). pose proof (Hchain (storage_of w)) as Hc. unfold storage_of, manager_of in *.
  destruct (c (sm_storage (mp_state (fw_pool w)))) as [o wd]. cbn in Hacc, Hc. intros [= <- <-]. split; [|done].
  destruct (same_accounts_view (mp_state (fw_pool w)) wd Hacc (wo_state _ _ _ Hw)) as [Hv Hs].
  destruct (wo_chain _ _ _ Hw) as (C & HC & HT). destruct (Hc C HC) as (C' & HC' & HT').
  apply world_ok_manager; [done|rewrite Hv; apply Hw|rewrite Hv; apply Hw|exists C'; split; [done|congruence]|done].
Qed.
Lemma sound_latest : sound (world_ok M T) (on_chain cst_get_latest_block) (fun _ => True).
Proof.
  apply sound_on_chain; [apply latest_block_accounts|]. intros w C HC. exists C. split; [|done]. by apply latest_block_law.
Qed.
Lemma sound_save b : fits 64 (height (header b)) -> sound (world_ok M T) (on_chain (cst_save_block b)) (fun _ => True).
Proof.
  intros Hb. apply sound_on_chain; [apply save_block_accounts|]. intros w C HC. exists (chain_add b C). split; [|done]. by apply save_block_law.
Qed.

Lemma expected_or_not a b : add_u64 (E := PacyteError) a 1 = Ok b \/ add_u64 (E := PacyteError) a 1 <> Ok b.
Proof. destruct (add_u64 a 1) as [x| | |]; [|by right..]. destruct (decide (x = b)) as [->|]; [by left|right; congruence]. Qed.

Lemma sound_apply now b : block_ok b ->
  sound (world_ok M T) (on_manager (do! _ := State.apply_block now b in sret tt)) (fun _ => True).
Proof.
  intros [Hh Htx] w r w' Hw. unfold on_manager, on_pool, Mempool.on_state, sbind.
  destruct (State.apply_block now b (manager_of w)) as [o m] eqn:E. unfold manager_of in E. rewrite E.
  assert (Hgoal : world_ok M T (mkWorld (set_mp_state m (fw_pool w)) (fw_net w))).
  2:{ destruct o; intros [= <- <-]; by split. }
  pose proof (wo_state _ _ _ Hw) as Hs. pose proof (wo_ledger _ _ _ Hw) as Hl. pose proof (wo_money _ _ _ Hw) as Hm.
  destruct (wo_chain _ _ _ Hw) as (C & HC & HT). unfold ledger_of, storage_of, manager_of in *.
  assert (Hchain : exists C, holds_chain (sm_storage m) C /\ ch_txs C = T).
  { exists C. split; [|done]. eapply (apply_block_storage (fun x => holds_chain x C)); [| |exact E|exact HC].
    - intros h0 r0 w0. apply save_root_chain.
    - intros b0 w0. apply write_batch_chain. }
  destruct (expected_or_not (current_height (mp_state (fw_pool w))) (height (header b))) as [Hd|Hd].
  - pose proof (apply_block_at now b _ Hs Hl (proper_txs_ok _ Htx) Hd) as Hat.
    destruct (ledger_transfers_never_mint now _ _ Hl ltac:(lia) Htx) as [Hl' Hm'].
    destruct (ledger_transfers now (transactions b) (view (mp_state (fw_pool w)))) as [[u|e| |] L]; cbn [snd] in *; try done.
    + destruct Hat as (v & m' & E' & Hv & _ & _ & _ & Hs'). rewrite E' in E. injection E as <- <-. apply world_ok_manager; rewrite ?Hv; try done; lia.
    + destruct Hat as (m' & E' & Hv & _ & Hs' & _). rewrite E' in E. injection E as <- <-. apply world_ok_manager; rewrite ?Hv; try done; lia.
  - destruct (apply_block_refused _ _ _ _ _ Hd E) as [-> _]. by apply world_ok_manager.
Qed.

(** The pool reads accounts through the state manager and leaves storage and height as they are. *)
Definition same_base (m m' : StateManager W) : Prop := sm_storage m' = sm_storage m /\ current_height m' = current_height m.
Definition same_storage (m m' : MempoolImpl W) : Prop := same_base (mp_state m) (mp_state m').
#[local] Instance same_base_preorder : PreOrder same_base.
Proof. split; [done|]. intros x y z [? ?] [? ?]. split; congruence. Qed.
#[local] Instance same_storage_preorder : PreOrder same_storage.
Proof. split; [done|]. intros x y z. unfold same_storage. apply transitivity. Qed.

Ltac base_solver := repeat first [ apply keeps_bind; [apply _| |intros] | keeps_leaf | case_match ].
Lemma get_account_base a : keeps same_base (State.get_account a).
Proof. intros m r m'. unfold State.get_account. repeat case_match; by intros [= <- <-]. Qed.
Lemma unwrap_or_base {A} (d : A) (c : ST (StateManager W) PacyteError A) : keeps same_base c -> keeps same_base (unwrap_or d c).
Proof. intros Hc m r m'. unfold unwrap_or. destruct (c m) as [[]] eqn:E; intros [= <- <-]; by eapply Hc. Qed.
Lemma get_nonce_base a : keeps same_base (get_nonce a).
Proof. unfold get_nonce. apply keeps_bind; [apply _|apply get_account_base|intros; base_solver]. Qed.
Lemma get_balance_base a : keeps same_base (State.get_balance a).
Proof. unfold State.get_balance. apply keeps_bind; [apply _|apply get_account_base|intros; base_solver]. Qed.
Lemma validate_base now cfg tx : keeps same_base (validate_transaction now cfg tx).
Proof.
  unfold validate_transaction, check_balance, check_nonce.
  repeat first [ apply unwrap_or_base, get_balance_base | apply unwrap_or_base, get_nonce_base
               | apply keeps_bind; [apply _| |intros] | keeps_leaf | case_match ].
Qed.
Lemma on_state_storage {A} (c : ST (StateManager W) PacyteError A) : keeps same_base c -> keeps same_storage (Mempool.on_state c).
Proof. intros Hc m r m'. unfold Mempool.on_state. destruct (c (mp_state m)) as [o s1] eqn:E. intros [= <- <-]. by eapply Hc. Qed.

Lemma update_stats_storage now : keeps same_storage (update_stats now).
Proof. intros m r m' (_ & Hs & _)%update_stats_cases. unfold same_storage. by rewrite Hs. Qed.
Ltac storage_solver :=
  repeat first [ apply keeps_bind; [apply _| |intros] | apply update_stats_storage | keeps_leaf | case_match ].
Lemma remove_storage now h : keeps same_storage (remove_transaction now h).
Proof. unfold remove_transaction, remove_from_priority_index. storage_solver. Qed.
Lemma remove_all_storage now l : keeps same_storage (remove_all now l).
Proof. induction l as [|h l IH]; cbn [remove_all]; [keeps_leaf|]. apply keeps_bind; [apply _|apply remove_storage|done]. Qed.
Lemma cleanup_storage now l : keeps same_storage (pool_cleanup now l).
Proof.
  unfold pool_cleanup. repeat first [ apply keeps_bind; [apply _| |intros] | apply remove_all_storage | keeps_leaf ].
  match goal with |- keeps _ (filter_m ?f ?l) => generalize l end. intros l0. induction l0 as [|x l0 IH]; cbn [filter_m]; [keeps_leaf|].
  repeat first [ apply keeps_bind; [apply _| |intros] | apply IH | keeps_leaf | case_match ].
  apply on_state_storage, unwrap_or_base, get_nonce_base.
Qed.
Lemma add_storage now tx : keeps same_storage (pool_add_transaction now tx).
Proof.
  unfold pool_add_transaction, insert_pooled, add_to_priority_index.
  repeat first [ apply on_state_storage, validate_base | apply remove_storage | storage_solver | progress cbn zeta ].
Qed.

(** Calls of the pool, from what they do to the pool. *)
Lemma sound_on_pool {A} (c : ST (MempoolImpl W) PacyteError A) :
  (forall m r m', state_ok (mp_state m) -> pool_ok m -> pooled proper_tx m -> c m = (r, m') ->
     pool_ok m' /\ same_ledger (mp_state m) (mp_state m') /\ pooled proper_tx m' /\ same_storage m m') ->
  sound (world_ok M T) (on_pool c) (fun _ => True).
Proof.
  intros Hc w r w' Hw. unfold on_pool. destruct (c (fw_pool w)) as [o m'] eqn:E. intros [= <- <-]. split; [|done].
  destruct Hw as [Hs Hl Hm Hp Hq Hx]. unfold ledger_of, storage_of, manager_of in *.
  destruct (Hc _ _ _ Hs Hp Hq E) as (Hp' & [Hv Hs'] & Hq' & [Hst _]).
  split; unfold ledger_of, storage_of, manager_of; cbn; rewrite ?Hv, ?Hst; done.
Qed.
Lemma sound_cleanup now l : sound (world_ok M T) (on_pool (pool_cleanup now l)) (fun _ => True).
Proof.
  apply sound_on_pool. intros m r m' Hs Hp Hq E. pose proof (cleanup_pooled _ now l _ _ _ E Hq). pose proof (cleanup_storage now l _ _ _ E).
  apply cleanup_cases in E as (? & ? & _); [|done..]. done.
Qed.
Lemma sound_prune now t : sound (world_ok M T) (on_pool (prune_expired now t)) (fun _ => True).
Proof.
  apply sound_on_pool. intros m r m' Hs Hp Hq E. pose proof (prune_pooled _ now t _ _ _ E Hq).
  apply prune_cases in E as (? & Hst & _); [|done]. unfold same_ledger, same_storage. by rewrite Hst.
Qed.
Lemma sound_add now tx : typed_tx tx -> sound (world_ok M T) (on_pool (pool_add_transaction now tx)) (fun _ => True).
Proof.
  intros Htx. apply sound_on_pool. intros m r m' Hs Hp Hq E.
  assert (pooled proper_tx m').
  { eapply add_pooled; [|exact E|done]. intros age. by apply validated_proper. }
  pose proof (add_storage now tx _ _ _ E). apply pool_add_cases in E as (? & ? & _); done.
Qed.
Lemma sound_select n size :
  sound (E := PacyteError) (world_ok M T) (fun w => (pool_select_for_block n size (fw_pool w), w)) proper_txs.
Proof. apply sound_pure. intros w l Hw E. eapply select_pooled; [apply Hw|exact E]. Qed.
Lemma sound_net {A} (c : ST P2PNetwork PacyteError A) : sound (world_ok M T) (on_net c) (fun _ => True).
Proof. intros w r w' [] . unfold on_net. destruct (c (fw_net w)). intros [= <- <-]. by split; [split|]. Qed.
End Services.

(** ** The handlers of the engine keep the invariant *)

Section Handlers.
Context (M : Z) (T : gmap Hash Transaction) (M_bound : M < 2 ^ 128) (now : Z).
#[local] Instance env_now : NodeEnv (World W) := node_env now.
Abbreviation I := (node_ok M T).

Lemma sound_on_world {A} (c : ST (World W) PacyteError A) Q : sound (world_ok M T) c Q -> sound I (on_world c) Q.
Proof.
  intros Hc e r e' [Hw Hp]. unfold on_world. destruct (c (world e)) as [o w] eqn:E. intros [= <- <-].
  destruct (Hc _ _ _ Hw E) as [Hw' HQ]. by split; [split|].
Qed.
Lemma sound_ignore_err {A} (c : ST Node PacyteError A) Q : sound I c Q -> sound I (ignore_err c) (fun _ => True).
Proof.
  intros Hc e r e' He. unfold ignore_err. destruct (c e) as [o e1] eqn:E. destruct (Hc _ _ _ He E) as [H1 _].
  destruct o; intros [= <- <-]; by split.
Qed.

(** A step that neither calls a service nor sets the proposal, and the rest of the handler. *)
Ltac quiet :=
  first [ apply sound_smod; [intros ? [? ?]; by split|done] | apply sound_sget; done | apply sound_pure; done
        | apply sound_slift; done | apply sound_sret; done | apply sound_sfail ].
Ltac step := eapply (sound_bind _ _ _ (fun _ => True)); [quiet|intros ? _; cbn beta].
Ltac service L := eapply sound_bind; [apply sound_on_world, L|intros ? ?; cbn beta].

Lemma sound_create_block h : fits 64 h -> sound I (create_block now h) block_ok.
Proof.
  intros Hh. unfold create_block. service sound_latest.
  eapply (sound_bind _ _ _ (fun _ => True)); [case_match; [quiet|eapply (sound_bind _ _ _ (fun _ => True)); [quiet|intros; quiet]]|intros prev _].
  step. service sound_select. step. step. apply sound_slift. intros b. unfold block_new.
  destruct (transactions_root _); try done. intros [= <-]. by split.
Qed.
Lemma sound_create_proposal h r b : block_ok b -> sound I (create_proposal now h r b) (fun p => block_ok (p_block p)).
Proof. intros Hb. unfold create_proposal. step. apply sound_sget. intros e _. by destruct (signer e). Qed.
Lemma sound_broadcast_proposal p : sound I (broadcast_proposal p) (fun _ => True).
Proof. unfold broadcast_proposal. service sound_net. quiet. Qed.
Lemma sound_start_new_round h r : fits 64 h -> sound I (start_new_round now h r) (fun _ => True).
Proof.
  intros Hh. unfold start_new_round. do 5 step. case_match; [|quiet].
  eapply sound_bind; [by apply sound_create_block|]. intros b Hb. eapply sound_bind; [by apply sound_create_proposal|]. intros p Hp.
  eapply sound_bind; [apply sound_broadcast_proposal|]. intros _ _.
  eapply sound_bind; [apply (sound_smod _ _ (fun _ => True)); [|done]; intros e [Hw _]; split; [done|by intros ? [= <-]]|]. intros _ _.
  step. quiet.
Qed.
Lemma sound_commit h : sound I (engine_commit_block now h) (fun _ => True).
Proof.
  unfold engine_commit_block. eapply sound_bind.
  { apply (sound_pure _ _ (fun p => block_ok (p_block p))). intros e p [_ Hp] E. apply Hp. by destruct (current_proposal e); [injection E as <-|]. }
  intros p Hb. cbn beta. service (sound_apply M T M_bound now (p_block p) Hb). service (sound_save M T (p_block p) (proj1 Hb)).
  service sound_cleanup. do 5 step.
  eapply (sound_bind _ _ _ (fun a => add_u64 h 1 = Ok a)); [apply sound_slift; done|]. intros h2 Hh2.
  apply sound_start_new_round. unfold add_u64 in Hh2. by eapply arith_ok_range.
Qed.
Lemma sound_check_precommit h r bh : sound I (check_precommit_quorum now h r bh) (fun _ => True).
Proof. unfold check_precommit_quorum. do 2 step. case_match; [|quiet]. step. apply sound_commit. Qed.
Lemma sound_add_vote v : sound I (engine_add_vote v) (fun _ => True).
Proof. unfold engine_add_vote. case_match; quiet. Qed.
Lemma sound_send_precommit bh : sound I (send_precommit now bh) (fun _ => True).
Proof.
  unfold send_precommit. do 4 step. eapply sound_bind; [apply sound_add_vote|]. intros _ _. service sound_net. step. apply sound_check_precommit.
Qed.
Lemma sound_check_prevote h r bh : sound I (check_prevote_quorum now h r bh) (fun _ => True).
Proof. unfold check_prevote_quorum. do 2 step. case_match; [|quiet]. step. apply sound_send_precommit. Qed.
Lemma sound_send_prevote bh : sound I (send_prevote now bh) (fun _ => True).
Proof.
  unfold send_prevote. do 4 step. eapply sound_bind; [apply sound_add_vote|]. intros _ _. service sound_net. step. apply sound_check_prevote.
Qed.

(** What the engine accepts from outside has passed [validate_basic]. *)
Lemma all_valid_proper txs : Forall typed_tx txs -> all_valid now txs = Ok true -> proper_txs txs.
Proof.
  induction 1 as [|tx txs Htx _ IH]; cbn; [by constructor|]. destruct (validate_basic now 3600 tx) as [[]| | |] eqn:E; try done. cbn.
  intros Hall. constructor; [|by apply IH]. by eapply validated_proper.
Qed.
Lemma sound_validate_block b : Forall typed_tx (transactions b) ->
  sound I (validate_block now b) (fun ok => ok = true -> proper_txs (transactions b)).
Proof.
  intros Htx. unfold validate_block. step. case_match; [by apply sound_sret|]. service sound_latest.
  destruct (match a0 with Some _ => _ | None => _ end); [by apply sound_sret|]. apply sound_slift. intros ok E ->. by apply all_valid_proper.
Qed.
Lemma sound_handle_proposal p :
  fits 64 (height (header (p_block p))) -> Forall typed_tx (transactions (p_block p)) -> sound I (handle_proposal now p) (fun _ => True).
Proof.
  intros Hh Htx. unfold handle_proposal. do 2 step. case_match; [quiet|]. step. case_match; [quiet|]. step. case_match; [quiet|].
  eapply sound_bind; [by apply sound_validate_block|]. intros ok Hok. cbn beta. destruct ok; cbn [negb]; [|quiet].
  eapply sound_bind; [apply (sound_smod _ _ (fun _ => True)); [|done]; intros e [Hw _]; split; [done|]; intros ? [= <-]; by split; [|apply Hok]|].
  intros _ _. apply sound_send_prevote.
Qed.
Lemma sound_handle_vote v : sound I (handle_vote now v) (fun _ => True).
Proof.
  unfold handle_vote. do 2 step. case_match; [quiet|]. eapply sound_bind; [apply sound_add_vote|]. intros _ _.
  case_match; [apply sound_check_prevote|apply sound_check_precommit].
Qed.
Lemma sound_command c : typed_command c -> sound I (handle_command now c) (fun _ => True).
Proof.
  intros Hc. destruct c as [h r|p|v|h r|b|h|]; cbn [handle_command typed_command] in *; try quiet.
  - eapply sound_bind; [eapply sound_ignore_err; by apply sound_start_new_round|]. intros _ _. quiet.
  - destruct Hc. eapply sound_bind; [eapply sound_ignore_err; by apply sound_handle_proposal|]. intros _ _. quiet.
  - eapply sound_bind; [eapply sound_ignore_err, sound_handle_vote|]. intros _ _. quiet.
  - step. case_match; [|quiet]. step. case_match; [|quiet]. step.
    eapply sound_bind; [eapply sound_ignore_err; by apply sound_start_new_round|]. intros _ _. quiet.
Qed.
End Handlers.

(** ** Runs *)

Lemma sound_action M T now ev : M < 2 ^ 128 -> typed_event ev -> sound (node_ok M T) (node_action now ev) (fun _ => True).
Proof.
  intros HM Hev. destruct ev as [c|tx| |ev]; cbn [node_action typed_event] in *.
  - eapply sound_bind; [by apply sound_command|]. intros _ _. by apply sound_sret.
  - apply (sound_bind _ _ _ (fun _ => True)); [|intros; by apply sound_sret]. intros e r e' He. unfold BlockchainApi.send_transaction.
    cbn [ns_add_transaction node_services]. destruct (in_world _ e) as [o e1] eqn:E.
    destruct (sound_on_world M T _ _ (sound_add M T now tx Hev) e o e1 He E) as [H1 _]. destruct o; intros [= <- <-]; by split.
  - eapply sound_bind; [apply (sound_on_world M T), sound_prune|]. intros _ _. by apply sound_sret.
  - apply (sound_on_world M T), sound_net.
Qed.

Lemma node_run_ok M T l (e : Node) :
  M < 2 ^ 128 -> Forall (fun p => typed_event p.2) l -> node_ok M T e -> node_ok M T (node_run l e).
Proof.
  intros HM Hl. revert e. induction Hl as [|[now ev] l Hev _ IH]; intros e He; cbn; [done|]. apply IH.
  unfold node_step. cbn. destruct (node_action now ev e) as [r e'] eqn:E. by apply (sound_action M T now ev HM Hev e r e' He E).
Qed.

(** C4. The running node mints nothing: through every sequence of commands to the engine, submitted transactions, ticks of
    the pruner and events of the network, in any order and whatever each of them returns, the sum of all balances never
    rises.  The one transfer that creates money, from an account to itself, passes neither the validation of the
    pool nor that of a received proposal, which are the only sources of the blocks that are committed. *)
Theorem node_never_mints (T : gmap Hash Transaction) (l : list (Z * NodeEvent)) (e : Node) :
  node_ok (money (ledger_of (world e))) T e -> money (ledger_of (world e)) < 2 ^ 128 ->
  Forall (fun p => typed_event p.2) l ->
  money (ledger_of (world (node_run l e))) <= money (ledger_of (world e))
  /\ ledger_ok (ledger_of (world (node_run l e))) /\ state_ok (manager_of (world (node_run l e)))
  /\ pool_ok (fw_pool (world (node_run l e))).
Proof.
  intros He HM Hl. destruct (no_world _ _ _ (node_run_ok _ T l e HM Hl He)) as [? ? ? ? _ _]. by split_and!.
Qed.

(** C19. No transaction is ever found by its hash: over a storage that held none, after any events, the committing of blocks
    included, eth_getTransactionByHash and eth_getTransactionReceipt answer that the transaction does not exist,
    for every transaction; nothing the node does writes one to the storage the API reads. *)
Theorem rpc_never_finds_transaction (M now : Z) (l : list (Z * NodeEvent)) (e : Node) (tx : Transaction) :
  node_ok M ∅ e -> M < 2 ^ 128 -> Forall (fun p => typed_event p.2) l ->
  let asked := Some (Json.Array [Json.Str (hex_text (tx_hash tx))]) in
  let missing := api_error_new TRANSACTION_NOT_FOUND "Transaction not found" in
  (rpc_get_transaction (NS := node_services now) asked (node_run l e)).1 = Err missing
  /\ (rpc_get_transaction_receipt (NS := node_services now) asked (node_run l e)).1 = Err missing.
Proof.
  intros He HM Hl asked missing. destruct (wo_chain _ _ _ (no_world _ _ _ (node_run_ok M ∅ l e HM Hl He))) as (C & HC & HT).
  assert (Hget : (BlockchainApi.get_transaction (NS := node_services now) (tx_hash tx) (node_run l e)).1 = Ok None).
  { cbn [BlockchainApi.get_transaction ns_get_transaction node_services]. unfold in_world, on_chain, on_manager, on_pool, Mempool.on_state, on_storage.
    pose proof (get_transaction_law (tx_hash tx) _ _ HC) as Hg. rewrite HT, lookup_empty in Hg. unfold storage_of, manager_of in Hg.
    destruct (cst_get_transaction _ _) as [o w]. exact Hg. }
  unfold rpc_get_transaction, rpc_get_transaction_receipt, asked.
  split; unfold sbind, slift; cbn [param_list text_param Json.as_array Json.as_str lookup list_lookup mbind option_bind];
    rewrite parse_tx_hash; unfold internal; destruct (BlockchainApi.get_transaction _ _) as [o w]; cbn in Hget; by subst o.
Qed.

(** ** Status and shut-down *)

(** The status counts what is there. *)
Lemma node_status_spec (supply : Z) (e : Node) (C : Chain) : holds_chain (storage_of (world e)) C ->
  (node_status (Ok supply) e).1
  = Ok (mkStatus (ch_height C) (net_peer_count (fw_net (world e))) (pool_size (fw_pool (world e))) (supply / 1000000)).
Proof.
  intros HC. unfold node_status, sbind, sget, slift, sret, in_world, on_chain, on_manager, on_pool, Mempool.on_state, on_storage.
  unfold storage_of, manager_of in HC. pose proof (get_height_law _ _ HC) as Hh. destruct (cst_get_block_height _) as [o w]. cbn in Hh. by subst o.
Qed.

(** Shutting down succeeds.  Engine and network are stopped; accounts and chain of the storage are those it had: neither the
    accounts not yet committed nor the pool are written. *)
Lemma shut_down_spec (r : Loop.Runtime (World W)) : let e := Loop.rt_engine r in
  exists r', shut_down r = (Ok tt, r') /\ Loop.rt_shutdown r' = true /\ cstate (Loop.rt_engine r') = Idle
    /\ p_state (fw_net (world (Loop.rt_engine r'))) = Stopped
    /\ st_accounts (storage_of (world (Loop.rt_engine r'))) = st_accounts (storage_of (world e))
    /\ (forall C, holds_chain (storage_of (world e)) C -> holds_chain (storage_of (world (Loop.rt_engine r'))) C)
    /\ mp_transactions (fw_pool (world (Loop.rt_engine r'))) = mp_transactions (fw_pool (world e)).
Proof.
  cbn zeta. destruct (close_law (storage_of (world (Loop.rt_engine r)))) as (w' & E & Ha & HC). unfold storage_of, manager_of in *.
  unfold shut_down, Loop.engine_stop, Loop.on_engine, in_world, on_net, stop_network, on_chain, on_manager, on_pool, Mempool.on_state, on_storage, sbind, smod.
  cbn [Loop.rt_engine Loop.rt_shutdown world set_world set_cstate fw_pool fw_net mp_state]. rewrite E. eexists. split; [reflexivity|]. by split_and!.
Qed.

(** ** A commit from end to end *)

Section Commit.
Context (now : Z).
#[local] Instance commit_env : NodeEnv (World W) := node_env now.

(** A new round calls the storage for its last block, the pool for a selection and the network: a property of the world
    these calls keep is kept. *)
Lemma sound_round (J : World W -> Prop) h r :
  sound J (on_chain cst_get_latest_block) (fun _ => True) -> (forall w n, J w -> J (mkWorld (fw_pool w) n)) ->
  sound (fun e : Node => J (world e)) (start_new_round now h r) (fun _ => True).
Proof.
  intros Hlatest Hnet.
  assert (Hw : forall A (c : ST (World W) PacyteError A), sound J c (fun _ => True) -> sound (fun e : Node => J (world e)) (on_world c) (fun _ => True)).
  { intros A c Hc e o e' He. unfold on_world. destruct (c (world e)) as [o' w] eqn:E. intros [= <- <-].
    destruct (Hc _ _ _ He E) as [? _]. by split. }
  assert (Hb : forall m, sound J (Engine.broadcast m) (fun _ => True)).
  { intros m w o w' Hj. cbn. unfold on_net. destruct (P2P.broadcast _ (fw_net w)). intros [= <- <-]. split; [by apply Hnet|done]. }
  unfold start_new_round, create_block, create_proposal, broadcast_proposal.
  repeat first [ apply Hw, Hlatest | apply Hw, Hb | apply Hw; apply (sound_pure J (fun w => pool_select_for_block _ _ (fw_pool w))); done
               | apply (sound_bind _ _ _ (fun _ => True)); [|intros ? _; cbn beta]
               | apply sound_smod; [by intros|done] | apply sound_sget; done | apply sound_pure; done
               | apply sound_slift; done | apply sound_sret; done | apply sound_sfail | case_match ].
Qed.

(** Block [b] committed: the ledger is [L] and stored, the block is the last of the chain. *)
Record committed (b : Block) (C : Chain) (L : Ledger) (w : World W) : Prop := {
  cd_state : state_ok (manager_of w);
  cd_ledger : ledger_of w = L;
  cd_stored : st_accounts (storage_of w) = L;
  cd_height : current_height (manager_of w) = height (header b);
  cd_chain : holds_chain (storage_of w) C;
  cd_pool : pool_ok (fw_pool w)
}.

Lemma committed_on_chain {A} (c : ST W PacyteError A) b C C' L w r w' :
  committed b C L w -> (forall x, st_accounts (c x).2 = st_accounts x) -> (forall x, holds_chain x C -> holds_chain (c x).2 C') ->
  on_chain c w = (r, w') -> r = (c (storage_of w)).1 /\ committed b C' L w' /\ mp_transactions (fw_pool w') = mp_transactions (fw_pool w).
Proof.
  intros [Hs Hl Ha Hh Hc Hp] Hacc Hch. unfold on_chain, on_manager, on_pool, Mempool.on_state, on_storage.
  specialize (Hacc (storage_of w)). specialize (Hch _ Hc). unfold storage_of, manager_of, ledger_of in *.
  destruct (c (sm_storage (mp_state (fw_pool w)))) as [o wd]. cbn in *. intros [= <- <-]. split; [done|].
  destruct (same_accounts_view _ wd Hacc Hs) as [Hv Hs']. split; [|done].
  split; unfold storage_of, manager_of, ledger_of; cbn; try done; [exact (eq_trans Hv Hl)|exact (eq_trans Hacc Ha)|by eapply (same_core_ok (fw_pool w))].
Qed.

Lemma apply_commits b C L w : let m := manager_of w in
  state_ok m -> ledger_ok (view m) -> txs_ok (transactions b) -> pool_ok (fw_pool w) -> holds_chain (sm_storage m) C ->
  add_u64 (E := PacyteError) (current_height m) 1 = Ok (height (header b)) ->
  ledger_transfers now (transactions b) (view m) = (Ok tt, L) ->
  exists w', Engine.apply_block (NodeEnv := node_env now) b w = (Ok tt, w') /\ committed b C L w'
    /\ mp_transactions (fw_pool w') = mp_transactions (fw_pool w).
Proof.
  cbn zeta. intros Hs Hl Htx Hp Hc Hh HL. pose proof (apply_block_at now b _ Hs Hl Htx Hh) as Hat. rewrite HL in Hat.
  destruct Hat as (v & m' & E & Hv & Ha & _ & Hh' & Hs').
  exists (mkWorld (set_mp_state m' (fw_pool w)) (fw_net w)). split; [|split; [|done]].
  - cbn. unfold on_manager, on_pool, Mempool.on_state, sbind. unfold manager_of in E. by rewrite E.
  - split; unfold ledger_of, storage_of, manager_of; cbn; try done; [|by eapply (same_core_ok (fw_pool w))].
    eapply (apply_block_storage (fun x => holds_chain x C)); [| |exact E|exact Hc].
    + intros h0 r0 w0. apply save_root_chain.
    + intros b0 w0. apply write_batch_chain.
Qed.

Lemma cleanup_commits b C L w l r w' :
  committed b C L w -> on_pool (pool_cleanup now l) w = (r, w') ->
  committed b C L w' /\ (debug_panic r \/ r = Ok tt /\ mp_transactions (fw_pool w') =
    filter (fun e => stale L e = false) (keep_outside l (mp_transactions (fw_pool w)))).
Proof.
  intros [Hs Hl Ha Hh Hc Hp]. unfold on_pool, ledger_of, storage_of, manager_of in *. destruct (pool_cleanup now l (fw_pool w)) as [o m'] eqn:E.
  intros [= <- <-]. destruct (cleanup_storage now l _ _ _ E) as [Hst Hht]. apply cleanup_cases in E as (Hp' & [Hv Hs'] & Hr); [|done..].
  rewrite Hl in Hr. split; [|exact Hr]. split; unfold ledger_of, storage_of, manager_of; cbn; try done; congruence.
Qed.

(** What the commit leaves of the pool. *)
Definition left_in_pool (b : Block) (L : Ledger) (w : World W) : gmap Hash PooledTx :=
  filter (fun e => stale L e = false) (keep_outside (map tx_hash (transactions b)) (mp_transactions (fw_pool w))).
Lemma commit_world h p (e e' : Node) C L r :
  let b := p_block p in let m := manager_of (world e) in
  state_ok m -> ledger_ok (view m) -> pool_ok (fw_pool (world e)) -> holds_chain (sm_storage m) C ->
  current_proposal e = Some p -> txs_ok (transactions b) -> fits 64 (height (header b)) -> 0 <= h < U64_MAX ->
  add_u64 (E := PacyteError) (current_height m) 1 = Ok (height (header b)) ->
  ledger_transfers now (transactions b) (view m) = (Ok tt, L) ->
  engine_commit_block now h e = (r, e') ->
  committed b (chain_add b C) L (world e') /\ (debug_panic r \/ committed_blocks e' = committed_blocks e ++ [block_hash b]
      /\ e_height e' = h + 1 /\ mp_transactions (fw_pool (world e')) = left_in_pool b L (world e)).
Proof.
  intros b m Hs Hl Hp Hc Hheld Htx Hb Hh Hnext HL.
  unfold engine_commit_block, sbind at 1. rewrite Hheld. cbn [ok_or]. fold b.
  destruct (apply_commits b C L (world e) Hs Hl Htx Hp Hc Hnext HL) as (w1 & E1 & H1 & T1).
  unfold sbind at 1, on_world at 1, commit_env at 1. rewrite E1. unfold sbind at 1, on_world at 1. cbn [world set_world Engine.save_block commit_env node_env].
  destruct (on_chain (cst_save_block b) w1) as [r2 w2] eqn:E2.
  destruct (save_block_law b (storage_of w1) C Hb (cd_chain _ _ _ _ H1)) as [_ Hr2].
  destruct (committed_on_chain (cst_save_block b) b C (chain_add b C) L w1 r2 w2 H1) as (-> & H2 & T2);
    [apply save_block_accounts|intros x Hx; by apply save_block_law|exact E2|].
  destruct Hr2 as [-> | [-> Ho]]; [|intros [= <- <-]; cbn [world set_world]; split; [done|by left]].
  unfold sbind at 1, on_world at 1. cbn [world set_world Engine.cleanup commit_env node_env].
  destruct (on_pool _ w2) as [r3 w3] eqn:E3. destruct (cleanup_commits _ _ _ _ _ _ _ H2 E3) as [H3 [[-> Ho] | [-> T3]]];
    [intros [= <- <-]; cbn [world set_world]; split; [done|by left]|].
  unfold sbind, smod, slift, add_u64. rewrite arith_fits by (unfold fits, U64_MAX in *; lia). cbn beta iota. intros Hround.
  pose proof (start_new_round_frame _ _ _ _ _ _ Hround) as [_ [Hcb Hht]].
  pose (J := fun w => committed b (chain_add b C) L w /\ mp_transactions (fw_pool w) = left_in_pool b L (world e)).
  assert (Hlatest : sound J (on_chain cst_get_latest_block) (fun _ => True)).
  { intros w o w' [Hw Ht] E. destruct (committed_on_chain cst_get_latest_block b (chain_add b C) (chain_add b C) L w o w' Hw) as (_ & ? & ?);
      [apply latest_block_accounts|intros x Hx; by apply latest_block_law|exact E|]. split; [split; [done|congruence]|done]. }
  assert (Hnet : forall w n, J w -> J (mkWorld (fw_pool w) n)) by (intros w n [[] ?]; by split; [split|]).
  assert (HJ : J w3) by (split; [exact H3|]; rewrite T3, T2, T1; done).
  edestruct (sound_round J (h + 1) 0 Hlatest Hnet) as [[Hw Ht] _]; [|exact Hround|]; [exact HJ|].
  split; [done|right]. cbn in Hcb, Hht. by rewrite Hcb, Hht.
Qed.

(** C3. A commit from end to end, over a storage that keeps its laws, for amounts and heights of their types: when the held
    block is the next of the state manager and all its transfers go through, committing it makes the resulting ledger
    that of the state manager and of the storage, stores the block as the last of the chain, and the calls of the API
    answer with them; and, unless a checked build panics on an overflowing counter of the statistics, the block is
    reported as committed and the engine is one height up.  Of the pool remain exactly the transactions that are not in
    the block and whose nonce is strictly above the nonce of their sender in the new ledger: the cleanup throws out
    the transaction with the very nonce of the account as well, the one the ledger expects next, whether or not
    the block touched its sender. *)
Theorem node_commit (h : Z) (p : Proposal) (e e' : Node) (C : Chain) (L : Ledger) (r : PacyteResult unit) :
  let b := p_block p in let m := manager_of (world e) in
  state_ok m -> ledger_ok (view m) -> pool_ok (fw_pool (world e)) -> holds_chain (sm_storage m) C ->
  current_proposal e = Some p -> txs_ok (transactions b) -> fits 64 (height (header b)) -> 0 <= h < U64_MAX ->
  add_u64 (E := PacyteError) (current_height m) 1 = Ok (height (header b)) ->
  ledger_transfers now (transactions b) (view m) = (Ok tt, L) ->
  engine_commit_block now h e = (r, e') ->
  committed b (chain_add b C) L (world e')
  /\ (forall a, BlockchainApi.get_balance (NS := node_services now) a e' = (Ok (ledger_balance a L), e'))
  /\ (BlockchainApi.get_block_by_height (NS := node_services now) (height (header b)) e').1 = Ok (Some b)
  /\ (debug_panic r \/ committed_blocks e' = committed_blocks e ++ [block_hash b] /\ e_height e' = h + 1
      /\ forall x q, mp_transactions (fw_pool (world e')) !! x = Some q <->
           mp_transactions (fw_pool (world e)) !! x = Some q /\ x ∉ map tx_hash (transactions b)
           /\ ledger_nonce (tx_from (p_tx q)) L < tx_nonce (p_tx q)).
Proof.
  intros b m Hs Hl Hp Hc Hheld Htx Hb Hh Hnext HL Hrun.
  destruct (commit_world h p e e' C L r Hs Hl Hp Hc Hheld Htx Hb Hh Hnext HL Hrun) as [Hm Hend]. split; [done|]. split_and!.
  - intros a. unfold BlockchainApi.get_balance, sbind. cbn [ns_get_account node_services]. rewrite st_get_account_law.
    pose proof (cd_stored _ _ _ _ Hm) as Hst. unfold storage_of, manager_of in Hst. rewrite Hst. unfold sret, ledger_balance. by destruct (L !! a).
  - cbn [BlockchainApi.get_block_by_height ns_get_block node_services]. unfold in_world, on_chain, on_manager, on_pool, Mempool.on_state, on_storage.
    pose proof (get_block_law (height (header b)) _ _ Hb (cd_chain _ _ _ _ Hm)) as Hg. cbn [chain_add ch_blocks] in Hg. rewrite lookup_insert_eq in Hg.
    unfold storage_of, manager_of in Hg. destruct (cst_get_block _ _) as [o w]. exact Hg.
  - destruct Hend as [?|(Hcb & Hht & Ht)]; [by left|right]. split_and!; [done|done|]. intros x q. rewrite Ht. unfold left_in_pool, keep_outside.
    rewrite !map_lookup_filter_Some. unfold stale. cbn. rewrite Z.leb_gt. tauto.
Qed.

(** C18. A block that cannot be applied is not committed, but it leaves its mark: when a transfer of the held block fails, its
    error is returned, chain, pool, storage and height stay as they are, and the transfers before it stay in the accounts
    the node works with.  The next block that goes through then writes them to the storage with its own. *)
Theorem node_failed_commit (h : Z) (p : Proposal) (e : Node) (L : Ledger) (er : PacyteError) :
  let b := p_block p in let m := manager_of (world e) in
  state_ok m -> ledger_ok (view m) -> current_proposal e = Some p -> txs_ok (transactions b) ->
  add_u64 (E := PacyteError) (current_height m) 1 = Ok (height (header b)) ->
  ledger_transfers now (transactions b) (view m) = (Err er, L) ->
  exists e', engine_commit_block now h e = (Err er, e')
    /\ committed_blocks e' = committed_blocks e /\ e_height e' = e_height e /\ storage_of (world e') = storage_of (world e)
    /\ mp_transactions (fw_pool (world e')) = mp_transactions (fw_pool (world e)) /\ current_height (manager_of (world e')) = current_height m
    /\ ledger_of (world e') = L
    /\ forall b2 now2 L2, txs_ok (transactions b2) -> ledger_ok L ->
         add_u64 (E := PacyteError) (current_height m) 1 = Ok (height (header b2)) ->
         ledger_transfers now2 (transactions b2) L = (Ok tt, L2) ->
         st_accounts (storage_of (Engine.apply_block (NodeEnv := node_env now2) b2 (world e')).2) = L2.
Proof.
  intros b m Hs Hl Hheld Htx Hnext HL. pose proof (apply_block_at now b _ Hs Hl Htx Hnext) as Hat. fold m in Hat. rewrite HL in Hat.
  destruct Hat as (m' & E & Hv & Hht & Hs' & Hst).
  exists (set_world (mkWorld (set_mp_state m' (fw_pool (world e))) (fw_net (world e))) e). split.
  { unfold engine_commit_block, sbind at 1. rewrite Hheld. cbn [ok_or]. fold b. unfold sbind at 1, on_world at 1.
    cbn [Engine.apply_block commit_env node_env]. unfold on_manager, on_pool, Mempool.on_state, sbind at 1.
    unfold m, manager_of in E. by rewrite E. }
  split_and!; try done. intros b2 now2 L2 Htx2 HL2 Hnext2 HT.
  assert (Hat : exists v m2, State.apply_block now2 b2 m' = (Ok v, m2) /\ st_accounts (sm_storage m2) = L2).
  { pose proof (apply_block_at now2 b2 m' Hs' ltac:(by rewrite Hv) Htx2 ltac:(by rewrite Hht)) as H2. rewrite Hv, HT in H2.
    destruct H2 as (v & m2 & ? & _ & ? & _). by exists v, m2. }
  destruct Hat as (v & m2 & E2 & Ha2). cbn [Engine.apply_block node_env world set_world].
  unfold on_manager, on_pool, Mempool.on_state, sbind. cbn [fw_pool mp_state set_mp_state]. by rewrite E2.
Qed.
End Commit.
End Run.

(** ** The RocksDB storage keeps the laws *)

Section RocksNode.
Context {D : Type} `{DB : RocksDb D} `{!RocksLaws D} `{!RocksReliable D}.
Context `{Fmt : StorageFormat} `{!StorageFormatLaws} `{!StorageFormatTotal} `{S3 : Sha3} `{BP : BuildProfile}.
Abbreviation R := (RocksDBStorage D).
Abbreviation RState := (RocksState (D := D)).

(** Calls that do not touch accounts. *)
Definition same_accounts (s s' : R) : Prop :=
  db_view (rs_db s') CF_ACCOUNTS = db_view (rs_db s) CF_ACCOUNTS /\ rs_account_cache s' = rs_account_cache s.
#[local] Instance same_accounts_preorder : PreOrder same_accounts.
Proof. split; [done|]. intros x y z [? ?] [? ?]. split; congruence. Qed.
Lemma keeps_accounts_ok {A} (c : ST R PacyteError A) : keeps same_accounts c -> forall s, accounts_ok s -> accounts_ok (c s).2.
Proof.
  intros Hc s (A0 & HA & Hca). destruct (c s) as [r s'] eqn:E. destruct (Hc _ _ _ E) as [Hv Hx]. exists A0. cbn. by rewrite Hv, Hx.
Qed.
Lemma keeps_decoded {A} (c : ST R PacyteError A) s : keeps same_accounts c -> decoded_accounts (c s).2 = decoded_accounts s.
Proof. intros Hc. destruct (c s) as [r s'] eqn:E. destruct (Hc _ _ _ E) as [Hv _]. unfold decoded_accounts. cbn. by rewrite Hv. Qed.

Lemma put_accounts c k v : c <> CF_ACCOUNTS -> keeps same_accounts (RDB.put c k v).
Proof.
  intros Hc s r s' E. unfold RDB.put in E. destruct (write_ops_ok [put_cf c k v] s) as (d & E' & Hv). rewrite E' in E.
  injection E as <- <-. split; [|done]. cbn. rewrite Hv. apply view_writes_other. by repeat constructor.
Qed.
Ltac accounts_solver :=
  repeat first [ apply keeps_bind; [apply _| |intros] | apply put_accounts; done | keeps_leaf | case_match ].
Lemma save_block_same b : keeps same_accounts (RDB.save_block b).
Proof. unfold RDB.save_block, RDB.write_metadata, RDB.increment_stat, RDB.get_cf. accounts_solver. Qed.
Lemma get_block_same h : keeps same_accounts (RDB.get_block h).
Proof. unfold RDB.get_block, RDB.get_cf. accounts_solver. Qed.
Lemma get_block_by_hash_same h : keeps same_accounts (RDB.get_block_by_hash h).
Proof. unfold RDB.get_block_by_hash. accounts_solver. Qed.
Lemma get_block_height_same : keeps same_accounts RDB.get_block_height.
Proof. unfold RDB.get_block_height, RDB.get_cf. accounts_solver. Qed.
Lemma get_latest_block_same : keeps same_accounts RDB.get_latest_block.
Proof.
  unfold RDB.get_latest_block, RDB.account_exists, RDB.get_cf.
  repeat first [ apply get_block_height_same | apply get_block_same | apply keeps_bind; [apply _| |intros] | keeps_leaf | case_match ].
Qed.
Lemma close_keeps s : accounts_ok s -> accounts_ok (RDB.close s).2.
Proof. intros (A & HA & _). exists A. split; [exact HA|]. apply map_empty_subseteq. Qed.
Lemma get_transaction_same h : keeps same_accounts (RDB.get_transaction h).
Proof. unfold RDB.get_transaction, RDB.get_cf. accounts_solver. Qed.

#[export] Instance rocksdb_chain : ChainStorage RState := {|
  cst_save_block := fun b => on_rocks (RDB.save_block b) (keeps_accounts_ok _ (save_block_same b));
  cst_get_block := fun h => on_rocks (RDB.get_block h) (keeps_accounts_ok _ (get_block_same h));
  cst_get_block_by_hash := fun h => on_rocks (RDB.get_block_by_hash h) (keeps_accounts_ok _ (get_block_by_hash_same h));
  cst_get_latest_block := on_rocks RDB.get_latest_block (keeps_accounts_ok _ get_latest_block_same);
  cst_get_block_height := on_rocks RDB.get_block_height (keeps_accounts_ok _ get_block_height_same);
  cst_get_transaction := fun h => on_rocks (RDB.get_transaction h) (keeps_accounts_ok _ (get_transaction_same h));
  cst_close := on_rocks RDB.close close_keeps
|}.

(** The chain of a database, and the cached part of it. *)
Record view_chain (v : ColumnFamily -> gmap bytes bytes) (C : Chain) : Prop := {
  vc_blocks : Family (fits 64) height_key ser_block (v CF_BLOCKS) (ch_blocks C);
  vc_txs : Family (fun _ => True) id ser_tx (v CF_TRANSACTIONS) (ch_txs C);
  vc_height : counter KEY_BLOCK_HEIGHT (v CF_METADATA) = ch_height C;
  vc_fits : fits 64 (ch_height C)
}.
Definition rocks_chain (s : R) (C : Chain) : Prop := view_chain (db_view (rs_db s)) C /\ rs_block_cache s ⊆ ch_blocks C.
Definition chain_family (c : ColumnFamily) : bool :=
  match c with CF_BLOCKS | CF_TRANSACTIONS | CF_METADATA => true | _ => false end.
Lemma view_chain_ext v v' C : (forall c, chain_family c = true -> v' c = v c) -> view_chain v C -> view_chain v' C.
Proof. intros Hv []. by split; rewrite ?Hv. Qed.

Lemma rocks_get_block h s C : fits 64 h -> rocks_chain s C ->
  exists s', RDB.get_block h s = (Ok (ch_blocks C !! h), s') /\ rocks_chain s' C.
Proof. intros Hh [Hv Hc]. destruct (get_block_family h s _ Hh (vc_blocks _ _ Hv) Hc) as (c & -> & Hc'). eexists. by split. Qed.

Lemma account_exists_reads x s : exists b, RDB.account_exists x s = (Ok b, s).
Proof. unfold RDB.account_exists, sbind, sget. case_bool_decide; [by eexists|]. rewrite get_cf_ok. by eexists. Qed.
Lemma rocks_get_height s C : view_chain (db_view (rs_db s)) C -> RDB.get_block_height s = (Ok (ch_height C), s).
Proof. intros Hv. unfold RDB.get_block_height, sbind, sret. rewrite get_cf_ok. by rewrite <- (vc_height _ _ Hv). Qed.
Lemma rocks_get_latest s C : rocks_chain s C ->
  exists o s', RDB.get_latest_block s = (Ok o, s') /\ rocks_chain s' C /\ (0 < ch_height C -> o = ch_blocks C !! ch_height C).
Proof.
  intros HC. pose proof HC as [Hv _]. unfold RDB.get_latest_block, sbind, sret. rewrite (rocks_get_height s C Hv).
  destruct (rocks_get_block (ch_height C) s C (vc_fits _ _ Hv) HC) as (s' & E & Hs').
  destruct (Z.eqb_spec (ch_height C) 0) as [Hz|Hn]; [|do 2 eexists; by split_and!].
  destruct (account_exists_reads zero_address s) as [[] ->]; cbn [negb]; [do 2 eexists; by split_and!|].
  do 2 eexists. split_and!; [reflexivity|done|lia].
Qed.

(** Saving a block: two writes that matter, then the statistics, whose counters may overflow. *)
Lemma put_ok c k v s : exists d, RDB.put c k v s = (Ok tt, RDB.set_db d s) /\ forall c', db_view d c' = view_write (put_cf c k v) (db_view (rs_db s)) c'.
Proof. apply (write_ops_ok [put_cf c k v] s). Qed.
Lemma add_u64_or_panic a b : (exists n, add_u64 (E := PacyteError) a b = Ok n) \/ debug_panic (add_u64 (E := PacyteError) a b).
Proof. unfold debug_panic, add_u64, arith. case_decide; [left; by eexists|]. destruct overflow_checks; [by right|left; by eexists]. Qed.
Lemma increment_stat_chain k n s :
  exists r s', RDB.increment_stat k n s = (r, s') /\ (r = Ok tt \/ debug_panic r) /\ rs_block_cache s' = rs_block_cache s
    /\ forall c, chain_family c = true -> db_view (rs_db s') c = db_view (rs_db s) c.
Proof.
  rewrite increment_stat_eq. destruct (add_u64_or_panic (counter k (db_view (rs_db s) CF_DEFAULT)) n) as [[m ->]|[-> Ho]].
  - destruct (put_ok CF_DEFAULT k (to_le_bytes 8 m) s) as (d & -> & Hv). do 2 eexists. split_and!; [done|by left|done|].
    intros c Hc. cbn [rs_db RDB.set_db]. rewrite Hv. by destruct c.
  - do 2 eexists. split_and!; [done|by right|done|done].
Qed.
Lemma rocks_save_block b s C r s' : fits 64 (height (header b)) -> rocks_chain s C -> RDB.save_block b s = (r, s') ->
  rocks_chain s' (chain_add b C) /\ (r = Ok tt \/ debug_panic r).
Proof.
  intros Hh [[Hb Ht Hht Hf] Hc]. destruct (ser_block_total b) as [v Hv]. unfold RDB.save_block. set (h := height (header b)) in *.
  rewrite Hv. unfold sbind at 1, slift at 1. cbn [RDB.encoded].
  destruct (put_ok CF_BLOCKS (height_key h) v s) as (d1 & E1 & V1). unfold sbind at 1. rewrite E1. unfold sbind at 1, smod at 1.
  set (s1 := RDB.set_block_cache _ _). destruct (put_ok CF_METADATA KEY_BLOCK_HEIGHT (to_le_bytes 8 h) s1) as (d2 & E2 & V2).
  unfold RDB.write_metadata, sbind at 1. rewrite E2.
  assert (Hnew : forall x, rs_block_cache x = rs_block_cache s1 -> (forall c, chain_family c = true -> db_view (rs_db x) c = db_view d2 c) ->
    rocks_chain x (chain_add b C)).
  { intros x Hx Hd. split; [|rewrite Hx; cbn; by apply insert_mono]. eapply view_chain_ext; [exact Hd|].
    split; rewrite ?V2; cbn -[counter height_key to_le_bytes]; rewrite ?V1; cbn -[counter height_key to_le_bytes]; try done.
    - by apply family_insert; auto using height_key_inj.
    - by apply counter_put. }
  destruct (increment_stat_chain STAT_BLOCKS 1 (RDB.set_db d2 s1)) as (r3 & s3 & E3 & Hr & Hc3 & V3).
  unfold sbind at 1. rewrite E3. destruct Hr as [-> | [-> Ho]]; [|intros [= <- <-]; split; [by apply Hnew|by right]].
  unfold sbind, slift, smod. destruct (add_u64_or_panic h 1) as [[n ->]|[-> Ho]]; intros [= <- <-]; (split; [by apply Hnew|]); [by left|by right].
Qed.

(** A batch without blocks and transactions, and a state root, are written to other families. *)
Lemma other_writes ops s C : Forall (fun o => chain_family (write_family o) = false) ops -> rocks_chain s C ->
  exists d, RDB.write_ops ops s = (Ok tt, RDB.set_db d s) /\ rocks_chain (RDB.set_db d s) C.
Proof.
  intros Hops [Hv Hc]. destruct (write_ops_ok ops s) as (d & E & Hd). exists d. split; [done|]. split; [|done]. cbn.
  eapply view_chain_ext; [|exact Hv]. intros c Hfam. rewrite Hd. apply view_writes_other. eapply Forall_impl; [exact Hops|]. cbn.
  congruence.
Qed.
Lemma rocks_save_root h r s C : rocks_chain s C -> rocks_chain (RDB.save_state_root h r s).2 C.
Proof.
  intros HC. destruct (other_writes [put_cf CF_STATE_ROOTS (height_key h) r] s C) as (d & E & Hd); [by repeat constructor|done|].
  unfold RDB.save_state_root, RDB.put. by rewrite E.
Qed.
Lemma rocks_write_batch b s C : wb_blocks b = [] -> wb_transactions b = [] -> rocks_chain s C -> rocks_chain (RDB.write_batch b s).2 C.
Proof.
  intros Hb Ht HC. unfold RDB.write_batch, RDB.batch_writes. rewrite Hb, Ht. cbn [RDB.collect obind].
  destruct (collect_total RDB.account_write CF_ACCOUNTS (wb_accounts b)) as (ops & E & Hops).
  { intros [a [x|]]; unfold RDB.account_write; cbn; [destruct (ser_account_total x) as [y Hy]; rewrite Hy|]; by eexists. }
  rewrite E. cbn [obind app]. unfold sbind, slift.
  destruct (other_writes (ops ++ map RDB.root_write (wb_state_roots b)) s C) as (d & -> & [Hv Hc]); [|done|by split].
  apply Forall_app. split; [eapply Forall_impl; [exact Hops|]; cbn; by intros o ->|]. apply Forall_map, Forall_true. by intros [h r].
Qed.

#[export] Instance rocksdb_chain_laws : ChainLaws RState.
Proof.
  refine {| holds_chain := fun w C => rocks_chain (`w) C |}.
  - intros b w. apply keeps_decoded, save_block_same.
  - intros w. apply keeps_decoded, get_latest_block_same.
  - intros b w C Hb HC. eapply rocks_save_block; [done|exact HC|]. apply surjective_pairing.
  - intros w C HC. destruct (rocks_get_latest (`w) C HC) as (o & s' & E & HC' & Ho). cbn. rewrite E. cbn. eauto.
  - intros h w C Hh HC. destruct (rocks_get_block h (`w) C Hh HC) as (s' & E & _). exact (f_equal fst E).
  - intros h w C [Hv _]. exact (f_equal fst (get_transaction_family h (`w) _ (vc_txs _ _ Hv))).
  - intros b w C. apply rocks_write_batch.
  - intros h r w C. apply rocks_save_root.
  - intros w C [Hv _]. exact (f_equal fst (rocks_get_height (`w) C Hv)).
  - intros w. eexists. split; [reflexivity|]. split; [done|]. intros C [Hv _]. split; [exact Hv|]. apply map_empty_subseteq.
Defined.
(** ** Every request to the node is answered *)

Section RocksApi.
Context `{Sig : Signatures} `{BT : BincodeTx} `{BA : BincodeAccount} `{Bin : Bincode} `{BM : Msg.BincodeMsg}
  `{IterP : !HashMapIter Hash PooledTx} `{IterA : !HashMapIter Address Account} `{IterN : !HashMapIter Z Peer}
  `{Kc : Keccak} `{BR : BincodeTxReader}.
(** The encoding of a transaction is not empty. *)
Context (encodes : forall tx, tx_size tx <> 0).
Abbreviation checked := (overflow_checks = true).

Lemma arith_returns {S} w z : returns (W := S) (E := PacyteError) checked (slift (arith w z)).
Proof. intros s. unfold slift, arith. cbn. case_decide; [done|]. by destruct overflow_checks. Qed.
Lemma smod_returns {S} (P : Prop) (f : S -> S) : returns (E := PacyteError) P (smod f).
Proof. by intros s. Qed.
Lemma unwrap_or_returns {S A} (P : Prop) (d : A) (c : ST S PacyteError A) : returns P c -> returns P (unwrap_or d c).
Proof. intros Hc s. unfold unwrap_or. specialize (Hc s). by destruct (c s) as [[]]. Qed.
Lemma on_state_returns {A} (P : Prop) (c : ST (StateManager RState) PacyteError A) : returns P c -> returns P (Mempool.on_state c).
Proof. intros Hc m. unfold Mempool.on_state. specialize (Hc (mp_state m)). by destruct (c (mp_state m)). Qed.
Lemma on_chain_returns {A} (P : Prop) (c : ST RState PacyteError A) : returns P c -> returns P (in_world (on_chain c)).
Proof.
  intros Hc e. unfold in_world, on_chain, on_manager, on_pool, Mempool.on_state, on_storage. specialize (Hc (sm_storage (mp_state (fw_pool (world e))))).
  by destruct (c _).
Qed.
Lemma on_rocks_returns {A} (P : Prop) (c : ST R PacyteError A) keep : returns P c -> returns P (on_rocks c keep).
Proof. intros Hc s. exact (Hc (`s)). Qed.
Lemma account_read (a : Address) : returns False (State.get_account (W := RState) a).
Proof.
  intros s. unfold State.get_account. destruct (account_cache s !! a); [done|]. destruct (dirty_accounts s !! a); [done|].
  rewrite st_get_account_law. by destruct (st_accounts _ !! a).
Qed.
Lemma get_cf_returns (P : Prop) c k : returns P (RDB.get_cf (D := D) c k).
Proof. intros s. unfold RDB.get_cf. by rewrite db_get_ok. Qed.
Lemma encoded_returns {S A} (P : Prop) (r : string + A) : returns (W := S) P (slift (RDB.encoded r)).
Proof. intros s. by destruct r. Qed.
Create HintDb answers.
#[local] Hint Resolve returns_bind arith_returns smod_returns sget_returns sret_returns unwrap_or_returns on_state_returns get_cf_returns encoded_returns : answers.
#[local] Hint Extern 1 (returns _ (State.get_account _)) => apply returns_False, account_read : answers.
Ltac returning :=
  repeat first [ apply returns_bind; [|intros] | case_match | progress cbn zeta ]; eauto with answers; try by intros ?.

Lemma get_block_returns h : returns False (RDB.get_block (D := D) h).
Proof. unfold RDB.get_block. returning. Qed.
Lemma get_height_returns : returns False (RDB.get_block_height (D := D)).
Proof. unfold RDB.get_block_height. returning. Qed.
Lemma get_latest_returns : returns False (RDB.get_latest_block (D := D)).
Proof. unfold RDB.get_latest_block, RDB.account_exists. returning; first [apply get_height_returns|apply get_block_returns]. Qed.
Lemma get_transaction_returns h : returns False (RDB.get_transaction (D := D) h).
Proof. unfold RDB.get_transaction. returning. Qed.

Lemma balance_returns a : returns False (State.get_balance (W := RState) a).
Proof. unfold State.get_balance. returning. Qed.
Lemma nonce_returns a : returns False (State.get_nonce (W := RState) a).
Proof. unfold State.get_nonce. returning. Qed.
Lemma obind_returns {S A B} (P : Prop) (r : PacyteResult A) (k : A -> PacyteResult B) :
  returns (W := S) P (slift r) -> (forall a, returns (W := S) P (slift (k a))) -> returns (W := S) P (slift (obind r k)).
Proof. intros Hr Hk s. specialize (Hr s). destruct r as [a|e| |]; [exact (Hk a s)|exact Hr..]. Qed.
Lemma validate_basic_returns {S} now age tx : returns (W := S) (E := PacyteError) checked (slift (validate_basic now age tx)).
Proof.
  unfold validate_basic. destruct (_ || _); [done|]. destruct (_ || _); [done|]. apply obind_returns; [apply arith_returns|]. intros limit.
  destruct (limit <? _); [done|]. apply obind_returns; [apply arith_returns|]. intros x. by destruct (age <? x).
Qed.
Lemma check_fee_returns {S} cfg tx : returns (W := S) checked (slift (check_fee cfg tx)).
Proof. intros s. unfold slift, check_fee. by rewrite (proj2 (Z.eqb_neq _ _) (encodes tx)). Qed.
Lemma verdict_returns now cfg tx : returns checked (Mempool.validate_transaction (W := RState) now cfg tx).
Proof.
  unfold Mempool.validate_transaction, check_balance, check_nonce, add_u64.
  returning; first [ apply validate_basic_returns | apply check_fee_returns | apply unwrap_or_returns, returns_False; first [apply balance_returns|apply nonce_returns] ].
Qed.
Lemma stats_loop_returns now :
  returns checked (fun m : MempoolImpl RState => (stats_loop now (values (mp_transactions m)) (0, f64_zero, 0), m)).
Proof.
  intros m. cbn [fst]. generalize (0, f64_zero, 0) as acc. induction (values (mp_transactions m)) as [|q l IH]; intros [[a b] c]; cbn; [done|].
  pose proof (arith_returns (S := unit) 64 (a + p_size q) tt) as Ha. unfold slift in Ha. cbn in Ha. unfold add_u64.
  destruct (arith 64 (a + p_size q)); cbn; [apply IH|exact Ha..].
Qed.
Lemma pool_add_returns now tx : returns checked (pool_add_transaction (W := RState) now tx).
Proof.
  unfold pool_add_transaction, insert_pooled, remove_transaction, add_to_priority_index, remove_from_priority_index, add_u64.
  returning; first [apply stats_loop_returns|apply on_state_returns, verdict_returns].
Qed.

#[local] Instance rocks_node_returns now : NodeReturns (H := node_services now) (Engine (World RState)) checked.
Proof.
  split; cbn.
  - intros h. apply on_chain_returns, on_rocks_returns, get_block_returns.
  - intros h. by apply on_chain_returns.
  - apply on_chain_returns, on_rocks_returns, get_latest_returns.
  - apply on_chain_returns, on_rocks_returns, get_height_returns.
  - intros h. apply on_chain_returns, on_rocks_returns, get_transaction_returns.
  - intros a e. pose proof (st_get_account_law a (sm_storage (mp_state (fw_pool (world e))))) as Ha. cbn in Ha |- *. by rewrite Ha.
  - intros tx e. unfold in_world, on_pool. pose proof (pool_add_returns now tx (fw_pool (world e))) as Ha. by destruct (pool_add_transaction now tx _).
  - intros e. unfold am_i_proposer, engine_get_proposer, set_get_proposer. cbn. destruct (my_validator_id e); [|done].
    destruct (set_validators (validator_set e)); [done|]. pose proof (arith_returns (S := unit) 64 (e_height e + e_round e) tt) as Ha. unfold slift in Ha. cbn in Ha.
    unfold add_u64. by destruct (arith 64 (e_height e + e_round e)); cbn.
Qed.

(** C28. Every JSON-RPC request to the composed node over its RocksDB storage, in whatever state the node is, gets one
    response, with its own id and either a result or an error but not both; the code of an error is one of the seven
    documented ones, and a request for another protocol version is refused without touching the node.  In a build with
    overflow checks, and only there, two methods can be lost to a panic: sending a transaction (timestamps ahead
    of the clock, counters) and asking for the consensus state (height plus round).  The database does not fail, and
    the encoding of a transaction is not empty. *)
Theorem rpc_answers_every_request (now : Z) (version : string) (r : RpcRequest) (e : Engine (World RState)) :
  match handle_rpc_request (NS := node_services now) version r e with
  | (Some resp, e') =>
      rs_jsonrpc resp = "2.0"%string /\ rs_id resp = rq_id r
      /\ (is_Some (rs_result resp) <-> rs_error resp = None) /\ (forall err, rs_error resp = Some err -> ae_code err ∈ rpc_codes)
      /\ (rq_jsonrpc r <> "2.0"%string -> e' = e /\ rs_result resp = None)
  | (None, _) => overflow_checks = true /\ rq_method r ∈ ["eth_sendRawTransaction"; "pacyte_getConsensusState"]%string
  end.
Proof. exact (rpc_answers (NS := node_services now) checked version r e). Qed.
End RocksApi.
End RocksNode.

(** ** A node of one validator over RocksDB *)

Section NodeWitnesses.
#[local] Existing Instance release_profile.
#[local] Existing Instance toy_sha3.
#[local] Existing Instance key_order.
#[local] Existing Instances map_db map_db_laws map_db_reliable numbers numbers_laws numbers_total.
#[local] Existing Instances pool_no_bincode pool_bincode_tx pool_signatures balance_bincode.
#[local] Instance no_wire : Msg.BincodeMsg.
Proof. refine {| Msg.msg_serialize := fun _ => None; Msg.msg_deserialize := fun _ => None |}. done. Defined.
Abbreviation MapDb := (ColumnFamily -> gmap bytes bytes).
Abbreviation DemoState := (RocksState (D := MapDb)).

(** Alice owns 100, the zero address is known and block 0 is stored. *)
Definition demo_calls : list StoreOp :=
  [SaveAccount alice (account_new 0 alice 100); SaveAccount zero_address (account_new 0 zero_address 0); SaveBlock (rocks_block 0)].
Definition demo_db : RocksDBStorage MapDb := (run_calls demo_calls (new_rocks (fun _ => ∅))).2.
Definition demo_accounts : Ledger := <[zero_address := account_new 0 zero_address 0]> {[ alice := account_new 0 alice 100 ]}.
Definition demo_chain : Chain := mkChain {[ 0 := rocks_block 0 ]} 0 ∅.

Lemma demo_implements : exists a, Implements demo_db a /\ a_accounts a = demo_accounts
  /\ a_blocks a = ch_blocks demo_chain /\ a_height a = 0 /\ a_txs a = ∅.
Proof.
  destruct (run_calls_refine demo_calls (new_rocks (fun _ => ∅)) (set_a_stats (rs_stats (new_rocks (fun _ => ∅))) empty_store)) as (a & Hrun & HI).
  - repeat constructor; cbn; unfold fits; lia.
  - split; [|apply map_empty_subseteq..|done]. by apply Holds_stats, holds_empty.
  - exists a. split; [exact HI|]. clear HI. unfold demo_calls in Hrun. inversion Hrun as [|? ? ? ? ? ? ? S1 R1]; subst.
    inversion R1 as [|? ? ? ? ? ? ? S2 R2]; subst. inversion R2 as [|? ? ? ? ? ? ? S3 R3]; subst. inversion R3; subst.
    apply (f_equal snd) in S1, S2, S3. cbn in S1, S2, S3. subst. by split_and!.
Qed.
Lemma demo_accounts_of : Family (fun _ => True) id ser_account (db_view (rs_db demo_db) CF_ACCOUNTS) demo_accounts /\ rs_account_cache demo_db ⊆ demo_accounts.
Proof. destruct demo_implements as (a & [Ha _ Hx _] & <- & _). by split; [apply hd_accounts|]. Qed.
Lemma demo_accounts_ok : accounts_ok demo_db.
Proof. eexists. apply demo_accounts_of. Qed.
Lemma demo_holds : rocks_chain demo_db demo_chain.
Proof.
  destruct demo_implements as (a & [[] Hb _ _] & _ & Hbl & Hht & Htx). rewrite Hbl, ?Hht, ?Htx in *. by split; [split|].
Qed.

Definition demo_manager : StateManager DemoState :=
  mkState (demo_db ↾ demo_accounts_ok) zero_hash 0 ∅ ∅ (mkSparse zero_hash []) ∅.
Definition demo_world : World DemoState := mkWorld (mempool_new default_pool_config demo_manager) (p2p_new default_net_config zero_hash).
Definition demo_node : Engine (World DemoState) :=
  set_height_round 1 0 (set_validator 1 (fun _ => []) (engine_update_validator_set (mkSet [mkInfo 1 zero_address [] 1 1 true] 1 0)
    (engine_new default_config demo_world))).

Lemma demo_decoded : decoded_accounts demo_db = demo_accounts.
Proof. exact (decoded_accounts_eq _ _ (proj1 demo_accounts_of)). Qed.
Lemma demo_ledger : ledger_of demo_world = demo_accounts.
Proof. change (∅ ∪ decoded_accounts demo_db = demo_accounts). rewrite (left_id_L ∅ (∪)). exact demo_decoded. Qed.
Lemma demo_node_ok : node_ok (money (ledger_of (world demo_node))) ∅ demo_node.
Proof.
  split; [|done]. change (world demo_node) with demo_world. split.
  - split; [done|]. intros a x Hx. change (@lookup _ _ (gmap Address Account) _ a ∅ = Some x) in Hx. rewrite lookup_empty in Hx. discriminate Hx.
  - rewrite demo_ledger. apply map_Forall_insert_2; [by vm_compute|]. intros a x [_ <-]%lookup_singleton_Some. by vm_compute.
  - done.
  - apply pool_new_ok, empty_pool_config.
  - intros h p Hp. cbn in Hp. by rewrite lookup_empty in Hp.
  - exists demo_chain. split; [apply demo_holds|done].
Qed.
Lemma demo_node_money : money (ledger_of (world demo_node)) < 2 ^ 128.
Proof. change (world demo_node) with demo_world. rewrite demo_ledger. by vm_compute. Qed.

(** Alice hands in a payment and a transfer to herself, the node proposes, and takes up its own proposal. *)
#[local] Existing Instance toy_keccak.
#[local] Instance reads_pool_tx : BincodeTxReader := fun _ => Some pool_tx.
Definition raw_request : RpcRequest := mkRpcRequest "2.0" "eth_sendRawTransaction" (Some (Json.Array [Json.Str "0x00"])) (Json.Bool true).
Lemma tx_encoded tx : tx_size tx <> 0.
Proof. by vm_compute. Qed.
Lemma rpc_answers_every_request_witness :
  exists resp e', handle_rpc_request (NS := node_services 100) "1.0" raw_request demo_node = (Some resp, e') /\ rs_id resp = Json.Bool true
    /\ forall err, rs_error resp = Some err -> ae_code err ∈ rpc_codes.
Proof.
  pose proof (rpc_answers_every_request tx_encoded 100 "1.0" raw_request demo_node) as Hr.
  destruct (handle_rpc_request _ _ _) as [[resp|] e']; [|destruct Hr as [Hr _]; discriminate Hr].
  exists resp, e'. destruct Hr as (_ & Hid & _ & He & _). by split_and!.
Defined.

Definition self_tx : Transaction := tx_sign (replicate 64 7) (transaction_new 99 alice alice 50 20 1).
Definition proposing : list (Z * NodeEvent) := [(100, NSubmit pool_tx); (100, NSubmit self_tx); (101, NPrune); (101, NCommand (CmdPropose 1 0))].
Definition own_proposal : Proposal :=
  default (proposal_new 0 0 0 (rocks_block 0) 0) (current_proposal (node_run proposing demo_node)).
Definition demo_events : list (Z * NodeEvent) := proposing ++ [(102, NCommand (CmdProposalReceived own_proposal))].

Lemma own_height : height (header (p_block own_proposal)) = 1.
Proof. vm_compute. reflexivity. Qed.
Lemma own_txs : transactions (p_block own_proposal) = [pool_tx].
Proof. vm_compute. reflexivity. Qed.
Lemma own_fits : fits 64 (height (header (p_block own_proposal))).
Proof. rewrite own_height. unfold fits. lia. Qed.
Lemma demo_commits : committed_blocks (node_run demo_events demo_node) = [block_hash (p_block own_proposal)].
Proof. vm_compute. reflexivity. Qed.
Lemma demo_events_typed : Forall (fun p => typed_event p.2) demo_events.
Proof.
  pose proof own_fits as Hh. pose proof own_txs as Ht. revert Hh Ht. unfold demo_events. generalize own_proposal. intros p Hh Ht.
  apply Forall_app. split.
  - repeat constructor; cbn; unfold fits; lia.
  - apply Forall_singleton. cbn. rewrite Ht. by repeat constructor; try apply Hh.
Qed.

Lemma node_never_mints_witness :
  committed_blocks (node_run demo_events demo_node) = [block_hash (p_block own_proposal)]
  /\ transactions (p_block own_proposal) = [pool_tx]
  /\ money (ledger_of (world (node_run demo_events demo_node))) <= 100.
Proof.
  split; [exact demo_commits|]. split; [exact own_txs|].
  assert (Hm : money (ledger_of (world demo_node)) = 100) by (vm_compute; reflexivity). rewrite <- Hm.
  exact (proj1 (node_never_mints ∅ demo_events demo_node demo_node_ok demo_node_money demo_events_typed)).
Defined.

(** The committed payment is not found. *)
Lemma rpc_never_finds_transaction_witness :
  committed_blocks (node_run demo_events demo_node) = [block_hash (p_block own_proposal)]
  /\ pool_tx ∈ transactions (p_block own_proposal)
  /\ (rpc_get_transaction (NS := node_services 103) (Some (Json.Array [Json.Str (hex_text (tx_hash pool_tx))]))
        (node_run demo_events demo_node)).1 = Err (api_error_new TRANSACTION_NOT_FOUND "Transaction not found").
Proof.
  split; [exact demo_commits|]. split; [rewrite own_txs; by constructor|].
  exact (proj1 (rpc_never_finds_transaction _ 103 demo_events demo_node pool_tx demo_node_ok demo_node_money demo_events_typed)).
Defined.

(** The node with its proposal commits it. *)
Definition proposed : Engine (World DemoState) := node_run proposing demo_node.
Definition commit_demo := engine_commit_block (Env := commit_env 102) 102 1 proposed.
Lemma commit_demo_eq : engine_commit_block (Env := commit_env 102) 102 1 proposed = (commit_demo.1, commit_demo.2).
Proof. unfold commit_demo. apply surjective_pairing. Qed.
Lemma proposed_ok : node_ok (money (ledger_of (world demo_node))) ∅ proposed.
Proof. apply node_run_ok; [apply demo_node_money| |apply demo_node_ok]. repeat constructor; cbn; unfold fits; lia. Qed.
Definition proposed_ledger : PacyteResult unit * Ledger := ledger_transfers 102 (transactions (p_block own_proposal)) (view (manager_of (world proposed))).
Lemma own_held : current_proposal proposed = Some own_proposal.
Proof. vm_compute. reflexivity. Qed.
Lemma own_txs_ok : txs_ok (transactions (p_block own_proposal)).
Proof. rewrite own_txs. apply Forall_singleton. split; by vm_compute. Qed.
Lemma own_next : add_u64 (E := PacyteError) (current_height (manager_of (world proposed))) 1 = Ok (height (header (p_block own_proposal))).
Proof. vm_compute. reflexivity. Qed.
Lemma own_transfers : proposed_ledger.1 = Ok tt /\ ledger_balance bob proposed_ledger.2 = 10.
Proof. split; vm_compute; reflexivity. Qed.
Lemma own_ledger : ledger_transfers 102 (transactions (p_block own_proposal)) (view (manager_of (world proposed))) = (Ok tt, proposed_ledger.2).
Proof. rewrite <- (proj1 own_transfers). unfold proposed_ledger. apply surjective_pairing. Qed.
Lemma commit_demo_ok : commit_demo.1 = Ok tt.
Proof. vm_compute. reflexivity. Qed.
Lemma first_height : 0 <= 1 < U64_MAX.
Proof. by vm_compute. Qed.
Lemma node_commit_witness :
  commit_demo.1 = Ok tt /\ e_height commit_demo.2 = 2
  /\ (BlockchainApi.get_balance (NS := node_services 102) bob commit_demo.2).1 = Ok 10
  /\ (BlockchainApi.get_block_by_height (NS := node_services 102) 1 commit_demo.2).1 = Ok (Some (p_block own_proposal)).
Proof.
  split; [exact commit_demo_ok|]. destruct (world_ok_parts _ _ _ (no_world _ _ _ proposed_ok)) as (Hs & Hl & Hp & C & HC).
  destruct (node_commit 102 1 own_proposal proposed commit_demo.2 C proposed_ledger.2 commit_demo.1 Hs Hl Hp HC own_held own_txs_ok own_fits
    first_height own_next own_ledger commit_demo_eq) as (_ & Hbal & Hblk & [[Hpanic _]|(_ & Hht & _)]).
  - rewrite commit_demo_ok in Hpanic. discriminate Hpanic.
  - split; [exact Hht|]. rewrite own_height in Hblk. split; [|exact Hblk]. rewrite Hbal. exact (f_equal Ok (proj2 own_transfers)).
Defined.

(** The second payment of a block is more than Alice has: the first stays, and an empty block stores it. *)
Definition half_block : Block :=
  mkBlock (mkHeader 1 zero_hash zero_hash zero_hash 100 zero_address 2 0 [])
    [transaction_new 99 alice bob 10 1 0; transaction_new 99 alice bob 1000 1 1].
Definition half_proposal : Proposal := proposal_new 100 1 0 half_block 1.
Definition half_node : Engine (World DemoState) := set_proposal (Some half_proposal) demo_node.
Definition half_ledger : PacyteResult unit * Ledger := ledger_transfers 102 (transactions (p_block half_proposal)) (view (manager_of (world half_node))).
Lemma half_world : world_ok (money (ledger_of (world demo_node))) ∅ (world half_node).
Proof. exact (no_world _ _ _ demo_node_ok). Qed.
Lemma half_txs_ok : txs_ok (transactions (p_block half_proposal)).
Proof. repeat apply Forall_cons_2; [..|by apply Forall_nil]; split; by vm_compute. Qed.
Lemma half_next : add_u64 (E := PacyteError) (current_height (manager_of (world half_node))) 1 = Ok (height (header (p_block half_proposal))).
Proof. vm_compute. reflexivity. Qed.
Lemma half_fails : exists er, ledger_transfers 102 (transactions (p_block half_proposal)) (view (manager_of (world half_node))) = (Err er, half_ledger.2).
Proof. eexists. vm_compute. reflexivity. Qed.
Lemma half_ledger_ok : ledger_ok half_ledger.2.
Proof.
  destruct (world_ok_parts _ _ _ half_world) as (_ & Hl & _). refine (proj1 (ledger_transfers_never_mint 102 _ _ Hl demo_node_money _)).
  repeat apply Forall_cons_2; [..|by apply Forall_nil]; (split_and!; [by vm_compute|by vm_compute|by vm_compute|split; by vm_compute]).
Qed.
Lemma node_failed_commit_witness : exists er e', engine_commit_block (Env := commit_env 102) 102 1 half_node = (Err er, e')
  /\ committed_blocks e' = [] /\ storage_of (world e') = storage_of (world half_node)
  /\ balance <$> (st_accounts (storage_of (world half_node)) !! bob) = None
  /\ balance <$> (st_accounts (storage_of (Engine.apply_block (NodeEnv := node_env 103) (rocks_block 1) (world e')).2) !! bob) = Some 10.
Proof.
  destruct (world_ok_parts _ _ _ half_world) as (Hs & Hl & _). destruct half_fails as [er Hlt].
  destruct (node_failed_commit 102 1 half_proposal half_node half_ledger.2 er Hs Hl eq_refl half_txs_ok half_next Hlt)
    as (e' & E & Hcb & _ & Hst & _ & _ & _ & Hnext).
  exists er, e'. split; [exact E|]. split; [exact Hcb|]. split; [exact Hst|]. split; [vm_compute; reflexivity|].
  rewrite (Hnext (rocks_block 1) 103 half_ledger.2 (Forall_nil_2 _) half_ledger_ok); [vm_compute; reflexivity|vm_compute; reflexivity|reflexivity].
Defined.
End NodeWitnesses.
End NodeRun.
